(** * AutoFBtool: credential lifecycle and resilient upstream invocation

    A shallow embedding of the token manager (both versions found in the
    repository), the Graph API wrappers with their session-expiry retry,
    and the comment sweeps, over an explicit model of the Apps Script
    platform: script properties, spreadsheet tabs, [UrlFetchApp] and the
    clock.  Effects are threaded through a state-and-exception monad; the
    upstream is a deterministic function of the request and of the calls
    made before it, so that it may answer the same URL differently over
    time. *)

From stdpp Require Import gmap strings list pretty.
From Stdlib Require Import ZArith Lia Ascii String.

Open Scope string_scope.
Open Scope Z_scope.

(** ** JavaScript strings and numbers *)

(** [s.includes(needle)]. *)
Fixpoint includes (s needle : string) : bool :=
  String.prefix needle s ||
  match s with
  | String _ s' => includes s' needle
  | EmptyString => false
  end.

(** The characters of [s] after the first [n]. *)
Fixpoint after_chars (n : nat) (s : string) : string :=
  match n, s with
  | S k, String _ s' => after_chars k s'
  | _, _ => s
  end.

(** What a match is replaced with: in the replacement text [$$] stands
    for a dollar sign, [$&] for the matched text, [$`] for the text before
    the match and ['] after a dollar sign for the text after it; any other
    character, a dollar sign included, stands for itself (a pattern that is
    a string has no groups to refer to). *)
Fixpoint substitution (rep matched before after : string) : string :=
  match rep with
  | EmptyString => EmptyString
  | String c rest =>
      if Ascii.eqb c "$" then
        match rest with
        | String d rest' =>
            if Ascii.eqb d "$" then String "$" (substitution rest' matched before after)
            else if Ascii.eqb d "&" then matched +:+ substitution rest' matched before after
            else if Ascii.eqb d "`" then before +:+ substitution rest' matched before after
            else if Ascii.eqb d "'" then after +:+ substitution rest' matched before after
            else String c (substitution rest matched before after)
        | EmptyString => String c EmptyString
        end
      else String c (substitution rest matched before after)
  end.

(** [s.replaceAll(pat, rep)] for a non-empty pattern that is a string.
    [before] is what has been read of the whole string, [skip] counts the
    characters of a match still to be dropped. *)
Fixpoint replaceAll (pat rep before : string) (skip : nat) (s : string) : string :=
  match s with
  | EmptyString => EmptyString
  | String c s' =>
      match skip with
      | S k => replaceAll pat rep (before +:+ String c "") k s'
      | O =>
          if String.prefix pat s
          then substitution rep pat before (after_chars (String.length pat) s)
               +:+ replaceAll pat rep (before +:+ String c "") (String.length pat - 1) s'
          else String c (replaceAll pat rep (before +:+ String c "") 0 s')
      end
  end.

Definition is_space (a : ascii) : bool :=
  let n := nat_of_ascii a in
  ((9 <=? n)%nat && (n <=? 13)%nat) || (n =? 32)%nat.

Definition is_digit (a : ascii) : bool :=
  let n := nat_of_ascii a in (48 <=? n)%nat && (n <=? 57)%nat.

Definition digit_val (a : ascii) : Z := Z.of_nat (nat_of_ascii a) - 48.

(** The white space outside ASCII, by its UTF-8 bytes: U+00A0 in two
    bytes; U+1680, U+2000 to U+200A, U+2028, U+2029, U+202F, U+205F, U+3000
    and U+FEFF in three. *)
Definition is_space2 (a b : ascii) : bool :=
  (nat_of_ascii a =? 194)%nat && (nat_of_ascii b =? 160)%nat.

Definition is_space3 (a b c : ascii) : bool :=
  let x := nat_of_ascii a in
  let y := nat_of_ascii b in
  let z := nat_of_ascii c in
  ((x =? 225) && (y =? 154) && (z =? 128)
   || (x =? 226) && (y =? 128)
      && ((128 <=? z) && (z <=? 138) || (z =? 168) || (z =? 169) || (z =? 175))
   || (x =? 226) && (y =? 129) && (z =? 159)
   || (x =? 227) && (y =? 128) && (z =? 128)
   || (x =? 239) && (y =? 187) && (z =? 191))%nat.

(** The string without its leading white space and line terminators. *)
Fixpoint skip_space (s : string) : string :=
  match s with
  | String a s1 =>
      if is_space a then skip_space s1
      else
        match s1 with
        | String b s2 =>
            if is_space2 a b then skip_space s2
            else
              match s2 with
              | String c s3 => if is_space3 a b c then skip_space s3 else s
              | EmptyString => s
              end
        | EmptyString => s
        end
  | EmptyString => EmptyString
  end.

(** A character of one byte that is no white space is where the
    skipping stops. *)
Lemma skip_space_stops a s :
  (nat_of_ascii a < 128)%nat -> is_space a = false -> skip_space (String a s) = String a s.
Proof.
  intros Ha Hs. cbn [skip_space]. rewrite Hs.
  assert (H2 : forall b, is_space2 a b = false).
  { intros b. unfold is_space2. apply andb_false_iff. left. apply Nat.eqb_neq. lia. }
  assert (H3 : forall b c, is_space3 a b c = false).
  { intros b c. unfold is_space3. cbv zeta.
    rewrite !(proj2 (Nat.eqb_neq (nat_of_ascii a) _)) by lia. reflexivity. }
  destruct s as [|b [|c s]]; rewrite ?H2, ?H3; reflexivity.
Qed.

(** The longest prefix of decimal digits, read as a number; [acc] is
    [None] until a digit has been seen. *)
Fixpoint read_digits (s : string) (acc : option Z) : option Z :=
  match s with
  | String a s' =>
      if is_digit a
      then read_digits s' (Some (10 * default 0 acc + digit_val a))
      else acc
  | EmptyString => acc
  end.

(** [parseInt(s, 10)]; [None] is NaN. *)
Definition parseInt (s : string) : option Z :=
  match skip_space s with
  | String "-" s' => Z.opp <$> read_digits s' None
  | String "+" s' => read_digits s' None
  | s' => read_digits s' None
  end.

(** [String(n)] and [n.toString()] of an integer below 1e21 in
    magnitude, which JavaScript prints with all its digits. *)
Definition toString (n : Z) : string := pretty n.

(** Truthiness of a value that is a string, [null] or [undefined]. *)
Definition truthy (o : option string) : bool :=
  match o with
  | Some s => negb (s =? "")%string
  | None => false
  end.

(** [x || ''] and [x || 0]. *)
Definition orEmpty (o : option string) : string :=
  if truthy o then default "" o else "".
Definition orZero (o : option Z) : Z := default 0 o.

(** [x > 0] for a number that may be absent: [undefined > 0] is false. *)
Definition gt0 (o : option Z) : bool :=
  match o with
  | Some v => 0 <? v
  | None => false
  end.

(** [code < 200 || code >= 300]. *)
Definition failed (code : Z) : bool := (code <? 200) || (300 <=? code).

(** ** Config.js: property keys *)

Module PROP_KEYS.
Definition PAGE_ACCESS_TOKEN := "FB_PAGE_ACCESS_TOKEN".
Definition USER_ACCESS_TOKEN := "FB_USER_ACCESS_TOKEN".
Definition PAGE_ID := "FB_PAGE_ID".
Definition PAGE_NAME := "FB_PAGE_NAME".
Definition TOKEN_EXPIRES_AT := "FB_TOKEN_EXPIRES_AT".
Definition APP_ID := "FB_APP_ID".
Definition APP_SECRET := "FB_APP_SECRET".
End PROP_KEYS.

(** ** The upstream API *)

(** One constructor per URL the code builds, holding the values the URL
    or payload is built from. *)
Inductive Request : Type :=
| GetDebugToken (input_token access_token : string)
| GetAccessTokenInfo (access_token : string)
| GetExchange (client_id client_secret fb_exchange_token : string)
| GetAccounts (access_token : string)
| GetComments (postId : string) (limit : Z) (access_token : string)
| GetCommentsSince (postId : string) (since limit : Z) (access_token : string)
| PostReply (commentId message access_token : string)
| PostFeed (message access_token : string)
| GetPermalink (postId access_token : string)
| GetMe (access_token : string)
| GetPosts (since limit : Z) (access_token : string)
| GetReels (pageId : string) (since limit : Z) (access_token : string).

(** A logged call: the request and the status it was answered with
    ([None] when the transport failed and [fetch] threw). *)
Record Call : Type := { req : Request; status : option Z }.

(** What [UrlFetchApp.fetch(url, {muteHttpExceptions: true})] yields: a
    transport failure, or a response with its code, its text and the value
    [JSON.parse] gives for that text ([None] when it throws). *)
Inductive Fetched (B : Type) : Type :=
| NetFail
| Http (code : Z) (text : string) (json : option B).
Arguments NetFail {B}.
Arguments Http {B} code text json.

Record Response (B : Type) : Type :=
  { getResponseCode : Z; getContentText : string; parsed : option B }.
Arguments getResponseCode {B}.
Arguments getContentText {B}.
Arguments parsed {B}.

(** Response bodies, with the fields the code reads; an absent or [null]
    field is [None].  Fields that are present have their documented type. *)
Record DebugData : Type :=
  { dd_app_id : option string;
    dd_type : option string;
    dd_application : option string;
    dd_is_valid : option bool;
    dd_user_id : option string;
    dd_expires_at : option Z;
    dd_data_access_expires_at : option Z;
    dd_scopes : option (list string) }.

Record DebugBody : Type := { db_data : option DebugData }.

Record InfoBody : Type :=
  { ib_app_id : option string;
    ib_app_secret : option string;
    ib_type : option string;
    ib_expires_in : option Z }.

Record ExchangeBody : Type :=
  { xb_access_token : option string;
    xb_expires_in : option Z;
    xb_token_type : option string }.

Record Page : Type :=
  { page_access_token : string; page_id : string; page_name : string }.

(** [data] is [None] when the field is missing or is no array. *)
Record AccountsBody : Type := { ab_data : option (list Page) }.

Record Comment : Type :=
  { c_id : string;
    c_from_name : option string;
    c_message : option string;
    c_created_time : option string }.

Record CommentsBody : Type := { cb_data : option (list Comment) }.

Record IdBody : Type := { idb_id : option string; idb_name : option string }.

Record PermalinkBody : Type := { plb_permalink_url : option string }.

Record Post : Type :=
  { post_id : option string;
    post_permalink_url : option string;
    post_created_time : option string }.

Record PostsBody : Type := { pb_data : option (list Post) }.

(** The upstream: each endpoint answers from the calls made so far
    (newest first) and the request's values. *)
Record Upstream : Type :=
  { up_debug_token : list Call -> string -> string -> Fetched DebugBody;
    up_access_token_info : list Call -> string -> Fetched InfoBody;
    up_exchange : list Call -> string -> string -> string -> Fetched ExchangeBody;
    up_accounts : list Call -> string -> Fetched AccountsBody;
    up_comments : list Call -> string -> Z -> string -> Fetched CommentsBody;
    up_comments_since :
      list Call -> string -> Z -> Z -> string -> Fetched CommentsBody;
    up_reply : list Call -> string -> string -> string -> Fetched IdBody;
    up_feed : list Call -> string -> string -> Fetched IdBody;
    up_permalink : list Call -> string -> string -> Fetched PermalinkBody;
    up_me : list Call -> string -> Fetched IdBody;
    up_posts : list Call -> Z -> Z -> string -> Fetched PostsBody;
    up_reels : list Call -> string -> Z -> Z -> string -> Fetched PostsBody }.

(** ** The platform state *)

Record SettingRow : Type :=
  { sr_key : string; sr_value : string; sr_notes : string }.

Record LogRow : Type :=
  { lr_at : Z;
    lr_postId : string;
    lr_commentId : string;
    lr_name : string;
    lr_message : string;
    lr_keyword : string;
    lr_reply : string;
    lr_status : string;
    lr_error : string }.

(** Script properties, the batches [setProperties] wrote (newest first),
    the calls [UrlFetchApp] made (newest first) and the spreadsheet's tabs.
    A tab is [None] when [getSheetByName] returns [null]; its rows are all
    of its rows, the header being the first. *)
Record World : Type :=
  { props : gmap string string;
    writes : list (list (string * string));
    calls : list Call;
    settingsSheet : option (list SettingRow);
    processedSheet : option (list (string * string));
    logSheet : option (list LogRow);
    postsSheet : option (list (string * string * string)) }.

Definition set_props (f : gmap string string -> gmap string string) (w : World) : World :=
  {| props := f (props w); writes := writes w; calls := calls w;
     settingsSheet := settingsSheet w; processedSheet := processedSheet w;
     logSheet := logSheet w; postsSheet := postsSheet w |}.

Definition log_write (kvs : list (string * string)) (w : World) : World :=
  {| props := props w; writes := kvs :: writes w; calls := calls w;
     settingsSheet := settingsSheet w; processedSheet := processedSheet w;
     logSheet := logSheet w; postsSheet := postsSheet w |}.

Definition log_call (c : Call) (w : World) : World :=
  {| props := props w; writes := writes w; calls := c :: calls w;
     settingsSheet := settingsSheet w; processedSheet := processedSheet w;
     logSheet := logSheet w; postsSheet := postsSheet w |}.

Definition set_settingsSheet (s : option (list SettingRow)) (w : World) : World :=
  {| props := props w; writes := writes w; calls := calls w;
     settingsSheet := s; processedSheet := processedSheet w;
     logSheet := logSheet w; postsSheet := postsSheet w |}.

Definition set_processedSheet (s : option (list (string * string))) (w : World) : World :=
  {| props := props w; writes := writes w; calls := calls w;
     settingsSheet := settingsSheet w; processedSheet := s;
     logSheet := logSheet w; postsSheet := postsSheet w |}.

Definition set_logSheet (s : option (list LogRow)) (w : World) : World :=
  {| props := props w; writes := writes w; calls := calls w;
     settingsSheet := settingsSheet w; processedSheet := processedSheet w;
     logSheet := s; postsSheet := postsSheet w |}.

Definition set_postsSheet (s : option (list (string * string * string))) (w : World) : World :=
  {| props := props w; writes := writes w; calls := calls w;
     settingsSheet := settingsSheet w; processedSheet := processedSheet w;
     logSheet := logSheet w; postsSheet := s |}.

(** ** The effect monad *)

Inductive Error : Type :=
| JsError (msg : string)   (* [new Error(msg)] *)
| NetworkError             (* thrown by [UrlFetchApp.fetch] *)
| SyntaxError              (* thrown by [JSON.parse] *)
| TypeError.               (* a method called on [null] *)

(** [error.message]; the platform's own wording is not modelled. *)
Definition message (e : Error) : string :=
  match e with
  | JsError m => m
  | NetworkError => "NetworkError"
  | SyntaxError => "SyntaxError"
  | TypeError => "TypeError"
  end.

(** A run returns, throws, or exhausts the recursion budget given to a
    self-retrying wrapper; the last is no JavaScript exception and no
    [catch] sees it. *)
Inductive Outcome (A : Type) : Type :=
| Ret (a : A)
| Throw (e : Error)
| OutOfFuel.
Arguments Ret {A} a.
Arguments Throw {A} e.
Arguments OutOfFuel {A}.

Definition M (A : Type) : Type := World -> Outcome A * World.

Definition ret {A} (a : A) : M A := fun w => (Ret a, w).

Definition throw {A} (e : Error) : M A := fun w => (Throw e, w).

Definition diverge {A} : M A := fun w => (OutOfFuel, w).

Definition bind {A B} (m : M A) (k : A -> M B) : M B :=
  fun w =>
    match m w with
    | (Ret a, w') => k a w'
    | (Throw e, w') => (Throw e, w')
    | (OutOfFuel, w') => (OutOfFuel, w')
    end.

(** [try { m } catch (e) { h(e) }]. *)
Definition try_catch {A} (m : M A) (h : Error -> M A) : M A :=
  fun w =>
    match m w with
    | (Throw e, w') => h e w'
    | r => r
    end.

Declare Scope js_scope.
Delimit Scope js_scope with js.
Notation "x <- m ;; k" := (bind m (fun x => k))
  (at level 100, m at next level, right associativity) : js_scope.
Notation "m ;; k" := (bind m (fun _ => k))
  (at level 100, right associativity) : js_scope.
Open Scope js_scope.

(** [for (const x of l) body(x)]; [continue] is the body returning. *)
Fixpoint for_each {A} (l : list A) (body : A -> M unit) : M unit :=
  match l with
  | [] => ret tt
  | x :: l' => body x ;; for_each l' body
  end.

(** *** Script properties *)

Definition getProperty (k : string) : M (option string) :=
  fun w => (Ret (props w !! k), w).

Definition write_batch (kvs : list (string * string)) (m : gmap string string)
  : gmap string string :=
  foldl (fun acc kv => <[kv.1 := kv.2]> acc) m kvs.

(** [setProperties(obj)]: every key of the object is written, the others
    are kept. *)
Definition setProperties (kvs : list (string * string)) : M unit :=
  fun w => (Ret tt, log_write kvs (set_props (write_batch kvs) w)).

(** *** UrlFetchApp and JSON *)

Definition fetch {B} (r : Request) (answer : list Call -> Fetched B) : M (Response B) :=
  fun w =>
    match answer (calls w) with
    | NetFail => (Throw NetworkError, log_call {| req := r; status := None |} w)
    | Http c t j =>
        (Ret {| getResponseCode := c; getContentText := t; parsed := j |},
         log_call {| req := r; status := Some c |} w)
    end.

(** [JSON.parse(response.getContentText())]. *)
Definition parseJSON {B} (res : Response B) : M B :=
  match parsed res with
  | Some b => ret b
  | None => throw SyntaxError
  end.

(** ** The platform a run executes on *)

(** The upstream, the clock ([Date.now()], in milliseconds; it does not
    advance during one run) and the string and date functions of the
    JavaScript runtime that are taken as given. *)
Record Platform : Type :=
  { net : Upstream;
    now : Z;
    trim : string -> string;
    toLowerCase : string -> string;
    toLocaleString : Z -> string;   (* [new Date(ms).toLocaleString('ja-JP')] *)
    parseDate : string -> option Z  (* [new Date(s).getTime()], [None] is NaN *) }.

(** [Math.floor(Date.now() / 1000)]. *)
Definition nowSec (env : Platform) : Z := now env / 1000.

(** [arr.findIndex(p)]. *)
Fixpoint findIndex {A} (p : A -> bool) (l : list A) : option nat :=
  match l with
  | [] => None
  | x :: l' => if p x then Some O else S <$> findIndex p l'
  end.

(** ** Config.js (settings tab) *)

Module Config.
Section WithPlatform.
Context (env : Platform).

(** [upsertSetting(key, value, notes)] with [notes] given. *)
Definition upsertSetting (key value notes : string) : M unit :=
    fun w =>
      match settingsSheet w with
      | None => (Throw TypeError, w)
      | Some rows =>
          let keys := map (fun r => trim env (sr_key r)) (drop 1 rows) in
          match findIndex (fun k => (k =? key)%string) keys with
          | Some idx =>
              let upd r := {| sr_key := sr_key r; sr_value := value; sr_notes := notes |} in
              (Ret tt, set_settingsSheet (Some (alter upd (S idx) rows)) w)
          | None =>
              let row := {| sr_key := key; sr_value := value; sr_notes := notes |} in
              (Ret tt, set_settingsSheet (Some (rows ++ [row])%list) w)
          end
      end.
End WithPlatform.
End Config.

(** ** SheetManager.js (processed and log tabs) *)

Module SheetManager.
Section WithPlatform.
Context (env : Platform).

(** [loadRepliedCommentIdsSet()]: the ids logged with status
      ['replied'], read from the second row on. *)
Definition loadRepliedCommentIdsSet : M (gset string) :=
    fun w =>
      match logSheet w with
      | None => (Ret ∅, w)
      | Some rows =>
          let add (set : gset string) (row : LogRow) :=
            let commentId := trim env (lr_commentId row) in
            let status := trim env (lr_status row) in
            if negb (commentId =? "")%string && (status =? "replied")%string
            then {[ commentId ]} ∪ set else set in
          (Ret (foldl add ∅ (drop 1 rows)), w)
      end.

(** [appendProcessed(commentId, createdTime)]. *)
Definition appendProcessed (commentId : string) (createdTime : option string) : M unit :=
    fun w =>
      match processedSheet w with
      | None => (Throw TypeError, w)
      | Some rows =>
          (Ret tt, set_processedSheet (Some (rows ++ [(commentId, orEmpty createdTime)])%list) w)
      end.

(** [logComment(postId, commentId, name, message, matchedKeyword,
      replyText, status, error)]. *)
Definition logComment (postId commentId name message matchedKeyword replyText
                           status error : string) : M unit :=
    fun w =>
      match logSheet w with
      | None => (Throw TypeError, w)
      | Some rows =>
          let row :=
            {| lr_at := now env; lr_postId := postId; lr_commentId := commentId;
               lr_name := name; lr_message := message; lr_keyword := matchedKeyword;
               lr_reply := replyText; lr_status := status; lr_error := error |} in
          (Ret tt, set_logSheet (Some (rows ++ [row])%list) w)
      end.
End WithPlatform.
End SheetManager.

(** ** Results shared by the two token managers *)

(** [{accessToken, expiresIn, tokenType}]. *)
Record LongLived : Type :=
  { accessToken : string; expiresIn : Z; tokenType : string }.

(** The introspection result [getTokenInfoFromDebugToken] builds (and,
    degraded, the legacy fallback of [getTokenInfoFromToken]).  Times are in
    seconds; [ti_isValid] is [None] when [is_valid] is no boolean. *)
Record TokenInfo : Type :=
  { ti_appId : option string;
    ti_type : option string;
    ti_application : option string;
    ti_isValid : option bool;
    ti_userId : option string;
    ti_expiresAt : option Z;
    ti_dataAccessExpiresAt : option Z;
    ti_scopes : list string;
    ti_expiresIn : Z;
    ti_isLongLived : bool;
    ti_expires_in : Z;
    ti_app_id : option string }.

(** The object a setup function returns: [{success: true, ...}] or
    [{success: false, error}].  The three optional fields are those only
    the debug-token version of [setupTokensFromLongToken] sets. *)
Record SetupDone : Type :=
  { pageName : string;
    pageId : string;
    pageAccessToken : option string;
    userAccessToken : option string;
    expiresAt : Z;
    setupTokenType : string;
    appIdFound : bool;
    detailedInfo : option TokenInfo }.

Inductive SetupResult : Type :=
| SetupOk (r : SetupDone)
| SetupFailed (error : string).

(** 60 days, in seconds. *)
Definition sixtyDays : Z := 60 * 24 * 60 * 60.

(** ** TokenManager.js *)

Module TokenManager.
Import PROP_KEYS.
Section WithPlatform.
Context (env : Platform).

Record AppInfo : Type := { appId : string; appSecret : option string }.

Definition getAppInfoFromToken (shortLivedToken : string) : M AppInfo :=
    response <- fetch (GetAccessTokenInfo shortLivedToken)
                      (fun h => up_access_token_info (net env) h shortLivedToken) ;;
    let code := getResponseCode response in
    (if failed code then
       let errorText := getContentText response in
       if code =? 400 then
         throw (JsError "トークンが無効です。正しい短期トークンを入力してください。")
       else if code =? 401 then
         throw (JsError "トークンの認証に失敗しました。トークンが期限切れの可能性があります。")
       else
         throw (JsError ("アプリ情報の取得に失敗しました: " +:+ toString code +:+ " " +:+ errorText))
     else ret tt) ;;
    data <- parseJSON response ;;
    if negb (truthy (ib_app_id data)) then
      throw (JsError "アプリIDを取得できませんでした。トークンが正しくないか、権限が不足しています。")
    else
      ret {| appId := default "" (ib_app_id data);
             appSecret := if truthy (ib_app_secret data) then ib_app_secret data else None |}.

Definition getTokenInfoFromToken (token : string) : M InfoBody :=
    response <- fetch (GetAccessTokenInfo token)
                      (fun h => up_access_token_info (net env) h token) ;;
    let code := getResponseCode response in
    if failed code then
      throw (JsError ("トークン情報の取得に失敗しました: " +:+ toString code +:+ " "
                      +:+ getContentText response))
    else parseJSON response.

Definition exchangeToLongLivedToken (shortLivedToken : string) : M LongLived :=
    try_catch
      (appInfo <- getAppInfoFromToken shortLivedToken ;;
       if negb (truthy (appSecret appInfo)) then
         tokenInfo <- getTokenInfoFromToken shortLivedToken ;;
         ret {| accessToken := shortLivedToken;
                expiresIn := orZero (ib_expires_in tokenInfo);
                tokenType := "bearer" |}
       else
         response <- fetch (GetExchange (appId appInfo) (default "" (appSecret appInfo))
                                        shortLivedToken)
                           (fun h => up_exchange (net env) h (appId appInfo)
                                       (default "" (appSecret appInfo)) shortLivedToken) ;;
         let code := getResponseCode response in
         if failed code then
           tokenInfo <- getTokenInfoFromToken shortLivedToken ;;
           ret {| accessToken := shortLivedToken;
                  expiresIn := orZero (ib_expires_in tokenInfo);
                  tokenType := "bearer" |}
         else
           data <- parseJSON response ;;
           if negb (truthy (xb_access_token data)) then
             throw (JsError "長期トークンの取得に失敗しました")
           else
             ret {| accessToken := default "" (xb_access_token data);
                    expiresIn := orZero (xb_expires_in data);
                    tokenType := if truthy (xb_token_type data)
                                 then default "" (xb_token_type data) else "bearer" |})
      (fun error =>
         tokenInfo <- getTokenInfoFromToken shortLivedToken ;;
         ret {| accessToken := shortLivedToken;
                expiresIn := orZero (ib_expires_in tokenInfo);
                tokenType := "bearer" |}).

Definition getPageTokens (userToken : string) : M (list Page) :=
    response <- fetch (GetAccounts userToken) (fun h => up_accounts (net env) h userToken) ;;
    let code := getResponseCode response in
    if failed code then
      throw (JsError ("ページトークン取得に失敗しました: " +:+ toString code +:+ " "
                      +:+ getContentText response))
    else
      data <- parseJSON response ;;
      match ab_data data with
      | None => throw (JsError "ページ情報の取得に失敗しました")
      | Some pages => ret pages
      end.

Definition isTokenValid : M bool :=
    expiresAt <- getProperty TOKEN_EXPIRES_AT ;;
    if negb (truthy expiresAt) then ret false
    else
      let expires := parseInt (default "" expiresAt) in
      let bufferTime := 24 * 60 * 60 * 1000 in
      ret (match expires with
           | Some e => bufferTime <? e - now env
           | None => false
           end).

Definition exchangeToLongLivedTokenWithCredentials
             (shortLivedToken appId appSecret : string) : M LongLived :=
    response <- fetch (GetExchange appId appSecret shortLivedToken)
                      (fun h => up_exchange (net env) h appId appSecret shortLivedToken) ;;
    let code := getResponseCode response in
    let responseText := getContentText response in
    (if failed code then
       if code =? 400 then
         throw (JsError "アプリIDまたはアプリシークレットが正しくありません。")
       else if code =? 401 then
         throw (JsError "短期トークンが無効または期限切れです。")
       else
         throw (JsError ("長期トークン交換に失敗しました: " +:+ toString code +:+ " "
                         +:+ responseText))
     else ret tt) ;;
    data <- parseJSON response ;;
    if negb (truthy (xb_access_token data)) then
      throw (JsError "長期トークンの取得に失敗しました")
    else
      ret {| accessToken := default "" (xb_access_token data);
             expiresIn := orZero (xb_expires_in data);
             tokenType := if truthy (xb_token_type data)
                          then default "" (xb_token_type data) else "bearer" |}.

Definition refreshToken : M bool :=
    try_catch
      (userToken <- getProperty USER_ACCESS_TOKEN ;;
       appId <- getProperty APP_ID ;;
       appSecret <- getProperty APP_SECRET ;;
       (if negb (truthy userToken) || negb (truthy appId) || negb (truthy appSecret)
        then throw (JsError "必要な設定が不足しています") else ret tt) ;;
       tokenInfo <- exchangeToLongLivedTokenWithCredentials
                      (default "" userToken) (default "" appId) (default "" appSecret) ;;
       pages <- getPageTokens (accessToken tokenInfo) ;;
       match pages with
       | [] => throw (JsError "管理可能なページが見つかりません")
       | page :: _ =>
           let expiresAt := now env + expiresIn tokenInfo * 1000 in
           setProperties
             [ (USER_ACCESS_TOKEN, accessToken tokenInfo);
               (PAGE_ACCESS_TOKEN, page_access_token page);
               (PAGE_ID, page_id page);
               (PAGE_NAME, page_name page);
               (TOKEN_EXPIRES_AT, toString expiresAt) ] ;;
           ret true
       end)
      (fun error => ret false).

Definition saveAppSettings (appId appSecret : string) : M unit :=
    setProperties [ (APP_ID, appId); (APP_SECRET, appSecret) ].

Definition setupTokensFromLongToken (longLivedToken : string) : M SetupResult :=
    try_catch
      ((if (longLivedToken =? "")%string
        then throw (JsError "長期ユーザートークンが未入力です。") else ret tt) ;;
       tokenInfo <- getTokenInfoFromToken longLivedToken ;;
       pages <- getPageTokens longLivedToken ;;
       match pages with
       | [] => throw (JsError "管理可能なページが見つかりません。ページの管理者権限があることを確認してください。")
       | page :: _ =>
           let expiresIn0 := orZero (ib_expires_in tokenInfo) in
           let expiresIn' := if 0 <? expiresIn0 then expiresIn0 else sixtyDays in
           let expiresAtMs := now env + expiresIn' * 1000 in
           setProperties
             [ (USER_ACCESS_TOKEN, longLivedToken);
               (PAGE_ACCESS_TOKEN, page_access_token page);
               (PAGE_ID, page_id page);
               (PAGE_NAME, page_name page);
               (TOKEN_EXPIRES_AT, toString expiresAtMs) ] ;;
           ret (SetupOk {| pageName := page_name page;
                           pageId := page_id page;
                           pageAccessToken := Some (page_access_token page);
                           userAccessToken := Some longLivedToken;
                           detailedInfo := None;
                           expiresAt := expiresAtMs;
                           setupTokenType :=
                             if 24 * 60 * 60 <=? expiresIn' then "長期" else "短期";
                           appIdFound := true |})
       end)
      (fun error => ret (SetupFailed (message error))).

(** The [try { appInfo = getAppInfoFromToken(...); saveAppSettings(...) }
      catch { appInfo = {appId: 'unknown', appSecret: null} }] block of
      [setupTokensFromShortLived]. *)
Definition appInfoOrUnknown (shortLivedToken : string) : M AppInfo :=
    try_catch
      (appInfo <- getAppInfoFromToken shortLivedToken ;;
       saveAppSettings (appId appInfo) (orEmpty (appSecret appInfo)) ;;
       ret appInfo)
      (fun appError => ret {| appId := "unknown"; appSecret := None |}).

Definition setupTokensFromShortLived (shortLivedToken : string) : M SetupResult :=
    try_catch
      (tokenInfo <- getTokenInfoFromToken shortLivedToken ;;
       appInfo <- appInfoOrUnknown shortLivedToken ;;
       longLivedTokenInfo <- exchangeToLongLivedToken shortLivedToken ;;
       pages <- getPageTokens (accessToken longLivedTokenInfo) ;;
       match pages with
       | [] => throw (JsError "管理可能なページが見つかりません。ページの管理者権限があることを確認してください。")
       | page :: _ =>
           let expiresIn0 := expiresIn longLivedTokenInfo in
           let expiresIn' :=
             if (0 <? expiresIn0) && (3600 <? expiresIn0) then expiresIn0
             else if 0 <? expiresIn0 then sixtyDays
             else sixtyDays in
           let expiresAt := now env + expiresIn' * 1000 in
           setProperties
             [ (USER_ACCESS_TOKEN, accessToken longLivedTokenInfo);
               (PAGE_ACCESS_TOKEN, page_access_token page);
               (PAGE_ID, page_id page);
               (PAGE_NAME, page_name page);
               (TOKEN_EXPIRES_AT, toString expiresAt) ] ;;
           ret (SetupOk {| pageName := page_name page;
                           pageId := page_id page;
                           pageAccessToken := None;
                           userAccessToken := None;
                           detailedInfo := None;
                           expiresAt := expiresAt;
                           setupTokenType :=
                             if 0 <? expiresIn longLivedTokenInfo then "長期" else "短期";
                           appIdFound := negb (appId appInfo =? "unknown")%string |})
       end)
      (fun error => ret (SetupFailed (message error))).

Definition checkAndRefreshToken : M unit :=
    valid <- isTokenValid ;;
    if negb valid then (success <- refreshToken ;; ret tt) else ret tt.
End WithPlatform.
End TokenManager.

(** ** The token manager, debug-token version (src/unnamed/part_003) *)

Module TokenManagerDebug.
Import PROP_KEYS.
Section WithPlatform.
Context (env : Platform).

(** Truthiness of a number that may be [null]. *)
Definition truthyNum (o : option Z) : bool :=
    match o with
    | Some v => negb (v =? 0)
    | None => false
    end.

Definition getTokenInfoFromDebugToken (inputToken : string) (accessToken : option string)
    : M TokenInfo :=
    try_catch
      (let debugAccessToken :=
         if truthy accessToken then default "" accessToken else inputToken in
       response <- fetch (GetDebugToken inputToken debugAccessToken)
                         (fun h => up_debug_token (net env) h inputToken debugAccessToken) ;;
       let code := getResponseCode response in
       let responseText := getContentText response in
       (if failed code then
          if code =? 400 then
            throw (JsError "トークンが無効です。正しいアクセストークンを入力してください。")
          else if code =? 401 then
            throw (JsError "トークンの認証に失敗しました。トークンが期限切れまたは権限が不足しています。")
          else
            throw (JsError ("トークン情報の取得に失敗しました: " +:+ toString code +:+ " "
                            +:+ responseText))
        else ret tt) ;;
       result <- parseJSON response ;;
       match db_data result with
       | None => throw (JsError "トークン情報の解析に失敗しました")
       | Some data =>
           let expires_at := orZero (dd_expires_at data) in
           ret {| ti_appId := dd_app_id data;
                  ti_type := dd_type data;
                  ti_application := dd_application data;
                  ti_isValid := dd_is_valid data;
                  ti_userId := dd_user_id data;
                  ti_expiresAt := dd_expires_at data;
                  ti_dataAccessExpiresAt := dd_data_access_expires_at data;
                  ti_scopes := default [] (dd_scopes data);
                  ti_expiresIn :=
                    if gt0 (dd_expires_at data)
                    then Z.max 0 (expires_at - nowSec env) else 0;
                  ti_isLongLived :=
                    bool_decide (dd_expires_at data = Some 0)
                    || (gt0 (dd_expires_at data)
                        && (24 * 60 * 60 <? expires_at - nowSec env));
                  ti_expires_in :=
                    if gt0 (dd_expires_at data)
                    then Z.max 0 (expires_at - nowSec env) else 0;
                  ti_app_id := dd_app_id data |}
       end)
      (fun error => throw error).

Definition createAppToken (appId appSecret : string) : string :=
    appId +:+ "|" +:+ appSecret.

Definition getTokenInfoFromToken (token : string) (appId appSecret : option string)
    : M TokenInfo :=
    try_catch
      (let accessToken :=
         if truthy appId && truthy appSecret
         then createAppToken (default "" appId) (default "" appSecret)
         else token in
       getTokenInfoFromDebugToken token (Some accessToken))
      (fun error =>
         legacy <- try_catch
           (response <- fetch (GetAccessTokenInfo token)
                              (fun h => up_access_token_info (net env) h token) ;;
            let code := getResponseCode response in
            if (200 <=? code) && (code <? 300) then
              data <- parseJSON response ;;
              ret (Some {| ti_appId := ib_app_id data;
                           ti_type := Some (if truthy (ib_type data)
                                            then default "" (ib_type data) else "USER");
                           ti_application := None;
                           ti_isValid := Some true;
                           ti_userId := None;
                           ti_expiresAt := Some 0;
                           ti_dataAccessExpiresAt := None;
                           ti_scopes := [];
                           ti_expiresIn := orZero (ib_expires_in data);
                           ti_isLongLived := 24 * 60 * 60 <? orZero (ib_expires_in data);
                           ti_expires_in := orZero (ib_expires_in data);
                           ti_app_id := ib_app_id data |})
            else ret None)
           (fun fallbackError => ret None) ;;
         match legacy with
         | Some info => ret info
         | None => throw error
         end).

Definition isTokenValid (token : option string) : M bool :=
    try_catch
      (if truthy token then
         tokenInfo <- getTokenInfoFromToken (default "" token) None None ;;
         match ti_isValid tokenInfo with
         | Some b => ret b
         | None =>
             if gt0 (ti_expiresAt tokenInfo) then
               let bufferTime := 24 * 60 * 60 in
               ret (bufferTime <? orZero (ti_expiresAt tokenInfo) - nowSec env)
             else ret true
         end
       else
         expiresAt <- getProperty TOKEN_EXPIRES_AT ;;
         if negb (truthy expiresAt) then ret false
         else
           let expires := parseInt (default "" expiresAt) in
           let bufferTime := 24 * 60 * 60 * 1000 in
           ret (match expires with
                | Some e => bufferTime <? e - now env
                | None => false
                end))
      (fun error => ret false).

Definition getPageTokens (userToken : string) : M (list Page) :=
    response <- fetch (GetAccounts userToken) (fun h => up_accounts (net env) h userToken) ;;
    let code := getResponseCode response in
    if failed code then
      throw (JsError ("ページトークン取得に失敗しました: " +:+ toString code +:+ " "
                      +:+ getContentText response))
    else
      data <- parseJSON response ;;
      match ab_data data with
      | None => throw (JsError "ページ情報の取得に失敗しました")
      | Some pages => ret pages
      end.

Definition exchangeToLongLivedTokenWithCredentials
             (userToken appId appSecret : string) : M LongLived :=
    response <- fetch (GetExchange appId appSecret userToken)
                      (fun h => up_exchange (net env) h appId appSecret userToken) ;;
    let code := getResponseCode response in
    let responseText := getContentText response in
    (if failed code then
       if code =? 400 then
         throw (JsError "アプリIDまたはアプリシークレットが正しくありません。")
       else if code =? 401 then
         throw (JsError "ユーザートークンが無効または期限切れです。")
       else
         throw (JsError ("長期トークン交換に失敗しました: " +:+ toString code +:+ " "
                         +:+ responseText))
     else ret tt) ;;
    data <- parseJSON response ;;
    if negb (truthy (xb_access_token data)) then
      throw (JsError "長期トークンの取得に失敗しました")
    else
      ret {| accessToken := default "" (xb_access_token data);
             expiresIn := orZero (xb_expires_in data);
             tokenType := if truthy (xb_token_type data)
                          then default "" (xb_token_type data) else "bearer" |}.

(** The expiry read off an introspection, in milliseconds:
      [data_access_expires_at] first, then [expires_at]; [null] when
      neither is positive or the introspection threw. *)
Definition debugExpiry (token : string) (appId appSecret : option string) : M (option Z) :=
    try_catch
      (info <- getTokenInfoFromToken token appId appSecret ;;
       if gt0 (ti_dataAccessExpiresAt info) then
         ret (Some (orZero (ti_dataAccessExpiresAt info) * 1000))
       else if gt0 (ti_expiresAt info) then
         ret (Some (orZero (ti_expiresAt info) * 1000))
       else ret None)
      (fun e => ret None).

Definition when (b : bool) (m : M unit) : M unit := if b then m else ret tt.

Definition refreshToken : M bool :=
    try_catch
      (userToken <- getProperty USER_ACCESS_TOKEN ;;
       appId <- getProperty APP_ID ;;
       appSecret <- getProperty APP_SECRET ;;
       when (negb (truthy userToken))
            (throw (JsError "ユーザートークンが設定されていません")) ;;
       if negb (truthy appId) || negb (truthy appSecret) then
         pages <- getPageTokens (default "" userToken) ;;
         match pages with
         | [] => throw (JsError "管理可能なページが見つかりません")
         | page :: _ =>
             expiresAtMs <- debugExpiry (default "" userToken) appId appSecret ;;
             stored <- getProperty TOKEN_EXPIRES_AT ;;
             setProperties
               [ (PAGE_ACCESS_TOKEN, page_access_token page);
                 (PAGE_ID, page_id page);
                 (PAGE_NAME, page_name page);
                 (TOKEN_EXPIRES_AT,
                   if truthyNum expiresAtMs then toString (orZero expiresAtMs)
                   else orEmpty stored) ] ;;
             try_catch
               (when (negb (page_id page =? "")%string)
                     (Config.upsertSetting env "ページID" (page_id page)
                        "FacebookページID（自動設定）") ;;
                when (negb (page_name page =? "")%string)
                     (Config.upsertSetting env "ページ名" (page_name page)
                        "Facebookページ名（自動設定）") ;;
                Config.upsertSetting env "ページトークン" (page_access_token page)
                  "Facebookページアクセストークン（自動設定）" ;;
                when (truthyNum expiresAtMs)
                     (Config.upsertSetting env "トークン有効期限"
                        (toLocaleString env (orZero expiresAtMs))
                        "トークンの有効期限（自動設定）") ;;
                Config.upsertSetting env "最終更新日時" (toLocaleString env (now env))
                  "最後にトークンを更新した日時（自動設定）")
               (fun e => ret tt) ;;
             ret true
         end
       else
         tokenInfo <- exchangeToLongLivedTokenWithCredentials
                        (default "" userToken) (default "" appId) (default "" appSecret) ;;
         pages <- getPageTokens (accessToken tokenInfo) ;;
         match pages with
         | [] => throw (JsError "管理可能なページが見つかりません")
         | page :: _ =>
             expiresAtMs0 <- debugExpiry (accessToken tokenInfo) appId appSecret ;;
             let expiresAtMs :=
               if negb (truthyNum expiresAtMs0) && negb (expiresIn tokenInfo =? 0)
               then Some (now env + expiresIn tokenInfo * 1000)
               else expiresAtMs0 in
             setProperties
               [ (USER_ACCESS_TOKEN, accessToken tokenInfo);
                 (PAGE_ACCESS_TOKEN, page_access_token page);
                 (PAGE_ID, page_id page);
                 (PAGE_NAME, page_name page);
                 (TOKEN_EXPIRES_AT,
                   if truthyNum expiresAtMs then toString (orZero expiresAtMs) else "") ] ;;
             try_catch
               (Config.upsertSetting env "長期トークン" (accessToken tokenInfo)
                  "Facebook長期アクセストークン（自動設定）" ;;
                Config.upsertSetting env "ページトークン" (page_access_token page)
                  "Facebookページアクセストークン（自動設定）" ;;
                when (negb (page_id page =? "")%string)
                     (Config.upsertSetting env "ページID" (page_id page)
                        "FacebookページID（自動設定）") ;;
                when (negb (page_name page =? "")%string)
                     (Config.upsertSetting env "ページ名" (page_name page)
                        "Facebookページ名（自動設定）") ;;
                when (truthyNum expiresAtMs)
                     (Config.upsertSetting env "トークン有効期限"
                        (toLocaleString env (orZero expiresAtMs))
                        "トークンの有効期限（自動設定）") ;;
                Config.upsertSetting env "最終更新日時" (toLocaleString env (now env))
                  "最後にトークンを更新した日時（自動設定）")
               (fun e => ret tt) ;;
             ret true
         end)
      (fun error => ret false).

Definition saveAppSettings (appId appSecret : string) : M unit :=
    setProperties [ (APP_ID, appId); (APP_SECRET, appSecret) ].

Definition setupTokensFromLongToken (longLivedToken : string) : M SetupResult :=
    try_catch
      (when (longLivedToken =? "")%string
            (throw (JsError "長期ユーザートークンが未入力です。")) ;;
       tokenInfo <- getTokenInfoFromToken longLivedToken None None ;;
       pages <- getPageTokens longLivedToken ;;
       match pages with
       | [] => throw (JsError "管理可能なページが見つかりません。ページの管理者権限があることを確認してください。")
       | page :: _ =>
           let expiresIn0 := ti_expiresIn tokenInfo in
           let expiresAtMs :=
             if gt0 (ti_expiresAt tokenInfo) then orZero (ti_expiresAt tokenInfo) * 1000
             else if 0 <? expiresIn0 then now env + expiresIn0 * 1000
             else now env + sixtyDays * 1000 in
           setProperties
             [ (USER_ACCESS_TOKEN, longLivedToken);
               (PAGE_ACCESS_TOKEN, page_access_token page);
               (PAGE_ID, page_id page);
               (PAGE_NAME, page_name page);
               (TOKEN_EXPIRES_AT, toString expiresAtMs);
               (APP_ID, orEmpty (ti_appId tokenInfo));
               (APP_SECRET, "") ] ;;
           ret (SetupOk {| pageName := page_name page;
                           pageId := page_id page;
                           pageAccessToken := Some (page_access_token page);
                           userAccessToken := Some longLivedToken;
                           expiresAt := expiresAtMs;
                           setupTokenType :=
                             if ti_isLongLived tokenInfo then "長期" else "短期";
                           appIdFound := true;
                           detailedInfo := Some tokenInfo |})
       end)
      (fun error => ret (SetupFailed (message error))).

Definition checkAndRefreshToken : M unit :=
    try_catch
      (userToken <- getProperty USER_ACCESS_TOKEN ;;
       isValidByApi <- (if truthy userToken then isTokenValid userToken else ret false) ;;
       isValidByStorage <- isTokenValid None ;;
       if negb isValidByApi || negb isValidByStorage then
         success <- refreshToken ;; ret tt
       else ret tt)
      (fun error => ret tt).
End WithPlatform.
End TokenManagerDebug.

(** ** Graph API operations (src/unnamed/part_000) *)

Module FacebookApi.
Import PROP_KEYS.
Section WithPlatform.
Context (env : Platform).

(** The [refreshToken] the script binds: each wrapper calls the global
      of that name. *)
Context (refreshToken : M bool).

(** A token read back from the properties, as it is spliced into the
      next request ([null] prints as ["null"]). *)
Definition tokenString (o : option string) : string := default "null" o.

Section Wrapper.
Context {B A : Type}.
Context (request : string -> Request)
            (answer : string -> list Call -> Fetched B)
            (label : string)
            (onSuccess : string -> Response B -> M A).

(** The block every operation of the file repeats around its call:
        fetch; on a status outside 200-299, if the status is 400 and the
        body contains ["Session has expired"], refresh and call the
        operation itself again with the page token read back; otherwise
        throw [label: code body].  [fuel] bounds the depth of that
        self-call. *)
Fixpoint resilient (fuel : nat) (token : string) : M A :=
      match fuel with
      | O => diverge
      | S fuel' =>
          res <- fetch (request token) (answer token) ;;
          let code := getResponseCode res in
          let responseText := getContentText res in
          if failed code then
            if (code =? 400) && includes responseText "Session has expired" then
              try_catch
                (refreshSuccess <- refreshToken ;;
                 if refreshSuccess : bool then
                   newToken <- getProperty PAGE_ACCESS_TOKEN ;;
                   resilient fuel' (tokenString newToken)
                 else
                   throw (JsError "トークンの自動更新に失敗しました。手動でトークンを更新してください。"))
                (fun refreshError =>
                   throw (JsError ("トークンの自動更新に失敗しました: "
                                   +:+ message refreshError)))
            else
              throw (JsError (label +:+ ": " +:+ toString code +:+ " " +:+ responseText))
          else onSuccess token res
      end.
End Wrapper.

(** [Math.min(500, Number(limit) || 500)]. *)
Definition clampLimit (limit : Z) : Z :=
    Z.min 500 (if limit =? 0 then 500 else limit).

Definition fetchComments (fuel : nat) (postId token : string) (limit : Z)
    : M (list Comment) :=
    resilient
      (fun token => GetComments postId (clampLimit limit) token)
      (fun token h => up_comments (net env) h postId (clampLimit limit) token)
      "GET comments failed"
      (fun _ res => json <- parseJSON res ;; ret (default [] (cb_data json)))
      fuel token.

Definition fetchCommentsSince (fuel : nat) (postId token : string) (sinceMs limit : Z)
    : M (list Comment) :=
    let sinceSec := sinceMs / 1000 in
    resilient
      (fun token => GetCommentsSince postId sinceSec (clampLimit limit) token)
      (fun token h =>
         up_comments_since (net env) h postId sinceSec (clampLimit limit) token)
      "GET comments(since) failed"
      (fun _ res => json <- parseJSON res ;; ret (default [] (cb_data json)))
      fuel token.

Definition postReply (fuel : nat) (commentId message token : string) : M string :=
    resilient
      (fun token => PostReply commentId message token)
      (fun token h => up_reply (net env) h commentId message token)
      "POST reply failed"
      (fun _ res =>
         json <- parseJSON res ;;
         if negb (truthy (idb_id json)) then
           throw (JsError ("POST reply unexpected response: " +:+ getContentText res))
         else ret (default "" (idb_id json)))
      fuel token.

Record PagePost : Type := { postId : string; permalink : string }.

Definition createPagePost (fuel : nat) (message token : string) : M PagePost :=
    resilient
      (fun token => PostFeed message token)
      (fun token h => up_feed (net env) h message token)
      "POST feed failed"
      (fun token res =>
         json <- parseJSON res ;;
         if negb (truthy (idb_id json)) then
           throw (JsError ("POST feed unexpected response: " +:+ getContentText res))
         else
           let id := default "" (idb_id json) in
           permalink <- try_catch
             (detailRes <- fetch (GetPermalink id token)
                                 (fun h => up_permalink (net env) h id token) ;;
              let code := getResponseCode detailRes in
              if (200 <=? code) && (code <? 300) then
                d <- parseJSON detailRes ;; ret (orEmpty (plb_permalink_url d))
              else ret "")
             (fun e => ret "") ;;
           ret {| postId := id; permalink := permalink |})
      fuel token.

Record PageInfo : Type := { pi_pageId : string; pi_pageName : string }.

Definition getPageInfo (fuel : nat) (token : string) : M PageInfo :=
    resilient
      (fun token => GetMe token)
      (fun token h => up_me (net env) h token)
      "GET /me failed"
      (fun _ res =>
         json <- parseJSON res ;;
         if negb (truthy (idb_id json)) then
           throw (JsError "ページIDを取得できませんでした。アクセストークンが「ページ用」か確認してください。")
         else ret {| pi_pageId := default "" (idb_id json);
                     pi_pageName := orEmpty (idb_name json) |})
      fuel token.

(** [data.map(p => p.id).filter(Boolean)]. *)
Definition postIds (data : list Post) : list string :=
    omap (fun p => if truthy (post_id p) then post_id p else None) data.

Definition fetchRecentPosts (fuel : nat) (token : string) (lookbackDays maxCount : Z)
    : M (list string) :=
    let sinceParam := (now env - lookbackDays * 24 * 60 * 60 * 1000) / 1000 in
    resilient
      (fun token => GetPosts sinceParam maxCount token)
      (fun token h => up_posts (net env) h sinceParam maxCount token)
      "GET /me/posts failed"
      (fun _ res =>
         json <- parseJSON res ;;
         let data := default [] (pb_data json) in
         (match data with
          | [] => ret tt
          | _ =>
              fun w =>
                match postsSheet w with
                | None => (Throw TypeError, w)
                | Some rows =>
                    let new :=
                      map (fun p => (orEmpty (post_id p), orEmpty (post_permalink_url p),
                                     orEmpty (post_created_time p))) data in
                    (Ret tt, set_postsSheet (Some (rows ++ new)%list) w)
                end
          end) ;;
         ret (postIds data))
      fuel token.

(** [fetchRecentReels] looks the page up, lists its reels and has the
      same block around that call; but its outer handler turns whatever is
      thrown - by the page lookup, the refresh, the parser or the posts tab
      - into an empty list, and a failure status other than the expiry is
      answered with an empty list without throwing.  [fuel] bounds the
      depth of the self-call and is the budget of the page lookup. *)
Fixpoint fetchRecentReels (fuel : nat) (token : string) (lookbackDays maxCount : Z)
    : M (list string) :=
    match fuel with
    | O => diverge
    | S fuel' =>
        try_catch
          (info <- getPageInfo fuel token ;;
           let sinceParam := (now env - lookbackDays * 24 * 60 * 60 * 1000) / 1000 in
           res <- fetch (GetReels (pi_pageId info) sinceParam maxCount token)
                        (fun h => up_reels (net env) h (pi_pageId info) sinceParam maxCount
                                    token) ;;
           let code := getResponseCode res in
           let responseText := getContentText res in
           if failed code then
             if (code =? 400) && includes responseText "Session has expired" then
               try_catch
                 (refreshSuccess <- refreshToken ;;
                  if refreshSuccess : bool then
                    newToken <- getProperty PAGE_ACCESS_TOKEN ;;
                    fetchRecentReels fuel' (tokenString newToken) lookbackDays maxCount
                  else
                    throw (JsError "トークンの自動更新に失敗しました。手動でトークンを更新してください。"))
                 (fun refreshError =>
                    throw (JsError ("トークンの自動更新に失敗しました: "
                                    +:+ message refreshError)))
             else ret []
           else
             json <- parseJSON res ;;
             let data := default [] (pb_data json) in
             (match data with
              | [] => ret tt
              | _ =>
                  fun w =>
                    match postsSheet w with
                    | None => (Throw TypeError, w)
                    | Some rows =>
                        let new :=
                          map (fun p => (orEmpty (post_id p), orEmpty (post_permalink_url p),
                                         orEmpty (post_created_time p))) data in
                        (Ret tt, set_postsSheet (Some (rows ++ new)%list) w)
                    end
              end) ;;
             ret (postIds data))
          (fun e => ret [])
    end.
End WithPlatform.
End FacebookApi.

(** ** Comment processing (src/unnamed/part_001) *)

Record Rule : Type :=
  { enabled : bool;
    keyword : string;
    template : string;
    matchType : string;
    priority : Z;
    weight : Z }.

Module CommentProcessor.
Section WithPlatform.
Context (env : Platform) (refreshToken : M bool).

Definition findMatchingRule (message : string) (rules : list Rule) : option Rule :=
    List.find
      (fun rule =>
         enabled rule && negb (keyword rule =? "")%string
         && includes (toLowerCase env message) (toLowerCase env (keyword rule)))
      rules.

Definition generateReply (template name : string) : string :=
    replaceAll "{name}" name "" 0 template.

(** [String(error && error.message ? error.message : error)]. *)
Definition errorText (e : Error) : string :=
    if (message e =? "")%string then "Error" else message e.

(** The body of the loop of [processComments], for one comment. *)
Definition processComment (fuel : nat) (postId token : string) (rules : list Rule)
           (processedSet : gset string) (comment : Comment) : M unit :=
  let commentId := c_id comment in
  if bool_decide (commentId ∈ processedSet) then ret tt
  else
    let message := orEmpty (c_message comment) in
    let name := orEmpty (c_from_name comment) in
    match findMatchingRule message rules with
    | None =>
        SheetManager.appendProcessed commentId (c_created_time comment) ;;
        SheetManager.logComment env postId commentId name message "" "" "no_match" ""
    | Some matchedRule =>
        let replyText := generateReply (template matchedRule) name in
        try_catch
          (FacebookApi.postReply env refreshToken fuel commentId replyText token ;;
           SheetManager.appendProcessed commentId (c_created_time comment) ;;
           SheetManager.logComment env postId commentId name message
             (keyword matchedRule) replyText "replied" "")
          (fun error =>
             SheetManager.logComment env postId commentId name message
               (keyword matchedRule) replyText "error" (errorText error))
    end.

Definition processComments (fuel : nat) (postId token : string) (fetchLimit : Z)
           (rules : list Rule) (processedSet : gset string) : M unit :=
  comments <- FacebookApi.fetchComments env refreshToken fuel postId token fetchLimit ;;
  for_each comments (processComment fuel postId token rules processedSet).
End WithPlatform.
End CommentProcessor.

(** ** The twelve-hour sweep (src/コード.js) *)

Module Main.
Import PROP_KEYS.
Section WithPlatform.
Context (env : Platform) (refreshToken : M bool).

Record Tally : Type := { total : Z; replied : Z; failed_ : Z; skipped : Z }.

Definition skip (t : Tally) : Tally :=
    {| total := total t; replied := replied t; failed_ := failed_ t;
       skipped := skipped t + 1 |}.
Definition count (t : Tally) : Tally :=
    {| total := total t + 1; replied := replied t; failed_ := failed_ t;
       skipped := skipped t |}.
Definition countReplied (t : Tally) : Tally :=
    {| total := total t; replied := replied t + 1; failed_ := failed_ t;
       skipped := skipped t |}.
Definition countFailed (t : Tally) : Tally :=
    {| total := total t; replied := replied t; failed_ := failed_ t + 1;
       skipped := skipped t |}.

(** A [for ... of] loop that updates local variables. *)
Fixpoint for_fold {A S} (l : list A) (body : S -> A -> M S) (s : S) : M S :=
    match l with
    | [] => ret s
    | x :: l' => s' <- body s x ;; for_fold l' body s'
    end.

(** The body of the inner loop, for one comment [c] of post [postId]. *)
Definition replyOne (fuel : nat) (token : string) (rules : list Rule)
             (repliedSet : gset string) (sinceMs : Z) (postId : string)
             (t : Tally) (c : Comment) : M Tally :=
    let commentId := trim env (c_id c) in
    if (commentId =? "")%string then ret (skip t)
    else if bool_decide (commentId ∈ repliedSet) then ret (skip t)
    else
      let created :=
        if truthy (c_created_time c)
        then parseDate env (default "" (c_created_time c)) else Some 0 in
      match created with
      | None => ret (skip t)
      | Some created =>
          if (created =? 0) || (created <? sinceMs) then ret (skip t)
          else
            let t := count t in
            let message := orEmpty (c_message c) in
            let name := orEmpty (c_from_name c) in
            match CommentProcessor.findMatchingRule env message rules with
            | None => ret (skip t)
            | Some rule =>
                let replyText := CommentProcessor.generateReply (template rule) name in
                try_catch
                  (FacebookApi.postReply env refreshToken fuel commentId replyText token ;;
                   SheetManager.appendProcessed commentId (Some (orEmpty (c_created_time c))) ;;
                   SheetManager.logComment env postId commentId name message
                     (keyword rule) replyText "replied" "" ;;
                   ret (countReplied t))
                  (fun err =>
                     SheetManager.logComment env postId commentId name message
                       (keyword rule) replyText "error" (CommentProcessor.errorText err) ;;
                     ret (countFailed t))
            end
      end.

(** [replyUnrepliedCommentsLast12h()].  [postIds] and [rules] stand for
      what [getTargetPostIds(token, settings)] and [loadRules()] returned
      from the settings and rules tabs before the loops start. *)
Definition replyUnrepliedCommentsLast12h (fuel : nat) (postIds : list string)
             (rules : list Rule) : M Tally :=
    token <- getProperty PAGE_ACCESS_TOKEN ;;
    if negb (truthy token) then throw (JsError "アクセストークンが未設定です。")
    else
      let token := default "" token in
      match postIds with
      | [] => throw (JsError "対象投稿がありません。")
      | _ =>
          repliedSet <- SheetManager.loadRepliedCommentIdsSet env ;;
          let sinceMs := now env - 12 * 60 * 60 * 1000 in
          for_fold postIds
            (fun t postId =>
               comments <- FacebookApi.fetchCommentsSince env refreshToken fuel
                             postId token sinceMs 200 ;;
               for_fold comments
                 (replyOne fuel token rules repliedSet sinceMs postId) t)
            {| total := 0; replied := 0; failed_ := 0; skipped := 0 |}
      end.
End WithPlatform.
End Main.

(** * Reasoning about runs *)

(** ** One step of the monad *)

Lemma bind_run {A B} (m : M A) (k : A -> M B) w a w' :
  m w = (Ret a, w') -> bind m k w = k a w'.
Proof. unfold bind. intros ->. reflexivity. Qed.

Lemma bind_throw_run {A B} (m : M A) (k : A -> M B) w e w' :
  m w = (Throw e, w') -> bind m k w = (Throw e, w').
Proof. unfold bind. intros ->. reflexivity. Qed.

Lemma try_catch_ret_run {A} (m : M A) h w a w' :
  m w = (Ret a, w') -> try_catch m h w = (Ret a, w').
Proof. unfold try_catch. intros ->. reflexivity. Qed.

Lemma try_catch_throw_run {A} (m : M A) h w e w' :
  m w = (Throw e, w') -> try_catch m h w = h e w'.
Proof. unfold try_catch. intros ->. reflexivity. Qed.

(** ** Footprints

    What a run may add to the world: which batches it may write to the
    properties, which calls it may make, which rows it may log. *)

Record Footprint : Type :=
  { fp_write : list (string * string) -> bool;
    fp_call : Call -> bool;
    fp_log : LogRow -> bool }.

Definition within (F : Footprint) (w w' : World) : Prop :=
  (exists bs, writes w' = (bs ++ writes w)%list
              /\ forallb (fp_write F) bs = true
              /\ props w' = foldr write_batch (props w) bs)
  /\ (exists cs, calls w' = (cs ++ calls w)%list /\ forallb (fp_call F) cs = true)
  /\ (exists rows, logSheet w' = (fun old => (old ++ rows)%list) <$> logSheet w
                   /\ forallb (fp_log F) rows = true).

Lemma within_refl F w : within F w w.
Proof.
  repeat split.
  - exists []. auto.
  - exists []. auto.
  - exists []. split; [|reflexivity].
    destruct (logSheet w); simpl; [rewrite app_nil_r|]; reflexivity.
Qed.

Lemma within_trans F w1 w2 w3 : within F w1 w2 -> within F w2 w3 -> within F w1 w3.
Proof.
  intros ([bs1 (Hw1 & Hf1 & Hp1)] & [cs1 [Hc1 Hg1]] & [r1 [Hl1 Hr1]])
         ([bs2 (Hw2 & Hf2 & Hp2)] & [cs2 [Hc2 Hg2]] & [r2 [Hl2 Hr2]]).
  repeat split.
  - exists (bs2 ++ bs1)%list. rewrite Hw2, Hw1, Hp2, Hp1, forallb_app, Hf1, Hf2.
    rewrite foldr_app, app_assoc. auto.
  - exists (cs2 ++ cs1)%list. rewrite Hc2, Hc1, forallb_app, Hg1, Hg2, app_assoc. auto.
  - exists (r1 ++ r2)%list. rewrite Hl2, Hl1, forallb_app, Hr1, Hr2. split; [|reflexivity].
    destruct (logSheet w1); simpl; [rewrite app_assoc|]; reflexivity.
Qed.

Definition fp_le (F G : Footprint) : Prop :=
  (forall b, fp_write F b = true -> fp_write G b = true)
  /\ (forall c, fp_call F c = true -> fp_call G c = true)
  /\ (forall r, fp_log F r = true -> fp_log G r = true).

Lemma forallb_impl {A} (p q : A -> bool) l :
  (forall x, p x = true -> q x = true) -> forallb p l = true -> forallb q l = true.
Proof.
  intros Hpq. induction l as [|x l IH]; simpl; [auto|].
  rewrite !andb_true_iff. intros [Hx Hl]. auto.
Qed.

Lemma within_mono F G w w' : fp_le F G -> within F w w' -> within G w w'.
Proof.
  intros (Hb & Hc & Hr) ([bs (Hw & Hf & Hp)] & [cs [Hcs Hg]] & [rows [Hl Hrows]]).
  repeat split.
  - exists bs. eauto using forallb_impl.
  - exists cs. eauto using forallb_impl.
  - exists rows. eauto using forallb_impl.
Qed.

(** [keeps F m]: every run of [m], however it ends, stays within [F]. *)
Definition keeps (F : Footprint) {A} (m : M A) : Prop :=
  forall w, within F w (m w).2.

Section Keeps.
Context (F : Footprint).

Lemma keeps_ret {A} (a : A) : keeps F (ret a).
Proof. intros w. apply within_refl. Qed.

Lemma keeps_throw {A} e : keeps F (@throw A e).
Proof. intros w. apply within_refl. Qed.

Lemma keeps_diverge {A} : keeps F (@diverge A).
Proof. intros w. apply within_refl. Qed.

Lemma keeps_bind {A B} (m : M A) (k : A -> M B) :
    keeps F m -> (forall a, keeps F (k a)) -> keeps F (bind m k).
Proof.
    intros Hm Hk w. unfold bind. specialize (Hm w).
    destruct (m w) as [[a|e|] w1]; simpl in *; auto.
    eapply within_trans; [exact Hm | apply Hk].
Qed.

Lemma keeps_try_catch {A} (m : M A) h :
    keeps F m -> (forall e, keeps F (h e)) -> keeps F (try_catch m h).
Proof.
    intros Hm Hh w. unfold try_catch. specialize (Hm w).
    destruct (m w) as [[a|e|] w1]; simpl in *; auto.
    eapply within_trans; [exact Hm | apply Hh].
Qed.

Lemma keeps_for_each {A} (l : list A) body :
    (forall x, In x l -> keeps F (body x)) -> keeps F (for_each l body).
Proof.
    induction l as [|x l IH]; simpl; intros Hb.
    - apply keeps_ret.
    - apply keeps_bind; [apply Hb; auto | intros _; apply IH; auto].
Qed.

Lemma keeps_getProperty k : keeps F (getProperty k).
Proof. intros w. apply within_refl. Qed.

Lemma keeps_setProperties kvs :
    fp_write F kvs = true -> keeps F (setProperties kvs).
Proof.
    intros Hk w. repeat split; simpl.
    - exists [kvs]. simpl. rewrite Hk. auto.
    - exists []. auto.
    - exists []. split; [|reflexivity].
      destruct (logSheet w); simpl; [rewrite app_nil_r|]; reflexivity.
Qed.

Lemma keeps_fetch {B} r (answer : list Call -> Fetched B) :
    (forall st, fp_call F {| req := r; status := st |} = true) ->
    keeps F (fetch r answer).
Proof.
    intros Hr w. unfold fetch.
    destruct (answer (calls w)) as [|c t j]; simpl; repeat split; simpl.
    1,4: exists []; auto.
    2,4: exists []; split; [|reflexivity];
         destruct (logSheet w); simpl; [rewrite app_nil_r|]; reflexivity.
    - exists [ {| req := r; status := None |} ]. simpl. rewrite Hr. auto.
    - exists [ {| req := r; status := Some c |} ]. simpl. rewrite Hr. auto.
Qed.

Lemma keeps_parseJSON {B} (res : Response B) : keeps F (parseJSON res).
Proof. unfold parseJSON. destruct (parsed res); [apply keeps_ret | apply keeps_throw]. Qed.

(** A run that changes nothing but the settings, processed or posts
      tab stays within every footprint. *)
Lemma within_tabs w w' :
    props w' = props w -> writes w' = writes w -> calls w' = calls w ->
    logSheet w' = logSheet w -> within F w w'.
Proof.
    intros Hp Hw Hc Hl. repeat split.
    - exists []. auto.
    - exists []. auto.
    - exists []. rewrite Hl. split; [|reflexivity].
      destruct (logSheet w); simpl; [rewrite app_nil_r|]; reflexivity.
Qed.

Lemma keeps_upsertSetting env key value notes :
    keeps F (Config.upsertSetting env key value notes).
Proof.
    intros w. unfold Config.upsertSetting.
    destruct (settingsSheet w) as [rows|]; [|apply within_refl].
    destruct (findIndex _ _); apply within_tabs; reflexivity.
Qed.

Lemma keeps_appendProcessed commentId createdTime :
    keeps F (SheetManager.appendProcessed commentId createdTime).
Proof.
    intros w. unfold SheetManager.appendProcessed.
    destruct (processedSheet w); [apply within_tabs; reflexivity | apply within_refl].
Qed.

Lemma keeps_loadRepliedCommentIdsSet env :
    keeps F (SheetManager.loadRepliedCommentIdsSet env).
Proof.
    intros w. unfold SheetManager.loadRepliedCommentIdsSet.
    destruct (logSheet w); apply within_refl.
Qed.

Lemma keeps_logComment env postId commentId name message kw reply st err :
    (forall row, lr_commentId row = commentId -> fp_log F row = true) ->
    keeps F (SheetManager.logComment env postId commentId name message kw reply st err).
Proof.
    intros Hrow w. unfold SheetManager.logComment.
    destruct (logSheet w) as [rows|] eqn:Hl; [|apply within_refl].
    repeat split; simpl.
    - exists []. auto.
    - exists []. auto.
    - eexists [_]. rewrite Hl. simpl. split; [reflexivity|].
      rewrite Hrow; reflexivity.
Qed.
End Keeps.

Ltac keeps_step :=
  first
    [ apply keeps_ret | apply keeps_throw | apply keeps_diverge
    | apply keeps_getProperty | apply keeps_parseJSON
    | apply keeps_upsertSetting | apply keeps_appendProcessed
    | apply keeps_loadRepliedCommentIdsSet
    | apply keeps_bind; [|intros ?]
    | apply keeps_try_catch; [|intros ?]
    | match goal with
      | |- keeps _ (if ?b then _ else _) => destruct b
      | |- keeps _ (match ?x with _ => _ end) => destruct x
      end
    | progress cbv zeta ].

(** ** The footprint of the token managers *)

(** The endpoints the token managers call. *)
Definition tokenEndpoint (r : Request) : bool :=
  match r with
  | GetDebugToken _ _ | GetAccessTokenInfo _ | GetExchange _ _ _ | GetAccounts _ => true
  | _ => false
  end.

Definition has_key (k : string) (b : list (string * string)) : bool :=
  existsb (fun kv => (kv.1 =? k)%string) b.

(** A batch that writes the page token also writes the page id. *)
Definition balanced (b : list (string * string)) : bool :=
  negb (has_key PROP_KEYS.PAGE_ACCESS_TOKEN b) || has_key PROP_KEYS.PAGE_ID b.

Definition tokenFootprint : Footprint :=
  {| fp_write := balanced;
     fp_call := fun c => tokenEndpoint (req c);
     fp_log := fun _ => false |}.

(** The footprint of the lookups: token endpoints only, no write. *)
Definition lookupFootprint : Footprint :=
  {| fp_write := fun _ => false;
     fp_call := fun c => tokenEndpoint (req c);
     fp_log := fun _ => false |}.

Lemma lookup_le_token : fp_le lookupFootprint tokenFootprint.
Proof. repeat split; simpl; auto; discriminate. Qed.

Lemma fp_le_trans F G H : fp_le F G -> fp_le G H -> fp_le F H.
Proof. intros (?&?&?) (?&?&?). repeat split; auto. Qed.

Lemma forallb_false_nil {A} (l : list A) : forallb (fun _ => false) l = true -> l = [].
Proof. destruct l; [reflexivity | discriminate]. Qed.

(** A run within the lookup footprint leaves the store and the log tab
    as they were. *)
Lemma within_lookup_store w w' :
  within lookupFootprint w w' ->
  props w' = props w /\ writes w' = writes w /\ logSheet w' = logSheet w.
Proof.
  intros ([bs (Hw & Hf & Hp)] & _ & [rows [Hl Hr]]). simpl in *.
  apply forallb_false_nil in Hf, Hr. subst. simpl in *.
  repeat split; auto. rewrite Hl. destruct (logSheet w); simpl; [rewrite app_nil_r|]; auto.
Qed.

Section TokenFootprint.
Context (F : Footprint) (HF : fp_le lookupFootprint F) (env : Platform).

Lemma token_fetch {B} r (answer : list Call -> Fetched B) :
    tokenEndpoint r = true -> keeps F (fetch r answer).
Proof. intros Hr. apply keeps_fetch. intros st. apply HF. exact Hr. Qed.

(** Writing is what sets the setups and the refresh apart from the
      lookups. *)
Context (HW : forall b, balanced b = true -> fp_write F b = true).

Lemma token_write kvs : balanced kvs = true -> keeps F (setProperties kvs).
Proof. intros Hb. apply keeps_setProperties. apply HW. exact Hb. Qed.

Ltac token_keeps :=
    repeat first
      [ keeps_step
      | apply token_fetch; reflexivity
      | apply token_write; reflexivity ].

Lemma legacy_getAppInfoFromToken t : keeps F (TokenManager.getAppInfoFromToken env t).
Proof. unfold TokenManager.getAppInfoFromToken. token_keeps. Qed.

Lemma legacy_getTokenInfoFromToken t : keeps F (TokenManager.getTokenInfoFromToken env t).
Proof. unfold TokenManager.getTokenInfoFromToken. token_keeps. Qed.

Lemma legacy_getPageTokens t : keeps F (TokenManager.getPageTokens env t).
Proof. unfold TokenManager.getPageTokens. token_keeps. Qed.

Lemma legacy_exchangeToLongLivedToken t :
    keeps F (TokenManager.exchangeToLongLivedToken env t).
Proof.
    unfold TokenManager.exchangeToLongLivedToken.
    repeat first
      [ apply legacy_getAppInfoFromToken | apply legacy_getTokenInfoFromToken
      | keeps_step | apply token_fetch; reflexivity ].
Qed.

Lemma legacy_exchangeWithCredentials t a s :
    keeps F (TokenManager.exchangeToLongLivedTokenWithCredentials env t a s).
Proof. unfold TokenManager.exchangeToLongLivedTokenWithCredentials. token_keeps. Qed.

Lemma legacy_refreshToken : keeps F (TokenManager.refreshToken env).
Proof.
    unfold TokenManager.refreshToken.
    repeat first
      [ apply legacy_exchangeWithCredentials | apply legacy_getPageTokens
      | keeps_step | apply token_write; reflexivity ].
Qed.

Lemma legacy_saveAppSettings a s : keeps F (TokenManager.saveAppSettings a s).
Proof. apply token_write. reflexivity. Qed.

Lemma legacy_setupTokensFromLongToken t :
    keeps F (TokenManager.setupTokensFromLongToken env t).
Proof.
    unfold TokenManager.setupTokensFromLongToken.
    repeat first
      [ apply legacy_getTokenInfoFromToken | apply legacy_getPageTokens
      | keeps_step | apply token_write; reflexivity ].
Qed.

Lemma legacy_setupTokensFromShortLived t :
    keeps F (TokenManager.setupTokensFromShortLived env t).
Proof.
    unfold TokenManager.setupTokensFromShortLived, TokenManager.appInfoOrUnknown.
    repeat first
      [ apply legacy_getTokenInfoFromToken | apply legacy_getPageTokens
      | apply legacy_getAppInfoFromToken | apply legacy_saveAppSettings
      | apply legacy_exchangeToLongLivedToken
      | keeps_step | apply token_write; reflexivity ].
Qed.

Lemma debug_getTokenInfoFromDebugToken t a :
    keeps F (TokenManagerDebug.getTokenInfoFromDebugToken env t a).
Proof. unfold TokenManagerDebug.getTokenInfoFromDebugToken. token_keeps. Qed.

Lemma debug_getTokenInfoFromToken t a s :
    keeps F (TokenManagerDebug.getTokenInfoFromToken env t a s).
Proof.
    unfold TokenManagerDebug.getTokenInfoFromToken.
    repeat first
      [ apply debug_getTokenInfoFromDebugToken | keeps_step
      | apply token_fetch; reflexivity ].
Qed.

Lemma debug_isTokenValid t : keeps F (TokenManagerDebug.isTokenValid env t).
Proof.
    unfold TokenManagerDebug.isTokenValid.
    repeat first [ apply debug_getTokenInfoFromToken | keeps_step ].
Qed.

Lemma debug_getPageTokens t : keeps F (TokenManagerDebug.getPageTokens env t).
Proof. unfold TokenManagerDebug.getPageTokens. token_keeps. Qed.

Lemma debug_exchangeWithCredentials t a s :
    keeps F (TokenManagerDebug.exchangeToLongLivedTokenWithCredentials env t a s).
Proof. unfold TokenManagerDebug.exchangeToLongLivedTokenWithCredentials. token_keeps. Qed.

Lemma debug_debugExpiry t a s : keeps F (TokenManagerDebug.debugExpiry env t a s).
Proof.
    unfold TokenManagerDebug.debugExpiry.
    repeat first [ apply debug_getTokenInfoFromToken | keeps_step ].
Qed.

Lemma debug_refreshToken : keeps F (TokenManagerDebug.refreshToken env).
Proof.
    unfold TokenManagerDebug.refreshToken, TokenManagerDebug.when.
    repeat first
      [ apply debug_exchangeWithCredentials | apply debug_getPageTokens
      | apply debug_debugExpiry
      | keeps_step | apply token_write; reflexivity ].
Qed.

Lemma debug_setupTokensFromLongToken t :
    keeps F (TokenManagerDebug.setupTokensFromLongToken env t).
Proof.
    unfold TokenManagerDebug.setupTokensFromLongToken, TokenManagerDebug.when.
    repeat first
      [ apply debug_getTokenInfoFromToken | apply debug_getPageTokens
      | keeps_step | apply token_write; reflexivity ].
Qed.

Lemma debug_checkAndRefreshToken : keeps F (TokenManagerDebug.checkAndRefreshToken env).
Proof.
    unfold TokenManagerDebug.checkAndRefreshToken.
    repeat first [ apply debug_isTokenValid | apply debug_refreshToken | keeps_step ].
Qed.
End TokenFootprint.

(** ** Runs that need no fuel *)

(** [finishes m]: no run of [m] exhausts a recursion budget; it returns
    or throws. *)
Definition finishes {A} (m : M A) : Prop :=
  forall w, (m w).1 <> OutOfFuel.

Section Finishes.
Lemma finishes_ret {A} (a : A) : finishes (ret a).
Proof. intros w. discriminate. Qed.

Lemma finishes_throw {A} e : finishes (@throw A e).
Proof. intros w. discriminate. Qed.

Lemma finishes_bind {A B} (m : M A) (k : A -> M B) :
    finishes m -> (forall a, finishes (k a)) -> finishes (bind m k).
Proof.
    intros Hm Hk w. unfold bind. specialize (Hm w).
    destruct (m w) as [[a|e|] w1]; simpl in *; [apply Hk | discriminate | congruence].
Qed.

Lemma finishes_try_catch {A} (m : M A) h :
    finishes m -> (forall e, finishes (h e)) -> finishes (try_catch m h).
Proof.
    intros Hm Hh w. unfold try_catch. specialize (Hm w).
    destruct (m w) as [[a|e|] w1]; simpl in *; [discriminate | apply Hh | congruence].
Qed.

Lemma finishes_getProperty k : finishes (getProperty k).
Proof. intros w. discriminate. Qed.

Lemma finishes_setProperties kvs : finishes (setProperties kvs).
Proof. intros w. discriminate. Qed.

Lemma finishes_fetch {B} r (answer : list Call -> Fetched B) : finishes (fetch r answer).
Proof. intros w. unfold fetch. destruct (answer (calls w)); discriminate. Qed.

Lemma finishes_parseJSON {B} (res : Response B) : finishes (parseJSON res).
Proof.
    unfold parseJSON. destruct (parsed res); [apply finishes_ret | apply finishes_throw].
Qed.

Lemma finishes_upsertSetting env key value notes :
    finishes (Config.upsertSetting env key value notes).
Proof.
    intros w. unfold Config.upsertSetting.
    destruct (settingsSheet w); [destruct (findIndex _ _)|]; discriminate.
Qed.
End Finishes.

Ltac finishes_step :=
  first
    [ apply finishes_ret | apply finishes_throw
    | apply finishes_getProperty | apply finishes_setProperties
    | apply finishes_fetch | apply finishes_parseJSON | apply finishes_upsertSetting
    | apply finishes_bind; [|intros ?]
    | apply finishes_try_catch; [|intros ?]
    | match goal with
      | |- finishes (if ?b then _ else _) => destruct b
      | |- finishes (match ?x with _ => _ end) => destruct x
      end
    | progress cbv zeta ].

Section TokenFinishes.
Context (env : Platform).

Lemma getTokenInfoFromDebugToken_finishes t a :
    finishes (TokenManagerDebug.getTokenInfoFromDebugToken env t a).
Proof. unfold TokenManagerDebug.getTokenInfoFromDebugToken. repeat finishes_step. Qed.

Lemma getTokenInfoFromToken_finishes t a s :
    finishes (TokenManagerDebug.getTokenInfoFromToken env t a s).
Proof.
    unfold TokenManagerDebug.getTokenInfoFromToken.
    repeat first [ apply getTokenInfoFromDebugToken_finishes | finishes_step ].
Qed.

Lemma isTokenValid_finishes t : finishes (TokenManagerDebug.isTokenValid env t).
Proof.
    unfold TokenManagerDebug.isTokenValid.
    repeat first [ apply getTokenInfoFromToken_finishes | finishes_step ].
Qed.

Lemma getPageTokens_finishes t : finishes (TokenManagerDebug.getPageTokens env t).
Proof. unfold TokenManagerDebug.getPageTokens. repeat finishes_step. Qed.

Lemma exchangeWithCredentials_finishes t a s :
    finishes (TokenManagerDebug.exchangeToLongLivedTokenWithCredentials env t a s).
Proof.
    unfold TokenManagerDebug.exchangeToLongLivedTokenWithCredentials. repeat finishes_step.
Qed.

Lemma debugExpiry_finishes t a s : finishes (TokenManagerDebug.debugExpiry env t a s).
Proof.
    unfold TokenManagerDebug.debugExpiry.
    repeat first [ apply getTokenInfoFromToken_finishes | finishes_step ].
Qed.

Lemma refreshToken_finishes : finishes (TokenManagerDebug.refreshToken env).
Proof.
    unfold TokenManagerDebug.refreshToken, TokenManagerDebug.when.
    repeat first
      [ apply exchangeWithCredentials_finishes | apply getPageTokens_finishes
      | apply debugExpiry_finishes | finishes_step ].
Qed.

Lemma legacy_getTokenInfoFromToken_finishes t :
    finishes (TokenManager.getTokenInfoFromToken env t).
Proof. unfold TokenManager.getTokenInfoFromToken. repeat finishes_step. Qed.

Lemma legacy_getAppInfoFromToken_finishes t :
    finishes (TokenManager.getAppInfoFromToken env t).
Proof. unfold TokenManager.getAppInfoFromToken. repeat finishes_step. Qed.

Lemma legacy_exchangeToLongLivedToken_finishes t :
    finishes (TokenManager.exchangeToLongLivedToken env t).
Proof.
    unfold TokenManager.exchangeToLongLivedToken.
    repeat first
      [ apply legacy_getTokenInfoFromToken_finishes
      | apply legacy_getAppInfoFromToken_finishes | finishes_step ].
Qed.
End TokenFinishes.

(** ** Inverting a run *)

(** Case analysis on the innermost thing a hypothesis about a run still
    branches on. *)
Ltac run_case H :=
  match type of H with
  | context [match ?x with _ => _ end] =>
      lazymatch x with
      | context [match _ with _ => _ end] => fail
      | _ => let E := fresh "E" in destruct x eqn:E; simpl in H; try discriminate H
      end
  end.

(** * The introspector (C8) *)

Section Introspector.
Context (env : Platform).

(** What [getTokenInfoFromDebugToken] returns is built from the [data]
      object of a 2xx answer. *)
Lemma getTokenInfoFromDebugToken_ret inputToken accessToken w info w' :
    TokenManagerDebug.getTokenInfoFromDebugToken env inputToken accessToken w = (Ret info, w') ->
    exists data,
      ti_expiresAt info = dd_expires_at data
      /\ ti_dataAccessExpiresAt info = dd_data_access_expires_at data
      /\ ti_isValid info = dd_is_valid data
      /\ ti_expiresIn info =
           (if gt0 (dd_expires_at data)
            then Z.max 0 (orZero (dd_expires_at data) - nowSec env) else 0)
      /\ ti_isLongLived info =
           (bool_decide (dd_expires_at data = Some 0)
            || (gt0 (dd_expires_at data)
                && (24 * 60 * 60 <? orZero (dd_expires_at data) - nowSec env))).
Proof.
    unfold TokenManagerDebug.getTokenInfoFromDebugToken, try_catch, bind, fetch, parseJSON,
      ret, throw.
    intros H. simpl in H. repeat run_case H.
    all: inversion H; subst; clear H; simpl.
    all: match goal with d : DebugData |- _ => exists d end.
    all: match goal with E : gt0 _ = _ |- _ => rewrite E end; auto.
Qed.

(** The answer that result was built from. *)
Lemma getTokenInfoFromDebugToken_answer inputToken accessToken w info w' :
    TokenManagerDebug.getTokenInfoFromDebugToken env inputToken accessToken w = (Ret info, w') ->
    exists code text data,
      up_debug_token (net env) (calls w) inputToken
        (if truthy accessToken then default "" accessToken else inputToken)
      = Http code text (Some {| db_data := Some data |})
      /\ failed code = false
      /\ ti_expiresAt info = dd_expires_at data
      /\ ti_expiresIn info =
           (if gt0 (dd_expires_at data)
            then Z.max 0 (orZero (dd_expires_at data) - nowSec env) else 0)
      /\ ti_isLongLived info =
           (bool_decide (dd_expires_at data = Some 0)
            || (gt0 (dd_expires_at data)
                && (24 * 60 * 60 <? orZero (dd_expires_at data) - nowSec env))).
Proof.
    unfold TokenManagerDebug.getTokenInfoFromDebugToken, try_catch, bind, fetch, parseJSON,
      ret, throw.
    cbv zeta. intros H.
    destruct (up_debug_token (net env) (calls w) inputToken _) as [|code text [[[data|]]|]];
      simpl in H; try discriminate.
    - destruct (failed code) eqn:Hf.
      + destruct (code =? 400); [discriminate|]. destruct (code =? 401); discriminate.
      + simpl in H. inversion H; subst; clear H. exists code, text, data. simpl.
        destruct (gt0 (dd_expires_at data)); auto.
    - destruct (failed code); [destruct (code =? 400); [|destruct (code =? 401)]|];
        discriminate.
    - destruct (failed code); [destruct (code =? 400); [|destruct (code =? 401)]|];
        discriminate.
Qed.

(** C8, as the code has it.  For every result of the debug-token
      lookup, with the clock at or after the epoch: the result was built
      from a 2xx answer with a [data] object, its [expiresAt] is the
      [expires_at] of that answer, and an answer with [expires_at = 0]
      gives [isLongLived = true] and [expiresIn = 0]; [expiresIn] is
      [max(0, expiresAt - now)] when [expiresAt > 0] and [0] otherwise;
      [isLongLived] holds exactly when [expiresAt] is [0] or
      [expiresAt - now] exceeds 86400 seconds.  The degraded result that
      [getTokenInfoFromToken] builds from the legacy endpoint is not of
      this kind. *)
Theorem introspection_numeric_semantics inputToken accessToken w info w' :
    0 <= now env ->
    TokenManagerDebug.getTokenInfoFromDebugToken env inputToken accessToken w = (Ret info, w') ->
    (exists code text data,
        up_debug_token (net env) (calls w) inputToken
          (if truthy accessToken then default "" accessToken else inputToken)
        = Http code text (Some {| db_data := Some data |})
        /\ failed code = false
        /\ ti_expiresAt info = dd_expires_at data
        /\ (dd_expires_at data = Some 0 ->
            ti_isLongLived info = true /\ ti_expiresIn info = 0))
    /\ match ti_expiresAt info with
       | Some e =>
           if 0 <? e then ti_expiresIn info = Z.max 0 (e - nowSec env)
           else ti_expiresIn info = 0
       | None => ti_expiresIn info = 0
       end
    /\ (ti_isLongLived info = true <->
        ti_expiresAt info = Some 0
        \/ exists e, ti_expiresAt info = Some e /\ e - nowSec env > 86400)
    /\ (ti_expiresAt info = Some 0 ->
        ti_isLongLived info = true /\ ti_expiresIn info = 0).
Proof.
    intros Hnow Hrun.
    destruct (getTokenInfoFromDebugToken_answer _ _ _ _ _ Hrun)
      as (code & text & data & Hup & Hcode & Hat & Hin & Hlong).
    assert (Hsec : 0 <= nowSec env) by (unfold nowSec; apply Z.div_pos; lia).
    split.
    { exists code, text, data. split; [exact Hup|]. split; [exact Hcode|].
      split; [exact Hat|]. intros Hz. rewrite Hin, Hlong, Hz. split; reflexivity. }
    rewrite Hat, Hin, Hlong. clear Hup Hat Hin Hlong.
    destruct (dd_expires_at data) as [e|]; simpl.
    - repeat split.
      + destruct (0 <? e); reflexivity.
      + rewrite orb_true_iff, andb_true_iff, bool_decide_eq_true, !Z.ltb_lt.
        intros [He | [Hpos Hfar]]; [left; exact He | right; exists e; split; [reflexivity | lia]].
      + rewrite orb_true_iff, andb_true_iff, bool_decide_eq_true, !Z.ltb_lt.
        intros [He | (e' & He' & Hfar)]; [left; exact He |].
        right. inversion He'; subst. lia.
      + inversion H; subst. reflexivity.
      + inversion H; subst. reflexivity.
    - repeat split; try discriminate.
      intros [H | (e & H & _)]; discriminate.
Qed.
End Introspector.

(** * The stored-expiry validity check (C5) *)

(** The 24-hour buffer, in milliseconds. *)
Definition bufferMs : Z := 24 * 60 * 60 * 1000.

Section StoredValidity.
Context (env : Platform).

(** The stored expiry, read the way [isTokenValid] reads it. *)
Definition storedExpiry (w : World) : option Z :=
    s ← props w !! PROP_KEYS.TOKEN_EXPIRES_AT; parseInt s.

Lemma parseInt_empty : parseInt "" = None.
Proof. reflexivity. Qed.

Lemma isTokenValid_stored w :
    TokenManagerDebug.isTokenValid env None w
    = (Ret (match storedExpiry w with
            | Some e => bufferMs <? e - now env
            | None => false
            end), w).
Proof.
    unfold TokenManagerDebug.isTokenValid, storedExpiry, try_catch, bind, getProperty, ret.
    simpl. destruct (props w !! PROP_KEYS.TOKEN_EXPIRES_AT) as [s|]; simpl; [|reflexivity].
    destruct (String.eqb_spec s ""); simpl; [subst; reflexivity | reflexivity].
Qed.

Lemma legacy_isTokenValid_stored w :
    TokenManager.isTokenValid env w
    = (Ret (match storedExpiry w with
            | Some e => bufferMs <? e - now env
            | None => false
            end), w).
Proof.
    unfold TokenManager.isTokenValid, storedExpiry, bind, getProperty, ret.
    simpl. destruct (props w !! PROP_KEYS.TOKEN_EXPIRES_AT) as [s|]; simpl; [|reflexivity].
    destruct (String.eqb_spec s ""); simpl; [subst; reflexivity | reflexivity].
Qed.

(** C5.  Without a token argument [isTokenValid] (in both token
      managers) makes no call and changes nothing, and answers [true] if and
      only if the stored expiry minus the current time is strictly greater
      than 24 hours: with exactly 24 hours left, or less, it answers
      [false], and so it does when no expiry is stored. *)
Theorem stored_validity_iff_beyond_buffer w :
    exists b,
      TokenManagerDebug.isTokenValid env None w = (Ret b, w)
      /\ TokenManager.isTokenValid env w = (Ret b, w)
      /\ (b = true <-> exists e, storedExpiry w = Some e /\ e - now env > bufferMs)
      /\ (forall e, storedExpiry w = Some e -> e - now env <= bufferMs -> b = false)
      /\ (props w !! PROP_KEYS.TOKEN_EXPIRES_AT = None -> b = false).
Proof.
    eexists. split; [apply isTokenValid_stored|].
    split; [apply legacy_isTokenValid_stored|].
    repeat split.
    - destruct (storedExpiry w) as [e|]; [|discriminate].
      intros H. exists e. split; [reflexivity|]. apply Z.ltb_lt in H. lia.
    - intros (e & -> & He). apply Z.ltb_lt. lia.
    - intros e -> He. apply Z.ltb_ge. lia.
    - unfold storedExpiry. intros ->. reflexivity.
Qed.
End StoredValidity.

(** * Sample platforms and worlds *)

(** An upstream whose transport always fails; the samples below override
    single endpoints. *)
Definition quiet : Upstream :=
  {| up_debug_token := fun _ _ _ => NetFail;
     up_access_token_info := fun _ _ => NetFail;
     up_exchange := fun _ _ _ _ => NetFail;
     up_accounts := fun _ _ => NetFail;
     up_comments := fun _ _ _ _ => NetFail;
     up_comments_since := fun _ _ _ _ _ => NetFail;
     up_reply := fun _ _ _ _ => NetFail;
     up_feed := fun _ _ _ => NetFail;
     up_permalink := fun _ _ _ => NetFail;
     up_me := fun _ _ => NetFail;
     up_posts := fun _ _ _ _ => NetFail;
     up_reels := fun _ _ _ _ _ => NetFail |}.

Definition platform (u : Upstream) (t : Z) : Platform :=
  {| net := u; now := t; trim := fun s => s; toLowerCase := fun s => s;
     toLocaleString := toString; parseDate := parseInt |}.

Definition world (p : list (string * string)) : World :=
  {| props := list_to_map p; writes := []; calls := [];
     settingsSheet := Some []; processedSheet := Some [];
     logSheet := Some []; postsSheet := Some [] |}.

(** * Refreshing with no managed page (C3) *)

(** Every page lookup is answered with a 2xx status and an empty [data]
    array. *)
Definition noManagedPages (env : Platform) : Prop :=
  forall h t, exists code text,
    failed code = false
    /\ up_accounts (net env) h t = Http code text (Some {| ab_data := Some [] |}).

Lemma fp_le_refl F : fp_le F F.
Proof. repeat split; auto. Qed.

Section RefreshWithoutPages.
Context (env : Platform) (Hno : noManagedPages env).

Lemma getPageTokens_noManagedPages t w :
    exists w', TokenManagerDebug.getPageTokens env t w = (Ret [], w')
               /\ props w' = props w /\ writes w' = writes w.
Proof.
    destruct (Hno (calls w) t) as (code & text & Hc & Hup).
    unfold TokenManagerDebug.getPageTokens, bind, fetch, parseJSON. rewrite Hup. simpl.
    rewrite Hc. simpl. eauto.
Qed.

End RefreshWithoutPages.

(** A sample: app credentials are stored, the exchange succeeds, and the
    page lookup then finds no page. *)
Definition pagelessNet : Upstream :=
  {| up_debug_token := up_debug_token quiet;
     up_access_token_info := up_access_token_info quiet;
     up_exchange := fun _ _ _ _ =>
       Http 200 "ok" (Some {| xb_access_token := Some "LONG";
                              xb_expires_in := Some 5184000;
                              xb_token_type := Some "bearer" |});
     up_accounts := fun _ _ => Http 200 "ok" (Some {| ab_data := Some [] |});
     up_comments := up_comments quiet;
     up_comments_since := up_comments_since quiet;
     up_reply := up_reply quiet;
     up_feed := up_feed quiet;
     up_permalink := up_permalink quiet;
     up_me := up_me quiet;
     up_posts := up_posts quiet;
     up_reels := up_reels quiet |}.

Definition credentialed : World :=
  world [ (PROP_KEYS.USER_ACCESS_TOKEN, "USER"); (PROP_KEYS.APP_ID, "APP");
          (PROP_KEYS.APP_SECRET, "SECRET"); (PROP_KEYS.PAGE_ACCESS_TOKEN, "PAGE");
          (PROP_KEYS.PAGE_ID, "1"); (PROP_KEYS.TOKEN_EXPIRES_AT, "1000") ].

Lemma pagelessNet_noManagedPages : noManagedPages (platform pagelessNet 0).
Proof. intros h t. exists 200, "ok". split; reflexivity. Qed.


(** * Checking a chain that is valid (C7) *)

Section ValidChain.
Context (env : Platform).

(** The calls one introspection of [t] makes: the debug-token call and,
      when that fails, the legacy call. *)
Lemma isTokenValid_calls t r w w1 :
    t <> "" ->
    TokenManagerDebug.isTokenValid env (Some t) w = (r, w1) ->
    exists c cs, calls w1 = (cs ++ c :: calls w)%list
      /\ req c = GetDebugToken t t
      /\ (cs = [] \/ exists c', cs = [c'] /\ req c' = GetAccessTokenInfo t).
Proof.
    intros Ht H. apply String.eqb_neq in Ht.
    unfold TokenManagerDebug.isTokenValid, TokenManagerDebug.getTokenInfoFromToken,
      TokenManagerDebug.getTokenInfoFromDebugToken in H.
    unfold try_catch, bind, fetch, parseJSON, ret, throw in H.
    simpl in H. rewrite ?Ht in H. simpl in H.
    repeat run_case H.
    all: inversion H; subst; clear H; simpl.
    all: first
      [ eexists _, []; split; [reflexivity|]; split; [reflexivity | left; reflexivity]
      | eexists _, [_]; split; [reflexivity|]; split;
        [reflexivity | right; eexists; split; reflexivity] ].
Qed.

Lemma isTokenValid_store t r w w1 :
    TokenManagerDebug.isTokenValid env t w = (r, w1) ->
    props w1 = props w /\ writes w1 = writes w.
Proof.
    intros H. pose proof (debug_isTokenValid _ (fp_le_refl _) env t w) as Hk.
    rewrite H in Hk. apply within_lookup_store in Hk. tauto.
Qed.

(** C7, as the code has it.  When the chain is valid - the
      introspection of the stored user token answers [true] and the stored
      expiry is beyond the buffer - [checkAndRefreshToken] does not refresh:
      the store is as it was and nothing was written.  It is not free of
      upstream calls: the introspection it ran made the debug-token call,
      and the legacy call after it when that failed.  The check of
      TokenManager.js, which reads the stored expiry only, changes
      nothing at all. *)
Theorem valid_chain_check_keeps_store w userToken w1 :
    props w !! PROP_KEYS.USER_ACCESS_TOKEN = Some userToken ->
    userToken <> "" ->
    TokenManagerDebug.isTokenValid env (Some userToken) w = (Ret true, w1) ->
    TokenManagerDebug.isTokenValid env None w = (Ret true, w) ->
    TokenManagerDebug.checkAndRefreshToken env w = (Ret tt, w1)
    /\ props w1 = props w /\ writes w1 = writes w
    /\ (exists c cs, calls w1 = (cs ++ c :: calls w)%list
          /\ req c = GetDebugToken userToken userToken
          /\ (cs = [] \/ exists c', cs = [c'] /\ req c' = GetAccessTokenInfo userToken))
    /\ TokenManager.checkAndRefreshToken env w = (Ret tt, w).
Proof.
    intros Hu Hne Hapi Hst.
    destruct (isTokenValid_store _ _ _ _ Hapi) as [Hp Hw].
    assert (Hst1 : TokenManagerDebug.isTokenValid env None w1 = (Ret true, w1)).
    { rewrite isTokenValid_stored in Hst |- *. unfold storedExpiry in *. rewrite Hp.
      inversion Hst as [Hb]. rewrite Hb. reflexivity. }
    repeat split; auto.
    - unfold TokenManagerDebug.checkAndRefreshToken.
      cbv beta iota zeta delta [try_catch bind getProperty ret].
      rewrite Hu. simpl. apply String.eqb_neq in Hne. rewrite Hne. simpl.
      rewrite Hapi, Hst1. reflexivity.
    - eapply isTokenValid_calls; eauto.
    - unfold TokenManager.checkAndRefreshToken, bind.
      rewrite legacy_isTokenValid_stored. rewrite isTokenValid_stored in Hst.
      inversion Hst as [Hb]. rewrite Hb. reflexivity.
Qed.
End ValidChain.

(** A sample: a user token that the debug-token endpoint reports valid,
    and a stored expiry far beyond the buffer. *)
Definition validNet : Upstream :=
  {| up_debug_token := fun _ _ _ =>
       Http 200 "ok"
         (Some {| db_data :=
                    Some {| dd_app_id := Some "APP"; dd_type := Some "USER";
                            dd_application := None; dd_is_valid := Some true;
                            dd_user_id := None; dd_expires_at := Some 9000000000;
                            dd_data_access_expires_at := Some 9000000000;
                            dd_scopes := None |} |});
     up_access_token_info := up_access_token_info quiet;
     up_exchange := up_exchange quiet;
     up_accounts := up_accounts quiet;
     up_comments := up_comments quiet;
     up_comments_since := up_comments_since quiet;
     up_reply := up_reply quiet;
     up_feed := up_feed quiet;
     up_permalink := up_permalink quiet;
     up_me := up_me quiet;
     up_posts := up_posts quiet;
     up_reels := up_reels quiet |}.

Definition validWorld : World :=
  world [ (PROP_KEYS.USER_ACCESS_TOKEN, "USER"); (PROP_KEYS.PAGE_ACCESS_TOKEN, "PAGE");
          (PROP_KEYS.PAGE_ID, "1"); (PROP_KEYS.TOKEN_EXPIRES_AT, "9000000000000") ].

(** The world the first check of the sample leaves. *)
Definition validWorld1 : World :=
  (TokenManagerDebug.checkAndRefreshToken (platform validNet 0) validWorld).2.

(** C7 fails as stated: on a valid chain the second check in succession
    still makes an upstream call. *)
Lemma second_check_calls_upstream :
  TokenManagerDebug.isTokenValid (platform validNet 0) None validWorld1
  = (Ret true, validWorld1)
  /\ (TokenManagerDebug.isTokenValid (platform validNet 0) (Some "USER") validWorld1).1
     = Ret true
  /\ calls (TokenManagerDebug.checkAndRefreshToken (platform validNet 0) validWorld1).2
     = {| req := GetDebugToken "USER" "USER"; status := Some 200 |} :: calls validWorld1.
Proof. vm_compute. repeat split; reflexivity. Qed.

Lemma valid_chain_check_witness :
  TokenManagerDebug.checkAndRefreshToken (platform validNet 0) validWorld
  = (Ret tt, validWorld1)
  /\ props validWorld1 = props validWorld.
Proof.
  assert (Hapi : TokenManagerDebug.isTokenValid (platform validNet 0) (Some "USER") validWorld
                 = (Ret true, validWorld1)) by (vm_compute; reflexivity).
  assert (Hst : TokenManagerDebug.isTokenValid (platform validNet 0) None validWorld
                = (Ret true, validWorld)) by (vm_compute; reflexivity).
  assert (Hu : props validWorld !! PROP_KEYS.USER_ACCESS_TOKEN = Some "USER")
    by (vm_compute; reflexivity).
  assert (Hne : "USER" <> "") by discriminate.
  destruct (valid_chain_check_keeps_store (platform validNet 0) validWorld "USER" validWorld1
              Hu Hne Hapi Hst) as (H1 & H2 & _).
  exact (conj H1 H2).
Defined.

(** * Reconciling the expiry (C1) *)

Lemma swallow_run (m : M unit) w :
  finishes m -> keeps lookupFootprint m ->
  exists w', try_catch m (fun _ => ret tt) w = (Ret tt, w')
             /\ props w' = props w /\ writes w' = writes w.
Proof.
  intros Hf Hk. specialize (Hf w). specialize (Hk w).
  apply within_lookup_store in Hk. destruct Hk as (Hp & Hw & _).
  unfold try_catch. destruct (m w) as [[[]|e|] w1]; simpl in *; eauto. congruence.
Qed.

(** The reconciliation as the specification words it, in milliseconds:
    the data-access expiry if positive, else the token expiry if positive,
    else [now] plus a positive relative expires-in, else [now] plus 60
    days. *)
Definition reconcile (dataAccessExpiresAt expiresAt : option Z)
           (fallbackExpiresIn now : Z) : Z :=
  if gt0 dataAccessExpiresAt then orZero dataAccessExpiresAt * 1000
  else if gt0 expiresAt then orZero expiresAt * 1000
  else if 0 <? fallbackExpiresIn then now + fallbackExpiresIn * 1000
  else now + sixtyDays * 1000.

Section Flows.
Import PROP_KEYS.
Context (env : Platform).

Definition infoExpiry (info : TokenInfo) : option Z :=
    if gt0 (ti_dataAccessExpiresAt info) then Some (orZero (ti_dataAccessExpiresAt info) * 1000)
    else if gt0 (ti_expiresAt info) then Some (orZero (ti_expiresAt info) * 1000)
    else None.

Lemma debugExpiry_run t a s w r w1 :
    TokenManagerDebug.getTokenInfoFromToken env t a s w = (r, w1) ->
    TokenManagerDebug.debugExpiry env t a s w
    = (match r with
       | Ret info => Ret (infoExpiry info)
       | Throw _ => Ret None
       | OutOfFuel => OutOfFuel
       end, w1).
Proof.
    intros H. unfold TokenManagerDebug.debugExpiry, try_catch, bind. rewrite H.
    destruct r as [info| |]; try reflexivity.
    unfold infoExpiry. destruct (gt0 (ti_dataAccessExpiresAt info)); [reflexivity|].
    destruct (gt0 (ti_expiresAt info)); reflexivity.
Qed.

Lemma truthyNum_infoExpiry info :
    TokenManagerDebug.truthyNum (infoExpiry info) = bool_decide (infoExpiry info <> None).
Proof.
    unfold infoExpiry, gt0.
    destruct (ti_dataAccessExpiresAt info) as [d|]; simpl.
    - destruct (Z.ltb_spec 0 d); simpl.
      + destruct (Z.eqb_spec (d * 1000) 0); [lia | reflexivity].
      + destruct (ti_expiresAt info) as [e|]; simpl; [|reflexivity].
        destruct (Z.ltb_spec 0 e); simpl; [|reflexivity].
        destruct (Z.eqb_spec (e * 1000) 0); [lia | reflexivity].
    - destruct (ti_expiresAt info) as [e|]; simpl; [|reflexivity].
      destruct (Z.ltb_spec 0 e); simpl; [|reflexivity].
      destruct (Z.eqb_spec (e * 1000) 0); [lia | reflexivity].
Qed.

Definition outcomeExpiry (r : Outcome TokenInfo) : option Z :=
    match r with Ret info => infoExpiry info | _ => None end.

Lemma truthyNum_outcomeExpiry r :
    TokenManagerDebug.truthyNum (outcomeExpiry r) = bool_decide (outcomeExpiry r <> None).
Proof. destruct r; try reflexivity. apply truthyNum_infoExpiry. Qed.

Lemma refresh_expiry w u a s tokenInfo w1 page rest w2 r w3 :
    props w !! USER_ACCESS_TOKEN = Some u -> u <> "" ->
    props w !! APP_ID = Some a -> a <> "" ->
    props w !! APP_SECRET = Some s -> s <> "" ->
    TokenManagerDebug.exchangeToLongLivedTokenWithCredentials env u a s w = (Ret tokenInfo, w1) ->
    TokenManagerDebug.getPageTokens env (accessToken tokenInfo) w1 = (Ret (page :: rest), w2) ->
    TokenManagerDebug.getTokenInfoFromToken env (accessToken tokenInfo) (Some a) (Some s) w2
      = (r, w3) ->
    (TokenManagerDebug.refreshToken env w).1 = Ret true
    /\ props (TokenManagerDebug.refreshToken env w).2 !! TOKEN_EXPIRES_AT
       = Some (match outcomeExpiry r with
               | Some e => toString e
               | None =>
                   if (expiresIn tokenInfo =? 0)
                      || (now env + expiresIn tokenInfo * 1000 =? 0) then ""
                   else toString (now env + expiresIn tokenInfo * 1000)
               end).
Proof.
    intros Hu Hun Ha Han Hs Hsn Hx Hp Hi.
    apply String.eqb_neq in Hun, Han, Hsn.
    assert (Hd : TokenManagerDebug.debugExpiry env (accessToken tokenInfo) (Some a) (Some s) w2
                 = (Ret (outcomeExpiry r), w3)).
    { rewrite (debugExpiry_run _ _ _ _ _ _ Hi).
      pose proof (getTokenInfoFromToken_finishes env (accessToken tokenInfo)
                    (Some a) (Some s) w2) as Hfin.
      rewrite Hi in Hfin. destruct r; simpl in *; congruence. }
    pose proof (truthyNum_outcomeExpiry r) as He0.
    unfold TokenManagerDebug.refreshToken, TokenManagerDebug.when.
    match goal with |- context [try_catch ?body ?h w] =>
      assert (HB : exists w', body w = (Ret true, w')
          /\ props w' !! TOKEN_EXPIRES_AT
             = Some (match outcomeExpiry r with
               | Some e => toString e
               | None =>
                   if (expiresIn tokenInfo =? 0)
                      || (now env + expiresIn tokenInfo * 1000 =? 0) then ""
                   else toString (now env + expiresIn tokenInfo * 1000)
               end));
      [| destruct HB as (w' & HB & HK); rewrite (try_catch_ret_run _ _ _ _ _ HB); auto ]
    end.
    erewrite bind_run by reflexivity.
    erewrite bind_run by reflexivity.
    erewrite bind_run by reflexivity.
    rewrite Hu, Ha, Hs. cbn [truthy negb orb default]. rewrite Hun, Han, Hsn. cbn [negb orb].
    erewrite bind_run by reflexivity.
    erewrite bind_run by exact Hx.
    erewrite bind_run by exact Hp. cbv beta iota.
    erewrite bind_run by exact Hd.
    erewrite bind_run by reflexivity.
    match goal with |- context [bind (try_catch ?blk _) _ ?wx] =>
      destruct (swallow_run blk wx) as (w5 & Hsw & Hp5 & _)
    end.
    { repeat finishes_step. }
    { repeat keeps_step. }
    erewrite bind_run by exact Hsw.
    exists w5. split; [reflexivity|]. rewrite Hp5. clear Hsw Hp5 Hd Hi Hx Hp.
    cbn [props log_write set_props write_batch foldl fst snd].
    rewrite lookup_insert_eq. f_equal.
    destruct (outcomeExpiry r) as [e|].
    - assert (Ht : TokenManagerDebug.truthyNum (Some e) = true)
        by (rewrite He0; apply bool_decide_eq_true_2; discriminate).
      rewrite Ht. cbn [negb andb]. rewrite Ht. reflexivity.
    - cbn [TokenManagerDebug.truthyNum negb andb].
      destruct (expiresIn tokenInfo =? 0); cbn [negb orb]; [reflexivity|].
      cbn [TokenManagerDebug.truthyNum orZero default].
      destruct (now env + expiresIn tokenInfo * 1000 =? 0); reflexivity.
Qed.

Lemma degraded_refresh_expiry w u page rest w1 r w2 :
    props w !! USER_ACCESS_TOKEN = Some u -> u <> "" ->
    truthy (props w !! APP_ID) && truthy (props w !! APP_SECRET) = false ->
    TokenManagerDebug.getPageTokens env u w = (Ret (page :: rest), w1) ->
    TokenManagerDebug.getTokenInfoFromToken env u (props w !! APP_ID) (props w !! APP_SECRET) w1
      = (r, w2) ->
    (TokenManagerDebug.refreshToken env w).1 = Ret true
    /\ props (TokenManagerDebug.refreshToken env w).2 !! TOKEN_EXPIRES_AT
       = Some (match outcomeExpiry r with
               | Some e => toString e
               | None => orEmpty (props w !! TOKEN_EXPIRES_AT)
               end).
Proof.
    intros Hu Hun Hcred Hp Hi.
    apply String.eqb_neq in Hun.
    assert (Hd : TokenManagerDebug.debugExpiry env u (props w !! APP_ID)
                   (props w !! APP_SECRET) w1 = (Ret (outcomeExpiry r), w2)).
    { rewrite (debugExpiry_run _ _ _ _ _ _ Hi).
      pose proof (getTokenInfoFromToken_finishes env u (props w !! APP_ID)
                    (props w !! APP_SECRET) w1) as Hfin.
      rewrite Hi in Hfin. destruct r; simpl in *; congruence. }
    pose proof (truthyNum_outcomeExpiry r) as He0.
    assert (Hp2 : props w2 = props w).
    { pose proof (debug_getPageTokens _ (fp_le_refl _) env u w) as K1.
      rewrite Hp in K1. apply within_lookup_store in K1.
      pose proof (debug_getTokenInfoFromToken _ (fp_le_refl _) env u (props w !! APP_ID)
                    (props w !! APP_SECRET) w1) as K2.
      rewrite Hi in K2. apply within_lookup_store in K2.
      destruct K1 as (K1 & _), K2 as (K2 & _). simpl in *. congruence. }
    unfold TokenManagerDebug.refreshToken, TokenManagerDebug.when.
    match goal with |- context [try_catch ?body ?h w] =>
      assert (HB : exists w', body w = (Ret true, w')
          /\ props w' !! TOKEN_EXPIRES_AT
             = Some (match outcomeExpiry r with
               | Some e => toString e
               | None => orEmpty (props w !! TOKEN_EXPIRES_AT)
               end));
      [| destruct HB as (w' & HB & HK); rewrite (try_catch_ret_run _ _ _ _ _ HB); auto ]
    end.
    erewrite bind_run by reflexivity.
    erewrite bind_run by reflexivity.
    erewrite bind_run by reflexivity.
    rewrite Hu. cbn [truthy negb default]. rewrite Hun. cbn [negb].
    erewrite bind_run by reflexivity.
    rewrite <- negb_andb, Hcred. cbn [negb].
    erewrite bind_run by exact Hp. cbv beta iota.
    erewrite bind_run by exact Hd.
    erewrite bind_run by reflexivity.
    erewrite bind_run by reflexivity.
    match goal with |- context [bind (try_catch ?blk _) _ ?wx] =>
      destruct (swallow_run blk wx) as (w5 & Hsw & Hp5 & _)
    end.
    { repeat finishes_step. }
    { repeat keeps_step. }
    erewrite bind_run by exact Hsw.
    exists w5. split; [reflexivity|]. rewrite Hp5. clear Hsw Hp5 Hd Hi Hp.
    cbn [props log_write set_props write_batch foldl fst snd].
    rewrite lookup_insert_eq. f_equal. rewrite Hp2.
    destruct (outcomeExpiry r) as [e|].
    - assert (Ht : TokenManagerDebug.truthyNum (Some e) = true)
        by (rewrite He0; apply bool_decide_eq_true_2; discriminate).
      rewrite Ht. reflexivity.
    - reflexivity.
Qed.

Lemma long_token_expiry t w info w1 page rest w2 :
    t <> "" ->
    TokenManagerDebug.getTokenInfoFromToken env t None None w = (Ret info, w1) ->
    TokenManagerDebug.getPageTokens env t w1 = (Ret (page :: rest), w2) ->
    let expiresAtMs :=
      if gt0 (ti_expiresAt info) then orZero (ti_expiresAt info) * 1000
      else if 0 <? ti_expiresIn info then now env + ti_expiresIn info * 1000
      else now env + sixtyDays * 1000 in
    (exists done, (TokenManagerDebug.setupTokensFromLongToken env t w).1 = Ret (SetupOk done)
                  /\ expiresAt done = expiresAtMs)
    /\ props (TokenManagerDebug.setupTokensFromLongToken env t w).2 !! TOKEN_EXPIRES_AT
       = Some (toString expiresAtMs).
Proof.
    intros Ht Hi Hp expiresAtMs. apply String.eqb_neq in Ht.
    unfold TokenManagerDebug.setupTokensFromLongToken, TokenManagerDebug.when.
    rewrite Ht.
    match goal with |- context [try_catch ?body ?h w] =>
      assert (HB : exists done w', body w = (Ret (SetupOk done), w')
          /\ expiresAt done = expiresAtMs
          /\ props w' !! TOKEN_EXPIRES_AT = Some (toString expiresAtMs));
      [| destruct HB as (done & w' & HB & HE & HK);
         rewrite (try_catch_ret_run _ _ _ _ _ HB); eauto ]
    end.
    erewrite bind_run by reflexivity.
    erewrite bind_run by exact Hi.
    erewrite bind_run by exact Hp. cbv beta iota.
    erewrite bind_run by reflexivity.
    eexists _, _. split; [reflexivity|]. split; [reflexivity|].
    cbn [props log_write set_props write_batch foldl fst snd].
    rewrite !lookup_insert_ne by discriminate.
    rewrite lookup_insert_eq. reflexivity.
Qed.

Lemma short_lived_expiry t w ti w1 ai w2 ll w3 page rest w4 :
    TokenManager.getTokenInfoFromToken env t w = (Ret ti, w1) ->
    TokenManager.appInfoOrUnknown env t w1 = (Ret ai, w2) ->
    TokenManager.exchangeToLongLivedToken env t w2 = (Ret ll, w3) ->
    TokenManager.getPageTokens env (accessToken ll) w3 = (Ret (page :: rest), w4) ->
    let expiresAtMs :=
      now env + (if 3600 <? expiresIn ll then expiresIn ll else sixtyDays) * 1000 in
    (exists done, (TokenManager.setupTokensFromShortLived env t w).1 = Ret (SetupOk done)
                  /\ expiresAt done = expiresAtMs)
    /\ props (TokenManager.setupTokensFromShortLived env t w).2 !! TOKEN_EXPIRES_AT
       = Some (toString expiresAtMs).
Proof.
    intros Hi Ha Hx Hp expiresAtMs.
    unfold TokenManager.setupTokensFromShortLived.
    match goal with |- context [try_catch ?body ?h w] =>
      assert (HB : exists done w', body w = (Ret (SetupOk done), w')
          /\ expiresAt done = expiresAtMs
          /\ props w' !! TOKEN_EXPIRES_AT = Some (toString expiresAtMs));
      [| destruct HB as (done & w' & HB & HE & HK);
         rewrite (try_catch_ret_run _ _ _ _ _ HB); eauto ]
    end.
    erewrite bind_run by exact Hi.
    erewrite bind_run by exact Ha.
    erewrite bind_run by exact Hx.
    erewrite bind_run by exact Hp. cbv beta iota.
    erewrite bind_run by reflexivity.
    assert (Hsame : (if (0 <? expiresIn ll) && (3600 <? expiresIn ll) then expiresIn ll
                     else if 0 <? expiresIn ll then sixtyDays else sixtyDays)
                    = (if 3600 <? expiresIn ll then expiresIn ll else sixtyDays)).
    { destruct (Z.ltb_spec 0 (expiresIn ll)), (Z.ltb_spec 3600 (expiresIn ll));
        simpl; try reflexivity; lia. }
    eexists _, _. split; [reflexivity|].
    cbn [expiresAt props log_write set_props write_batch foldl fst snd].
    cbv zeta. rewrite Hsame. split; [reflexivity|].
    rewrite lookup_insert_eq. reflexivity.
Qed.

(** C1, as the code has it.  Each flow that stores an expiry follows
      the precedence only in part.  The refresh with app credentials
      follows it whenever a signal is available: data-access expiry, then
      token expiry, then [now] plus the exchange's expires-in.  The refresh
      without app credentials follows its first two steps.  The long-token
      setup, for an introspection without a positive data-access expiry,
      follows the remaining three steps, the relative expires-in being the
      introspection's.  The short-token setup consults no introspection:
      it stores [now] plus the exchange's expires-in when that exceeds 3600
      seconds, and [now] plus 60 days otherwise. *)
Theorem expiry_reconciliation_by_flow :
    (forall w u a s tokenInfo w1 page rest w2 info w3,
        props w !! USER_ACCESS_TOKEN = Some u -> u <> "" ->
        props w !! APP_ID = Some a -> a <> "" ->
        props w !! APP_SECRET = Some s -> s <> "" ->
        TokenManagerDebug.exchangeToLongLivedTokenWithCredentials env u a s w
          = (Ret tokenInfo, w1) ->
        TokenManagerDebug.getPageTokens env (accessToken tokenInfo) w1
          = (Ret (page :: rest), w2) ->
        TokenManagerDebug.getTokenInfoFromToken env (accessToken tokenInfo) (Some a) (Some s) w2
          = (Ret info, w3) ->
        0 <= now env ->
        gt0 (ti_dataAccessExpiresAt info) || gt0 (ti_expiresAt info)
          || (0 <? expiresIn tokenInfo) = true ->
        (TokenManagerDebug.refreshToken env w).1 = Ret true
        /\ props (TokenManagerDebug.refreshToken env w).2 !! TOKEN_EXPIRES_AT
           = Some (toString (reconcile (ti_dataAccessExpiresAt info) (ti_expiresAt info)
                               (expiresIn tokenInfo) (now env))))
    /\ (forall w u page rest w1 info w2,
        props w !! USER_ACCESS_TOKEN = Some u -> u <> "" ->
        truthy (props w !! APP_ID) && truthy (props w !! APP_SECRET) = false ->
        TokenManagerDebug.getPageTokens env u w = (Ret (page :: rest), w1) ->
        TokenManagerDebug.getTokenInfoFromToken env u (props w !! APP_ID)
          (props w !! APP_SECRET) w1 = (Ret info, w2) ->
        gt0 (ti_dataAccessExpiresAt info) || gt0 (ti_expiresAt info) = true ->
        (TokenManagerDebug.refreshToken env w).1 = Ret true
        /\ props (TokenManagerDebug.refreshToken env w).2 !! TOKEN_EXPIRES_AT
           = Some (toString (reconcile (ti_dataAccessExpiresAt info) (ti_expiresAt info)
                               0 (now env))))
    /\ (forall t w info w1 page rest w2,
        t <> "" ->
        TokenManagerDebug.getTokenInfoFromToken env t None None w = (Ret info, w1) ->
        TokenManagerDebug.getPageTokens env t w1 = (Ret (page :: rest), w2) ->
        gt0 (ti_dataAccessExpiresAt info) = false ->
        props (TokenManagerDebug.setupTokensFromLongToken env t w).2 !! TOKEN_EXPIRES_AT
        = Some (toString (reconcile (ti_dataAccessExpiresAt info) (ti_expiresAt info)
                            (ti_expiresIn info) (now env))))
    /\ (forall t w ti w1 ai w2 ll w3 page rest w4,
        TokenManager.getTokenInfoFromToken env t w = (Ret ti, w1) ->
        TokenManager.appInfoOrUnknown env t w1 = (Ret ai, w2) ->
        TokenManager.exchangeToLongLivedToken env t w2 = (Ret ll, w3) ->
        TokenManager.getPageTokens env (accessToken ll) w3 = (Ret (page :: rest), w4) ->
        props (TokenManager.setupTokensFromShortLived env t w).2 !! TOKEN_EXPIRES_AT
        = Some (toString (now env + (if 3600 <? expiresIn ll then expiresIn ll
                                     else sixtyDays) * 1000))).
Proof.
    split; [|split; [|split]].
    - intros w u a s tokenInfo w1 page rest w2 info w3 Hu Hun Ha Han Hs Hsn Hx Hp Hi Hnow Hsig.
      destruct (refresh_expiry _ _ _ _ _ _ _ _ _ _ _ Hu Hun Ha Han Hs Hsn Hx Hp Hi)
        as [Hr Hst].
      split; [exact Hr|]. rewrite Hst.
      f_equal. unfold outcomeExpiry, infoExpiry, reconcile.
      destruct (gt0 (ti_dataAccessExpiresAt info)); [reflexivity|].
      destruct (gt0 (ti_expiresAt info)); [reflexivity|].
      simpl in Hsig. rewrite Hsig.
      apply Z.ltb_lt in Hsig.
      destruct (Z.eqb_spec (expiresIn tokenInfo) 0); [lia|].
      destruct (Z.eqb_spec (now env + expiresIn tokenInfo * 1000) 0); [lia|].
      reflexivity.
    - intros w u page rest w1 info w2 Hu Hun Hcred Hp Hi Hsig.
      destruct (degraded_refresh_expiry _ _ _ _ _ _ _ Hu Hun Hcred Hp Hi) as [Hr Hst].
      split; [exact Hr|]. rewrite Hst.
      f_equal. unfold outcomeExpiry, infoExpiry, reconcile.
      destruct (gt0 (ti_dataAccessExpiresAt info)); [reflexivity|].
      destruct (gt0 (ti_expiresAt info)); [reflexivity|discriminate].
    - intros t w info w1 page rest w2 Ht Hi Hp Hda.
      destruct (long_token_expiry _ _ _ _ _ _ _ Ht Hi Hp) as [_ Hst].
      rewrite Hst. f_equal. unfold reconcile. rewrite Hda. reflexivity.
    - intros t w ti w1 ai w2 ll w3 page rest w4 Hi Ha Hx Hp.
      destruct (short_lived_expiry _ _ _ _ _ _ _ _ _ _ _ Hi Ha Hx Hp) as [_ Hst].
      exact Hst.
Qed.
End Flows.

(** An upstream that serves the four token endpoints only. *)
Definition tokenNet
           (debug : list Call -> string -> string -> Fetched DebugBody)
           (info : list Call -> string -> Fetched InfoBody)
           (exchange : list Call -> string -> string -> string -> Fetched ExchangeBody)
           (accounts : list Call -> string -> Fetched AccountsBody) : Upstream :=
  {| up_debug_token := debug;
     up_access_token_info := info;
     up_exchange := exchange;
     up_accounts := accounts;
     up_comments := up_comments quiet;
     up_comments_since := up_comments_since quiet;
     up_reply := up_reply quiet;
     up_feed := up_feed quiet;
     up_permalink := up_permalink quiet;
     up_me := up_me quiet;
     up_posts := up_posts quiet;
     up_reels := up_reels quiet |}.

Definition onePage : AccountsBody :=
  {| ab_data := Some [ {| page_access_token := "PAGE2"; page_id := "42";
                          page_name := "Shop" |} ] |}.

(** A sample for the short-token setup: the exchange succeeds with a
    relative expires-in of 1800 seconds. *)
Definition halfHourNet : Upstream :=
  tokenNet
    (fun _ _ _ => NetFail)
    (fun _ _ => Http 200 "ok" (Some {| ib_app_id := Some "APP"; ib_app_secret := Some "SECRET";
                                       ib_type := None; ib_expires_in := Some 1800 |}))
    (fun _ _ _ _ => Http 200 "ok" (Some {| xb_access_token := Some "LONG";
                                           xb_expires_in := Some 1800;
                                           xb_token_type := None |}))
    (fun _ _ => Http 200 "ok" (Some onePage)).

(** C1 fails as stated: with no introspected expiry and a fallback
    expires-in of 1800 seconds from the exchange, the precedence gives
    [now + 1800 s]; the short-token setup stores [now + 60 days]. *)
Lemma short_setup_ignores_small_fallback :
  (TokenManager.exchangeToLongLivedToken (platform halfHourNet 0) "SHORT" (world [])).1
  = Ret {| accessToken := "LONG"; expiresIn := 1800; tokenType := "bearer" |}
  /\ props (TokenManager.setupTokensFromShortLived (platform halfHourNet 0) "SHORT"
              (world [])).2 !! PROP_KEYS.TOKEN_EXPIRES_AT
     = Some "5184000000"
  /\ toString (reconcile None None 1800 0) = "1800000".
Proof. vm_compute. repeat split; reflexivity. Qed.

(** A sample for the refresh: both expiries are reported, the
    data-access one being the later. *)
Definition bothExpiriesNet : Upstream :=
  tokenNet
    (fun _ _ _ =>
       Http 200 "ok"
         (Some {| db_data :=
                    Some {| dd_app_id := Some "APP"; dd_type := Some "USER";
                            dd_application := None; dd_is_valid := Some true;
                            dd_user_id := None; dd_expires_at := Some 1000;
                            dd_data_access_expires_at := Some 2000;
                            dd_scopes := None |} |}))
    (fun _ _ => NetFail)
    (fun _ _ _ _ => Http 200 "ok" (Some {| xb_access_token := Some "LONG";
                                           xb_expires_in := Some 5184000;
                                           xb_token_type := Some "bearer" |}))
    (fun _ _ => Http 200 "ok" (Some onePage)).

(** Discharges [run = (outcome, world)] at a closed input by evaluating
    the run; what the right-hand side leaves open is read off the result. *)
Ltac evaluate :=
  match goal with
  | |- ?l = _ =>
      let v := eval vm_compute in l in
      transitivity v; [vm_compute; reflexivity | reflexivity]
  end.

Lemma expiry_reconciliation_witness :
  props (TokenManagerDebug.refreshToken (platform bothExpiriesNet 5) credentialed).2
    !! PROP_KEYS.TOKEN_EXPIRES_AT
  = Some (toString (reconcile (Some 2000) (Some 1000) 5184000 5)).
Proof.
  pose proof (proj1 (expiry_reconciliation_by_flow (platform bothExpiriesNet 5))
                credentialed "USER" "APP" "SECRET") as H.
  edestruct H as [_ Hst].
  - evaluate.
  - discriminate.
  - evaluate.
  - discriminate.
  - evaluate.
  - discriminate.
  - evaluate.
  - evaluate.
  - evaluate.
  - vm_compute. discriminate.
  - vm_compute; reflexivity.
  - exact Hst.
Defined.

(** A sample for the introspector: a token that never expires. *)
Definition neverExpiresNet : Upstream :=
  tokenNet
    (fun _ _ _ =>
       Http 200 "ok"
         (Some {| db_data :=
                    Some {| dd_app_id := Some "APP"; dd_type := Some "PAGE";
                            dd_application := None; dd_is_valid := Some true;
                            dd_user_id := None; dd_expires_at := Some 0;
                            dd_data_access_expires_at := Some 0;
                            dd_scopes := None |} |}))
    (fun _ _ => NetFail)
    (fun _ _ _ _ => NetFail)
    (fun _ _ => NetFail).

Definition neverExpiresInfo : TokenInfo :=
  {| ti_appId := Some "APP"; ti_type := Some "PAGE"; ti_application := None;
     ti_isValid := Some true; ti_userId := None; ti_expiresAt := Some 0;
     ti_dataAccessExpiresAt := Some 0; ti_scopes := []; ti_expiresIn := 0;
     ti_isLongLived := true; ti_expires_in := 0; ti_app_id := Some "APP" |}.

Lemma introspection_numeric_witness :
  exists w',
    TokenManagerDebug.getTokenInfoFromDebugToken (platform neverExpiresNet 1700000000000)
      "TOKEN" None (world []) = (Ret neverExpiresInfo, w')
    /\ ti_isLongLived neverExpiresInfo = true /\ ti_expiresIn neverExpiresInfo = 0.
Proof.
  eexists.
  assert (Hnow : 0 <= now (platform neverExpiresNet 1700000000000)) by (simpl; lia).
  assert (Hrun : TokenManagerDebug.getTokenInfoFromDebugToken
                   (platform neverExpiresNet 1700000000000) "TOKEN" None (world [])
                 = (Ret neverExpiresInfo,
                    (TokenManagerDebug.getTokenInfoFromDebugToken
                       (platform neverExpiresNet 1700000000000) "TOKEN" None (world [])).2))
    by (vm_compute; reflexivity).
  split; [exact Hrun|].
  destruct (introspection_numeric_semantics _ _ _ _ _ _ Hnow Hrun) as (_ & _ & _ & Hzero).
  apply Hzero. reflexivity.
Defined.

(** C8 fails as stated for the introspector with its fallback: when the
    debug-token lookup fails and the legacy endpoint reports an expires-in
    of 1800 seconds, the result has [expiresAt = 0] with [expiresIn = 1800]
    and is not long-lived. *)
Lemma degraded_result_is_not_long_lived :
  exists info,
    (TokenManagerDebug.getTokenInfoFromToken (platform halfHourNet 1700000000000)
       "TOKEN" None None (world [])).1 = Ret info
    /\ ti_expiresAt info = Some 0
    /\ ti_expiresIn info = 1800
    /\ ti_isLongLived info = false.
Proof. eexists. split; [vm_compute; reflexivity|]. repeat split; reflexivity. Qed.

(** * The self-retrying wrapper (C2, C6) *)

(** The endpoint a request goes to. *)
Inductive Endpoint : Type :=
| EDebugToken | EAccessTokenInfo | EExchange | EAccounts
| EComments | ECommentsSince | EReply | EFeed | EPermalink | EMe | EPosts | EReels.

#[global] Instance Endpoint_eq_dec : EqDecision Endpoint.
Proof. solve_decision. Defined.

Definition endpoint (r : Request) : Endpoint :=
  match r with
  | GetDebugToken _ _ => EDebugToken
  | GetAccessTokenInfo _ => EAccessTokenInfo
  | GetExchange _ _ _ => EExchange
  | GetAccounts _ => EAccounts
  | GetComments _ _ _ => EComments
  | GetCommentsSince _ _ _ _ => ECommentsSince
  | PostReply _ _ _ => EReply
  | PostFeed _ _ => EFeed
  | GetPermalink _ _ => EPermalink
  | GetMe _ => EMe
  | GetPosts _ _ _ => EPosts
  | GetReels _ _ _ _ => EReels
  end.

(** How many of the calls made so far went to endpoint [e]. *)
Definition callsTo (e : Endpoint) (w : World) : nat :=
  List.length (filter (fun c => endpoint (req c) = e) (calls w)).

(** Everything is allowed but a call to endpoint [e]. *)
Definition noCallTo (e : Endpoint) : Footprint :=
  {| fp_write := fun _ => true;
     fp_call := fun c => bool_decide (endpoint (req c) <> e);
     fp_log := fun _ => true |}.

Lemma filter_noCallTo e cs :
  forallb (fp_call (noCallTo e)) cs = true ->
  filter (fun c => endpoint (req c) = e) cs = [].
Proof.
  induction cs as [|c cs IH]; [reflexivity|].
  simpl. intros Hf. apply andb_true_iff in Hf as [Hc Hf].
  apply bool_decide_eq_true in Hc.
  rewrite filter_cons_False by exact Hc. auto.
Qed.

Lemma within_noCallTo e w w' : within (noCallTo e) w w' -> callsTo e w' = callsTo e w.
Proof.
  intros (_ & [cs [Hc Hf]] & _). unfold callsTo.
  rewrite Hc, filter_app, (filter_noCallTo _ _ Hf). reflexivity.
Qed.

Lemma callsTo_log_call e c w :
  endpoint (req c) = e -> callsTo e (log_call c w) = S (callsTo e w).
Proof. intros He. unfold callsTo. simpl. rewrite filter_cons_True by exact He. reflexivity. Qed.

Lemma token_le_noCallTo e :
  (forall r, tokenEndpoint r = true -> endpoint r <> e) -> fp_le tokenFootprint (noCallTo e).
Proof.
  intros He. repeat split; simpl; auto. intros c Hc. apply bool_decide_eq_true. auto.
Qed.

Section Wrapper.
Context (env : Platform) (refreshToken : M bool).
Context {B A : Type}.
Context (request : string -> Request)
        (answer : string -> list Call -> Fetched B)
        (label : string)
        (onSuccess : string -> Response B -> M A).

#[local] Abbreviation resilient :=
  (FacebookApi.resilient refreshToken request answer label onSuccess).

(** The answer carries the session-expired signature. *)
Definition expired (f : Fetched B) : Prop :=
  exists text json, f = Http 400 text json /\ includes text "Session has expired" = true.

Definition expiredb (f : Fetched B) : bool :=
  match f with
  | Http c text _ => (c =? 400) && includes text "Session has expired"
  | NetFail => false
  end.

Lemma expired_expiredb f : expired f <-> expiredb f = true.
Proof.
  split.
  - intros (text & json & -> & Hi). unfold expiredb. rewrite Hi. reflexivity.
  - destruct f as [|c text json]; unfold expiredb; [discriminate|].
    rewrite andb_true_iff, Z.eqb_eq. intros [-> Hi]. exists text, json. auto.
Qed.

(** The error a failed refresh is surfaced as. *)
Definition refreshFailed : Error :=
  JsError ("トークンの自動更新に失敗しました: "
           +:+ "トークンの自動更新に失敗しました。手動でトークンを更新してください。").

(** How the wrapper hands on what its self-call did: a thrown error is
    wrapped once more. *)
Definition rewrap (r : Outcome A * World) : Outcome A * World :=
  match r with
  | (Throw e, w) => (Throw (JsError ("トークンの自動更新に失敗しました: " +:+ message e)), w)
  | r => r
  end.

Lemma resilient_refresh_failed fuel token w w2 :
  expired (answer token (calls w)) ->
  refreshToken (log_call {| req := request token; status := Some 400 |} w) = (Ret false, w2) ->
  resilient (S fuel) token w = (Throw refreshFailed, w2).
Proof.
  intros (text & json & Ha & Hi) Hr.
  simpl. unfold bind at 1. unfold fetch. rewrite Ha. simpl. rewrite Hi.
  unfold try_catch, bind. rewrite Hr. reflexivity.
Qed.

Lemma resilient_retry fuel token w w2 :
  expired (answer token (calls w)) ->
  refreshToken (log_call {| req := request token; status := Some 400 |} w) = (Ret true, w2) ->
  resilient (S fuel) token w
  = rewrap (resilient fuel (FacebookApi.tokenString (props w2 !! PROP_KEYS.PAGE_ACCESS_TOKEN)) w2).
Proof.
  intros (text & json & Ha & Hi) Hr.
  simpl. unfold bind at 1. unfold fetch. rewrite Ha. simpl. rewrite Hi.
  unfold try_catch, bind at 1. rewrite Hr. unfold bind at 1, getProperty.
  destruct (resilient fuel _ w2) as [[a|e|] w3]; reflexivity.
Qed.

Context (e : Endpoint) (He : forall t, endpoint (request t) = e).
Context (Hsucc : forall t res, keeps (noCallTo e) (onSuccess t res)).

(** A call that does not come back with the signature is the only one. *)
Lemma resilient_single fuel token w :
  ~ expired (answer token (calls w)) ->
  callsTo e (resilient (S fuel) token w).2 = S (callsTo e w).
Proof.
  rewrite expired_expiredb. intros Hne. apply not_true_is_false in Hne.
  simpl. unfold bind at 1. unfold fetch.
  destruct (answer token (calls w)) as [|c text json]; simpl in *.
  - apply callsTo_log_call. apply He.
  - destruct (failed c).
    + rewrite Hne. simpl. apply callsTo_log_call. apply He.
    + rewrite (within_noCallTo _ _ _ (Hsucc _ _ _)). apply callsTo_log_call. apply He.
Qed.
Context (Hrefresh : keeps (noCallTo e) refreshToken).

Lemma rewrap_world r : (rewrap r).2 = r.2.
Proof. destruct r as [[a|x|] w]; reflexivity. Qed.

(** After an expiry and a successful refresh, a retried call that does
    not come back with the signature makes two calls in all. *)
Lemma resilient_twice fuel token w w2 :
  expired (answer token (calls w)) ->
  refreshToken (log_call {| req := request token; status := Some 400 |} w) = (Ret true, w2) ->
  ~ expired (answer (FacebookApi.tokenString (props w2 !! PROP_KEYS.PAGE_ACCESS_TOKEN)) (calls w2)) ->
  callsTo e (resilient (S (S fuel)) token w).2 = S (S (callsTo e w)).
Proof.
  intros Hx Hr Hn. rewrite (resilient_retry _ _ _ _ Hx Hr), rewrap_world.
  rewrite (resilient_single _ _ _ Hn). f_equal.
  pose proof (Hrefresh (log_call {| req := request token; status := Some 400 |} w)) as Hk.
  rewrite Hr in Hk. simpl in Hk. rewrite (within_noCallTo _ _ _ Hk).
  apply callsTo_log_call. apply He.
Qed.

(** Whatever the wrapper does stays within a footprint that its call,
    the refresh and its continuation stay within. *)
Lemma keeps_resilient F fuel token :
  keeps F refreshToken ->
  (forall t, keeps F (fetch (request t) (answer t))) ->
  (forall t res, keeps F (onSuccess t res)) ->
  keeps F (resilient fuel token).
Proof.
  intros Hr Hf Hs. revert token. induction fuel as [|fuel IH]; intros token; simpl.
  - apply keeps_diverge.
  - repeat first [ apply Hr | apply Hf | apply Hs | apply IH | keeps_step ].
Qed.
End Wrapper.

(** ** The wrapped operations *)

(** The operations of the file that start with their request and let
    its failures through, each with the arguments it passes on unchanged
    when it calls itself.  The seventh operation with the retry block,
    [fetchRecentReels], looks the page up first and catches what the block
    throws; it is treated on its own below. *)
Inductive Wrapped : Type -> Type :=
| FetchComments (postId : string) (limit : Z) : Wrapped (list Comment)
| FetchCommentsSince (postId : string) (sinceMs limit : Z) : Wrapped (list Comment)
| ReplyTo (commentId message : string) : Wrapped string
| CreatePagePost (message : string) : Wrapped FacebookApi.PagePost
| GetPageInfo : Wrapped FacebookApi.PageInfo
| FetchRecentPosts (lookbackDays maxCount : Z) : Wrapped (list string).

Definition invoke (env : Platform) (refreshToken : M bool) {A} (op : Wrapped A)
           (fuel : nat) (token : string) : M A :=
  match op with
  | FetchComments postId limit =>
      FacebookApi.fetchComments env refreshToken fuel postId token limit
  | FetchCommentsSince postId sinceMs limit =>
      FacebookApi.fetchCommentsSince env refreshToken fuel postId token sinceMs limit
  | ReplyTo commentId message =>
      FacebookApi.postReply env refreshToken fuel commentId message token
  | CreatePagePost message => FacebookApi.createPagePost env refreshToken fuel message token
  | GetPageInfo => FacebookApi.getPageInfo env refreshToken fuel token
  | FetchRecentPosts lookbackDays maxCount =>
      FacebookApi.fetchRecentPosts env refreshToken fuel token lookbackDays maxCount
  end.

(** The request an operation sends with a given token. *)
Definition requestOf (env : Platform) {A} (op : Wrapped A) (token : string) : Request :=
  match op with
  | FetchComments postId limit => GetComments postId (FacebookApi.clampLimit limit) token
  | FetchCommentsSince postId sinceMs limit =>
      GetCommentsSince postId (sinceMs / 1000) (FacebookApi.clampLimit limit) token
  | ReplyTo commentId message => PostReply commentId message token
  | CreatePagePost message => PostFeed message token
  | GetPageInfo => GetMe token
  | FetchRecentPosts lookbackDays maxCount =>
      GetPosts ((now env - lookbackDays * 24 * 60 * 60 * 1000) / 1000) maxCount token
  end.

(** The status and body text of an answer; [None] for a transport
    failure. *)
Definition signature {B} (f : Fetched B) : option (Z * string) :=
  match f with
  | NetFail => None
  | Http code text _ => Some (code, text)
  end.

(** How the upstream answers an operation's request after the calls [h]. *)
Definition answerOf (env : Platform) {A} (op : Wrapped A) (token : string) (h : list Call)
  : option (Z * string) :=
  match op with
  | FetchComments postId limit =>
      signature (up_comments (net env) h postId (FacebookApi.clampLimit limit) token)
  | FetchCommentsSince postId sinceMs limit =>
      signature (up_comments_since (net env) h postId (sinceMs / 1000)
                   (FacebookApi.clampLimit limit) token)
  | ReplyTo commentId message => signature (up_reply (net env) h commentId message token)
  | CreatePagePost message => signature (up_feed (net env) h message token)
  | GetPageInfo => signature (up_me (net env) h token)
  | FetchRecentPosts lookbackDays maxCount =>
      signature (up_posts (net env) h
                   ((now env - lookbackDays * 24 * 60 * 60 * 1000) / 1000) maxCount token)
  end.

(** Status 400 with a body that contains ["Session has expired"]. *)
Definition sessionExpired (a : option (Z * string)) : Prop :=
  exists text, a = Some (400, text) /\ includes text "Session has expired" = true.

Lemma sessionExpired_expired {B} (f : Fetched B) :
  sessionExpired (signature f) <-> expired f.
Proof.
  split.
  - intros (text & Hs & Hi). destruct f as [|c t j]; simpl in Hs; [discriminate|].
    inversion Hs; subst. exists text, j. auto.
  - intros (text & json & -> & Hi). exists text. auto.
Qed.

Section Invoker.
Context (env : Platform) (refreshToken : M bool).

(** The refresh calls token endpoints only. *)
Context (Hrefresh : keeps tokenFootprint refreshToken).

Lemma refresh_noCallTo e :
  (forall r, tokenEndpoint r = true -> endpoint r <> e) -> keeps (noCallTo e) refreshToken.
Proof.
  intros He w. eapply within_mono; [apply token_le_noCallTo; exact He | apply Hrefresh].
Qed.

Lemma requestOf_endpoint {A} (op : Wrapped A) t t' :
  endpoint (requestOf env op t) = endpoint (requestOf env op t').
Proof. destruct op; reflexivity. Qed.

Lemma requestOf_not_token {A} (op : Wrapped A) t r :
  tokenEndpoint r = true -> endpoint r <> endpoint (requestOf env op t).
Proof. destruct op, r; simpl; discriminate. Qed.

(** The six operations of [Wrapped], when the refresh fails. *)
Lemma invoke_refresh_failed {A} (op : Wrapped A) fuel token w w2 :
  sessionExpired (answerOf env op token (calls w)) ->
  refreshToken (log_call {| req := requestOf env op token; status := Some 400 |} w)
  = (Ret false, w2) ->
  invoke env refreshToken op (S fuel) token w = (Throw refreshFailed, w2)
  /\ callsTo (endpoint (requestOf env op token)) w2
     = S (callsTo (endpoint (requestOf env op token)) w).
Proof.
  intros Hx Hr. split.
  - destruct op; apply sessionExpired_expired in Hx;
      exact (resilient_refresh_failed _ _ _ _ _ _ _ _ _ Hx Hr).
  - pose proof (refresh_noCallTo _ (requestOf_not_token op token)
                  (log_call {| req := requestOf env op token; status := Some 400 |} w)) as Hk.
    rewrite Hr in Hk. simpl in Hk. rewrite (within_noCallTo _ _ _ Hk).
    apply callsTo_log_call. reflexivity.
Qed.

(** The page lookup makes no call to the reels endpoint. *)
Lemma getPageInfo_noReels fuel token :
  keeps (noCallTo EReels) (FacebookApi.getPageInfo env refreshToken fuel token).
Proof.
  unfold FacebookApi.getPageInfo. apply keeps_resilient.
  - apply refresh_noCallTo. intros r Hr. destruct r; discriminate.
  - intros t. apply keeps_fetch. intros st. reflexivity.
  - intros t res. repeat keeps_step.
Qed.

(** [fetchRecentReels], when the refresh fails: the error its block
    throws is caught by its own outer handler. *)
Lemma reels_refresh_failed fuel token lookbackDays maxCount w info w1 w2 :
  FacebookApi.getPageInfo env refreshToken (S fuel) token w = (Ret info, w1) ->
  let since := (now env - lookbackDays * 24 * 60 * 60 * 1000) / 1000 in
  sessionExpired
    (signature (up_reels (net env) (calls w1) (FacebookApi.pi_pageId info) since maxCount
                  token)) ->
  refreshToken
    (log_call {| req := GetReels (FacebookApi.pi_pageId info) since maxCount token;
                 status := Some 400 |} w1) = (Ret false, w2) ->
  FacebookApi.fetchRecentReels env refreshToken (S fuel) token lookbackDays maxCount w
  = (Ret [], w2)
  /\ callsTo EReels w2 = S (callsTo EReels w).
Proof.
  intros Hpage since Hx Hr. apply sessionExpired_expired in Hx.
  destruct Hx as (text & json & Ha & Hi). split.
  - cbn [FacebookApi.fetchRecentReels]. unfold try_catch at 1. unfold bind at 1.
    rewrite Hpage. cbv zeta. fold since. unfold bind at 1, fetch. rewrite Ha.
    cbn [getResponseCode getContentText]. rewrite Hi.
    change (failed 400) with true. change (400 =? 400) with true. cbn [andb].
    unfold try_catch, bind. rewrite Hr. reflexivity.
  - pose proof (refresh_noCallTo EReels ltac:(intros r Hk; destruct r; discriminate)
                  (log_call {| req := GetReels (FacebookApi.pi_pageId info) since maxCount
                                        token;
                               status := Some 400 |} w1)) as Hk.
    rewrite Hr in Hk. simpl in Hk. rewrite (within_noCallTo _ _ _ Hk).
    rewrite callsTo_log_call by reflexivity.
    pose proof (getPageInfo_noReels (S fuel) token w) as Hp. rewrite Hpage in Hp.
    simpl in Hp. rewrite (within_noCallTo _ _ _ Hp). reflexivity.
Qed.

(** C6, as the code has it.  When the call of an operation is answered
    with status 400 and a session-expired body and the refresh returns
    [false], no operation calls again: exactly one call to its endpoint has
    been made.  [fetchComments], [fetchCommentsSince], [postReply],
    [createPagePost], [getPageInfo] and [fetchRecentPosts] then throw the
    refresh-failed error, in the world the refresh left.  [fetchRecentReels]
    does not: once its page lookup has returned, it catches the error and
    returns an empty list. *)
Theorem refresh_failure_is_not_retried :
  (forall A (op : Wrapped A) fuel token w w2,
      sessionExpired (answerOf env op token (calls w)) ->
      refreshToken (log_call {| req := requestOf env op token; status := Some 400 |} w)
      = (Ret false, w2) ->
      invoke env refreshToken op (S fuel) token w = (Throw refreshFailed, w2)
      /\ callsTo (endpoint (requestOf env op token)) w2
         = S (callsTo (endpoint (requestOf env op token)) w))
  /\ (forall fuel token lookbackDays maxCount w info w1 w2,
      FacebookApi.getPageInfo env refreshToken (S fuel) token w = (Ret info, w1) ->
      sessionExpired
        (signature (up_reels (net env) (calls w1) (FacebookApi.pi_pageId info)
                      ((now env - lookbackDays * 24 * 60 * 60 * 1000) / 1000) maxCount
                      token)) ->
      refreshToken
        (log_call {| req := GetReels (FacebookApi.pi_pageId info)
                              ((now env - lookbackDays * 24 * 60 * 60 * 1000) / 1000)
                              maxCount token;
                     status := Some 400 |} w1) = (Ret false, w2) ->
      FacebookApi.fetchRecentReels env refreshToken (S fuel) token lookbackDays maxCount w
      = (Ret [], w2)
      /\ callsTo EReels w2 = S (callsTo EReels w)).
Proof.
  split.
  - intros A op fuel token w w2. apply invoke_refresh_failed.
  - intros fuel token lookbackDays maxCount w info w1 w2 Hpage Hx Hr.
    exact (reels_refresh_failed fuel token lookbackDays maxCount w info w1 w2 Hpage Hx Hr).
Qed.

(** C2, as the code has it.  For every wrapped operation: when its call
    is answered with the session-expired signature and the refresh
    succeeds, the operation calls itself with the page token read back from
    the store, and what that self-call does is the result, an error being
    wrapped once more.  If the retried call is answered with anything but
    the signature, two calls to the endpoint have been made in all.  A
    second expiry is handled by the self-call in the same way: the retries
    are not bounded by the wrapper. *)
Theorem session_expiry_retries_by_self_call {A} (op : Wrapped A) fuel token w w2 :
  sessionExpired (answerOf env op token (calls w)) ->
  refreshToken (log_call {| req := requestOf env op token; status := Some 400 |} w)
  = (Ret true, w2) ->
  let newToken := FacebookApi.tokenString (props w2 !! PROP_KEYS.PAGE_ACCESS_TOKEN) in
  invoke env refreshToken op (S fuel) token w
  = rewrap (invoke env refreshToken op fuel newToken w2)
  /\ (fuel <> O ->
      ~ sessionExpired (answerOf env op newToken (calls w2)) ->
      callsTo (endpoint (requestOf env op token)) (invoke env refreshToken op (S fuel) token w).2
      = S (S (callsTo (endpoint (requestOf env op token)) w))).
Proof.
  intros Hx Hr newToken. split.
  - destruct op; apply sessionExpired_expired in Hx;
      exact (resilient_retry _ _ _ _ _ _ _ _ _ Hx Hr).
  - intros Hfuel Hn. destruct fuel as [|fuel]; [congruence|].
    pose proof (refresh_noCallTo _ (requestOf_not_token op token)) as Hk.
    destruct op; cbn [answerOf] in Hx, Hn; apply sessionExpired_expired in Hx;
      rewrite sessionExpired_expired in Hn;
      (eapply resilient_twice; [reflexivity | | exact Hk | exact Hx | exact Hr | exact Hn]);
      intros t res;
      repeat first
        [ keeps_step
        | apply keeps_fetch; intros; reflexivity
        | intro w0; destruct (postsSheet w0);
          [apply within_tabs; reflexivity | apply within_refl] ].
Qed.
End Invoker.

(** A sample: the comments endpoint answers with the session-expired
    signature until [n] calls have reached it, and with an empty list from
    then on; the refresh succeeds every time. *)
Definition expiringNet (n : nat) : Upstream :=
  {| up_debug_token := fun _ _ _ => NetFail;
     up_access_token_info := fun _ _ => NetFail;
     up_exchange := fun _ _ _ _ =>
       Http 200 "ok" (Some {| xb_access_token := Some "LONG";
                              xb_expires_in := Some 5184000;
                              xb_token_type := Some "bearer" |});
     up_accounts := fun _ _ => Http 200 "ok" (Some onePage);
     up_comments := fun h _ _ _ =>
       if (List.length (filter (fun c => endpoint (req c) = EComments) h) <? n)%nat
       then Http 400 "Error validating access token: Session has expired" None
       else Http 200 "ok" (Some {| cb_data := Some [] |});
     up_comments_since := up_comments_since quiet;
     up_reply := up_reply quiet;
     up_feed := up_feed quiet;
     up_permalink := up_permalink quiet;
     up_me := up_me quiet;
     up_posts := up_posts quiet;
     up_reels := up_reels quiet |}.

(** C2 fails as stated: when the retried call is answered with the
    signature again, it is not surfaced as a failure; the operation
    refreshes and calls a third time. *)
Lemma second_expiry_is_retried_again :
  (FacebookApi.fetchComments (platform (expiringNet 2) 0)
     (TokenManagerDebug.refreshToken (platform (expiringNet 2) 0))
     5 "POST" "PAGE" 50 credentialed).1 = Ret []
  /\ callsTo EComments
       (FacebookApi.fetchComments (platform (expiringNet 2) 0)
          (TokenManagerDebug.refreshToken (platform (expiringNet 2) 0))
          5 "POST" "PAGE" 50 credentialed).2 = 3%nat.
Proof. vm_compute. split; reflexivity. Qed.

Lemma debug_refreshToken_token env : keeps tokenFootprint (TokenManagerDebug.refreshToken env).
Proof. apply debug_refreshToken; [apply lookup_le_token | auto]. Qed.

Lemma legacy_refreshToken_token env : keeps tokenFootprint (TokenManager.refreshToken env).
Proof. apply legacy_refreshToken; [apply lookup_le_token | auto]. Qed.

Lemma session_expiry_retry_witness :
  callsTo EComments
    (FacebookApi.fetchComments (platform (expiringNet 1) 0)
       (TokenManagerDebug.refreshToken (platform (expiringNet 1) 0))
       2 "POST" "PAGE" 50 credentialed).2 = 2%nat.
Proof.
  pose proof (session_expiry_retries_by_self_call (platform (expiringNet 1) 0)
                (TokenManagerDebug.refreshToken (platform (expiringNet 1) 0))
                (debug_refreshToken_token _)
                (FetchComments "POST" 50) 1 "PAGE" credentialed) as H.
  edestruct H as [_ Hcount].
  - exists "Error validating access token: Session has expired". split; reflexivity.
  - evaluate.
  - apply Hcount; [discriminate|].
    intros (text & Hs & _). vm_compute in Hs. discriminate.
Defined.

(** A sample: the feed endpoint answers with the signature and the
    refresh fails, no page being managed. *)
Definition expiredFeedNet : Upstream :=
  {| up_debug_token := up_debug_token pagelessNet;
     up_access_token_info := up_access_token_info pagelessNet;
     up_exchange := up_exchange pagelessNet;
     up_accounts := up_accounts pagelessNet;
     up_comments := up_comments quiet;
     up_comments_since := up_comments_since quiet;
     up_reply := up_reply quiet;
     up_feed := fun _ _ _ =>
       Http 400 "Error validating access token: Session has expired" None;
     up_permalink := up_permalink quiet;
     up_me := up_me quiet;
     up_posts := up_posts quiet;
     up_reels := up_reels quiet |}.

Lemma refresh_failure_witness :
  (FacebookApi.createPagePost (platform expiredFeedNet 0)
     (TokenManagerDebug.refreshToken (platform expiredFeedNet 0)) 1 "hello" "PAGE"
     credentialed).1 = Throw refreshFailed
  /\ callsTo EFeed
       (FacebookApi.createPagePost (platform expiredFeedNet 0)
          (TokenManagerDebug.refreshToken (platform expiredFeedNet 0)) 1 "hello" "PAGE"
          credentialed).2 = 1%nat.
Proof.
  pose proof (proj1 (refresh_failure_is_not_retried (platform expiredFeedNet 0)
                       (TokenManagerDebug.refreshToken (platform expiredFeedNet 0))
                       (debug_refreshToken_token _))
                _ (CreatePagePost "hello") 0%nat "PAGE" credentialed) as H.
  edestruct H as [Hthrow Hcount].
  - exists "Error validating access token: Session has expired". split; reflexivity.
  - evaluate.
  - change (invoke (platform expiredFeedNet 0)
              (TokenManagerDebug.refreshToken (platform expiredFeedNet 0))
              (CreatePagePost "hello") 1 "PAGE" credentialed)
      with (FacebookApi.createPagePost (platform expiredFeedNet 0)
              (TokenManagerDebug.refreshToken (platform expiredFeedNet 0)) 1 "hello" "PAGE"
              credentialed) in Hthrow.
    rewrite Hthrow. split; [reflexivity|]. exact Hcount.
Defined.

(** A sample: the page lookup succeeds, the reels endpoint answers with
    the signature and the refresh fails, no page being managed. *)
Definition expiredReelsNet : Upstream :=
  {| up_debug_token := up_debug_token pagelessNet;
     up_access_token_info := up_access_token_info pagelessNet;
     up_exchange := up_exchange pagelessNet;
     up_accounts := up_accounts pagelessNet;
     up_comments := up_comments quiet;
     up_comments_since := up_comments_since quiet;
     up_reply := up_reply quiet;
     up_feed := up_feed quiet;
     up_permalink := up_permalink quiet;
     up_me := fun _ _ => Http 200 "ok" (Some {| idb_id := Some "42"; idb_name := Some "Shop" |});
     up_posts := up_posts quiet;
     up_reels := fun _ _ _ _ _ =>
       Http 400 "Error validating access token: Session has expired" None |}.

(** C6 fails as stated: [fetchRecentReels], whose call is answered with
    the signature while the refresh returns [false], makes its one call and
    raises nothing; it returns an empty list. *)
Lemma reels_swallow_refresh_failure :
  (TokenManagerDebug.refreshToken (platform expiredReelsNet 0)
     (log_call {| req := GetReels "42" (-259200) 10 "PAGE"; status := Some 400 |}
        (log_call {| req := GetMe "PAGE"; status := Some 200 |} credentialed))).1
  = Ret false
  /\ (FacebookApi.fetchRecentReels (platform expiredReelsNet 0)
        (TokenManagerDebug.refreshToken (platform expiredReelsNet 0)) 1 "PAGE" 3 10
        credentialed).1 = Ret []
  /\ callsTo EReels
       (FacebookApi.fetchRecentReels (platform expiredReelsNet 0)
          (TokenManagerDebug.refreshToken (platform expiredReelsNet 0)) 1 "PAGE" 3 10
          credentialed).2 = 1%nat.
Proof. vm_compute. repeat split; reflexivity. Qed.

(** * The page token and its page id (C9) *)

(** What the store-writing operations may do: any call, any row, and
    batches that write the page id whenever they write the page token. *)
Definition chainFootprint : Footprint :=
  {| fp_write := balanced; fp_call := fun _ => true; fp_log := fun _ => true |}.

Lemma lookup_le_chain : fp_le lookupFootprint chainFootprint.
Proof. repeat split; simpl; auto; discriminate. Qed.

Lemma token_le_chain : fp_le tokenFootprint chainFootprint.
Proof. repeat split; simpl; auto. Qed.

(** The invariant: no batch was ever written with the page token and
    without the page id, and the store holds no page token without a page
    id. *)
Definition ChainInv (w : World) : Prop :=
  Forall (fun b => balanced b = true) (writes w)
  /\ (is_Some (props w !! PROP_KEYS.PAGE_ACCESS_TOKEN) ->
      is_Some (props w !! PROP_KEYS.PAGE_ID)).

Lemma write_batch_absent k b m : has_key k b = false -> write_batch b m !! k = m !! k.
Proof.
  unfold write_batch. revert m. induction b as [|[k' v] b IH]; intros m; simpl; [reflexivity|].
  rewrite orb_false_iff. intros [Hk Hb]. rewrite IH by exact Hb.
  apply String.eqb_neq in Hk. apply lookup_insert_ne. exact Hk.
Qed.

Lemma write_batch_present k b m : has_key k b = true -> is_Some (write_batch b m !! k).
Proof.
  unfold write_batch. revert m. induction b as [|[k' v] b IH]; intros m; simpl; [discriminate|].
  destruct (has_key k b) eqn:Hb.
  - intros _. apply IH. reflexivity.
  - rewrite orb_false_r. intros Hk. apply String.eqb_eq in Hk. subst k'.
    fold (write_batch b (<[k:=v]> m)). rewrite write_batch_absent by exact Hb.
    rewrite lookup_insert_eq. eauto.
Qed.

Lemma balanced_write b m :
  balanced b = true ->
  (is_Some (m !! PROP_KEYS.PAGE_ACCESS_TOKEN) -> is_Some (m !! PROP_KEYS.PAGE_ID)) ->
  is_Some (write_batch b m !! PROP_KEYS.PAGE_ACCESS_TOKEN) ->
  is_Some (write_batch b m !! PROP_KEYS.PAGE_ID).
Proof.
  unfold balanced. intros Hb Hm.
  destruct (has_key PROP_KEYS.PAGE_ID b) eqn:Hid.
  - intros _. apply write_batch_present. exact Hid.
  - rewrite orb_false_r in Hb. apply negb_true_iff in Hb.
    rewrite !write_batch_absent by assumption. exact Hm.
Qed.

Lemma within_chain w w' : within chainFootprint w w' -> ChainInv w -> ChainInv w'.
Proof.
  intros ([bs (Hw & Hf & Hp)] & _ & _) [Hws Hst]. simpl in Hf.
  split.
  - rewrite Hw. apply Forall_app. split; [|exact Hws].
    apply Forall_forall. intros b Hb. rewrite forallb_forall in Hf. apply Hf.
    apply list_elem_of_In. exact Hb.
  - rewrite Hp. clear Hw Hp. induction bs as [|b bs IH]; simpl; [exact Hst|].
    simpl in Hf. apply andb_true_iff in Hf as [Hb Hf].
    apply balanced_write; auto.
Qed.

(** The operations that write the credential store. *)
Inductive StoreOp : Type :=
| OpRefresh
| OpSetupLong (longLivedToken : string)
| OpSetupShort (shortLivedToken : string)
| OpCheckAndRefresh
| OpLegacyRefresh
| OpLegacySetupLong (longLivedToken : string)
| OpLegacySaveApp (appId appSecret : string)
| OpInvoke {A} (op : Wrapped A) (legacy : bool) (fuel : nat) (token : string).

(** The world an operation leaves, whatever it returns. *)
Definition after (env : Platform) (op : StoreOp) (w : World) : World :=
  match op with
  | OpRefresh => (TokenManagerDebug.refreshToken env w).2
  | OpSetupLong t => (TokenManagerDebug.setupTokensFromLongToken env t w).2
  | OpSetupShort t => (TokenManager.setupTokensFromShortLived env t w).2
  | OpCheckAndRefresh => (TokenManagerDebug.checkAndRefreshToken env w).2
  | OpLegacyRefresh => (TokenManager.refreshToken env w).2
  | OpLegacySetupLong t => (TokenManager.setupTokensFromLongToken env t w).2
  | OpLegacySaveApp a s => (TokenManager.saveAppSettings a s w).2
  | OpInvoke op legacy fuel token =>
      (invoke env (if legacy then TokenManager.refreshToken env
                   else TokenManagerDebug.refreshToken env) op fuel token w).2
  end.

(** The worlds that can be reached from an empty store, each operation
    running on a platform of its own (the clock and the upstream move
    on). *)
Inductive reachable : World -> Prop :=
| reachable_empty w : props w = ∅ -> writes w = [] -> reachable w
| reachable_after env op w : reachable w -> reachable (after env op w).

Lemma keeps_invoke F env refreshToken {A} (op : Wrapped A) fuel token :
  keeps F refreshToken ->
  (forall c, fp_call F c = true) ->
  keeps F (invoke env refreshToken op fuel token).
Proof.
  intros Hr Hc.
  destruct op; apply keeps_resilient; try exact Hr; intros;
    repeat first
      [ keeps_step
      | apply keeps_fetch; intros; apply Hc
      | intro w0; destruct (postsSheet w0);
        [apply within_tabs; reflexivity | apply within_refl] ].
Qed.

Lemma after_chain env op w : within chainFootprint w (after env op w).
Proof.
  destruct op; simpl.
  - apply debug_refreshToken; [apply lookup_le_chain | auto].
  - apply debug_setupTokensFromLongToken; [apply lookup_le_chain | auto].
  - apply legacy_setupTokensFromShortLived; [apply lookup_le_chain | auto].
  - apply debug_checkAndRefreshToken; [apply lookup_le_chain | auto].
  - apply legacy_refreshToken; [apply lookup_le_chain | auto].
  - apply legacy_setupTokensFromLongToken; [apply lookup_le_chain | auto].
  - apply keeps_setProperties. reflexivity.
  - apply keeps_invoke; [|reflexivity].
    destruct legacy;
      [apply legacy_refreshToken | apply debug_refreshToken];
      first [apply lookup_le_chain | auto].
Qed.

(** C9.  In every world reachable from an empty store through the
    refresh, the long-token setup, the short-token setup and the other
    operations that write the store, each batch that wrote the page token
    wrote the page id with it, and the store holds no page token without a
    page id. *)
Theorem page_token_never_without_page_id w : reachable w -> ChainInv w.
Proof.
  induction 1 as [w Hp Hw | env op w _ IH].
  - split.
    + rewrite Hw. constructor.
    + rewrite Hp, lookup_empty. intros [x Hx]. discriminate.
  - eapply within_chain; [apply after_chain | exact IH].
Qed.

Lemma page_token_witness :
  ChainInv (after (platform bothExpiriesNet 5) OpRefresh
              (after (platform halfHourNet 0) (OpSetupShort "SHORT") (world []))).
Proof.
  apply page_token_never_without_page_id.
  apply reachable_after. apply reachable_after.
  apply reachable_empty; reflexivity.
Defined.

(** * The exchanger's fallback (C4) *)

Section Exchanger.
Context (env : Platform).

(** The fallback value: the short token itself, as a bearer token, with
    the expires-in the token-info lookup reports. *)
Definition fallbackOf (shortLivedToken : string) (tokenInfo : InfoBody) : LongLived :=
  {| accessToken := shortLivedToken;
     expiresIn := orZero (ib_expires_in tokenInfo);
     tokenType := "bearer" |}.

(** Where the token-info lookup that follows succeeds, the exchanger
    falls back as intended: without an app secret, *)
Lemma exchanger_falls_back_without_secret shortLivedToken w appInfo w1 tokenInfo w2 :
  TokenManager.getAppInfoFromToken env shortLivedToken w = (Ret appInfo, w1) ->
  truthy (TokenManager.appSecret appInfo) = false ->
  TokenManager.getTokenInfoFromToken env shortLivedToken w1 = (Ret tokenInfo, w2) ->
  TokenManager.exchangeToLongLivedToken env shortLivedToken w
  = (Ret (fallbackOf shortLivedToken tokenInfo), w2).
Proof.
  intros Ha Hs Hi. unfold TokenManager.exchangeToLongLivedToken.
  apply try_catch_ret_run.
  erewrite bind_run by exact Ha. rewrite Hs. cbn [negb].
  erewrite bind_run by exact Hi. reflexivity.
Qed.

(** and after an exchange call that was answered outside 200-299. *)
Lemma exchanger_falls_back_after_failed_exchange
      shortLivedToken w appInfo w1 secret code text json tokenInfo w3 :
  TokenManager.getAppInfoFromToken env shortLivedToken w = (Ret appInfo, w1) ->
  TokenManager.appSecret appInfo = Some secret -> secret <> "" ->
  up_exchange (net env) (calls w1) (TokenManager.appId appInfo) secret shortLivedToken
  = Http code text json ->
  failed code = true ->
  TokenManager.getTokenInfoFromToken env shortLivedToken
    (log_call {| req := GetExchange (TokenManager.appId appInfo) secret shortLivedToken;
                 status := Some code |} w1) = (Ret tokenInfo, w3) ->
  TokenManager.exchangeToLongLivedToken env shortLivedToken w
  = (Ret (fallbackOf shortLivedToken tokenInfo), w3).
Proof.
  intros Ha Hs Hne Hx Hc Hi. unfold TokenManager.exchangeToLongLivedToken.
  apply try_catch_ret_run.
  erewrite bind_run by exact Ha. rewrite Hs. cbn [truthy negb default id].
  apply String.eqb_neq in Hne. rewrite Hne. cbn [negb].
  erewrite bind_run by (unfold fetch; cbv beta; rewrite Hx; reflexivity).
  cbn [getResponseCode]. rewrite Hc.
  erewrite bind_run by exact Hi. reflexivity.
Qed.
End Exchanger.

(** A sample: the short token has expired, so the token-info endpoint
    answers 401 to every lookup. *)
Definition expiredTokenNet : Upstream :=
  tokenNet (fun _ _ _ => NetFail)
           (fun _ _ => Http 401 "Error validating access token" None)
           (fun _ _ _ _ => NetFail)
           (fun _ _ => NetFail).

(** A sample: the token-info endpoint answers the first lookup, with the
    app id and secret; the exchange is refused with 401, and so is every
    later lookup. *)
Definition refusingNet : Upstream :=
  tokenNet (fun _ _ _ => NetFail)
           (fun h _ =>
              match h with
              | [] => Http 200 "ok" (Some {| ib_app_id := Some "APP";
                                             ib_app_secret := Some "SECRET";
                                             ib_type := None;
                                             ib_expires_in := Some 3600 |})
              | _ => Http 401 "Error validating access token" None
              end)
           (fun _ _ _ _ => Http 401 "Error validating access token" None)
           (fun _ _ => NetFail).

(** C4 at its failing inputs.  The exchange call is made and answered
    401, the token-info lookup of the fallback is refused as well, and the
    exchanger throws that lookup's error; likewise when the app info cannot
    be read at all. *)
Theorem exchanger_raises_when_lookup_fails :
  (TokenManager.exchangeToLongLivedToken (platform refusingNet 0) "SHORT" (world [])).1
  = Throw (JsError ("トークン情報の取得に失敗しました: " +:+ "401 Error validating access token"))
  /\ map (fun c => (endpoint (req c), status c))
       (calls (TokenManager.exchangeToLongLivedToken (platform refusingNet 0) "SHORT"
                 (world [])).2)
     = [ (EAccessTokenInfo, Some 401); (EAccessTokenInfo, Some 401);
         (EExchange, Some 401); (EAccessTokenInfo, Some 200) ]
  /\ (TokenManager.exchangeToLongLivedToken (platform expiredTokenNet 0) "SHORT" (world [])).1
     = Throw (JsError ("トークン情報の取得に失敗しました: " +:+ "401 Error validating access token")).
Proof. vm_compute. repeat split; reflexivity. Qed.

(** * The sweeps reply once (C10) *)

(** The footprint of a sweep that skips the ids in [done]: no reply is
    posted to them and no row is logged for them. *)
Definition skipFootprint (done : gset string) : Footprint :=
  {| fp_write := fun _ => true;
     fp_call := fun c =>
       match req c with
       | PostReply id _ _ => bool_decide (id ∉ done)
       | _ => true
       end;
     fp_log := fun row => bool_decide (lr_commentId row ∉ done) |}.

Lemma token_le_skip done : fp_le tokenFootprint (skipFootprint done).
Proof.
  repeat split; simpl; auto; [|discriminate].
  intros c Hc. destruct (req c); auto; discriminate.
Qed.

(** A reply the upstream accepted: a reply request for [id] that was
    answered with a status in 200-299. *)
Definition accepted (id : string) (c : Call) : bool :=
  match req c, status c with
  | PostReply id' _ _, Some code => (id' =? id)%string && negb (failed code)
  | _, _ => false
  end.

Definition acceptedReplies (id : string) (w : World) : nat :=
  List.length (filter (fun c => accepted id c = true) (calls w)).

Definition noAccepted (id : string) : Footprint :=
  {| fp_write := fun _ => true;
     fp_call := fun c => negb (accepted id c);
     fp_log := fun _ => true |}.

Lemma token_le_noAccepted id : fp_le tokenFootprint (noAccepted id).
Proof.
  repeat split; simpl; auto. intros c Hc. unfold accepted.
  destruct (req c); try reflexivity; discriminate.
Qed.

Lemma filter_noAccepted id cs :
  forallb (fp_call (noAccepted id)) cs = true ->
  filter (fun c => accepted id c = true) cs = [].
Proof.
  induction cs as [|c cs IH]; [reflexivity|].
  simpl. intros Hf. apply andb_true_iff in Hf as [Hc Hf].
  apply negb_true_iff in Hc.
  rewrite filter_cons_False by congruence. auto.
Qed.

Lemma within_noAccepted id w w' :
  within (noAccepted id) w w' -> acceptedReplies id w' = acceptedReplies id w.
Proof.
  intros (_ & [cs [Hc Hf]] & _). unfold acceptedReplies.
  rewrite Hc, filter_app, (filter_noAccepted _ _ Hf). reflexivity.
Qed.

Lemma acceptedReplies_log_call id c w :
  acceptedReplies id (log_call c w)
  = ((if accepted id c then 1 else 0) + acceptedReplies id w)%nat.
Proof.
  unfold acceptedReplies. simpl. destruct (accepted id c) eqn:E.
  - rewrite filter_cons_True by exact E. reflexivity.
  - rewrite filter_cons_False by congruence. reflexivity.
Qed.

(** [1] when the two ids are the same, [0] otherwise. *)
Definition one_if (a b : string) : nat := if (a =? b)%string then 1 else 0.

Section Sweeps.
Context (env : Platform) (refreshToken : M bool).
Context (Hrefresh : keeps tokenFootprint refreshToken).

Lemma refresh_within F : fp_le tokenFootprint F -> keeps F refreshToken.
Proof. intros HF w. eapply within_mono; [exact HF | apply Hrefresh]. Qed.

(** One [postReply], with all its retries, has at most one reply
    accepted, and none for another comment. *)
Lemma postReply_accepts_once id fuel commentId message token w :
  (acceptedReplies id (FacebookApi.postReply env refreshToken fuel commentId message token w).2
   <= one_if commentId id + acceptedReplies id w)%nat.
Proof.
  unfold FacebookApi.postReply.
  revert token w. induction fuel as [|fuel IH]; intros token w; simpl; [lia|].
  unfold bind at 1. unfold fetch.
  destruct (up_reply (net env) (calls w) commentId message token) as [|c text json]; simpl.
  - rewrite acceptedReplies_log_call. simpl. lia.
  - destruct (failed c) eqn:Hc.
    + assert (Hlog : acceptedReplies id
                       (log_call {| req := PostReply commentId message token;
                                    status := Some c |} w) = acceptedReplies id w).
      { rewrite acceptedReplies_log_call. unfold accepted. simpl. rewrite Hc, andb_false_r.
        reflexivity. }
      destruct ((c =? 400) && includes text "Session has expired"); simpl; [|lia].
      unfold try_catch, bind at 1.
      pose proof (refresh_within _ (token_le_noAccepted id)
                    (log_call {| req := PostReply commentId message token;
                                 status := Some c |} w)) as Hk.
      apply within_noAccepted in Hk.
      destruct (refreshToken _) as [[[|]|x|] w2]; simpl in *; try lia.
      unfold bind at 1, getProperty.
      specialize (IH (FacebookApi.tokenString (props w2 !! PROP_KEYS.PAGE_ACCESS_TOKEN)) w2).
      match goal with
      | |- context [FacebookApi.resilient ?r ?q ?a ?l ?k fuel ?t w2] =>
          destruct (FacebookApi.resilient r q a l k fuel t w2) as [[y|x|] w3]
      end; simpl in *; lia.
    + match goal with
      | |- (acceptedReplies id (?m ?w0).2 <= _)%nat =>
          assert (K : keeps (noAccepted id) m) by repeat keeps_step;
          rewrite (within_noAccepted _ _ _ (K w0))
      end.
      rewrite acceptedReplies_log_call. unfold accepted, one_if. simpl. rewrite Hc. simpl.
      rewrite andb_true_r. destruct (commentId =? id)%string; lia.
Qed.

Lemma keeps_postReply F fuel commentId message token :
  fp_le tokenFootprint F ->
  (forall t st, fp_call F {| req := PostReply commentId message t; status := st |} = true) ->
  keeps F (FacebookApi.postReply env refreshToken fuel commentId message token).
Proof.
  intros HF Hc. unfold FacebookApi.postReply. apply keeps_resilient.
  - apply refresh_within. exact HF.
  - intros t. apply keeps_fetch. intros st. apply Hc.
  - intros t res. repeat keeps_step.
Qed.

Lemma keeps_fetchComments F fuel postId token limit :
  fp_le tokenFootprint F ->
  (forall r st, endpoint r = EComments -> fp_call F {| req := r; status := st |} = true) ->
  keeps F (FacebookApi.fetchComments env refreshToken fuel postId token limit).
Proof.
  intros HF Hc. unfold FacebookApi.fetchComments. apply keeps_resilient.
  - apply refresh_within. exact HF.
  - intros t. apply keeps_fetch. intros st. apply Hc. reflexivity.
  - intros t res. repeat keeps_step.
Qed.

Lemma keeps_fetchCommentsSince F fuel postId token sinceMs limit :
  fp_le tokenFootprint F ->
  (forall r st, endpoint r = ECommentsSince -> fp_call F {| req := r; status := st |} = true) ->
  keeps F (FacebookApi.fetchCommentsSince env refreshToken fuel postId token sinceMs limit).
Proof.
  intros HF Hc. unfold FacebookApi.fetchCommentsSince. apply keeps_resilient.
  - apply refresh_within. exact HF.
  - intros t. apply keeps_fetch. intros st. apply Hc. reflexivity.
  - intros t res. repeat keeps_step.
Qed.

Lemma keeps_for_fold F {X S} (l : list X) (body : S -> X -> M S) s :
  (forall s x, keeps F (body s x)) -> keeps F (Main.for_fold l body s).
Proof.
  intros Hb. revert s. induction l as [|x l IH]; intros s; simpl.
  - apply keeps_ret.
  - apply keeps_bind; [apply Hb | intros s'; apply IH].
Qed.

(** *** Ids that are skipped *)

Lemma skip_reply done commentId message t st :
  commentId ∉ done ->
  fp_call (skipFootprint done) {| req := PostReply commentId message t; status := st |} = true.
Proof. intros Hn. simpl. apply bool_decide_eq_true. exact Hn. Qed.

Lemma skip_log done commentId row :
  commentId ∉ done -> lr_commentId row = commentId -> fp_log (skipFootprint done) row = true.
Proof. intros Hn He. simpl. rewrite He. apply bool_decide_eq_true. exact Hn. Qed.

Lemma processComment_skips fuel postId token rules processedSet comment :
  keeps (skipFootprint processedSet)
    (CommentProcessor.processComment env refreshToken fuel postId token rules processedSet
       comment).
Proof.
  unfold CommentProcessor.processComment. cbv zeta.
  destruct (bool_decide_reflect (c_id comment ∈ processedSet)) as [Hin|Hout].
  - apply keeps_ret.
  - repeat first
      [ apply keeps_postReply; [apply token_le_skip | intros; apply skip_reply; exact Hout]
      | apply keeps_logComment; intros; eapply skip_log; eauto
      | keeps_step ].
Qed.

Lemma processComments_skips fuel postId token fetchLimit rules processedSet :
  keeps (skipFootprint processedSet)
    (CommentProcessor.processComments env refreshToken fuel postId token fetchLimit rules
       processedSet).
Proof.
  unfold CommentProcessor.processComments. apply keeps_bind.
  - apply keeps_fetchComments; [apply token_le_skip|].
    intros r st Hr. destruct r; try discriminate. reflexivity.
  - intros comments. apply keeps_for_each. intros c _. apply processComment_skips.
Qed.

Lemma replyOne_skips fuel token rules repliedSet sinceMs postId t c :
  keeps (skipFootprint repliedSet)
    (Main.replyOne env refreshToken fuel token rules repliedSet sinceMs postId t c).
Proof.
  unfold Main.replyOne. cbv zeta.
  destruct (trim env (c_id c) =? "")%string; [apply keeps_ret|].
  destruct (bool_decide_reflect (trim env (c_id c) ∈ repliedSet)) as [Hin|Hout].
  - apply keeps_ret.
  - repeat first
      [ apply keeps_postReply; [apply token_le_skip | intros; apply skip_reply; exact Hout]
      | apply keeps_logComment; intros; eapply skip_log; eauto
      | keeps_step ].
Qed.

(** The ids the twelve-hour sweep loads as replied. *)
Definition repliedIds (w : World) : gset string :=
  match (SheetManager.loadRepliedCommentIdsSet env w).1 with
  | Ret set => set
  | _ => ∅
  end.

Lemma loadRepliedCommentIdsSet_run w :
  SheetManager.loadRepliedCommentIdsSet env w = (Ret (repliedIds w), w).
Proof.
  unfold repliedIds, SheetManager.loadRepliedCommentIdsSet.
  destruct (logSheet w); reflexivity.
Qed.

Lemma sweep_skips fuel postIds rules w :
  within (skipFootprint (repliedIds w)) w
    (Main.replyUnrepliedCommentsLast12h env refreshToken fuel postIds rules w).2.
Proof.
  unfold Main.replyUnrepliedCommentsLast12h. unfold bind at 1, getProperty.
  destruct (negb (truthy (props w !! PROP_KEYS.PAGE_ACCESS_TOKEN))); [apply within_refl|].
  destruct postIds as [|p postIds]; [apply within_refl|].
  rewrite (bind_run _ _ _ _ _ (loadRepliedCommentIdsSet_run w)).
  apply keeps_for_fold. intros t postId. apply keeps_bind.
  - apply keeps_fetchCommentsSince; [apply token_le_skip|].
    intros r st Hr. destruct r; try discriminate. reflexivity.
  - intros comments. apply keeps_for_fold. intros t' c. apply replyOne_skips.
Qed.

(** *** What staying within the skip footprint means *)

Definition isReplyTo (id : string) (c : Call) : bool :=
  match req c with
  | PostReply id' _ _ => (id' =? id)%string
  | _ => false
  end.

(** The reply posts made to comment [id], accepted or not. *)
Definition replyPosts (id : string) (w : World) : list Call :=
  filter (fun c => isReplyTo id c = true) (calls w).

(** The rows logged for comment [id]. *)
Definition logRows (id : string) (w : World) : list LogRow :=
  filter (fun row => lr_commentId row = id) (default [] (logSheet w)).

Lemma within_skip done id w w' :
  within (skipFootprint done) w w' -> id ∈ done ->
  replyPosts id w' = replyPosts id w /\ logRows id w' = logRows id w.
Proof.
  intros (_ & [cs [Hc Hf]] & [rows [Hl Hr]]) Hin. split.
  - unfold replyPosts. rewrite Hc, filter_app.
    replace (filter (fun c => isReplyTo id c = true) cs) with (@nil Call); [reflexivity|].
    clear Hc. induction cs as [|c cs IH]; [reflexivity|].
    simpl in Hf. apply andb_true_iff in Hf as [Hc Hf].
    rewrite filter_cons_False; [apply IH; exact Hf|].
    unfold isReplyTo. destruct (req c); try discriminate.
    apply bool_decide_eq_true in Hc. intros He. apply String.eqb_eq in He. subst. auto.
  - unfold logRows. rewrite Hl. destruct (logSheet w) as [old|]; simpl; [|reflexivity].
    rewrite filter_app.
    replace (filter (fun row => lr_commentId row = id) rows) with (@nil LogRow);
      [apply app_nil_r|].
    clear Hl. induction rows as [|row rows IH]; [reflexivity|].
    simpl in Hr. apply andb_true_iff in Hr as [Hrow Hr].
    rewrite filter_cons_False; [apply IH; exact Hr|].
    apply bool_decide_eq_true in Hrow. intros He. subst. auto.
Qed.

(** *** At most one accepted reply per fetched comment *)

(** How many of the ids are [id]. *)
Fixpoint entries (id : string) (ids : list string) : nat :=
  match ids with
  | [] => 0
  | x :: rest => one_if x id + entries id rest
  end.

Lemma entries_NoDup id ids : NoDup ids -> (entries id ids <= 1)%nat.
Proof.
  induction 1 as [|x ids Hx _ IH]; simpl; [lia|].
  unfold one_if at 1. destruct (String.eqb_spec x id) as [->|]; [|lia].
  assert (entries id ids = 0%nat); [|lia].
  clear IH. induction ids as [|y ids IH]; [reflexivity|]. simpl.
  rewrite not_elem_of_cons in Hx. destruct Hx as [Hy Hx].
  unfold one_if. destruct (String.eqb_spec y id); [congruence|]. auto.
Qed.

(** [adds id k m]: a run of [m] has at most [k] more replies to [id]
    accepted. *)
Definition adds (id : string) (k : nat) {X} (m : M X) : Prop :=
  forall w, (acceptedReplies id (m w).2 <= k + acceptedReplies id w)%nat.

Lemma adds_weaken id k k' {X} (m : M X) : (k <= k')%nat -> adds id k m -> adds id k' m.
Proof. intros Hk Hm w. specialize (Hm w). lia. Qed.

Lemma adds_keeps id {X} (m : M X) : keeps (noAccepted id) m -> adds id 0 m.
Proof. intros Hk w. rewrite (within_noAccepted _ _ _ (Hk w)). lia. Qed.

Lemma adds_bind id k1 k2 {X Y} (m : M X) (f : X -> M Y) :
  adds id k1 m -> (forall x, adds id k2 (f x)) -> adds id (k1 + k2) (bind m f).
Proof.
  intros Hm Hf w. unfold bind. specialize (Hm w).
  destruct (m w) as [[x|e|] w1]; simpl in *; try lia.
  specialize (Hf x w1). lia.
Qed.

Lemma adds_try_catch id k1 k2 {X} (m : M X) h :
  adds id k1 m -> (forall e, adds id k2 (h e)) -> adds id (k1 + k2) (try_catch m h).
Proof.
  intros Hm Hh w. unfold try_catch. specialize (Hm w).
  destruct (m w) as [[x|e|] w1]; simpl in *; try lia.
  specialize (Hh e w1). lia.
Qed.

Lemma adds_for_each id {X} (f : X -> string) (l : list X) body :
  (forall x, adds id (one_if (f x) id) (body x)) ->
  adds id (entries id (map f l)) (for_each l body).
Proof.
  intros Hb. induction l as [|x l IH]; simpl.
  - intros w. simpl. lia.
  - apply adds_bind; [apply Hb | intros _; exact IH].
Qed.

Lemma adds_for_fold id {X S} (f : X -> string) (l : list X) (body : S -> X -> M S) s :
  (forall s x, adds id (one_if (f x) id) (body s x)) ->
  adds id (entries id (map f l)) (Main.for_fold l body s).
Proof.
  intros Hb. revert s. induction l as [|x l IH]; intros s; simpl.
  - intros w. simpl. lia.
  - apply adds_bind; [apply Hb | intros s'; apply IH].
Qed.

Lemma adds_postReply id fuel commentId message token :
  adds id (one_if commentId id)
    (FacebookApi.postReply env refreshToken fuel commentId message token).
Proof. intros w. apply postReply_accepts_once. Qed.

Ltac quiet_keeps id :=
  apply (adds_keeps id);
  repeat first [ apply keeps_logComment; reflexivity | keeps_step ].

Lemma processComment_accepts_once id fuel postId token rules processedSet comment :
  adds id (one_if (c_id comment) id)
    (CommentProcessor.processComment env refreshToken fuel postId token rules processedSet
       comment).
Proof.
  unfold CommentProcessor.processComment. cbv zeta.
  destruct (bool_decide (c_id comment ∈ processedSet)).
  { eapply adds_weaken; [|quiet_keeps id]. lia. }
  destruct (CommentProcessor.findMatchingRule _ _ _) as [rule|].
  - eapply adds_weaken; [|apply (adds_try_catch id (one_if (c_id comment) id + 0) 0)].
    + lia.
    + apply adds_bind; [apply adds_postReply | intros _; quiet_keeps id].
    + intros e. quiet_keeps id.
  - eapply adds_weaken; [|quiet_keeps id]. lia.
Qed.

Lemma replyOne_accepts_once id fuel token rules repliedSet sinceMs postId t c :
  adds id (one_if (trim env (c_id c)) id)
    (Main.replyOne env refreshToken fuel token rules repliedSet sinceMs postId t c).
Proof.
  unfold Main.replyOne. cbv zeta.
  destruct (trim env (c_id c) =? "")%string.
  { eapply adds_weaken; [|quiet_keeps id]. lia. }
  destruct (bool_decide (trim env (c_id c) ∈ repliedSet)).
  { eapply adds_weaken; [|quiet_keeps id]. lia. }
  destruct (if truthy (c_created_time c) then _ else _) as [created|].
  2: { eapply adds_weaken; [|quiet_keeps id]. lia. }
  destruct ((created =? 0) || (created <? sinceMs)).
  { eapply adds_weaken; [|quiet_keeps id]. lia. }
  destruct (CommentProcessor.findMatchingRule _ _ _) as [rule|].
  - eapply adds_weaken; [|apply (adds_try_catch id (one_if (trim env (c_id c)) id + 0) 0)].
    + lia.
    + apply adds_bind; [apply adds_postReply | intros _; quiet_keeps id].
    + intros e. quiet_keeps id.
  - eapply adds_weaken; [|quiet_keeps id]. lia.
Qed.

(** C10, as the code has it.  [processComments] posts no reply to, and
    logs no row for, a comment whose id is in the processed set; of the
    replies it posts for the comments it fetched, the upstream accepts at
    most one per fetched entry - at most one per id when the fetched ids
    are distinct.  The twelve-hour sweep posts no reply to, and logs no row
    for, a comment whose id it loaded as replied, and each comment it
    visits has at most one reply accepted.  The number of reply posts is
    not bounded by one: a post answered with the session-expired signature
    is repeated after a successful refresh. *)
Theorem sweeps_reply_once :
  (forall fuel postId token fetchLimit rules processedSet id w,
      id ∈ processedSet ->
      let w' := (CommentProcessor.processComments env refreshToken fuel postId token
                   fetchLimit rules processedSet w).2 in
      replyPosts id w' = replyPosts id w /\ logRows id w' = logRows id w)
  /\ (forall fuel postId token fetchLimit rules processedSet id w comments w1,
      FacebookApi.fetchComments env refreshToken fuel postId token fetchLimit w
      = (Ret comments, w1) ->
      let w' := (CommentProcessor.processComments env refreshToken fuel postId token
                   fetchLimit rules processedSet w).2 in
      (acceptedReplies id w' <= entries id (map c_id comments) + acceptedReplies id w)%nat
      /\ (NoDup (map c_id comments) -> (acceptedReplies id w' <= 1 + acceptedReplies id w)%nat))
  /\ (forall fuel postIds rules id w,
      id ∈ repliedIds w ->
      let w' := (Main.replyUnrepliedCommentsLast12h env refreshToken fuel postIds rules w).2 in
      replyPosts id w' = replyPosts id w /\ logRows id w' = logRows id w)
  /\ (forall fuel token rules repliedSet sinceMs postId t c id w,
      (acceptedReplies id
         (Main.replyOne env refreshToken fuel token rules repliedSet sinceMs postId t c w).2
       <= one_if (trim env (c_id c)) id + acceptedReplies id w)%nat).
Proof.
  split; [|split; [|split]].
  - intros fuel postId token fetchLimit rules processedSet id w Hin w'.
    eapply within_skip; [apply processComments_skips | exact Hin].
  - intros fuel postId token fetchLimit rules processedSet id w comments w1 Hf w'.
    assert (Hle : (acceptedReplies id w'
                   <= entries id (map c_id comments) + acceptedReplies id w)%nat).
    { subst w'. unfold CommentProcessor.processComments.
      rewrite (bind_run _ _ _ _ _ Hf).
      pose proof (keeps_fetchComments (noAccepted id) fuel postId token fetchLimit
                    (token_le_noAccepted id)) as Hk.
      specialize (Hk ltac:(intros r st Hr; destruct r; try discriminate; reflexivity) w).
      rewrite Hf in Hk. simpl in Hk. rewrite <- (within_noAccepted _ _ _ Hk).
      apply (adds_for_each id c_id). intros c. apply processComment_accepts_once. }
    split; [exact Hle|]. intros Hnd. pose proof (entries_NoDup id _ Hnd). lia.
  - intros fuel postIds rules id w Hin w'.
    eapply within_skip; [apply sweep_skips | exact Hin].
  - intros fuel token rules repliedSet sinceMs postId t c id w.
    apply replyOne_accepts_once.
Qed.
End Sweeps.

(** A sample: a post with two comments, the first of them processed
    before; every reply is accepted. *)
Definition twoComments : list Comment :=
  [ {| c_id := "c1"; c_from_name := Some "Aki"; c_message := Some "price?";
       c_created_time := Some "2026-01-01" |};
    {| c_id := "c2"; c_from_name := Some "Bo"; c_message := Some "what price";
       c_created_time := Some "2026-01-02" |} ].

Definition repliesNet : Upstream :=
  {| up_debug_token := up_debug_token quiet;
     up_access_token_info := up_access_token_info quiet;
     up_exchange := up_exchange quiet;
     up_accounts := up_accounts quiet;
     up_comments := fun _ _ _ _ => Http 200 "ok" (Some {| cb_data := Some twoComments |});
     up_comments_since := up_comments_since quiet;
     up_reply := fun _ _ _ _ =>
       Http 200 "ok" (Some {| idb_id := Some "r1"; idb_name := None |});
     up_feed := up_feed quiet;
     up_permalink := up_permalink quiet;
     up_me := up_me quiet;
     up_posts := up_posts quiet;
     up_reels := up_reels quiet |}.

Definition priceRule : Rule :=
  {| enabled := true; keyword := "price"; template := "Hello {name}!";
     matchType := "部分一致"; priority := 5; weight := 100 |}.

(** The sweep of the sample replies to the second comment only, once. *)
Lemma sample_sweep :
  map req (calls (CommentProcessor.processComments (platform repliesNet 0)
                    (TokenManagerDebug.refreshToken (platform repliesNet 0))
                    3 "POST" "PAGE" 50 [priceRule] {[ "c1" ]} credentialed).2)
  = [ PostReply "c2" "Hello Bo!" "PAGE"; GetComments "POST" 50 "PAGE" ]
  /\ map (fun row => (lr_commentId row, lr_status row))
       (default [] (logSheet (CommentProcessor.processComments (platform repliesNet 0)
                                (TokenManagerDebug.refreshToken (platform repliesNet 0))
                                3 "POST" "PAGE" 50 [priceRule] {[ "c1" ]} credentialed).2))
     = [ ("c2", "replied") ].
Proof. vm_compute. split; reflexivity. Qed.

Lemma sweeps_reply_once_witness :
  replyPosts "c1"
    (CommentProcessor.processComments (platform repliesNet 0)
       (TokenManagerDebug.refreshToken (platform repliesNet 0))
       3 "POST" "PAGE" 50 [priceRule] {[ "c1" ]} credentialed).2
  = replyPosts "c1" credentialed
  /\ logRows "c1"
       (CommentProcessor.processComments (platform repliesNet 0)
          (TokenManagerDebug.refreshToken (platform repliesNet 0))
          3 "POST" "PAGE" 50 [priceRule] {[ "c1" ]} credentialed).2
     = logRows "c1" credentialed.
Proof.
  assert (Hin : "c1" ∈ ({[ "c1" ]} : gset string)) by (apply elem_of_singleton; reflexivity).
  exact (proj1 (sweeps_reply_once (platform repliesNet 0)
                  (TokenManagerDebug.refreshToken (platform repliesNet 0))
                  (debug_refreshToken_token _))
           3%nat "POST" "PAGE" 50 [priceRule] {[ "c1" ]} "c1" credentialed Hin).
Defined.

(** A sample: as above, but the first reply post is answered with the
    session-expired signature, and the refresh succeeds. *)
Definition expiringReplyNet : Upstream :=
  {| up_debug_token := up_debug_token quiet;
     up_access_token_info := up_access_token_info quiet;
     up_exchange := up_exchange (expiringNet 0);
     up_accounts := up_accounts (expiringNet 0);
     up_comments := up_comments repliesNet;
     up_comments_since := up_comments_since quiet;
     up_reply := fun h _ _ _ =>
       if (List.length (filter (fun c => endpoint (req c) = EReply) h) <? 1)%nat
       then Http 400 "Error validating access token: Session has expired" None
       else Http 200 "ok" (Some {| idb_id := Some "r1"; idb_name := None |});
     up_feed := up_feed quiet;
     up_permalink := up_permalink quiet;
     up_me := up_me quiet;
     up_posts := up_posts quiet;
     up_reels := up_reels quiet |}.

(** C10 fails as stated: in one invocation of the sweep the comment
    [c2], fetched once, has two reply posts made to it - the first answered
    with the signature, the second, with the refreshed page token,
    accepted. *)
Lemma expired_reply_is_posted_twice :
  map (fun c => (req c, status c))
    (replyPosts "c2"
       (CommentProcessor.processComments (platform expiringReplyNet 0)
          (TokenManagerDebug.refreshToken (platform expiringReplyNet 0))
          3 "POST" "PAGE" 50 [priceRule] {[ "c1" ]} credentialed).2)
  = [ (PostReply "c2" "Hello Bo!" "PAGE2", Some 200);
      (PostReply "c2" "Hello Bo!" "PAGE", Some 400) ]
  /\ acceptedReplies "c2"
       (CommentProcessor.processComments (platform expiringReplyNet 0)
          (TokenManagerDebug.refreshToken (platform expiringReplyNet 0))
          3 "POST" "PAGE" 50 [priceRule] {[ "c1" ]} credentialed).2 = 1%nat.
Proof. vm_compute. split; reflexivity. Qed.

(** A sample for the twelve-hour sweep: the comments of a post since the
    cut-off, every reply accepted. *)
Definition recentNet : Upstream :=
  {| up_debug_token := up_debug_token quiet;
     up_access_token_info := up_access_token_info quiet;
     up_exchange := up_exchange quiet;
     up_accounts := up_accounts quiet;
     up_comments := up_comments quiet;
     up_comments_since := fun _ _ _ _ _ =>
       Http 200 "ok" (Some {| cb_data := Some twoComments |});
     up_reply := up_reply repliesNet;
     up_feed := up_feed quiet;
     up_permalink := up_permalink quiet;
     up_me := up_me quiet;
     up_posts := up_posts quiet;
     up_reels := up_reels quiet |}.

(** The replied set is loaded once, before the loops: when the list of
    target posts names a post twice, its comments are fetched twice and
    each gets a reply per listing. *)
Lemma listed_twice_is_replied_twice :
  acceptedReplies "c2"
    (Main.replyUnrepliedCommentsLast12h (platform recentNet 0)
       (TokenManagerDebug.refreshToken (platform recentNet 0))
       3 ["POST"; "POST"] [priceRule] credentialed).2 = 2%nat
  /\ (Main.replyUnrepliedCommentsLast12h (platform recentNet 0)
        (TokenManagerDebug.refreshToken (platform recentNet 0))
        3 ["POST"; "POST"] [priceRule] credentialed).1
     = Ret {| Main.total := 4; Main.replied := 4; Main.failed_ := 0; Main.skipped := 0 |}.
Proof. vm_compute. split; reflexivity. Qed.


(** * More of the script

    The functions around those modelled above: the readers of the
    settings and processed tabs, the default settings, the token report,
    the choice of the target posts, the token dialog and the scheduled
    posts. *)

(** [x || d] for a string that may be absent. *)
Definition orElse (o : option string) (d : string) : string :=
  if truthy o then default "" o else d.

(** [s.split(sep)] for a separator of one character. *)
Fixpoint split (sep : ascii) (s : string) : list string :=
  match s with
  | EmptyString => [""]
  | String c s' =>
      if Ascii.eqb c sep then "" :: split sep s'
      else match split sep s' with
           | x :: xs => String c x :: xs
           | [] => [String c ""]
           end
  end.

(** [arr.join(sep)]. *)
Fixpoint join (sep : string) (l : list string) : string :=
  match l with
  | [] => ""
  | [x] => x
  | x :: rest => x +:+ sep +:+ join sep rest
  end.

(** ** Config.js, continued: the settings as a map, and the defaults *)

Module Settings.

Definition DEFAULT_SETTINGS : list (string * string) :=
  [ ("投稿ID", ""); ("取得件数", "50"); ("自動検出", "true"); ("検索日数", "3");
    ("最大投稿数", "10");
    ("長期トークン", ""); ("ページトークン", ""); ("ページ名", ""); ("ページID", "");
    ("トークン有効期限", ""); ("最終更新日時", ""); ("スクリプトID", ""); ("アプリID", "");
    ("アプリシークレット", "");
    ("デフォルトマッチタイプ", "部分一致"); ("デフォルト優先順位", "5");
    ("デフォルト重み", "100");
    ("Facebook API バージョン", "v23.0"); ("レート制限待機時間", "300");
    ("ログ保持日数", "30"); ("エラー通知設定", "false") ].

Definition SETTING_DESCRIPTIONS : list (string * string) :=
  [ ("投稿ID", "カンマ区切りで投稿IDを入力（空なら自動検出が有効）");
    ("取得件数", "1回のコメント取得件数（MVPでは1ページのみ）");
    ("自動検出", "投稿IDが空なら直近投稿を自動収集");
    ("検索日数", "自動収集する過去日数（整数）");
    ("最大投稿数", "1回に対象とする最大投稿数（整数）");
    ("長期トークン", "Facebook長期アクセストークン（自動設定）");
    ("ページトークン", "Facebookページアクセストークン（自動設定）");
    ("ページ名", "Facebookページ名（自動設定）");
    ("ページID", "FacebookページID（自動設定）");
    ("トークン有効期限", "トークンの有効期限（自動設定）");
    ("最終更新日時", "最後にトークンを更新した日時（自動設定）");
    ("スクリプトID", "このGoogle Apps ScriptのスクリプトID（自動設定）");
    ("アプリID", "FacebookアプリID（手動設定）");
    ("アプリシークレット", "Facebookアプリシークレット（手動設定）");
    ("デフォルトマッチタイプ", "新規ルールのデフォルトマッチタイプ");
    ("デフォルト優先順位", "新規ルールのデフォルト優先順位");
    ("デフォルト重み", "新規ルールのデフォルト重み");
    ("Facebook API バージョン", "使用するFacebook Graph APIのバージョン");
    ("レート制限待機時間", "API呼び出し間の待機時間（ミリ秒）");
    ("ログ保持日数", "ログを保持する日数");
    ("エラー通知設定", "エラー発生時の通知設定（true/false）") ].

(** [obj[key]]. *)
Definition property (obj : list (string * string)) (key : string) : option string :=
  snd <$> List.find (fun kv => (kv.1 =? key)%string) obj.

Section WithPlatform.
Context (env : Platform).

(** [getSettings()]: a [Map] from the trimmed key to the trimmed value of
    every row after the first whose key cell is not empty; a later row
    replaces an earlier one with the same key. *)
Definition getSettings : M (gmap string string) :=
  fun w =>
    match settingsSheet w with
    | None => (Throw TypeError, w)
    | Some rows =>
        let set (map : gmap string string) (r : SettingRow) :=
          if (sr_key r =? "")%string then map
          else <[trim env (sr_key r) := trim env (sr_value r)]> map in
        (Ret (foldl set ∅ (drop 1 rows)), w)
    end.

(** [upsertSettingIfMissing(key, value, notes)]. *)
Definition upsertSettingIfMissing (key value : string) (notes : option string) : M unit :=
  settings <- getSettings ;;
  if bool_decide (is_Some (settings !! key)) then ret tt
  else Config.upsertSetting env key value (orElse notes "").

(** [initializeDefaultSettings()]; [scriptId] is what
    [ScriptApp.getScriptId()] gives, [""] where it is not available. *)
Definition initializeDefaultSettings (scriptId : string) : M unit :=
  for_each DEFAULT_SETTINGS
    (fun kv => upsertSettingIfMissing kv.1 kv.2 (property SETTING_DESCRIPTIONS kv.1)) ;;
  if negb (scriptId =? "")%string then
    Config.upsertSetting env "スクリプトID" scriptId
      (orElse (property SETTING_DESCRIPTIONS "スクリプトID") "")
  else
    upsertSettingIfMissing "スクリプトID" "" (property SETTING_DESCRIPTIONS "スクリプトID").
End WithPlatform.
End Settings.

(** ** SheetManager.js, continued: the processed ids *)

Module Processed.
Section WithPlatform.
Context (env : Platform).

(** [loadProcessedIds()]: the trimmed first cell of every row after the
    first whose cell is not empty. *)
Definition loadProcessedIds : M (gset string) :=
  fun w =>
    match processedSheet w with
    | None => (Throw TypeError, w)
    | Some rows =>
        let add (set : gset string) (row : string * string) :=
          if (row.1 =? "")%string then set else {[ trim env row.1 ]} ∪ set in
        (Ret (foldl add ∅ (drop 1 rows)), w)
    end.
End WithPlatform.
End Processed.

(** ** The token report (src/unnamed/part_003 and TokenManager.js) *)

Module TokenReport.
Section WithPlatform.
Context (env : Platform).

(** The object [getDetailedTokenInfo] returns on success. *)
Record Details : Type :=
  { アプリID : option string;
    トークンタイプ : option string;
    アプリケーション名 : string;
    ユーザーID : string;
    有効状態 : string;
    長期トークン : string;
    有効期限 : string;
    残り時間 : string;
    データアクセス期限 : string;
    権限スコープ : string;
    raw : TokenInfo }.

(** [{..., raw: tokenInfo}] or [{エラー: message, raw: null}]. *)
Inductive Detailed : Type :=
| DetailsOf (d : Details)
| DetailsError (エラー : string).

Definition getDetailedTokenInfo (token : option string) : M Detailed :=
  try_catch
    (stored <- getProperty PROP_KEYS.USER_ACCESS_TOKEN ;;
     let targetToken := if truthy token then token else stored in
     (if negb (truthy targetToken) then throw (JsError "トークンが設定されていません")
      else ret tt) ;;
     appId <- getProperty PROP_KEYS.APP_ID ;;
     appSecret <- getProperty PROP_KEYS.APP_SECRET ;;
     tokenInfo <- TokenManagerDebug.getTokenInfoFromToken env (default "" targetToken)
                    appId appSecret ;;
     ret (DetailsOf
            {| アプリID := ti_appId tokenInfo;
               トークンタイプ := ti_type tokenInfo;
               アプリケーション名 := orElse (ti_application tokenInfo) "不明";
               ユーザーID := orElse (ti_userId tokenInfo) "不明";
               有効状態 := if default false (ti_isValid tokenInfo) then "有効" else "無効";
               長期トークン := if ti_isLongLived tokenInfo then "はい" else "いいえ";
               有効期限 :=
                 if gt0 (ti_expiresAt tokenInfo)
                 then toLocaleString env (orZero (ti_expiresAt tokenInfo) * 1000)
                 else "無期限";
               残り時間 :=
                 if 0 <? ti_expiresIn tokenInfo
                 then toString (ti_expiresIn tokenInfo / 86400) +:+ "日 "
                      +:+ toString ((ti_expiresIn tokenInfo mod 86400) / 3600) +:+ "時間"
                 else "無期限";
               データアクセス期限 :=
                 if gt0 (ti_dataAccessExpiresAt tokenInfo)
                 then toLocaleString env (orZero (ti_dataAccessExpiresAt tokenInfo) * 1000)
                 else "不明";
               権限スコープ :=
                 if (join ", " (ti_scopes tokenInfo) =? "")%string then "不明"
                 else join ", " (ti_scopes tokenInfo);
               raw := tokenInfo |}))
    (fun error => ret (DetailsError (message error))).

(** What [getTokenInfo] returns; [expiresAt] is the time value of the
    [Date] built from the stored expiry ([Some None] for an invalid date,
    [None] for [null]). *)
Record Summary : Type :=
  { s_pageName : string;
    s_pageId : string;
    s_expiresAt : option (option Z);
    s_isValid : bool;
    s_detailedInfo : option Detailed }.

(** [getTokenInfo()] of src/unnamed/part_003. *)
Definition getTokenInfo : M Summary :=
  expiresAt <- getProperty PROP_KEYS.TOKEN_EXPIRES_AT ;;
  userToken <- getProperty PROP_KEYS.USER_ACCESS_TOKEN ;;
  detailedInfo <-
    (if truthy userToken then
       try_catch (d <- getDetailedTokenInfo userToken ;; ret (Some d)) (fun error => ret None)
     else ret None) ;;
  pageName <- getProperty PROP_KEYS.PAGE_NAME ;;
  pageId <- getProperty PROP_KEYS.PAGE_ID ;;
  isValid <- TokenManagerDebug.isTokenValid env None ;;
  ret {| s_pageName := orElse pageName "未設定";
         s_pageId := orElse pageId "未設定";
         s_expiresAt :=
           if truthy expiresAt then Some (parseInt (default "" expiresAt)) else None;
         s_isValid := isValid;
         s_detailedInfo := detailedInfo |}.

(** [getTokenInfo()] of TokenManager.js, which has no detailed part. *)
Definition legacyGetTokenInfo : M Summary :=
  expiresAt <- getProperty PROP_KEYS.TOKEN_EXPIRES_AT ;;
  pageName <- getProperty PROP_KEYS.PAGE_NAME ;;
  pageId <- getProperty PROP_KEYS.PAGE_ID ;;
  isValid <- TokenManager.isTokenValid env ;;
  ret {| s_pageName := orElse pageName "未設定";
         s_pageId := orElse pageId "未設定";
         s_expiresAt :=
           if truthy expiresAt then Some (parseInt (default "" expiresAt)) else None;
         s_isValid := isValid;
         s_detailedInfo := None |}.
End WithPlatform.
End TokenReport.

(** ** The target posts (src/unnamed/part_001, continued) *)

Module Targets.
Section WithPlatform.
Context (env : Platform).

(** The globals [getTargetPostIds] calls.  Their number arguments are
    JavaScript numbers, which [parseInt] may have made [NaN] ([None]). *)
Context (getPageInfo : string -> M FacebookApi.PageInfo)
        (fetchRecentPosts fetchRecentReels : string -> option Z -> option Z -> M (list string)).

(** [(settings.get('投稿ID') || '').split(',').map(s => s.trim())
    .filter(Boolean)]. *)
Definition manualPostIds (settings : gmap string string) : list string :=
  List.filter (fun s => negb (s =? "")%string)
    (map (trim env) (split "," (orElse (settings !! "投稿ID") ""))).

(** The loop that merges the posts and the reels, skipping an id it has
    seen. *)
Fixpoint merge (seen : gset string) (ids : list string) : list string :=
  match ids with
  | [] => []
  | id :: rest =>
      if bool_decide (id ∈ seen) then merge seen rest
      else id :: merge ({[ id ]} ∪ seen) rest
  end.

Definition getTargetPostIds (token : string) (settings : gmap string string)
  : M (list string) :=
  let autoDiscovery :=
    (toLowerCase env (orElse (settings !! "自動検出") "true") =? "true")%string in
  let lookbackDays := parseInt (orElse (settings !! "検索日数") "3") in
  let postMaxCount := parseInt (orElse (settings !! "最大投稿数") "10") in
  match manualPostIds settings with
  | _ :: _ => ret (manualPostIds settings)
  | [] =>
      if autoDiscovery then
        getPageInfo token ;;
        posts <- fetchRecentPosts token lookbackDays postMaxCount ;;
        reels <- fetchRecentReels token lookbackDays postMaxCount ;;
        ret (merge ∅ (posts ++ reels))
      else ret []
  end.
End WithPlatform.
End Targets.

(** ** The token dialog (src/コード.js, continued) *)

Module Entry.
Section WithPlatform.
Context (env : Platform).

(** The global [setupTokensFromLongToken]: the script has two functions
    of that name, and the one loaded last is the one called. *)
Context (setupTokensFromLongToken : string -> M SetupResult).

(** [saveTokenToSettingsSheet(tokenInfo)]; nothing it throws gets out. *)
Definition saveTokenToSettingsSheet (tokenInfo : SetupDone) : M unit :=
  try_catch
    (fun w =>
       match settingsSheet w with
       | None => (Ret tt, w)
       | Some _ =>
           (Config.upsertSetting env "長期トークン" (orEmpty (userAccessToken tokenInfo))
              "Facebook長期アクセストークン" ;;
            Config.upsertSetting env "ページトークン" (orEmpty (pageAccessToken tokenInfo))
              "Facebookページアクセストークン" ;;
            Config.upsertSetting env "ページ名" (pageName tokenInfo) "Facebookページ名" ;;
            Config.upsertSetting env "ページID" (pageId tokenInfo) "FacebookページID" ;;
            Config.upsertSetting env "トークン有効期限"
              (toLocaleString env (expiresAt tokenInfo)) "トークンの有効期限" ;;
            Config.upsertSetting env "最終更新日時" (toLocaleString env (now env))
              "最後にトークンを更新した日時") w
       end)
    (fun error => ret tt).

(** What [processTokenInput] hands back to the dialog. *)
Inductive DialogResult : Type :=
| DialogOk (pageName pageId tokenType expiresAt : string)
| DialogFailed (error : string).

Definition processTokenInput (longToken : string) : M DialogResult :=
  try_catch
    (result <- setupTokensFromLongToken longToken ;;
     match result with
     | SetupOk done =>
         saveTokenToSettingsSheet done ;;
         ret (DialogOk (pageName done) (pageId done) (setupTokenType done)
                (toLocaleString env (expiresAt done)))
     | SetupFailed error => ret (DialogFailed error)
     end)
    (fun error => ret (DialogFailed (message error))).
End WithPlatform.
End Entry.

(** ** The scheduled posts (SheetManager.js, continued) *)

(** A row of the schedule tab: enabled, body, date, hour, minute, time
    zone, status, post id, URL, error; each cell as the text it holds, an
    empty cell being [""]. *)
Record ScheduledRow : Type :=
  { sp_enabled : string;
    sp_body : string;
    sp_date : string;
    sp_hour : string;
    sp_min : string;
    sp_tz : string;
    sp_status : string;
    sp_postId : string;
    sp_url : string;
    sp_err : string }.

Module Scheduler.
Section WithPlatform.
Context (env : Platform) (refreshToken : M bool).

(** The global [isTokenValid], called with the page token, and
    [date.setHours(hour, minute, 0, 0)] on a time value, which gives the
    new time value ([None] is NaN). *)
Context (isTokenValid : string -> M bool) (setHours : Z -> Z -> Z -> option Z).

Record Tally : Type := { posted : Z; failedPosts : Z }.

(** The four cells written back to a row. *)
Definition written (r : ScheduledRow) (status postId url err : string) : ScheduledRow :=
  {| sp_enabled := sp_enabled r; sp_body := sp_body r; sp_date := sp_date r;
     sp_hour := sp_hour r; sp_min := sp_min r; sp_tz := sp_tz r;
     sp_status := status; sp_postId := postId; sp_url := url; sp_err := err |}.

(** The time a row is due at, when it is enabled, still reserved and
    complete. *)
Definition scheduledAt (r : ScheduledRow) : option Z :=
  if negb (sp_enabled r =? "有効")%string then None
  else if negb (sp_status r =? "予約中")%string then None
  else if (sp_body r =? "")%string then None
  else if (sp_date r =? "")%string then None
  else
    match parseDate env (sp_date r), parseInt (sp_hour r), parseInt (sp_min r) with
    | Some date, Some hour, Some minute => setHours date hour minute
    | _, _, _ => None
    end.

(** The body of the loop, for one row. *)
Definition postRow (fuel : nat) (token : string) (r : ScheduledRow) (t : Tally)
  : M (ScheduledRow * Tally) :=
  match scheduledAt r with
  | None => ret (r, t)
  | Some scheduled =>
      if scheduled <=? now env then
        try_catch
          (result <- FacebookApi.createPagePost env refreshToken fuel (sp_body r) token ;;
           ret (written r "送信済み" (FacebookApi.postId result)
                  (FacebookApi.permalink result) "",
                {| posted := posted t + 1; failedPosts := failedPosts t |}))
          (fun e =>
             ret (written r "失敗" "" "" (CommentProcessor.errorText e),
                  {| posted := posted t; failedPosts := failedPosts t + 1 |}))
      else ret (r, t)
  end.

Fixpoint postRows (fuel : nat) (token : string) (rows : list ScheduledRow) (t : Tally)
  : M (list ScheduledRow * Tally) :=
  match rows with
  | [] => ret ([], t)
  | r :: rest =>
      rt <- postRow fuel token r t ;;
      done <- postRows fuel token rest rt.2 ;;
      ret (rt.1 :: done.1, done.2)
  end.

(** The token the posts are made with: the stored one when it is valid,
    the one a successful refresh stored otherwise. *)
Definition validToken (token : string) : M string :=
  try_catch
    (valid <- isTokenValid token ;;
     if negb valid then
       refreshSuccess <- refreshToken ;;
       if refreshSuccess : bool then
         newToken <- getProperty PROP_KEYS.PAGE_ACCESS_TOKEN ;;
         ret (FacebookApi.tokenString newToken)
       else throw (JsError "トークンの自動更新に失敗しました。手動でトークンを更新してください。")
     else ret token)
    (fun error => throw (JsError ("トークンの有効性確認に失敗しました: " +:+ message error))).

(** [processScheduledPosts()], the schedule tab being passed in and
    handed back: [None] for a tab that does not exist, else all of its
    rows, the header first.  The result is [undefined] without the tab. *)
Definition processScheduledPosts (fuel : nat) (sheet : option (list ScheduledRow))
  : M (option (list ScheduledRow) * option Tally) :=
  match sheet with
  | None => ret (None, None)
  | Some rows =>
      match drop 1 rows with
      | [] => ret (sheet, Some {| posted := 0; failedPosts := 0 |})
      | body =>
          token <- getProperty PROP_KEYS.PAGE_ACCESS_TOKEN ;;
          if negb (truthy token) then throw (JsError "ページアクセストークンが未設定です")
          else
            token <- validToken (default "" token) ;;
            done <- postRows fuel token body {| posted := 0; failedPosts := 0 |} ;;
            ret (Some (take 1 rows ++ done.1)%list, Some done.2)
      end
  end.
End WithPlatform.
End Scheduler.


(** * Runs that commit at most once *)

(** Two worlds that differ in the call log only. *)
Definition sameStore (w w' : World) : Prop :=
  props w' = props w /\ writes w' = writes w
  /\ settingsSheet w' = settingsSheet w /\ processedSheet w' = processedSheet w
  /\ logSheet w' = logSheet w /\ postsSheet w' = postsSheet w.

Lemma sameStore_refl w : sameStore w w.
Proof. repeat split. Qed.

Lemma sameStore_trans w1 w2 w3 : sameStore w1 w2 -> sameStore w2 w3 -> sameStore w1 w3.
Proof.
  intros (?&?&?&?&?&?) (?&?&?&?&?&?). repeat split; congruence.
Qed.

(** [reads m]: no run of [m], however it ends, changes anything but the
    call log. *)
Definition reads {A} (m : M A) : Prop := forall w, sameStore w (m w).2.

Lemma reads_ret {A} (a : A) : reads (ret a).
Proof. intros w. apply sameStore_refl. Qed.

Lemma reads_throw {A} e : reads (@throw A e).
Proof. intros w. apply sameStore_refl. Qed.

Lemma reads_diverge {A} : reads (@diverge A).
Proof. intros w. apply sameStore_refl. Qed.

Lemma reads_bind {A B} (m : M A) (k : A -> M B) :
  reads m -> (forall a, reads (k a)) -> reads (bind m k).
Proof.
  intros Hm Hk w. unfold bind. specialize (Hm w).
  destruct (m w) as [[a|e|] w1]; simpl in *; auto.
  eapply sameStore_trans; [exact Hm | apply Hk].
Qed.

Lemma reads_try_catch {A} (m : M A) h :
  reads m -> (forall e, reads (h e)) -> reads (try_catch m h).
Proof.
  intros Hm Hh w. unfold try_catch. specialize (Hm w).
  destruct (m w) as [[a|e|] w1]; simpl in *; auto.
  eapply sameStore_trans; [exact Hm | apply Hh].
Qed.

Lemma reads_getProperty k : reads (getProperty k).
Proof. intros w. apply sameStore_refl. Qed.

Lemma reads_fetch {B} r (answer : list Call -> Fetched B) : reads (fetch r answer).
Proof. intros w. unfold fetch. destruct (answer (calls w)); repeat split. Qed.

Lemma reads_parseJSON {B} (res : Response B) : reads (parseJSON res).
Proof. unfold parseJSON. destruct (parsed res); [apply reads_ret | apply reads_throw]. Qed.

Ltac reads_step :=
  first
    [ apply reads_ret | apply reads_throw | apply reads_diverge
    | apply reads_getProperty | apply reads_fetch | apply reads_parseJSON
    | apply reads_bind; [|intros ?]
    | apply reads_try_catch; [|intros ?]
    | match goal with
      | |- reads (if ?b then _ else _) => destruct b
      | |- reads (match ?x with _ => _ end) => destruct x
      end
    | progress cbv zeta ].

Section TokenReads.
Context (env : Platform).

Lemma reads_getTokenInfoFromDebugToken t a :
  reads (TokenManagerDebug.getTokenInfoFromDebugToken env t a).
Proof. unfold TokenManagerDebug.getTokenInfoFromDebugToken. repeat reads_step. Qed.

Lemma reads_getTokenInfoFromToken t a s :
  reads (TokenManagerDebug.getTokenInfoFromToken env t a s).
Proof.
  unfold TokenManagerDebug.getTokenInfoFromToken.
  repeat first [ apply reads_getTokenInfoFromDebugToken | reads_step ].
Qed.

Lemma reads_isTokenValid t : reads (TokenManagerDebug.isTokenValid env t).
Proof.
  unfold TokenManagerDebug.isTokenValid.
  repeat first [ apply reads_getTokenInfoFromToken | reads_step ].
Qed.

Lemma reads_getPageTokens t : reads (TokenManagerDebug.getPageTokens env t).
Proof. unfold TokenManagerDebug.getPageTokens. repeat reads_step. Qed.

Lemma reads_exchangeWithCredentials t a s :
  reads (TokenManagerDebug.exchangeToLongLivedTokenWithCredentials env t a s).
Proof. unfold TokenManagerDebug.exchangeToLongLivedTokenWithCredentials. repeat reads_step. Qed.

Lemma reads_debugExpiry t a s : reads (TokenManagerDebug.debugExpiry env t a s).
Proof.
  unfold TokenManagerDebug.debugExpiry.
  repeat first [ apply reads_getTokenInfoFromToken | reads_step ].
Qed.

Lemma reads_legacy_getAppInfoFromToken t : reads (TokenManager.getAppInfoFromToken env t).
Proof. unfold TokenManager.getAppInfoFromToken. repeat reads_step. Qed.

Lemma reads_legacy_getTokenInfoFromToken t : reads (TokenManager.getTokenInfoFromToken env t).
Proof. unfold TokenManager.getTokenInfoFromToken. repeat reads_step. Qed.

Lemma reads_legacy_getPageTokens t : reads (TokenManager.getPageTokens env t).
Proof. unfold TokenManager.getPageTokens. repeat reads_step. Qed.

Lemma reads_legacy_exchangeToLongLivedToken t :
  reads (TokenManager.exchangeToLongLivedToken env t).
Proof.
  unfold TokenManager.exchangeToLongLivedToken.
  repeat first
    [ apply reads_legacy_getAppInfoFromToken | apply reads_legacy_getTokenInfoFromToken
    | reads_step ].
Qed.

Lemma reads_legacy_exchangeWithCredentials t a s :
  reads (TokenManager.exchangeToLongLivedTokenWithCredentials env t a s).
Proof. unfold TokenManager.exchangeToLongLivedTokenWithCredentials. repeat reads_step. Qed.

Lemma reads_legacy_isTokenValid : reads (TokenManager.isTokenValid env).
Proof. unfold TokenManager.isTokenValid. repeat reads_step. Qed.

Lemma legacy_getPageTokens_finishes t : finishes (TokenManager.getPageTokens env t).
Proof. unfold TokenManager.getPageTokens. repeat finishes_step. Qed.

Lemma legacy_exchangeWithCredentials_finishes t a s :
  finishes (TokenManager.exchangeToLongLivedTokenWithCredentials env t a s).
Proof. unfold TokenManager.exchangeToLongLivedTokenWithCredentials. repeat finishes_step. Qed.

Lemma legacy_isTokenValid_finishes : finishes (TokenManager.isTokenValid env).
Proof. unfold TokenManager.isTokenValid. repeat finishes_step. Qed.

Lemma legacy_refreshToken_finishes : finishes (TokenManager.refreshToken env).
Proof.
  unfold TokenManager.refreshToken.
  repeat first
    [ apply legacy_exchangeWithCredentials_finishes | apply legacy_getPageTokens_finishes
    | finishes_step ].
Qed.

Lemma legacy_setupTokensFromLongToken_finishes t :
  finishes (TokenManager.setupTokensFromLongToken env t).
Proof.
  unfold TokenManager.setupTokensFromLongToken.
  repeat first
    [ apply legacy_getTokenInfoFromToken_finishes | apply legacy_getPageTokens_finishes
    | finishes_step ].
Qed.

Lemma setupTokensFromLongToken_finishes t :
  finishes (TokenManagerDebug.setupTokensFromLongToken env t).
Proof.
  unfold TokenManagerDebug.setupTokensFromLongToken, TokenManagerDebug.when.
  repeat first
    [ apply getTokenInfoFromToken_finishes | apply getPageTokens_finishes | finishes_step ].
Qed.

Lemma legacy_setupTokensFromShortLived_finishes t :
  finishes (TokenManager.setupTokensFromShortLived env t).
Proof.
  unfold TokenManager.setupTokensFromShortLived, TokenManager.appInfoOrUnknown,
    TokenManager.saveAppSettings.
  repeat first
    [ apply legacy_getTokenInfoFromToken_finishes | apply legacy_getPageTokens_finishes
    | apply legacy_getAppInfoFromToken_finishes
    | apply legacy_exchangeToLongLivedToken_finishes | finishes_step ].
Qed.
End TokenReads.

(** [commits m P]: a run of [m] that does not return has changed nothing
    but the call log; a run that returns [a] is related to its start by
    [P]. *)
Definition commits {A} (m : M A) (P : World -> A -> World -> Prop) : Prop :=
  forall w,
    match m w with
    | (Ret a, w') => P w a w'
    | (_, w') => sameStore w w'
    end.

(** [P] does not tell worlds apart that differ in the call log only. *)
Definition stable {A} (P : World -> A -> World -> Prop) : Prop :=
  forall w w1 a w', sameStore w w1 -> P w1 a w' -> P w a w'.

Lemma commits_bind {A B} (m : M A) (k : A -> M B) P :
  stable P -> reads m -> (forall a, commits (k a) P) -> commits (bind m k) P.
Proof.
  intros HP Hm Hk w. unfold bind. specialize (Hm w).
  destruct (m w) as [[a|e|] w1]; simpl in *; auto.
  specialize (Hk a w1). destruct (k a w1) as [[b|e|] w2].
  - eapply HP; eauto.
  - eapply sameStore_trans; eauto.
  - eapply sameStore_trans; eauto.
Qed.

Lemma commits_throw {A} e (P : World -> A -> World -> Prop) : commits (throw e) P.
Proof. intros w. apply sameStore_refl. Qed.

(** What a caught run leaves: the handler's value in a store that was
    not touched, or what the body committed. *)
Lemma commits_catch {A} (m : M A) (h : Error -> A) P w :
  commits m P -> finishes m ->
  exists a w', try_catch m (fun e => ret (h e)) w = (Ret a, w')
    /\ ((exists e, m w = (Throw e, w') /\ a = h e /\ sameStore w w')
        \/ (m w = (Ret a, w') /\ P w a w')).
Proof.
  intros Hm Hf. specialize (Hm w). specialize (Hf w). unfold try_catch.
  destruct (m w) as [[a|e|] w1]; simpl in *.
  - exists a, w1. split; [reflexivity|]. right. auto.
  - exists (h e), w1. split; [reflexivity|]. left. eauto.
  - congruence.
Qed.


(** * Numbers written and read back *)

Lemma is_digit_pretty_N_char d : is_digit (pretty_N_char d) = true.
Proof.
  destruct d as [|p]; [reflexivity|].
  do 4 (try (destruct p as [p|p|]; try reflexivity)).
Qed.

Lemma digit_val_pretty_N_char d : (d < 10)%N -> digit_val (pretty_N_char d) = Z.of_N d.
Proof.
  intros Hd. destruct d as [|p]; [reflexivity|].
  do 4 (try (destruct p as [p|p|]; try reflexivity; try lia)).
Qed.

(** Reading the digits [pretty_N_go] puts in front of [s]. *)
Lemma read_digits_pretty_N_go x s :
  read_digits (pretty_N_go x s) (Some 0) = read_digits s (Some (Z.of_N x)).
Proof.
  revert s. induction (N.lt_wf_0 x) as [x _ IH]. intros s.
  destruct (N.eq_dec x 0) as [->|Hx].
  - rewrite pretty_N_go_0. reflexivity.
  - rewrite pretty_N_go_step by lia.
    rewrite IH by (apply N.div_lt; lia).
    simpl. rewrite is_digit_pretty_N_char.
    rewrite digit_val_pretty_N_char by (apply N.mod_lt; lia).
    f_equal. f_equal. simpl.
    rewrite (N.div_mod x 10) at 3 by lia. lia.
Qed.

(** What [pretty_N_go] of a positive number starts with. *)
Lemma pretty_N_go_head x s :
  (0 < x)%N -> exists c rest, pretty_N_go x s = String c rest /\ is_digit c = true.
Proof.
  revert s. induction (N.lt_wf_0 x) as [x _ IH]. intros s Hx.
  rewrite pretty_N_go_step by exact Hx.
  destruct (N.eq_dec (x / 10) 0) as [E|E].
  - rewrite E, pretty_N_go_0. eexists _, _. split; [reflexivity|].
    apply is_digit_pretty_N_char.
  - apply IH; [apply N.div_lt; lia | apply N.neq_0_lt_0; exact E].
Qed.

Lemma digit_not_space c : is_digit c = true -> is_space c = false.
Proof. destruct c as [[] [] [] [] [] [] [] []]; try discriminate; reflexivity. Qed.

Lemma digit_one_byte c : is_digit c = true -> (nat_of_ascii c < 128)%nat.
Proof. destruct c as [[] [] [] [] [] [] [] []]; try discriminate; intros _; vm_compute; lia. Qed.

Lemma parseInt_digits c rest :
  is_digit c = true ->
  parseInt (String c rest) = read_digits (String c rest) (Some 0).
Proof.
  intros Hc. unfold parseInt.
  rewrite (skip_space_stops _ _ (digit_one_byte _ Hc) (digit_not_space _ Hc)).
  destruct c as [[] [] [] [] [] [] [] []]; try discriminate; reflexivity.
Qed.

Lemma pretty_N_digits x :
  x <> 0%N ->
  exists c rest, pretty x = String c rest /\ is_digit c = true
                 /\ read_digits (String c rest) (Some 0) = Some (Z.of_N x).
Proof.
  intros Hx. unfold pretty, pretty_N. destruct (decide (x = 0%N)) as [|_]; [contradiction|].
  destruct (pretty_N_go_head x "") as (c & rest & E & Hc); [lia|].
  exists c, rest. rewrite <- E. split; [reflexivity|]. split; [exact Hc|].
  apply read_digits_pretty_N_go.
Qed.

(** [parseInt (toString n)] is [n].  Of the code this holds where
    [toString] does: for the integers that print with all their digits. *)
Lemma parseInt_toString n : parseInt (toString n) = Some n.
Proof.
  unfold toString, pretty, pretty_Z. destruct n as [|p|p].
  - reflexivity.
  - destruct (pretty_N_digits (N.pos p)) as (c & rest & E & Hc & Hr); [discriminate|].
    change (parseInt (pretty (N.pos p)) = Some (Z.pos p)).
    rewrite E, (parseInt_digits _ _ Hc), Hr. reflexivity.
  - destruct (pretty_N_digits (N.pos p)) as (c & rest & E & Hc & Hr); [discriminate|].
    change (parseInt (String "-" (pretty (N.pos p))) = Some (Z.neg p)).
    rewrite E. unfold parseInt.
    rewrite (skip_space_stops "-") by (vm_compute; first [lia | reflexivity]).
    assert (Hn : read_digits (String c rest) None = read_digits (String c rest) (Some 0)).
    { simpl. rewrite Hc. reflexivity. }
    change (Z.opp <$> read_digits (String c rest) None = Some (Z.neg p)).
    rewrite Hn, Hr. reflexivity.
Qed.


(** * The refresh and the setups write once or not at all *)

(** The page lookup for [userToken] was answered, after some calls, in
    200-299 with these pages. *)
Definition listedFor (env : Platform) (userToken : string) (pages : list Page) : Prop :=
  exists h code text,
    up_accounts (net env) h userToken = Http code text (Some {| ab_data := Some pages |})
    /\ failed code = false.

Lemma getPageTokens_listed env t w pages w1 :
  TokenManagerDebug.getPageTokens env t w = (Ret pages, w1) -> listedFor env t pages.
Proof.
  unfold TokenManagerDebug.getPageTokens, bind, fetch, parseJSON, ret, throw. intros H.
  destruct (up_accounts (net env) (calls w) t) as [|code text [[[data|]]|]] eqn:Hup;
    simpl in H; try discriminate; destruct (failed code) eqn:Hf; simpl in H;
    try discriminate.
  inversion H; subst. exists (calls w), code, text. auto.
Qed.

Lemma legacy_getPageTokens_listed env t w pages w1 :
  TokenManager.getPageTokens env t w = (Ret pages, w1) -> listedFor env t pages.
Proof.
  unfold TokenManager.getPageTokens, bind, fetch, parseJSON, ret, throw. intros H.
  destruct (up_accounts (net env) (calls w) t) as [|code text [[[data|]]|]] eqn:Hup;
    simpl in H; try discriminate; destruct (failed code) eqn:Hf; simpl in H;
    try discriminate.
  inversion H; subst. exists (calls w), code, text. auto.
Qed.

(** The batch holds the access token, id and name of [page], and the
    store reads them back. *)
Definition holdsPage (page : Page) (batch : list (string * string))
           (store : gmap string string) : Prop :=
  (PROP_KEYS.PAGE_ACCESS_TOKEN, page_access_token page) ∈ batch
  /\ (PROP_KEYS.PAGE_ID, page_id page) ∈ batch
  /\ (PROP_KEYS.PAGE_NAME, page_name page) ∈ batch
  /\ store !! PROP_KEYS.PAGE_ACCESS_TOKEN = Some (page_access_token page)
  /\ store !! PROP_KEYS.PAGE_ID = Some (page_id page)
  /\ store !! PROP_KEYS.PAGE_NAME = Some (page_name page).

(** One batch was written.  It holds the access token, id and name of
    [page], and [page] is the page that an answer of the page lookup lists
    first for the user token the store holds afterwards. *)
Definition wrotePage (env : Platform) (page : Page) (w w' : World) : Prop :=
  (exists userToken rest,
      props w' !! PROP_KEYS.USER_ACCESS_TOKEN = Some userToken
      /\ listedFor env userToken (page :: rest))
  /\ exists batch,
      writes w' = batch :: writes w /\ props w' = write_batch batch (props w)
      /\ holdsPage page batch (props w').

Lemma wrotePage_stable env page w w1 w' :
  sameStore w w1 -> wrotePage env page w1 w' -> wrotePage env page w w'.
Proof.
  intros (Hp & Hw & _) (Hl & batch & H1 & H2 & H3). split; [exact Hl|]. exists batch.
  rewrite <- Hp, <- Hw. auto.
Qed.

Definition refreshed (env : Platform) (w : World) (b : bool) (w' : World) : Prop :=
  b = true /\ exists page, wrotePage env page w w'.

Lemma refreshed_stable env : stable (refreshed env).
Proof.
  intros w w1 b w' Hs [Hb [page Hp]]. split; [exact Hb|].
  exists page. eapply wrotePage_stable; eauto.
Qed.

(** As [refreshed], for a refresh that looks the pages up with the user
    token [u] and leaves that token as it is stored. *)
Definition refreshedWith (env : Platform) (u : string) (w : World) (b : bool) (w' : World)
  : Prop :=
  b = true
  /\ exists page rest,
      listedFor env u (page :: rest)
      /\ props w' !! PROP_KEYS.USER_ACCESS_TOKEN = props w !! PROP_KEYS.USER_ACCESS_TOKEN
      /\ exists batch,
          writes w' = batch :: writes w /\ props w' = write_batch batch (props w)
          /\ holdsPage page batch (props w').

Lemma refreshedWith_stable env u : stable (refreshedWith env u).
Proof.
  intros w w1 b w' (Hp & Hw & _) (Hb & page & rest & Hl & Hu & batch & H1 & H2 & H3).
  split; [exact Hb|]. exists page, rest. split; [exact Hl|].
  rewrite <- Hp, <- Hw. split; [exact Hu|]. exists batch. auto.
Qed.

(** A step that only reads, and whose result has a property that does
    not depend on the state it was run in. *)
Lemma commits_bind_fact {A B} (m : M A) (k : A -> M B) P (Q : A -> Prop) :
  stable P -> reads m -> (forall w a w1, m w = (Ret a, w1) -> Q a) ->
  (forall a, Q a -> commits (k a) P) -> commits (bind m k) P.
Proof.
  intros HP Hm HQ Hk w. unfold bind. specialize (Hm w). specialize (HQ w).
  destruct (m w) as [[a|e|] w1]; simpl in *; auto.
  specialize (Hk a (HQ a w1 eq_refl) w1). destruct (k a w1) as [[b|e|] w2].
  - eapply HP; eauto.
  - eapply sameStore_trans; eauto.
  - eapply sameStore_trans; eauto.
Qed.

(** The last steps of a refresh: the batch, the mirror into the settings
    tab, whose errors are swallowed, and [true]. *)
Lemma commits_write_mirror kvs (mirror : M unit) (P : World -> bool -> World -> Prop) :
  finishes mirror -> keeps lookupFootprint mirror ->
  (forall w w', writes w' = kvs :: writes w -> props w' = write_batch kvs (props w) ->
                P w true w') ->
  commits (setProperties kvs ;; try_catch mirror (fun e => ret tt) ;; ret true) P.
Proof.
  intros Hf Hk HP w. unfold bind at 1. unfold setProperties.
  destruct (swallow_run mirror (log_write kvs (set_props (write_batch kvs) w)) Hf Hk)
    as (w' & Hrun & Hp & Hw).
  unfold bind. rewrite Hrun. simpl. apply HP; [rewrite Hw | rewrite Hp]; reflexivity.
Qed.

Lemma commits_write {A} kvs (a : A) (P : World -> A -> World -> Prop) :
  (forall w w', writes w' = kvs :: writes w -> props w' = write_batch kvs (props w) ->
                P w a w') ->
  commits (setProperties kvs ;; ret a) P.
Proof. intros HP w. apply HP; reflexivity. Qed.

(** A key the batch writes reads as written; one it does not write
    reads as before. *)
Ltac batch_lookup :=
  cbn [write_batch foldl fst snd];
  rewrite ?lookup_insert_ne by discriminate;
  first [ apply lookup_insert_eq | reflexivity ].

Ltac batch_member := repeat first [ left | right ].

Ltac holds_page Hp :=
  rewrite Hp; repeat split; first [ solve [batch_member] | batch_lookup ].

Section Atomic.
Context (env : Platform).

(** Steps through a body up to its batch; [stable_lemma] and [finish]
    are the stability of the relation and the tactic for the batch. *)
Ltac commits_steps stable_lemma finish :=
  repeat first
    [ apply commits_throw
    | finish
    | match goal with
      | |- commits (bind (TokenManagerDebug.getPageTokens _ ?t) _) ?P =>
          apply (commits_bind_fact _ _ P (listedFor env t));
          [ apply stable_lemma | apply reads_getPageTokens
          | intros ? ? ?; apply getPageTokens_listed | intros ? ? ]
      | |- commits (bind (TokenManager.getPageTokens _ ?t) _) ?P =>
          apply (commits_bind_fact _ _ P (listedFor env t));
          [ apply stable_lemma | apply reads_legacy_getPageTokens
          | intros ? ? ?; apply legacy_getPageTokens_listed | intros ? ? ]
      | |- commits (bind (setProperties _) _) _ => fail 1
      | |- _ =>
          apply commits_bind;
          [ apply stable_lemma
          | first [ apply reads_exchangeWithCredentials | apply reads_debugExpiry
                  | apply reads_getTokenInfoFromToken
                  | apply reads_legacy_exchangeWithCredentials
                  | apply reads_legacy_getTokenInfoFromToken
                  | apply reads_legacy_exchangeToLongLivedToken
                  | repeat reads_step ]
          | intros ? ]
      end
    | match goal with
      | |- commits (if ?b then _ else _) _ => destruct b
      | |- commits (match ?x with _ => _ end) _ => destruct x
      end
    | progress cbv zeta ].

Lemma bind_getProperty {B} k (f : option string -> M B) w :
  bind (getProperty k) f w = f (props w !! k) w.
Proof. reflexivity. Qed.

(** A run from one state, judged by what its body commits. *)
Lemma commits_at {A} (m : M A) (P P' : World -> A -> World -> Prop) w :
  commits m P -> (forall a w', P w a w' -> P' w a w') ->
  match m w with
  | (Ret a, w') => P' w a w'
  | (_, w') => sameStore w w'
  end.
Proof. intros Hm HP. specialize (Hm w). destruct (m w) as [[a|e|] w']; auto. Qed.

Ltac finish_refreshed :=
  eapply commits_write_mirror;
  [ repeat finishes_step | repeat keeps_step
  | let Hw := fresh "Hw" in
    let Hp := fresh "Hp" in
    intros ? ? Hw Hp; split; [reflexivity|]; eexists; split;
    [ eexists _, _; split; [rewrite Hp; batch_lookup | eassumption]
    | eexists; split; [exact Hw|]; split; [exact Hp|]; unfold holdsPage; holds_page Hp ] ].

Ltac finish_refreshedWith :=
  eapply commits_write_mirror;
  [ repeat finishes_step | repeat keeps_step
  | let Hw := fresh "Hw" in
    let Hp := fresh "Hp" in
    intros ? ? Hw Hp; split; [reflexivity|]; eexists _, _; split; [eassumption|];
    split; [rewrite Hp; batch_lookup|];
    eexists; split; [exact Hw|]; split; [exact Hp|]; unfold holdsPage; holds_page Hp ].

Lemma debug_refresh_outcome w :
  exists b w',
    TokenManagerDebug.refreshToken env w = (Ret b, w')
    /\ (b = false -> sameStore w w')
    /\ (b = true -> exists page, wrotePage env page w w').
Proof.
  unfold TokenManagerDebug.refreshToken.
  match goal with
  | |- context [try_catch ?body _ w] =>
      destruct (commits_catch body (fun _ => false) (refreshed env) w) as (b & w' & Hrun & Hcase)
  end.
  - clear w. intros w.
    rewrite bind_getProperty. cbv beta. rewrite bind_getProperty. cbv beta.
    rewrite bind_getProperty. cbv beta.
    destruct (props w !! PROP_KEYS.USER_ACCESS_TOKEN) as [u|] eqn:Hu; [|apply sameStore_refl].
    destruct (truthy (Some u)) eqn:Ht; [|apply sameStore_refl].
    unfold bind at 1. cbn [negb TokenManagerDebug.when ret].
    change (default "" (Some u)) with u.
    destruct (negb (truthy (props w !! PROP_KEYS.APP_ID))
              || negb (truthy (props w !! PROP_KEYS.APP_SECRET))).
    + apply (commits_at _ (refreshedWith env u)).
      * unfold TokenManagerDebug.when.
        commits_steps (refreshedWith_stable env u) finish_refreshedWith.
      * intros b w' (Hb & page & rest & Hl & Hsame & Hbatch). split; [exact Hb|].
        exists page. split; [|exact Hbatch]. exists u, rest. rewrite Hsame, Hu. auto.
    + apply (commits_at _ (refreshed env)); [|auto].
      unfold TokenManagerDebug.when.
      commits_steps (refreshed_stable env) finish_refreshed.
  - unfold TokenManagerDebug.when.
    repeat first
      [ apply exchangeWithCredentials_finishes | apply getPageTokens_finishes
      | apply debugExpiry_finishes | finishes_step ].
  - exists b, w'. split; [exact Hrun|].
    destruct Hcase as [(e & _ & -> & Hs) | (_ & -> & Hp)].
    + split; [auto | discriminate].
    + split; [discriminate | auto].
Qed.

(** X1.  [refreshToken] of the debug-token version never throws: it
    returns a boolean.  When it returns [false] nothing but the call log
    has changed - no property, no tab.  When it returns [true] exactly one
    batch was written to the properties; the batch holds the access token,
    the id and the name of one page, the store reads them back, and that
    page is the one an answer of the page lookup lists first for the user
    token the store then holds.  With no user token stored it returns
    [false] without a call. *)
Theorem refresh_writes_once_or_nothing w :
  (exists b w',
      TokenManagerDebug.refreshToken env w = (Ret b, w')
      /\ (b = false -> sameStore w w')
      /\ (b = true -> exists page, wrotePage env page w w'))
  /\ (truthy (props w !! PROP_KEYS.USER_ACCESS_TOKEN) = false ->
      TokenManagerDebug.refreshToken env w = (Ret false, w)).
Proof.
  split; [apply debug_refresh_outcome|].
  intros Hu. unfold TokenManagerDebug.refreshToken, TokenManagerDebug.when.
  cbv beta iota zeta delta [try_catch bind getProperty ret throw].
  rewrite Hu. reflexivity.
Qed.

(** What a successful refresh of TokenManager.js leaves: as [refreshed],
    with an expiry in the store that is read back as a number. *)
Definition legacyRefreshed (w : World) (b : bool) (w' : World) : Prop :=
  refreshed env w b w' /\ exists e, storedExpiry w' = Some e.

Lemma legacyRefreshed_stable : stable legacyRefreshed.
Proof.
  intros w w1 b w' Hs [Hr He]. split; [|exact He]. eapply refreshed_stable; eauto.
Qed.

Ltac finish_legacyRefreshed :=
  apply commits_write;
  let Hw := fresh "Hw" in
  let Hp := fresh "Hp" in
  intros ? ? Hw Hp; split;
  [ split; [reflexivity|]; eexists; split;
    [ eexists _, _; split; [rewrite Hp; batch_lookup | eassumption]
    | eexists; split; [exact Hw|]; split; [exact Hp|]; unfold holdsPage; holds_page Hp ]
  | eexists; unfold storedExpiry; rewrite Hp; cbn [write_batch foldl fst snd];
    rewrite lookup_insert_eq; apply parseInt_toString ].

Lemma legacy_refresh_outcome w :
  exists b w',
    TokenManager.refreshToken env w = (Ret b, w')
    /\ (b = false -> sameStore w w')
    /\ (b = true -> (exists page, wrotePage env page w w')
                    /\ exists e, storedExpiry w' = Some e).
Proof.
  unfold TokenManager.refreshToken.
  match goal with
  | |- context [try_catch ?body _ w] =>
      destruct (commits_catch body (fun _ => false) legacyRefreshed w)
        as (b & w' & Hrun & Hcase)
  end.
  - commits_steps legacyRefreshed_stable finish_legacyRefreshed.
  - repeat first
      [ apply legacy_exchangeWithCredentials_finishes | apply legacy_getPageTokens_finishes
      | finishes_step ].
  - exists b, w'. split; [exact Hrun|].
    destruct Hcase as [(e & _ & -> & Hs) | (_ & (-> & Hp) & He)].
    + split; [auto | discriminate].
    + split; [discriminate | auto].
Qed.

(** X2.  [refreshToken] of TokenManager.js never throws.  When one of
    the user token, the app id and the app secret is missing or empty it
    returns [false] without a call.  Whenever it returns [false] nothing
    but the call log has changed; when it returns [true] exactly one batch
    was written; the batch holds the access token, the id and the name of
    one page, the store reads them back, that page is the one an answer of
    the page lookup lists first for the user token the store then holds,
    and the expiry that was stored parses back as a number. *)
Theorem legacy_refresh_writes_once_or_nothing w :
  (exists b w',
      TokenManager.refreshToken env w = (Ret b, w')
      /\ (b = false -> sameStore w w')
      /\ (b = true -> (exists page, wrotePage env page w w')
                      /\ exists e, storedExpiry w' = Some e))
  /\ (truthy (props w !! PROP_KEYS.USER_ACCESS_TOKEN)
      && truthy (props w !! PROP_KEYS.APP_ID)
      && truthy (props w !! PROP_KEYS.APP_SECRET) = false ->
      TokenManager.refreshToken env w = (Ret false, w)).
Proof.
  split; [apply legacy_refresh_outcome|].
  intros Hu. unfold TokenManager.refreshToken.
  cbv beta iota zeta delta [try_catch bind getProperty ret throw].
  rewrite <- !negb_andb, Hu. reflexivity.
Qed.

(** The integers a JavaScript number holds exactly; they print with all
    their digits. *)
Definition safeInteger (n : Z) : Prop := Z.abs n < 2 ^ 53.

(** What a successful setup has done: one batch, which holds
    [userToken] as the user token and the access token, id and name of
    [page], the page that an answer of the page lookup lists first for
    [userToken]; the store reads all of them back; the result names that
    page, and its expiry is the one written to the store. *)
Definition setUp (userToken : string) (page : Page) (done : SetupDone) (w w' : World)
  : Prop :=
  pageName done = page_name page /\ pageId done = page_id page
  /\ (exists rest, listedFor env userToken (page :: rest))
  /\ (exists batch,
         writes w' = batch :: writes w /\ props w' = write_batch batch (props w)
         /\ (PROP_KEYS.USER_ACCESS_TOKEN, userToken) ∈ batch
         /\ (PROP_KEYS.TOKEN_EXPIRES_AT, toString (expiresAt done)) ∈ batch
         /\ holdsPage page batch (props w'))
  /\ props w' !! PROP_KEYS.USER_ACCESS_TOKEN = Some userToken
  /\ props w' !! PROP_KEYS.TOKEN_EXPIRES_AT = Some (toString (expiresAt done)).

(** A long-token setup: the user token is the token entered, and the
    result carries both tokens. *)
Definition setUpLong (t : string) (w : World) (r : SetupResult) (w' : World) : Prop :=
  exists done page,
    r = SetupOk done /\ setUp t page done w w'
    /\ userAccessToken done = Some t
    /\ pageAccessToken done = Some (page_access_token page).

Lemma setUp_stable u page done w w1 w' :
  sameStore w w1 -> setUp u page done w1 w' -> setUp u page done w w'.
Proof.
  intros (Hp & Hw & _) (H1 & H2 & H3 & (batch & H4) & H5 & H6). rewrite Hp, Hw in H4.
  split; [exact H1|]. split; [exact H2|]. split; [exact H3|].
  split; [exists batch; exact H4|]. split; assumption.
Qed.

Lemma setUpLong_stable t : stable (setUpLong t).
Proof.
  intros w w1 r w' Hs (done & page & -> & Hset & Hrest).
  exists done, page. split; [reflexivity|]. split; [|exact Hrest].
  eapply setUp_stable; eauto.
Qed.

Lemma setUp_expiry u page done w w' :
  setUp u page done w w' -> storedExpiry w' = Some (expiresAt done).
Proof.
  intros (_ & _ & _ & _ & _ & He). unfold storedExpiry. rewrite He. simpl.
  apply parseInt_toString.
Qed.

Ltac prove_setUp Hw Hp :=
  split; [reflexivity|]; split; [reflexivity|]; split; [eexists; eassumption|];
  split;
  [ eexists; split; [exact Hw|]; split; [exact Hp|];
    split; [solve [batch_member]|]; split; [solve [batch_member]|];
    unfold holdsPage; holds_page Hp
  | split; rewrite Hp; batch_lookup ].

Ltac finish_setUpLong :=
  apply commits_write;
  let Hw := fresh "Hw" in
  let Hp := fresh "Hp" in
  intros ? ? Hw Hp; eexists _, _; split; [reflexivity|];
  split; [prove_setUp Hw Hp|]; split; reflexivity.

Lemma setup_outcome (body : M SetupResult) t w :
  commits body (setUpLong t) -> finishes body ->
  exists r w',
    try_catch body (fun error => ret (SetupFailed (message error))) w = (Ret r, w')
    /\ match r with
       | SetupFailed _ => sameStore w w'
       | SetupOk done => setUpLong t w r w'
       end.
Proof.
  intros Hc Hf.
  destruct (commits_catch body (fun e => SetupFailed (message e)) (setUpLong t) w Hc Hf)
    as (r & w' & Hrun & Hcase).
  exists r, w'. split; [exact Hrun|].
  destruct Hcase as [(e & _ & -> & Hs) | (_ & Hp)]; [exact Hs|].
  destruct Hp as (done & page & -> & Hrest). exists done, page. auto.
Qed.


(** Nothing but the call log has changed, except that the app id and
    the app secret were saved, in one batch. *)
Definition appSaved (w w' : World) : Prop :=
  exists a s,
    writes w' = [(PROP_KEYS.APP_ID, a); (PROP_KEYS.APP_SECRET, s)] :: writes w
    /\ props w' = <[PROP_KEYS.APP_SECRET := s]> (<[PROP_KEYS.APP_ID := a]> (props w))
    /\ settingsSheet w' = settingsSheet w /\ processedSheet w' = processedSheet w
    /\ logSheet w' = logSheet w /\ postsSheet w' = postsSheet w.

Lemma appSaved_sameStore_l w w1 w2 : sameStore w w1 -> appSaved w1 w2 -> appSaved w w2.
Proof.
  intros (?&?&?&?&?&?) (a & s & ?&?&?&?&?&?). exists a, s. repeat split; congruence.
Qed.

Lemma appSaved_sameStore_r w w1 w2 : appSaved w w1 -> sameStore w1 w2 -> appSaved w w2.
Proof.
  intros (a & s & ?&?&?&?&?&?) (?&?&?&?&?&?). exists a, s. repeat split; congruence.
Qed.

Lemma appInfoOrUnknown_run t w :
  exists appInfo w',
    TokenManager.appInfoOrUnknown env t w = (Ret appInfo, w')
    /\ (sameStore w w' \/ appSaved w w').
Proof.
  unfold TokenManager.appInfoOrUnknown, try_catch, bind.
  pose proof (reads_legacy_getAppInfoFromToken env t w) as Hr.
  pose proof (legacy_getAppInfoFromToken_finishes env t w) as Hf.
  destruct (TokenManager.getAppInfoFromToken env t w) as [[ai|e|] w1]; simpl in *.
  - eexists _, _. split; [reflexivity|]. right.
    apply (appSaved_sameStore_l _ _ _ Hr). eexists _, _. repeat split.
  - eexists _, _. split; [reflexivity|]. left. exact Hr.
  - congruence.
Qed.

(** A short-token setup: the user token stored is the one the exchange
    gave. *)
Definition setUpShort (w : World) (r : SetupResult) (w' : World) : Prop :=
  exists done page userToken, r = SetupOk done /\ setUp userToken page done w w'.

Lemma setUpShort_stable : stable setUpShort.
Proof.
  intros w w1 r w' Hs (done & page & u & -> & Hset).
  exists done, page, u. split; [reflexivity|]. eapply setUp_stable; eauto.
Qed.

Ltac finish_setUpShort :=
  apply commits_write;
  let Hw := fresh "Hw" in
  let Hp := fresh "Hp" in
  intros ? ? Hw Hp; eexists _, _, _; split; [reflexivity|]; prove_setUp Hw Hp.

End Atomic.


(** * The validity checks *)

Section Checks.
Context (env : Platform).

Definition checked (w : World) (_ : unit) (w' : World) : Prop :=
  sameStore w w' \/ exists page, wrotePage env page w w'.

Lemma checked_stable : stable checked.
Proof.
  intros w w1 u w' Hs [H|[page H]].
  - left. eapply sameStore_trans; eauto.
  - right. exists page. eapply wrotePage_stable; eauto.
Qed.

Lemma commits_ret {A} (a : A) (P : World -> A -> World -> Prop) :
  (forall w, P w a w) -> commits (ret a) P.
Proof. intros HP w. apply HP. Qed.

Lemma commits_debug_refresh :
  commits (success <- TokenManagerDebug.refreshToken env ;; ret tt) checked.
Proof.
  intros w. unfold bind.
  destruct (debug_refresh_outcome env w) as (b & w' & -> & Hf & Ht).
  destruct b; [right; auto | left; auto].
Qed.

Lemma commits_legacy_refresh :
  commits (success <- TokenManager.refreshToken env ;; ret tt) checked.
Proof.
  intros w. unfold bind.
  destruct (legacy_refresh_outcome env w) as (b & w' & -> & Hf & Ht).
  destruct b; [right; apply Ht; reflexivity | left; auto].
Qed.

(** X5.  [checkAndRefreshToken], in both versions, never throws, and
    what it leaves is the store as it was or the store after the one batch
    of properties of a successful refresh.  The
    version of TokenManager.js decides by the stored expiry alone: beyond
    the buffer it does nothing, otherwise it runs the refresh. *)
Theorem checks_never_throw w :
  (exists w', TokenManagerDebug.checkAndRefreshToken env w = (Ret tt, w')
              /\ (sameStore w w' \/ exists page, wrotePage env page w w'))
  /\ (exists w', TokenManager.checkAndRefreshToken env w = (Ret tt, w')
                 /\ (sameStore w w' \/ exists page, wrotePage env page w w'))
  /\ TokenManager.checkAndRefreshToken env w
     = match storedExpiry w with
       | Some e =>
           if bufferMs <? e - now env then (Ret tt, w)
           else (Ret tt, (TokenManager.refreshToken env w).2)
       | None => (Ret tt, (TokenManager.refreshToken env w).2)
       end.
Proof.
  split; [|split].
  - unfold TokenManagerDebug.checkAndRefreshToken.
    match goal with
    | |- context [try_catch ?body _ w] =>
        destruct (commits_catch body (fun _ => tt) checked w) as ([] & w' & Hrun & Hcase)
    end.
    + repeat first
        [ apply commits_debug_refresh
        | apply commits_ret; intros w0; left; apply sameStore_refl
        | apply commits_bind;
          [ apply checked_stable
          | first [ apply reads_isTokenValid | repeat reads_step ]
          | intros ? ]
        | match goal with
          | |- commits (if ?b then _ else _) _ => destruct b
          end ].
    + repeat first
        [ apply isTokenValid_finishes | apply refreshToken_finishes | finishes_step ].
    + exists w'. split; [exact Hrun|].
      destruct Hcase as [(e & _ & _ & Hs) | (_ & Hp)]; [left; exact Hs | exact Hp].
  - unfold TokenManager.checkAndRefreshToken.
    match goal with
    | |- context [?body w] =>
        assert (Hc : commits body checked);
        [| assert (Hf : finishes body);
           [| specialize (Hc w); specialize (Hf w);
              destruct (body w) as [[[]|e|] w'] eqn:Hrun; simpl in * ] ]
    end.
    + repeat first
        [ apply commits_legacy_refresh
        | apply commits_ret; intros w0; left; apply sameStore_refl
        | apply commits_bind;
          [ apply checked_stable | apply reads_legacy_isTokenValid | intros ? ]
        | match goal with
          | |- commits (if ?b then _ else _) _ => destruct b
          end ].
    + repeat first
        [ apply legacy_isTokenValid_finishes | apply legacy_refreshToken_finishes
        | finishes_step ].
    + eauto.
    + exfalso. revert Hrun. unfold bind.
      rewrite legacy_isTokenValid_stored.
      destruct (match storedExpiry w with Some e0 => _ | None => false end); simpl;
        [discriminate|].
      destruct (legacy_refresh_outcome env w) as (b & w2 & -> & _). discriminate.
    + congruence.
  - unfold TokenManager.checkAndRefreshToken, bind.
    rewrite legacy_isTokenValid_stored.
    destruct (legacy_refresh_outcome env w) as (b & w2 & Hr & _).
    destruct (storedExpiry w) as [e|]; simpl.
    + destruct (bufferMs <? e - now env); simpl; [reflexivity|]. rewrite Hr. reflexivity.
    + rewrite Hr. reflexivity.
Qed.

(** ** Asking the API whether a token is valid *)

Lemma ok_not_failed code : (200 <=? code) && (code <? 300) = negb (failed code).
Proof.
  unfold failed.
  destruct (Z.leb_spec 200 code), (Z.ltb_spec code 300), (Z.ltb_spec code 200),
    (Z.leb_spec 300 code); simpl; try reflexivity; lia.
Qed.

(** The token the debug-token lookup is made with: the app token when
    both app credentials are given, else the inspected token itself. *)
Definition lookupToken (t : string) (appId appSecret : option string) : string :=
  if truthy appId && truthy appSecret
  then TokenManagerDebug.createAppToken (default "" appId) (default "" appSecret)
  else t.

(** The degraded result built from an answer of the legacy endpoint. *)
Definition degraded (data : InfoBody) : TokenInfo :=
  {| ti_appId := ib_app_id data;
     ti_type := Some (orElse (ib_type data) "USER");
     ti_application := None;
     ti_isValid := Some true;
     ti_userId := None;
     ti_expiresAt := Some 0;
     ti_dataAccessExpiresAt := None;
     ti_scopes := [];
     ti_expiresIn := orZero (ib_expires_in data);
     ti_isLongLived := 24 * 60 * 60 <? orZero (ib_expires_in data);
     ti_expires_in := orZero (ib_expires_in data);
     ti_app_id := ib_app_id data |}.

(** [getTokenInfoFromToken] with its two nested handlers flattened. *)
Lemma getTokenInfoFromToken_run t a s w :
  TokenManagerDebug.getTokenInfoFromToken env t a s w
  = match TokenManagerDebug.getTokenInfoFromDebugToken env t (Some (lookupToken t a s)) w with
    | (Throw error, w1) =>
        match up_access_token_info (net env) (calls w1) t with
        | Http code text (Some data) =>
            (if failed code then Throw error else Ret (degraded data),
             log_call {| req := GetAccessTokenInfo t; status := Some code |} w1)
        | Http code text None =>
            (Throw error, log_call {| req := GetAccessTokenInfo t; status := Some code |} w1)
        | NetFail =>
            (Throw error, log_call {| req := GetAccessTokenInfo t; status := None |} w1)
        end
    | r => r
    end.
Proof.
  unfold TokenManagerDebug.getTokenInfoFromToken. fold (lookupToken t a s).
  unfold try_catch at 1.
  destruct (TokenManagerDebug.getTokenInfoFromDebugToken env t (Some (lookupToken t a s)) w)
    as [[info|error|] w1]; try reflexivity.
  unfold bind at 1, try_catch, bind, fetch.
  destruct (up_access_token_info (net env) (calls w1) t) as [|code text [data|]]; simpl.
  - reflexivity.
  - rewrite ok_not_failed. destruct (failed code); reflexivity.
  - rewrite ok_not_failed. destruct (failed code); reflexivity.
Qed.

(** X6.  [getTokenInfoFromToken] with its fallback.  When the
    debug-token lookup returns, that is the result and the legacy endpoint
    is not called.  When it throws, the legacy endpoint is called once.  An
    answer in 200-299 with a JSON body then gives the degraded result built
    from it, which says valid, has expiry 0, no scopes, the endpoint's
    expires-in, and is long-lived exactly when that exceeds a day.  Any
    other answer - a transport failure, a failure status, a body that is no
    JSON - makes the function throw the error of the debug-token lookup,
    not the fallback's own.  The function returns or throws in no other
    way. *)
Theorem introspection_falls_back_or_rethrows t a s w :
  (forall info w1,
      TokenManagerDebug.getTokenInfoFromDebugToken env t (Some (lookupToken t a s)) w
      = (Ret info, w1) ->
      TokenManagerDebug.getTokenInfoFromToken env t a s w = (Ret info, w1))
  /\ (forall error w1,
      TokenManagerDebug.getTokenInfoFromDebugToken env t (Some (lookupToken t a s)) w
      = (Throw error, w1) ->
      (forall code text data,
          up_access_token_info (net env) (calls w1) t = Http code text (Some data) ->
          failed code = false ->
          TokenManagerDebug.getTokenInfoFromToken env t a s w
          = (Ret (degraded data),
             log_call {| req := GetAccessTokenInfo t; status := Some code |} w1)
          /\ ti_isValid (degraded data) = Some true
          /\ ti_expiresAt (degraded data) = Some 0
          /\ ti_scopes (degraded data) = []
          /\ ti_expiresIn (degraded data) = orZero (ib_expires_in data)
          /\ (ti_isLongLived (degraded data) = true <-> orZero (ib_expires_in data) > 86400))
      /\ (forall code text json,
          up_access_token_info (net env) (calls w1) t = Http code text json ->
          failed code = true \/ json = None ->
          TokenManagerDebug.getTokenInfoFromToken env t a s w
          = (Throw error,
             log_call {| req := GetAccessTokenInfo t; status := Some code |} w1))
      /\ (up_access_token_info (net env) (calls w1) t = NetFail ->
          TokenManagerDebug.getTokenInfoFromToken env t a s w
          = (Throw error, log_call {| req := GetAccessTokenInfo t; status := None |} w1)))
  /\ (forall error w',
      TokenManagerDebug.getTokenInfoFromToken env t a s w = (Throw error, w') ->
      exists w1 st,
        TokenManagerDebug.getTokenInfoFromDebugToken env t (Some (lookupToken t a s)) w
        = (Throw error, w1)
        /\ w' = log_call {| req := GetAccessTokenInfo t; status := st |} w1)
  /\ (forall error w1 info w',
      TokenManagerDebug.getTokenInfoFromDebugToken env t (Some (lookupToken t a s)) w
      = (Throw error, w1) ->
      TokenManagerDebug.getTokenInfoFromToken env t a s w = (Ret info, w') ->
      ti_isValid info = Some true /\ ti_expiresAt info = Some 0 /\ ti_scopes info = []
      /\ (ti_isLongLived info = true <-> ti_expiresIn info > 86400)
      /\ exists code, w' = log_call {| req := GetAccessTokenInfo t; status := Some code |} w1
                      /\ failed code = false).
Proof.
  rewrite getTokenInfoFromToken_run.
  destruct (TokenManagerDebug.getTokenInfoFromDebugToken env t (Some (lookupToken t a s)) w)
    as [[info0|error0|] w0].
  - split; [|split; [|split]].
    + auto.
    + discriminate.
    + discriminate.
    + discriminate.
  - split; [|split; [|split]].
    + discriminate.
    + intros error w1 H. inversion H; subst; clear H. split; [|split].
      * intros code text data Hup Hc. rewrite Hup, Hc.
        split; [reflexivity|]. repeat split; simpl.
        -- intros Hl. apply Z.ltb_lt in Hl. lia.
        -- intros Hl. apply Z.ltb_lt. lia.
      * intros code text json Hup [Hc | ->]; rewrite Hup; [|reflexivity].
        destruct json; [rewrite Hc|]; reflexivity.
      * intros Hup. rewrite Hup. reflexivity.
    + intros error w' H.
      destruct (up_access_token_info (net env) (calls w0) t) as [|code text [data|]].
      * inversion H; subst. eauto.
      * destruct (failed code); inversion H; subst. eauto.
      * inversion H; subst. eauto.
    + intros error w1 info w' H0 H. inversion H0; subst; clear H0.
      destruct (up_access_token_info (net env) (calls w1) t) as [|code text [data|]];
        try discriminate.
      destruct (failed code) eqn:Hc; inversion H; subst; clear H.
      repeat split; simpl; eauto.
      * intros Hl. apply Z.ltb_lt in Hl. lia.
      * intros Hl. apply Z.ltb_lt. lia.
  - split; [|split; [|split]]; discriminate.
Qed.

(** The answer of the API check, read off an introspection. *)
Definition verdict (info : TokenInfo) : bool :=
  match ti_isValid info with
  | Some b => b
  | None =>
      if gt0 (ti_expiresAt info)
      then 24 * 60 * 60 <? orZero (ti_expiresAt info) - nowSec env
      else true
  end.

Lemma isTokenValid_api t w :
  t <> "" ->
  TokenManagerDebug.isTokenValid env (Some t) w
  = match TokenManagerDebug.getTokenInfoFromToken env t None None w with
    | (Ret info, w1) => (Ret (verdict info), w1)
    | (Throw _, w1) => (Ret false, w1)
    | (OutOfFuel, w1) => (OutOfFuel, w1)
    end.
Proof.
  intros Ht. apply String.eqb_neq in Ht.
  unfold TokenManagerDebug.isTokenValid. cbn [truthy]. rewrite Ht. cbn [negb].
  change (default "" (Some t)) with t. unfold try_catch, bind.
  destruct (TokenManagerDebug.getTokenInfoFromToken env t None None w) as [[info|e|] w1];
    try reflexivity.
  unfold verdict. destruct (ti_isValid info); [reflexivity|].
  destruct (gt0 (ti_expiresAt info)); reflexivity.
Qed.

(** X7.  [isTokenValid(token)] asks the API and never throws.  When the
    debug-token lookup returns, the answer is the [is_valid] it reports
    whatever the expiry - the 24-hour buffer is applied only when
    [is_valid] is no boolean, and a token without expiry then counts as
    valid.  When the debug-token lookup throws but the legacy endpoint
    answers in 200-299 with a JSON body, the answer is [true].  When both
    fail it is [false].  The store is never touched. *)
Theorem api_validity_answers t w :
  t <> "" ->
  (exists b w', TokenManagerDebug.isTokenValid env (Some t) w = (Ret b, w')
                /\ sameStore w w')
  /\ (forall info w1,
      TokenManagerDebug.getTokenInfoFromDebugToken env t (Some t) w = (Ret info, w1) ->
      TokenManagerDebug.isTokenValid env (Some t) w = (Ret (verdict info), w1)
      /\ (forall b, ti_isValid info = Some b -> verdict info = b)
      /\ (ti_isValid info = None -> gt0 (ti_expiresAt info) = false -> verdict info = true))
  /\ (forall error w1,
      TokenManagerDebug.getTokenInfoFromDebugToken env t (Some t) w = (Throw error, w1) ->
      exists st,
        TokenManagerDebug.isTokenValid env (Some t) w
        = (Ret (match up_access_token_info (net env) (calls w1) t with
                | Http code _ (Some _) => negb (failed code)
                | _ => false
                end),
           log_call {| req := GetAccessTokenInfo t; status := st |} w1)).
Proof.
  intros Ht. split; [|split].
  - pose proof (reads_isTokenValid env (Some t) w) as Hr.
    pose proof (isTokenValid_finishes env (Some t) w) as Hf.
    rewrite (isTokenValid_api t w Ht) in *.
    destruct (TokenManagerDebug.getTokenInfoFromToken env t None None w) as [[info|e|] w1];
      simpl in *; [eauto | eauto | congruence].
  - intros info w1 H. rewrite (isTokenValid_api t w Ht), getTokenInfoFromToken_run.
    change (lookupToken t None None) with t. rewrite H.
    split; [reflexivity|]. unfold verdict. split.
    + intros b ->. reflexivity.
    + intros -> ->. reflexivity.
  - intros error w1 H. rewrite (isTokenValid_api t w Ht), getTokenInfoFromToken_run.
    change (lookupToken t None None) with t. rewrite H.
    destruct (up_access_token_info (net env) (calls w1) t) as [|code text [data|]].
    + eexists. reflexivity.
    + destruct (failed code); eexists; reflexivity.
    + eexists. reflexivity.
Qed.
End Checks.


(** * The token report *)

Section Report.
Context (env : Platform).

Lemma reads_getDetailedTokenInfo token : reads (TokenReport.getDetailedTokenInfo env token).
Proof.
  unfold TokenReport.getDetailedTokenInfo.
  repeat first [ apply reads_getTokenInfoFromToken | reads_step ].
Qed.

Lemma getDetailedTokenInfo_finishes token :
  finishes (TokenReport.getDetailedTokenInfo env token).
Proof.
  unfold TokenReport.getDetailedTokenInfo.
  repeat first [ apply getTokenInfoFromToken_finishes | finishes_step ].
Qed.

(** The token the report is about, and the lookup it makes. *)
Definition reported (token : option string) (w : World) : option string :=
  if truthy token then token else props w !! PROP_KEYS.USER_ACCESS_TOKEN.

Lemma getDetailedTokenInfo_run token w :
  truthy (reported token w) = true ->
  exists d,
    TokenReport.getDetailedTokenInfo env token w
    = match TokenManagerDebug.getTokenInfoFromToken env (default "" (reported token w))
              (props w !! PROP_KEYS.APP_ID) (props w !! PROP_KEYS.APP_SECRET) w with
      | (Ret info, w1) => (Ret (TokenReport.DetailsOf (d info)), w1)
      | (Throw e, w1) => (Ret (TokenReport.DetailsError (message e)), w1)
      | (OutOfFuel, w1) => (OutOfFuel, w1)
      end
    /\ forall info,
        TokenReport.raw (d info) = info
        /\ TokenReport.有効期限 (d info)
           = (if gt0 (ti_expiresAt info)
              then toLocaleString env (orZero (ti_expiresAt info) * 1000) else "無期限")
        /\ TokenReport.残り時間 (d info)
           = (if 0 <? ti_expiresIn info
              then toString (ti_expiresIn info / 86400) +:+ "日 "
                   +:+ toString ((ti_expiresIn info mod 86400) / 3600) +:+ "時間"
              else "無期限")
        /\ TokenReport.長期トークン (d info) = (if ti_isLongLived info then "はい" else "いいえ")
        /\ TokenReport.有効状態 (d info)
           = (if default false (ti_isValid info) then "有効" else "無効").
Proof.
  intros Ht. eexists (fun info => _). split.
  - unfold TokenReport.getDetailedTokenInfo, try_catch.
    unfold bind at 1. unfold getProperty at 1. fold (reported token w). rewrite Ht. cbn [negb].
    unfold bind at 1. unfold ret at 1. unfold bind at 1. unfold getProperty at 1.
    unfold bind at 1. unfold getProperty at 1. unfold bind.
    destruct (TokenManagerDebug.getTokenInfoFromToken env _ _ _ w) as [[info|e|] w1];
      reflexivity.
  - intros info. cbn. repeat split.
Qed.

(** X8.  [getDetailedTokenInfo] never throws and changes nothing but
    the call log: a failure comes back as an error object.  With no token
    given and none stored the error is the missing-token one and no call is
    made.  For a token whose debug-token lookup reports an expiry that has
    passed, the report shows the expiry date, says it is not long-lived,
    and gives the remaining time as unlimited.  A positive remaining time
    is shown in whole days and whole hours, rounded down. *)
Theorem token_report_never_throws token w :
  (exists r w', TokenReport.getDetailedTokenInfo env token w = (Ret r, w')
                /\ sameStore w w')
  /\ (truthy (reported token w) = false ->
      TokenReport.getDetailedTokenInfo env token w
      = (Ret (TokenReport.DetailsError "トークンが設定されていません"), w))
  /\ (forall info w1 e,
      truthy (reported token w) = true ->
      0 <= now env ->
      TokenManagerDebug.getTokenInfoFromDebugToken env (default "" (reported token w))
        (Some (lookupToken (default "" (reported token w))
                 (props w !! PROP_KEYS.APP_ID) (props w !! PROP_KEYS.APP_SECRET))) w
      = (Ret info, w1) ->
      ti_expiresAt info = Some e -> 0 < e <= nowSec env ->
      exists d,
        TokenReport.getDetailedTokenInfo env token w = (Ret (TokenReport.DetailsOf d), w1)
        /\ TokenReport.raw d = info
        /\ TokenReport.有効期限 d = toLocaleString env (e * 1000)
        /\ TokenReport.長期トークン d = "いいえ"
        /\ TokenReport.残り時間 d = "無期限")
  /\ (forall d w',
      TokenReport.getDetailedTokenInfo env token w = (Ret (TokenReport.DetailsOf d), w') ->
      0 < ti_expiresIn (TokenReport.raw d) ->
      exists days hours,
        TokenReport.残り時間 d = toString days +:+ "日 " +:+ toString hours +:+ "時間"
        /\ 0 <= days /\ 0 <= hours < 24
        /\ days * 86400 + hours * 3600 <= ti_expiresIn (TokenReport.raw d)
           < days * 86400 + hours * 3600 + 3600).
Proof.
  split; [|split; [|split]].
  - pose proof (reads_getDetailedTokenInfo token w) as Hr.
    pose proof (getDetailedTokenInfo_finishes token w) as Hf.
    unfold TokenReport.getDetailedTokenInfo in *.
    unfold try_catch in *.
    match goal with
    | |- context [let (o, w') := ?body w in _] =>
        destruct (body w) as [[r|e|] w1]; simpl in *; [eauto | eauto | congruence]
    end.
  - intros Ht. unfold TokenReport.getDetailedTokenInfo, try_catch.
    unfold bind at 1. unfold getProperty at 1. fold (reported token w). rewrite Ht.
    reflexivity.
  - intros info w1 e Ht Hnow Hrun He Hpast.
    destruct (getDetailedTokenInfo_run token w Ht) as (d & Hd & Hfields).
    rewrite getTokenInfoFromToken_run, Hrun in Hd.
    destruct (Hfields info) as (Hraw & Hexp & Hrem & Hlong & _).
    exists (d info). split; [exact Hd|]. split; [exact Hraw|].
    destruct (getTokenInfoFromDebugToken_ret _ _ _ _ _ _ Hrun)
      as (data & Hat & _ & _ & Hin & Hll).
    assert (H1 : (0 <? e) = true) by (apply Z.ltb_lt; lia).
    assert (H2 : (24 * 60 * 60 <? e - nowSec env) = false) by (apply Z.ltb_ge; lia).
    assert (H3 : Z.max 0 (e - nowSec env) = 0) by lia.
    rewrite Hexp, Hlong, Hrem, Hin, Hll, <- Hat, He. cbn [gt0 orZero default]. unfold id.
    rewrite H1, H2, H3, bool_decide_eq_false_2 by (intros [=]; lia).
    repeat split.
  - intros d w' Hrun Hpos.
    assert (Hrem : TokenReport.残り時間 d
                   = toString (ti_expiresIn (TokenReport.raw d) / 86400) +:+ "日 "
                     +:+ toString ((ti_expiresIn (TokenReport.raw d) mod 86400) / 3600)
                     +:+ "時間").
    { destruct (truthy (reported token w)) eqn:Ht.
      - destruct (getDetailedTokenInfo_run token w Ht) as (d0 & Hd & Hfields).
        rewrite Hd in Hrun.
        destruct (TokenManagerDebug.getTokenInfoFromToken env _ _ _ w) as [[info|e|] w1];
          try discriminate.
        inversion Hrun; subst. destruct (Hfields info) as (Hraw & _ & Hrem & _).
        rewrite Hrem, Hraw. apply Z.ltb_lt in Hpos. rewrite Hraw in Hpos. rewrite Hpos.
        reflexivity.
      - unfold TokenReport.getDetailedTokenInfo, try_catch in Hrun.
        unfold bind at 1 in Hrun. unfold getProperty at 1 in Hrun.
        fold (reported token w) in Hrun. rewrite Ht in Hrun. discriminate. }
    eexists _, _. split; [exact Hrem|].
    set (x := ti_expiresIn (TokenReport.raw d)) in *.
    pose proof (Z.div_mod x 86400 ltac:(lia)).
    pose proof (Z.mod_pos_bound x 86400 ltac:(lia)).
    pose proof (Z.div_mod (x mod 86400) 3600 ltac:(lia)).
    pose proof (Z.mod_pos_bound (x mod 86400) 3600 ltac:(lia)).
    assert (0 <= x / 86400) by (apply Z.div_pos; lia).
    assert (0 <= x mod 86400 / 3600) by (apply Z.div_pos; lia).
    assert (x mod 86400 / 3600 < 24) by (apply Z.div_lt_upper_bound; lia).
    lia.
Qed.

Lemma reads_getTokenInfo : reads (TokenReport.getTokenInfo env).
Proof.
  unfold TokenReport.getTokenInfo.
  repeat first [ apply reads_getDetailedTokenInfo | apply reads_isTokenValid | reads_step ].
Qed.

Lemma getTokenInfo_finishes : finishes (TokenReport.getTokenInfo env).
Proof.
  unfold TokenReport.getTokenInfo.
  repeat first
    [ apply getDetailedTokenInfo_finishes | apply isTokenValid_finishes | finishes_step ].
Qed.

(** The verdict of the stored-expiry check. *)
Definition storedValid (w : World) : bool :=
  match storedExpiry w with
  | Some e => bufferMs <? e - now env
  | None => false
  end.

End Report.


(** * The settings tab as a map *)

Section SettingsMap.
Context (env : Platform).

(** The trimmed key of a row, as both the reader and the writer see it. *)
Definition rowKey (r : SettingRow) : string := trim env (sr_key r).

(** What [getSettings] makes of the rows below the header. *)
Definition setRow (map : gmap string string) (r : SettingRow) : gmap string string :=
  if (sr_key r =? "")%string then map else <[rowKey r := trim env (sr_value r)]> map.

Definition settingsOf (rows : list SettingRow) : gmap string string :=
  foldl setRow ∅ (drop 1 rows).

Lemma getSettings_run w rows :
  settingsSheet w = Some rows -> Settings.getSettings env w = (Ret (settingsOf rows), w).
Proof. intros H. unfold Settings.getSettings. rewrite H. reflexivity. Qed.

(** The rows [upsertSetting] leaves. *)
Definition updated (value notes : string) (r : SettingRow) : SettingRow :=
  {| sr_key := sr_key r; sr_value := value; sr_notes := notes |}.

Fixpoint updateFirst (key value notes : string) (body : list SettingRow)
  : option (list SettingRow) :=
  match body with
  | [] => None
  | r :: rest =>
      if (rowKey r =? key)%string then Some (updated value notes r :: rest)
      else cons r <$> updateFirst key value notes rest
  end.

Definition upsertRows (key value notes : string) (rows : list SettingRow) : list SettingRow :=
  match updateFirst key value notes (drop 1 rows) with
  | Some body => (take 1 rows ++ body)%list
  | None => (rows ++ [ {| sr_key := key; sr_value := value; sr_notes := notes |} ])%list
  end.

Lemma findIndex_updateFirst key value notes body :
  match findIndex (fun k => (k =? key)%string) (map rowKey body) with
  | Some idx => updateFirst key value notes body = Some (alter (updated value notes) idx body)
  | None => updateFirst key value notes body = None
  end.
Proof.
  induction body as [|r rest IH]; simpl; [reflexivity|].
  destruct (rowKey r =? key)%string; [reflexivity|].
  destruct (findIndex _ (map rowKey rest)) as [idx|]; simpl; rewrite IH; reflexivity.
Qed.

Lemma upsertSetting_run key value notes w rows :
  settingsSheet w = Some rows ->
  Config.upsertSetting env key value notes w
  = (Ret tt, set_settingsSheet (Some (upsertRows key value notes rows)) w).
Proof.
  intros H. unfold Config.upsertSetting, upsertRows. rewrite H.
  pose proof (findIndex_updateFirst key value notes (drop 1 rows)) as Hf.
  unfold rowKey in Hf at 1.
  destruct (findIndex _ _) as [idx|]; rewrite Hf; [|reflexivity].
  destruct rows as [|h body]; [destruct idx; reflexivity|]. reflexivity.
Qed.

(** The keys of the tab: the trimmed, non-empty keys below the header. *)
Definition names (rows : list SettingRow) : list string :=
  filter (fun k => k <> "") (map rowKey (drop 1 rows)).

(** A tab with its header row in which no key is listed twice. *)
Definition wellKept (rows : list SettingRow) : Prop :=
  rows <> [] /\ NoDup (names rows).

Lemma foldl_setRow_insert key v acc body :
  key <> "" -> key ∉ filter (fun k => k <> "") (map rowKey body) ->
  foldl setRow (<[key := v]> acc) body = <[key := v]> (foldl setRow acc body).
Proof.
  intros Hk. revert acc. induction body as [|r rest IH]; intros acc Hn; [reflexivity|].
  simpl in *. unfold setRow at 2 4.
  destruct (sr_key r =? "")%string eqn:Eb.
  - apply IH. intros Hin. apply Hn. apply list_elem_of_filter in Hin as [_ Hin].
    apply list_elem_of_filter. split; [exact Hk|]. right. exact Hin.
  - assert (Hne : rowKey r <> key).
    { intros He. apply Hn. apply list_elem_of_filter. split; [exact Hk|].
      rewrite <- He. left. }
    rewrite insert_insert_ne by exact Hne. apply IH.
    intros Hin. apply Hn. apply list_elem_of_filter in Hin as [_ Hin].
    apply list_elem_of_filter. split; [exact Hk|]. right. exact Hin.
Qed.

Section Upsert.
Context (key value notes : string).
Context (Hkey : key <> "") (Htrim : trim env key = key) (Hblank : trim env "" = "").

Lemma updateFirst_settings body body' acc :
  NoDup (filter (fun k => k <> "") (map rowKey body)) ->
  updateFirst key value notes body = Some body' ->
  foldl setRow acc body' = <[key := trim env value]> (foldl setRow acc body)
  /\ map rowKey body' = map rowKey body.
Proof.
  revert body' acc. induction body as [|r rest IH]; intros body' acc Hnd Hu; [discriminate|].
  simpl in Hu. destruct (String.eqb_spec (rowKey r) key) as [He|Hne].
  - inversion Hu; subst body'; clear Hu. split; [|reflexivity].
    assert (Hr : sr_key r <> "").
    { intros Hr. apply Hkey. rewrite <- He. unfold rowKey. rewrite Hr. exact Hblank. }
    apply String.eqb_neq in Hr.
    simpl. unfold setRow at 2 4. simpl. rewrite Hr.
    change (trim env (sr_key r)) with (rowKey r). rewrite He.
    simpl in Hnd. rewrite He in Hnd. rewrite filter_cons_True in Hnd by exact Hkey.
    apply NoDup_cons in Hnd as [Hn _].
    change (rowKey (updated value notes r)) with (rowKey r). rewrite He.
    rewrite !foldl_setRow_insert by assumption.
    rewrite insert_insert_eq. reflexivity.
  - destruct (updateFirst key value notes rest) as [rest'|] eqn:Hrest; [|discriminate].
    inversion Hu; subst body'; clear Hu. simpl.
    destruct (IH rest' (setRow acc r)) as [H1 H2]; [|reflexivity|].
    + simpl in Hnd. destruct (decide (rowKey r <> "")).
      * rewrite filter_cons_True in Hnd by assumption. apply NoDup_cons in Hnd. tauto.
      * rewrite filter_cons_False in Hnd by assumption. exact Hnd.
    + rewrite H1, H2. auto.
Qed.

Lemma updateFirst_None body :
  updateFirst key value notes body = None -> key ∉ map rowKey body.
Proof.
  induction body as [|r rest IH]; simpl; intros Hu; [apply not_elem_of_nil|].
  destruct (String.eqb_spec (rowKey r) key) as [He|Hne]; [discriminate|].
  destruct (updateFirst key value notes rest); [discriminate|].
  apply not_elem_of_cons. split; [congruence | apply IH; reflexivity].
Qed.

(** Writing a setting and reading the tab: an insertion into the map,
    on a tab that stays well kept. *)
Lemma settingsOf_upsertRows rows :
  wellKept rows ->
  settingsOf (upsertRows key value notes rows)
  = <[key := trim env value]> (settingsOf rows)
  /\ wellKept (upsertRows key value notes rows).
Proof.
  intros [Hne Hnd]. destruct rows as [|h body]; [contradiction|].
  unfold settingsOf, upsertRows, wellKept, names in *.
  change (drop 1 (h :: body)) with body in *.
  destruct (updateFirst key value notes body) as [body'|] eqn:Hu.
  - change (take 1 (h :: body) ++ body')%list with (h :: body').
    change (drop 1 (h :: body')) with body'.
    destruct (updateFirst_settings body body' ∅ Hnd Hu) as [H1 H2].
    split; [exact H1|]. split; [discriminate|]. rewrite H2. exact Hnd.
  - set (row := {| sr_key := key; sr_value := value; sr_notes := notes |}).
    change (drop 1 ((h :: body) ++ [row])) with (body ++ [row])%list.
    assert (Hrow : rowKey row = key) by exact Htrim.
    rewrite foldl_snoc. unfold setRow at 1.
    apply String.eqb_neq in Hkey as Hk.
    change (sr_key row) with key. rewrite Hk, Hrow.
    split; [reflexivity|]. split; [discriminate|].
    rewrite map_app, filter_app. simpl map. rewrite Hrow.
    rewrite filter_cons_True by exact Hkey. rewrite filter_nil.
    apply NoDup_app. split; [exact Hnd|]. split; [|apply NoDup_singleton].
    intros k Hin Hk'. apply list_elem_of_singleton in Hk'. subst k.
    apply list_elem_of_filter in Hin as [_ Hin].
    exact (updateFirst_None body Hu Hin).
Qed.
End Upsert.

(** X10.  Writing a setting and reading the tab back.  On a settings
    tab that has its header row and lists no key twice, for a key that is
    not empty and has no surrounding white space, [upsertSetting] followed
    by [getSettings] gives the map read before with the key set to the
    trimmed value; every other key reads as before, and the tab still
    lists no key twice. *)
Theorem setting_written_is_setting_read key value notes w rows :
  settingsSheet w = Some rows -> wellKept rows ->
  key <> "" -> trim env key = key -> trim env "" = "" ->
  exists m w' rows',
    Settings.getSettings env w = (Ret m, w)
    /\ Config.upsertSetting env key value notes w = (Ret tt, w')
    /\ settingsSheet w' = Some rows' /\ wellKept rows'
    /\ Settings.getSettings env w' = (Ret (<[key := trim env value]> m), w').
Proof.
  intros Hs Hw Hk Ht Hb.
  destruct (settingsOf_upsertRows key value notes Hk Ht Hb rows Hw) as [Hm Hw'].
  eexists _, _, _. split; [apply getSettings_run; exact Hs|].
  split; [apply upsertSetting_run; exact Hs|].
  split; [reflexivity|]. split; [exact Hw'|].
  rewrite <- Hm. apply getSettings_run. reflexivity.
Qed.

(** ** The defaults *)

(** One default, as [upsertSettingIfMissing] applies it to the map. *)
Definition fill (m : gmap string string) (kv : string * string) : gmap string string :=
  if bool_decide (is_Some (m !! kv.1)) then m else <[kv.1 := trim env kv.2]> m.

Lemma upsertSettingIfMissing_run key value notes w rows :
  settingsSheet w = Some rows -> wellKept rows ->
  key <> "" -> trim env key = key -> trim env "" = "" ->
  exists w' rows',
    Settings.upsertSettingIfMissing env key value notes w = (Ret tt, w')
    /\ settingsSheet w' = Some rows' /\ wellKept rows'
    /\ settingsOf rows' = fill (settingsOf rows) (key, value).
Proof.
  intros Hs Hw Hk Ht Hb. unfold Settings.upsertSettingIfMissing, bind, fill.
  rewrite (getSettings_run w rows Hs). simpl fst. simpl snd.
  destruct (bool_decide (is_Some (settingsOf rows !! key))).
  - exists w, rows. auto.
  - rewrite (upsertSetting_run key value _ w rows Hs).
    destruct (settingsOf_upsertRows key value (orElse notes "") Hk Ht Hb rows Hw) as [Hm Hw'].
    eexists _, _. split; [reflexivity|]. split; [reflexivity|]. auto.
Qed.

Lemma fill_all_run (defaults descriptions : list (string * string)) w rows :
  settingsSheet w = Some rows -> wellKept rows -> trim env "" = "" ->
  (forall kv, kv ∈ defaults -> kv.1 <> "" /\ trim env kv.1 = kv.1) ->
  exists w' rows',
    for_each defaults
      (fun kv => Settings.upsertSettingIfMissing env kv.1 kv.2
                   (Settings.property descriptions kv.1)) w = (Ret tt, w')
    /\ settingsSheet w' = Some rows' /\ wellKept rows'
    /\ settingsOf rows' = foldl fill (settingsOf rows) defaults.
Proof.
  intros Hs Hw Hb. revert w rows Hs Hw.
  induction defaults as [|kv rest IH]; intros w rows Hs Hw Hd.
  - exists w, rows. auto.
  - destruct (Hd kv) as [Hk Ht]; [left|].
    destruct (upsertSettingIfMissing_run kv.1 kv.2 (Settings.property descriptions kv.1)
                w rows Hs Hw Hk Ht Hb) as (w1 & rows1 & Hrun & Hs1 & Hw1 & Hm1).
    destruct (IH w1 rows1 Hs1 Hw1) as (w2 & rows2 & Hrun2 & Hs2 & Hw2 & Hm2).
    { intros kv' Hin. apply Hd. right. exact Hin. }
    exists w2, rows2. simpl. unfold bind. rewrite Hrun, Hrun2.
    split; [reflexivity|]. split; [exact Hs2|]. split; [exact Hw2|].
    rewrite Hm2, Hm1. destruct kv; reflexivity.
Qed.

Lemma fill_all_kept m l k v : m !! k = Some v -> foldl fill m l !! k = Some v.
Proof.
  revert m. induction l as [|kv rest IH]; intros m Hm; [exact Hm|].
  simpl. apply IH. unfold fill. destruct (bool_decide_reflect (is_Some (m !! kv.1))); [exact Hm|].
  destruct (decide (kv.1 = k)) as [He|Hne].
  - exfalso. apply n. rewrite He. eauto.
  - rewrite lookup_insert_ne by exact Hne. exact Hm.
Qed.

Lemma fill_all_other m l k : k ∉ map fst l -> foldl fill m l !! k = m !! k.
Proof.
  revert m. induction l as [|kv rest IH]; intros m Hk; [reflexivity|].
  simpl in *. apply not_elem_of_cons in Hk as [Hne Hk]. rewrite IH by exact Hk.
  unfold fill. destruct (bool_decide (is_Some (m !! kv.1))); [reflexivity|].
  apply lookup_insert_ne. congruence.
Qed.

Lemma fill_all_missing m l k d :
  NoDup (map fst l) -> (k, d) ∈ l -> m !! k = None ->
  foldl fill m l !! k = Some (trim env d).
Proof.
  revert m. induction l as [|kv rest IH]; intros m Hnd Hin Hm.
  - apply elem_of_nil in Hin. contradiction.
  - simpl in *. apply NoDup_cons in Hnd as [Hfresh Hnd].
    apply elem_of_cons in Hin as [<-|Hin].
    + apply fill_all_kept. unfold fill. simpl.
      rewrite bool_decide_eq_false_2 by (rewrite Hm; intros [x Hx]; discriminate).
      apply lookup_insert_eq.
    + apply IH; [exact Hnd | exact Hin |].
      assert (Hne : kv.1 <> k).
      { intros He. apply Hfresh. rewrite He.
        apply (list_elem_of_fmap_2 fst _ _ Hin). }
      unfold fill. destruct (bool_decide (is_Some (m !! kv.1))); [exact Hm|].
      rewrite lookup_insert_ne by exact Hne. exact Hm.
Qed.

Lemma defaults_distinct : NoDup (map fst Settings.DEFAULT_SETTINGS).
Proof. apply (bool_decide_unpack _). vm_compute. exact I. Qed.

Lemma defaults_named kv : kv ∈ Settings.DEFAULT_SETTINGS -> kv.1 <> "".
Proof.
  assert (H : Forall (fun kv : string * string => kv.1 <> "") Settings.DEFAULT_SETTINGS)
    by (apply (bool_decide_unpack _); vm_compute; exact I).
  rewrite Forall_forall in H. apply H.
Qed.

(** X11.  [initializeDefaultSettings] fills gaps only.  On a settings
    tab that has its header row and lists no key twice: a setting that
    could be read before reads the same afterwards - a default never
    replaces a value, an empty one included; every default that was missing
    reads as its trimmed default value; keys that are no default read as
    before.  The one exception is the script id: when the platform gives
    one, it replaces what was stored. *)
Theorem defaults_fill_gaps_only scriptId w rows :
  settingsSheet w = Some rows -> wellKept rows -> trim env "" = "" ->
  (forall kv, kv ∈ Settings.DEFAULT_SETTINGS -> trim env kv.1 = kv.1) ->
  exists m w' m',
    Settings.getSettings env w = (Ret m, w)
    /\ Settings.initializeDefaultSettings env scriptId w = (Ret tt, w')
    /\ Settings.getSettings env w' = (Ret m', w')
    /\ (forall k v, m !! k = Some v -> k <> "スクリプトID" \/ scriptId = "" ->
                    m' !! k = Some v)
    /\ (forall k d, (k, d) ∈ Settings.DEFAULT_SETTINGS -> m !! k = None ->
                    k <> "スクリプトID" \/ scriptId = "" -> m' !! k = Some (trim env d))
    /\ (scriptId <> "" -> m' !! "スクリプトID" = Some (trim env scriptId))
    /\ (forall k, k ∉ map fst Settings.DEFAULT_SETTINGS -> m' !! k = m !! k).
Proof.
  intros Hs Hw Hb Ht.
  destruct (fill_all_run Settings.DEFAULT_SETTINGS Settings.SETTING_DESCRIPTIONS w rows
              Hs Hw Hb) as (w1 & rows1 & Hrun & Hs1 & Hw1 & Hm1).
  { intros kv Hin. split; [apply defaults_named; exact Hin | apply Ht; exact Hin]. }
  assert (Hid : ("スクリプトID", "") ∈ Settings.DEFAULT_SETTINGS)
    by (apply (bool_decide_unpack _); vm_compute; exact I).
  assert (Hidk : "スクリプトID" <> "") by discriminate.
  assert (Hidt : trim env "スクリプトID" = "スクリプトID") by (apply (Ht _ Hid)).
  exists (settingsOf rows).
  unfold Settings.initializeDefaultSettings. unfold bind at 1. rewrite Hrun.
  destruct (String.eqb_spec scriptId "") as [->|Hsid]; cbn [negb].
  - destruct (upsertSettingIfMissing_run "スクリプトID" ""
                (Settings.property Settings.SETTING_DESCRIPTIONS "スクリプトID")
                w1 rows1 Hs1 Hw1 Hidk Hidt Hb) as (w2 & rows2 & Hrun2 & Hs2 & Hw2 & Hm2).
    assert (Hsame : settingsOf rows2 = foldl fill (settingsOf rows) Settings.DEFAULT_SETTINGS).
    { rewrite Hm2, Hm1. unfold fill at 1. simpl fst.
      destruct (settingsOf rows !! "スクリプトID") as [v|] eqn:Hv.
      - rewrite bool_decide_eq_true_2; [reflexivity|].
        rewrite (fill_all_kept _ _ _ _ Hv). eauto.
      - rewrite bool_decide_eq_true_2; [reflexivity|].
        rewrite (fill_all_missing _ _ _ _ defaults_distinct Hid Hv). eauto. }
    exists w2, (settingsOf rows2).
    split; [apply getSettings_run; exact Hs|]. split; [exact Hrun2|].
    split; [apply getSettings_run; exact Hs2|]. rewrite Hsame.
    split; [intros k v Hv _; apply fill_all_kept; exact Hv|].
    split; [intros k d Hin Hv _; apply fill_all_missing; auto using defaults_distinct|].
    split; [intros Hc; contradiction|].
    intros k Hk. apply fill_all_other. exact Hk.
  - rewrite (upsertSetting_run "スクリプトID" scriptId _ w1 rows1 Hs1).
    destruct (settingsOf_upsertRows "スクリプトID" scriptId
                (orElse (Settings.property Settings.SETTING_DESCRIPTIONS "スクリプトID") "")
                Hidk Hidt Hb rows1 Hw1) as [Hm2 Hw2].
    eexists _, _.
    split; [apply getSettings_run; exact Hs|]. split; [reflexivity|].
    split; [apply getSettings_run; reflexivity|]. rewrite Hm2, Hm1.
    split; [|split; [|split]].
    + intros k v Hv [Hk|Hc]; [|contradiction].
      rewrite lookup_insert_ne by congruence. apply fill_all_kept. exact Hv.
    + intros k d Hin Hv [Hk|Hc]; [|contradiction].
      rewrite lookup_insert_ne by congruence.
      apply fill_all_missing; auto using defaults_distinct.
    + intros _. apply lookup_insert_eq.
    + intros k Hk. rewrite lookup_insert_ne; [apply fill_all_other; exact Hk|].
      intros <-. apply Hk. apply (list_elem_of_fmap_2 fst _ _ Hid).
Qed.
End SettingsMap.

(** * The retry budget *)

(** The budget [fuel] stands for the depth the self-call of an operation
    may reach.  A run that ends - by returning or by throwing - within its
    budget is the same run under any larger budget; a run is cut short
    only while every call is answered with the session-expired signature
    and every refresh succeeds. *)

Section Budget.
Context (refreshToken : M bool).
Context {B A : Type}.
Context (request : string -> Request)
        (answer : string -> list Call -> Fetched B)
        (label : string)
        (onSuccess : string -> Response B -> M A).

#[local] Abbreviation resilient :=
  (FacebookApi.resilient refreshToken request answer label onSuccess).

(** One layer of the wrapper, its handlers flattened. *)
Lemma resilient_step fuel token w :
  resilient (S fuel) token w
  = match fetch (request token) (answer token) w with
    | (Ret res, w1) =>
        if failed (getResponseCode res) then
          if (getResponseCode res =? 400)
             && includes (getContentText res) "Session has expired"
          then
            match refreshToken w1 with
            | (Ret true, w2) =>
                match resilient fuel
                        (FacebookApi.tokenString (props w2 !! PROP_KEYS.PAGE_ACCESS_TOKEN))
                        w2 with
                | (Throw e, w3) =>
                    (Throw (JsError ("トークンの自動更新に失敗しました: " +:+ message e)), w3)
                | r => r
                end
            | (Ret false, w2) =>
                (Throw (JsError ("トークンの自動更新に失敗しました: "
                                 +:+ "トークンの自動更新に失敗しました。手動でトークンを更新してください。")), w2)
            | (Throw e, w2) =>
                (Throw (JsError ("トークンの自動更新に失敗しました: " +:+ message e)), w2)
            | (OutOfFuel, w2) => (OutOfFuel, w2)
            end
          else
            (Throw (JsError (label +:+ ": " +:+ toString (getResponseCode res) +:+ " "
                             +:+ getContentText res)), w1)
        else onSuccess token res w1
    | (Throw e, w1) => (Throw e, w1)
    | (OutOfFuel, w1) => (OutOfFuel, w1)
    end.
Proof.
  cbn [FacebookApi.resilient]. unfold bind at 1.
  destruct (fetch (request token) (answer token) w) as [[res|e|] w1]; try reflexivity.
  destruct (failed (getResponseCode res)); [|reflexivity].
  destruct ((getResponseCode res =? 400)
            && includes (getContentText res) "Session has expired"); [|reflexivity].
  unfold try_catch, bind at 1.
  destruct (refreshToken w1) as [[[|]|e|] w2]; reflexivity.
Qed.

Lemma resilient_more_fuel fuel fuel' token w :
  (resilient fuel token w).1 <> OutOfFuel -> (fuel <= fuel')%nat ->
  resilient fuel' token w = resilient fuel token w.
Proof.
  revert fuel' token w. induction fuel as [|fuel IH]; intros fuel' token w Hne Hle.
  - exfalso. apply Hne. reflexivity.
  - destruct fuel' as [|fuel']; [lia|]. assert (Hle' : (fuel <= fuel')%nat) by lia.
    rewrite resilient_step in Hne. rewrite !resilient_step.
    destruct (fetch (request token) (answer token) w) as [[res|e|] w1]; try reflexivity.
    destruct (failed (getResponseCode res)); [|reflexivity].
    destruct ((getResponseCode res =? 400)
              && includes (getContentText res) "Session has expired"); [|reflexivity].
    destruct (refreshToken w1) as [[[|]|e|] w2]; try reflexivity.
    rewrite (IH fuel' _ w2); [reflexivity | | exact Hle'].
    intros Hout. apply Hne.
    destruct (FacebookApi.resilient refreshToken request answer label onSuccess fuel _ w2)
      as [[r|e|] w3]; simpl in *; congruence.
Qed.

(** With a budget that allows one call, an answer without the signature
    ends the run. *)
Lemma resilient_settles fuel token w :
  expiredb (answer token (calls w)) = false ->
  (forall t res, finishes (onSuccess t res)) ->
  (resilient (S fuel) token w).1 <> OutOfFuel.
Proof.
  intros He Hs. rewrite resilient_step. unfold fetch.
  destruct (answer token (calls w)) as [|c text json]; simpl in *; [discriminate|].
  destruct (failed c); [|apply Hs]. rewrite He. discriminate.
Qed.
End Budget.

Section OperationBudget.
Context (env : Platform) (refreshToken : M bool).

Lemma postReply_more_fuel fuel fuel' commentId message token w :
  (FacebookApi.postReply env refreshToken fuel commentId message token w).1 <> OutOfFuel ->
  (fuel <= fuel')%nat ->
  FacebookApi.postReply env refreshToken fuel' commentId message token w
  = FacebookApi.postReply env refreshToken fuel commentId message token w.
Proof. apply resilient_more_fuel. Qed.

Lemma postReply_settles fuel commentId message token w :
  expiredb (up_reply (net env) (calls w) commentId message token) = false ->
  (FacebookApi.postReply env refreshToken (S fuel) commentId message token w).1 <> OutOfFuel.
Proof.
  intros He. apply resilient_settles; [exact He|]. intros t res. repeat finishes_step.
Qed.

Lemma createPagePost_more_fuel fuel fuel' message token w :
  (FacebookApi.createPagePost env refreshToken fuel message token w).1 <> OutOfFuel ->
  (fuel <= fuel')%nat ->
  FacebookApi.createPagePost env refreshToken fuel' message token w
  = FacebookApi.createPagePost env refreshToken fuel message token w.
Proof. apply resilient_more_fuel. Qed.

Lemma createPagePost_settles fuel message token w :
  expiredb (up_feed (net env) (calls w) message token) = false ->
  (FacebookApi.createPagePost env refreshToken (S fuel) message token w).1 <> OutOfFuel.
Proof.
  intros He. apply resilient_settles; [exact He|]. intros t res. repeat finishes_step.
Qed.
End OperationBudget.


(** * What a sweep records, the next sweep skips *)

(** [leaves f m]: no run of [m] changes the part [f] of the world. *)
Definition leaves {X} (f : World -> X) {A} (m : M A) : Prop :=
  forall w, f (m w).2 = f w.

Section Leaves.
Context {X : Type} (f : World -> X).
Context (Hcall : forall c w, f (log_call c w) = f w)
        (Hwrite : forall kvs g w, f (log_write kvs (set_props g w)) = f w)
        (Hset : forall s w, f (set_settingsSheet s w) = f w).

Lemma leaves_ret {A} (a : A) : leaves f (ret a).
Proof. intros w. reflexivity. Qed.

Lemma leaves_throw {A} e : leaves f (@throw A e).
Proof. intros w. reflexivity. Qed.

Lemma leaves_diverge {A} : leaves f (@diverge A).
Proof. intros w. reflexivity. Qed.

Lemma leaves_bind {A B} (m : M A) (k : A -> M B) :
  leaves f m -> (forall a, leaves f (k a)) -> leaves f (bind m k).
Proof.
  intros Hm Hk w. unfold bind. specialize (Hm w).
  destruct (m w) as [[a|e|] w1]; simpl in *; auto.
  rewrite Hk. exact Hm.
Qed.

Lemma leaves_try_catch {A} (m : M A) h :
  leaves f m -> (forall e, leaves f (h e)) -> leaves f (try_catch m h).
Proof.
  intros Hm Hh w. unfold try_catch. specialize (Hm w).
  destruct (m w) as [[a|e|] w1]; simpl in *; auto.
  rewrite Hh. exact Hm.
Qed.

Lemma leaves_getProperty k : leaves f (getProperty k).
Proof. intros w. reflexivity. Qed.

Lemma leaves_setProperties kvs : leaves f (setProperties kvs).
Proof. intros w. apply Hwrite. Qed.

Lemma leaves_fetch {B} r (answer : list Call -> Fetched B) : leaves f (fetch r answer).
Proof. intros w. unfold fetch. destruct (answer (calls w)); apply Hcall. Qed.

Lemma leaves_parseJSON {B} (res : Response B) : leaves f (parseJSON res).
Proof. unfold parseJSON. destruct (parsed res); [apply leaves_ret | apply leaves_throw]. Qed.

Lemma leaves_upsertSetting env key value notes :
  leaves f (Config.upsertSetting env key value notes).
Proof.
  intros w. unfold Config.upsertSetting.
  destruct (settingsSheet w); [destruct (findIndex _ _); apply Hset | reflexivity].
Qed.

Lemma leaves_resilient {B A} (refreshToken : M bool) request
      (answer : string -> list Call -> Fetched B) label
      (onSuccess : string -> Response B -> M A) fuel token :
  leaves f refreshToken -> (forall t res, leaves f (onSuccess t res)) ->
  leaves f (FacebookApi.resilient refreshToken request answer label onSuccess fuel token).
Proof.
  intros Hr Hs. revert token. induction fuel as [|fuel IH]; intros token; simpl.
  - apply leaves_diverge.
  - apply leaves_bind; [apply leaves_fetch|]. intros res. cbv zeta.
    destruct (failed _); [|apply Hs].
    destruct (_ && _); [|apply leaves_throw].
    apply leaves_try_catch; [|intros e; apply leaves_throw].
    apply leaves_bind; [exact Hr|]. intros [|]; [|apply leaves_throw].
    apply leaves_bind; [apply leaves_getProperty|]. intros t. apply IH.
Qed.
End Leaves.

Ltac leaves_step :=
  first
    [ apply leaves_ret | apply leaves_throw | apply leaves_diverge
    | apply leaves_getProperty | apply leaves_parseJSON
    | apply leaves_setProperties; reflexivity
    | apply leaves_fetch; reflexivity
    | apply leaves_upsertSetting; reflexivity
    | apply leaves_bind; [|intros ?]
    | apply leaves_try_catch; [|intros ?]
    | match goal with
      | |- leaves _ (if ?b then _ else _) => destruct b
      | |- leaves _ (match ?x with _ => _ end) => destruct x
      end
    | progress cbv zeta ].

(** Both refreshes leave the processed, log and posts tabs alone. *)
Lemma debug_refresh_leaves {X} (f : World -> X) env :
  (forall c w, f (log_call c w) = f w) ->
  (forall kvs g w, f (log_write kvs (set_props g w)) = f w) ->
  (forall s w, f (set_settingsSheet s w) = f w) ->
  leaves f (TokenManagerDebug.refreshToken env).
Proof.
  intros Hc Hw Hs.
  unfold TokenManagerDebug.refreshToken, TokenManagerDebug.when, TokenManagerDebug.debugExpiry,
    TokenManagerDebug.getPageTokens, TokenManagerDebug.exchangeToLongLivedTokenWithCredentials,
    TokenManagerDebug.getTokenInfoFromToken, TokenManagerDebug.getTokenInfoFromDebugToken.
  repeat first
    [ apply leaves_ret | apply leaves_throw | apply leaves_getProperty | apply leaves_parseJSON
    | apply leaves_setProperties; exact Hw
    | apply leaves_fetch; exact Hc
    | apply leaves_upsertSetting; exact Hs
    | apply leaves_bind; [|intros ?]
    | apply leaves_try_catch; [|intros ?]
    | match goal with
      | |- leaves _ (if ?b then _ else _) => destruct b
      | |- leaves _ (match ?x with _ => _ end) => destruct x
      end
    | progress cbv zeta ].
Qed.

Lemma legacy_refresh_leaves {X} (f : World -> X) env :
  (forall c w, f (log_call c w) = f w) ->
  (forall kvs g w, f (log_write kvs (set_props g w)) = f w) ->
  leaves f (TokenManager.refreshToken env).
Proof.
  intros Hc Hw.
  unfold TokenManager.refreshToken, TokenManager.getPageTokens,
    TokenManager.exchangeToLongLivedTokenWithCredentials.
  repeat first
    [ apply leaves_ret | apply leaves_throw | apply leaves_getProperty | apply leaves_parseJSON
    | apply leaves_setProperties; exact Hw
    | apply leaves_fetch; exact Hc
    | apply leaves_bind; [|intros ?]
    | apply leaves_try_catch; [|intros ?]
    | match goal with
      | |- leaves _ (if ?b then _ else _) => destruct b
      | |- leaves _ (match ?x with _ => _ end) => destruct x
      end
    | progress cbv zeta ].
Qed.

Section Recorded.
Context (env : Platform) (refreshToken : M bool).
Context (Hrefresh : keeps tokenFootprint refreshToken).
Context (Hprocessed : leaves processedSheet refreshToken).

Lemma postReply_leaves_processed fuel commentId message token :
  leaves processedSheet (FacebookApi.postReply env refreshToken fuel commentId message token).
Proof.
  unfold FacebookApi.postReply. apply leaves_resilient; try reflexivity; [exact Hprocessed|].
  intros t res. repeat leaves_step.
Qed.

Lemma postReply_leaves_log fuel commentId message token w :
  logSheet (FacebookApi.postReply env refreshToken fuel commentId message token w).2
  = logSheet w.
Proof.
  pose proof (keeps_postReply env refreshToken Hrefresh
                {| fp_write := fun _ => true; fp_call := fun _ => true;
                   fp_log := fun _ => false |} fuel commentId message token) as Hk.
  destruct (Hk ltac:(repeat split; simpl; auto) ltac:(reflexivity) w)
    as (_ & _ & [rows [Hl Hr]]).
  simpl in Hr. apply forallb_false_nil in Hr. subst rows. rewrite Hl.
  destruct (logSheet w); simpl; [rewrite app_nil_r|]; reflexivity.
Qed.

(** The ids [loadProcessedIds] reads from the rows of the processed
    tab. *)
Definition processedIds (rows : list (string * string)) : gset string :=
  foldl (fun (set : gset string) (row : string * string) =>
           if (row.1 =? "")%string then set else {[ trim env row.1 ]} ∪ set)
        ∅ (drop 1 rows).

Lemma loadProcessedIds_run w rows :
  processedSheet w = Some rows ->
  Processed.loadProcessedIds env w = (Ret (processedIds rows), w).
Proof. intros H. unfold Processed.loadProcessedIds. rewrite H. reflexivity. Qed.

Lemma processedIds_snoc rows id t :
  rows <> [] -> id <> "" ->
  processedIds (rows ++ [(id, t)]) = {[ trim env id ]} ∪ processedIds rows.
Proof.
  intros Hr Hid. destruct rows as [|h body]; [contradiction|].
  unfold processedIds. change (drop 1 ((h :: body) ++ [(id, t)])) with (body ++ [(id, t)])%list.
  change (drop 1 (h :: body)) with body.
  rewrite foldl_snoc. simpl. apply String.eqb_neq in Hid. rewrite Hid. reflexivity.
Qed.

(** The ids [loadRepliedCommentIdsSet] reads from the rows of the log
    tab. *)
Lemma repliedIds_snoc w rows row :
  logSheet w = Some rows -> rows <> [] ->
  trim env (lr_commentId row) <> "" -> trim env (lr_status row) = "replied" ->
  repliedIds env (set_logSheet (Some (rows ++ [row])%list) w)
  = {[ trim env (lr_commentId row) ]} ∪ repliedIds env w.
Proof.
  intros Hl Hr Hid Hst. unfold repliedIds, SheetManager.loadRepliedCommentIdsSet.
  rewrite Hl. simpl. destruct rows as [|h body]; [contradiction|].
  change (drop 1 ((h :: body) ++ [row])) with (body ++ [row])%list.
  change (drop 1 (h :: body)) with body.
  rewrite foldl_snoc. rewrite Hst. apply String.eqb_neq in Hid. rewrite Hid. reflexivity.
Qed.

Lemma repliedIds_frame w w' :
  logSheet w' = logSheet w -> repliedIds env w' = repliedIds env w.
Proof.
  intros H. unfold repliedIds, SheetManager.loadRepliedCommentIdsSet. rewrite H.
  destruct (logSheet w); reflexivity.
Qed.

(** What a run of the loop body that returned has recorded. *)
Lemma processComment_recorded
        fuel postId token rules processedSet comment w w' prows lrows :
  processedSheet w = Some prows -> prows <> [] ->
  logSheet w = Some lrows -> lrows <> [] ->
  c_id comment <> "" -> trim env (c_id comment) = c_id comment ->
  trim env "replied" = "replied" ->
  c_id comment ∉ processedSet ->
  CommentProcessor.processComment env refreshToken fuel postId token rules processedSet
    comment w = (Ret tt, w') ->
  exists row,
    logSheet w' = Some (lrows ++ [row])%list /\ lr_commentId row = c_id comment
    /\ ((lr_status row = "error" /\ processedSheet w' = Some prows)
        \/ ((lr_status row = "replied" \/ lr_status row = "no_match")
            /\ (exists ids, Processed.loadProcessedIds env w' = (Ret ids, w')
                            /\ c_id comment ∈ ids
                            /\ forall fuel' postId' token' limit rules' w2,
                                 replyPosts (c_id comment)
                                   (CommentProcessor.processComments env refreshToken fuel'
                                      postId' token' limit rules' ids w2).2
                                 = replyPosts (c_id comment) w2)
            /\ (lr_status row = "replied" -> c_id comment ∈ repliedIds env w'))).
Proof.
  intros Hp Hpne Hl Hlne Hid Htrim Hrep Hnew Hrun.
  unfold CommentProcessor.processComment in Hrun. cbv zeta in Hrun.
  rewrite bool_decide_eq_false_2 in Hrun by exact Hnew.
  assert (Hnext : forall ids, c_id comment ∈ ids ->
            forall fuel' postId' token' limit rules' w2,
              replyPosts (c_id comment)
                (CommentProcessor.processComments env refreshToken fuel' postId' token' limit
                   rules' ids w2).2 = replyPosts (c_id comment) w2).
  { intros ids Hin fuel' postId' token' limit rules' w2.
    eapply within_skip; [apply processComments_skips; exact Hrefresh | exact Hin]. }
  assert (Hloaded : c_id comment
                    ∈ processedIds (prows ++ [(c_id comment,
                                               orEmpty (c_created_time comment))])).
  { rewrite processedIds_snoc by assumption. rewrite Htrim. set_solver. }
  destruct (CommentProcessor.findMatchingRule env _ rules) as [rule|].
  - unfold try_catch in Hrun. unfold bind at 1 in Hrun.
    pose proof (postReply_leaves_processed fuel (c_id comment)
                  (CommentProcessor.generateReply (template rule)
                     (orEmpty (c_from_name comment))) token w) as Hpp.
    pose proof (postReply_leaves_log fuel (c_id comment)
                  (CommentProcessor.generateReply (template rule)
                     (orEmpty (c_from_name comment))) token w) as Hpl.
    destruct (FacebookApi.postReply env refreshToken fuel _ _ token w) as [[r|e|] w1];
      simpl in Hpp, Hpl; rewrite Hp in Hpp; rewrite Hl in Hpl.
    + unfold bind, SheetManager.appendProcessed, SheetManager.logComment in Hrun.
      rewrite Hpp in Hrun. simpl in Hrun. rewrite Hpl in Hrun.
      inversion Hrun; subst w'; clear Hrun.
      eexists. split; [reflexivity|]. split; [reflexivity|]. right.
      split; [left; reflexivity|]. split.
      * eexists. split; [apply loadProcessedIds_run; reflexivity|]. split; [exact Hloaded|].
        apply Hnext. exact Hloaded.
      * intros _. rewrite repliedIds_snoc; simpl; rewrite ?Htrim; auto. set_solver.
    + unfold SheetManager.logComment in Hrun. rewrite Hpl in Hrun.
      inversion Hrun; subst w'; clear Hrun.
      eexists. split; [reflexivity|]. split; [reflexivity|]. left.
      split; [reflexivity | exact Hpp].
    + discriminate.
  - unfold bind, SheetManager.appendProcessed, SheetManager.logComment in Hrun.
    rewrite Hp in Hrun. simpl in Hrun. rewrite Hl in Hrun.
    inversion Hrun; subst w'; clear Hrun.
    eexists. split; [reflexivity|]. split; [reflexivity|]. right.
    split; [right; reflexivity|]. split.
    + eexists. split; [apply loadProcessedIds_run; reflexivity|]. split; [exact Hloaded|].
      apply Hnext. exact Hloaded.
    + discriminate.
Qed.


(** How the loop body ends: it returns unless the reply call is cut
    short, and it depends on the budget through that call only. *)
Lemma processComment_ends fuel postId token rules processedSet comment w prows lrows :
  processedSheet w = Some prows -> logSheet w = Some lrows ->
  c_id comment ∉ processedSet ->
  match CommentProcessor.findMatchingRule env (orEmpty (c_message comment)) rules with
  | None =>
      (CommentProcessor.processComment env refreshToken fuel postId token rules processedSet
         comment w).1 = Ret tt
  | Some rule =>
      (CommentProcessor.processComment env refreshToken fuel postId token rules processedSet
         comment w).1
      = match (FacebookApi.postReply env refreshToken fuel (c_id comment)
                 (CommentProcessor.generateReply (template rule)
                    (orEmpty (c_from_name comment))) token w).1 with
        | OutOfFuel => OutOfFuel
        | _ => Ret tt
        end
  end.
Proof.
  intros Hp Hl Hnew. unfold CommentProcessor.processComment. cbv zeta.
  rewrite bool_decide_eq_false_2 by exact Hnew.
  destruct (CommentProcessor.findMatchingRule env _ rules) as [rule|].
  - unfold try_catch. unfold bind at 1.
    pose proof (postReply_leaves_processed fuel (c_id comment)
                  (CommentProcessor.generateReply (template rule)
                     (orEmpty (c_from_name comment))) token w) as Hpp.
    pose proof (postReply_leaves_log fuel (c_id comment)
                  (CommentProcessor.generateReply (template rule)
                     (orEmpty (c_from_name comment))) token w) as Hpl.
    destruct (FacebookApi.postReply env refreshToken fuel _ _ token w) as [[r|e|] w1];
      simpl in Hpp, Hpl; rewrite Hp in Hpp; rewrite Hl in Hpl.
    + unfold bind, SheetManager.appendProcessed, SheetManager.logComment.
      rewrite Hpp. simpl. rewrite Hpl. reflexivity.
    + unfold SheetManager.logComment. rewrite Hpl. reflexivity.
    + reflexivity.
  - unfold bind, SheetManager.appendProcessed, SheetManager.logComment.
    rewrite Hp. simpl. rewrite Hl. reflexivity.
Qed.

Lemma processComment_more_fuel fuel fuel' postId token rules processedSet comment w
      prows lrows :
  processedSheet w = Some prows -> logSheet w = Some lrows ->
  c_id comment ∉ processedSet ->
  (CommentProcessor.processComment env refreshToken fuel postId token rules processedSet
     comment w).1 <> OutOfFuel ->
  (fuel <= fuel')%nat ->
  CommentProcessor.processComment env refreshToken fuel' postId token rules processedSet
    comment w
  = CommentProcessor.processComment env refreshToken fuel postId token rules processedSet
      comment w.
Proof.
  intros Hp Hl Hnew Hne Hle.
  pose proof (processComment_ends fuel postId token rules processedSet comment w
                prows lrows Hp Hl Hnew) as Hend.
  unfold CommentProcessor.processComment in *. cbv zeta in *.
  rewrite bool_decide_eq_false_2 in * by exact Hnew.
  destruct (CommentProcessor.findMatchingRule env _ rules) as [rule|]; [|reflexivity].
  unfold try_catch. unfold bind at 1 3.
  rewrite (postReply_more_fuel env refreshToken fuel fuel'); [reflexivity| |exact Hle].
  intros Hout. apply Hne. rewrite Hend, Hout. reflexivity.
Qed.


(** What a run of the body of the sweep that returned has recorded. *)
Lemma replyOne_recorded
        fuel token rules repliedSet sinceMs postId t c w t' w' prows lrows :
  processedSheet w = Some prows -> prows <> [] ->
  logSheet w = Some lrows -> lrows <> [] ->
  trim env (c_id c) <> "" -> trim env (trim env (c_id c)) = trim env (c_id c) ->
  trim env "replied" = "replied" ->
  trim env (c_id c) ∉ repliedSet ->
  Main.replyOne env refreshToken fuel token rules repliedSet sinceMs postId t c w
  = (Ret t', w') ->
  (w' = w /\ Main.skipped t' = Main.skipped t + 1)
  \/ exists row,
      logSheet w' = Some (lrows ++ [row])%list /\ lr_commentId row = trim env (c_id c)
      /\ ((lr_status row = "error" /\ Main.failed_ t' = Main.failed_ t + 1
           /\ processedSheet w' = Some prows)
          \/ (lr_status row = "replied" /\ Main.replied t' = Main.replied t + 1
              /\ trim env (c_id c) ∈ repliedIds env w'
              /\ (exists ids, Processed.loadProcessedIds env w' = (Ret ids, w')
                              /\ trim env (c_id c) ∈ ids)
              /\ forall fuel' postIds rules',
                   replyPosts (trim env (c_id c))
                     (Main.replyUnrepliedCommentsLast12h env refreshToken fuel' postIds
                        rules' w').2
                   = replyPosts (trim env (c_id c)) w')).
Proof.
  intros Hp Hpne Hl Hlne Hid Htrim Hrep Hnew Hrun.
  unfold Main.replyOne in Hrun. cbv zeta in Hrun.
  apply String.eqb_neq in Hid as Hidb. rewrite Hidb in Hrun.
  rewrite bool_decide_eq_false_2 in Hrun by exact Hnew.
  destruct (if truthy (c_created_time c) then _ else _) as [created|];
    [|inversion Hrun; left; split; reflexivity].
  destruct ((created =? 0) || (created <? sinceMs));
    [inversion Hrun; left; split; reflexivity|].
  destruct (CommentProcessor.findMatchingRule env _ rules) as [rule|];
    [|inversion Hrun; left; split; reflexivity].
  right. unfold try_catch in Hrun. unfold bind at 1 in Hrun.
  pose proof (postReply_leaves_processed fuel (trim env (c_id c))
                (CommentProcessor.generateReply (template rule)
                   (orEmpty (c_from_name c))) token w) as Hpp.
  pose proof (postReply_leaves_log fuel (trim env (c_id c))
                (CommentProcessor.generateReply (template rule)
                   (orEmpty (c_from_name c))) token w) as Hpl.
  destruct (FacebookApi.postReply env refreshToken fuel _ _ token w) as [[r|e|] w1];
    simpl in Hpp, Hpl; rewrite Hp in Hpp; rewrite Hl in Hpl.
  - unfold bind, SheetManager.appendProcessed, SheetManager.logComment in Hrun.
    rewrite Hpp in Hrun. simpl in Hrun. rewrite Hpl in Hrun.
    inversion Hrun; subst w' t'; clear Hrun.
    eexists. split; [reflexivity|]. split; [reflexivity|]. right.
    split; [reflexivity|]. split; [reflexivity|].
    assert (Hin : trim env (c_id c)
                  ∈ repliedIds env
                      (set_logSheet
                         (Some (lrows ++
                            [ {| lr_at := now env; lr_postId := postId;
                                 lr_commentId := trim env (c_id c);
                                 lr_name := orEmpty (c_from_name c);
                                 lr_message := orEmpty (c_message c);
                                 lr_keyword := keyword rule;
                                 lr_reply := CommentProcessor.generateReply (template rule)
                                               (orEmpty (c_from_name c));
                                 lr_status := "replied"; lr_error := "" |} ])%list)
                         (set_processedSheet
                            (Some (prows ++
                               [(trim env (c_id c),
                                 orEmpty (Some (orEmpty (c_created_time c))))])%list) w1))).
    { rewrite repliedIds_snoc; simpl; rewrite ?Htrim; auto. set_solver. }
    split; [exact Hin|]. split.
    + eexists. split; [apply loadProcessedIds_run; reflexivity|].
      rewrite processedIds_snoc by assumption. rewrite Htrim. set_solver.
    + intros fuel' postIds rules'.
      eapply within_skip; [apply sweep_skips; exact Hrefresh | exact Hin].
  - unfold bind, SheetManager.logComment in Hrun. rewrite Hpl in Hrun.
    inversion Hrun; subst w' t'; clear Hrun.
    eexists. split; [reflexivity|]. split; [reflexivity|]. left.
    split; [reflexivity|]. split; [reflexivity | exact Hpp].
  - discriminate.
Qed.

(** How the body of the sweep ends. *)
Lemma replyOne_ends fuel token rules repliedSet sinceMs postId t c w prows lrows :
  processedSheet w = Some prows -> logSheet w = Some lrows ->
  (exists t', (Main.replyOne env refreshToken fuel token rules repliedSet sinceMs postId t
                 c w).1 = Ret t')
  \/ exists rule,
      CommentProcessor.findMatchingRule env (orEmpty (c_message c)) rules = Some rule
      /\ (Main.replyOne env refreshToken fuel token rules repliedSet sinceMs postId t c w).1
         = match (FacebookApi.postReply env refreshToken fuel (trim env (c_id c))
                    (CommentProcessor.generateReply (template rule)
                       (orEmpty (c_from_name c))) token w).1 with
           | Ret _ => Ret (Main.countReplied (Main.count t))
           | Throw _ => Ret (Main.countFailed (Main.count t))
           | OutOfFuel => OutOfFuel
           end.
Proof.
  intros Hp Hl. unfold Main.replyOne. cbv zeta.
  destruct (trim env (c_id c) =? "")%string; [left; eexists; reflexivity|].
  destruct (bool_decide _); [left; eexists; reflexivity|].
  destruct (if truthy (c_created_time c) then _ else _) as [created|];
    [|left; eexists; reflexivity].
  destruct ((created =? 0) || (created <? sinceMs)); [left; eexists; reflexivity|].
  destruct (CommentProcessor.findMatchingRule env _ rules) as [rule|];
    [|left; eexists; reflexivity].
  right. exists rule. split; [reflexivity|].
  unfold try_catch. unfold bind at 1.
  pose proof (postReply_leaves_processed fuel (trim env (c_id c))
                (CommentProcessor.generateReply (template rule)
                   (orEmpty (c_from_name c))) token w) as Hpp.
  pose proof (postReply_leaves_log fuel (trim env (c_id c))
                (CommentProcessor.generateReply (template rule)
                   (orEmpty (c_from_name c))) token w) as Hpl.
  destruct (FacebookApi.postReply env refreshToken fuel _ _ token w) as [[r|e|] w1];
    simpl in Hpp, Hpl; rewrite Hp in Hpp; rewrite Hl in Hpl.
  - unfold bind, SheetManager.appendProcessed, SheetManager.logComment.
    rewrite Hpp. simpl. rewrite Hpl. reflexivity.
  - unfold bind, SheetManager.logComment. rewrite Hpl. reflexivity.
  - reflexivity.
Qed.

Lemma replyOne_more_fuel fuel fuel' token rules repliedSet sinceMs postId t c w prows lrows :
  processedSheet w = Some prows -> logSheet w = Some lrows ->
  (Main.replyOne env refreshToken fuel token rules repliedSet sinceMs postId t c w).1
  <> OutOfFuel ->
  (fuel <= fuel')%nat ->
  Main.replyOne env refreshToken fuel' token rules repliedSet sinceMs postId t c w
  = Main.replyOne env refreshToken fuel token rules repliedSet sinceMs postId t c w.
Proof.
  intros Hp Hl Hne Hle.
  destruct (replyOne_ends fuel token rules repliedSet sinceMs postId t c w prows lrows
              Hp Hl) as [_|(rule & Hrule & Hend)].
  - unfold Main.replyOne in *. cbv zeta in *.
    destruct (trim env (c_id c) =? "")%string; [reflexivity|].
    destruct (bool_decide _); [reflexivity|].
    destruct (if truthy (c_created_time c) then _ else _) as [created|]; [|reflexivity].
    destruct ((created =? 0) || (created <? sinceMs)); [reflexivity|].
    destruct (CommentProcessor.findMatchingRule env _ rules) as [rule|]; [|reflexivity].
    unfold try_catch in *. unfold bind at 1 in Hne. unfold bind at 1 5.
    rewrite (postReply_more_fuel env refreshToken fuel fuel'); [reflexivity| |exact Hle].
    intros Hout. apply Hne.
    destruct (FacebookApi.postReply env refreshToken fuel _ _ token w) as [[r|e|] w1];
      simpl in Hout; first [discriminate | reflexivity].
  - unfold Main.replyOne in *. cbv zeta in *.
    destruct (trim env (c_id c) =? "")%string; [reflexivity|].
    destruct (bool_decide _); [reflexivity|].
    destruct (if truthy (c_created_time c) then _ else _) as [created|]; [|reflexivity].
    destruct ((created =? 0) || (created <? sinceMs)); [reflexivity|].
    rewrite Hrule in *.
    unfold try_catch in *. unfold bind at 1 in Hne. unfold bind at 1 5.
    rewrite (postReply_more_fuel env refreshToken fuel fuel'); [reflexivity| |exact Hle].
    intros Hout. apply Hne.
    destruct (FacebookApi.postReply env refreshToken fuel _ _ token w) as [[r|e|] w1];
      simpl in Hout; first [discriminate | reflexivity].
Qed.

(** X13.  What the twelve-hour sweep does with one comment whose
    trimmed id is not empty and not in the replied set, on tabs that have
    their header rows.  The run [(o, w')] of the body of the sweep never
    throws.  When it returns it has skipped the comment, changing nothing,
    or it has logged exactly one row for it.  A [replied] row counts as
    replied, puts the id into the set the next twelve-hour sweep loads -
    which then posts no reply to it - and into the processed tab that
    [fetchAndRespond] reads.  An [error] row counts as failed and leaves
    the processed tab as it was.  The run is cut short only when a rule
    matched and the reply call itself was cut short, which takes an answer
    with the session-expired signature: with a budget of at least one call
    and a first answer without the signature the run returns.  A run that
    ended within its budget is the same under any larger budget. *)
Theorem unreplied_comment_is_recorded
        fuel token rules repliedSet sinceMs postId t c w prows lrows :
  processedSheet w = Some prows -> prows <> [] ->
  logSheet w = Some lrows -> lrows <> [] ->
  trim env (c_id c) <> "" -> trim env (trim env (c_id c)) = trim env (c_id c) ->
  trim env "replied" = "replied" ->
  trim env (c_id c) ∉ repliedSet ->
  (forall o w',
      Main.replyOne env refreshToken fuel token rules repliedSet sinceMs postId t c w
      = (o, w') ->
      match o with
      | Ret t' =>
          (w' = w /\ Main.skipped t' = Main.skipped t + 1)
          \/ exists row,
              logSheet w' = Some (lrows ++ [row])%list
              /\ lr_commentId row = trim env (c_id c)
              /\ ((lr_status row = "error" /\ Main.failed_ t' = Main.failed_ t + 1
                   /\ processedSheet w' = Some prows)
                  \/ (lr_status row = "replied" /\ Main.replied t' = Main.replied t + 1
                      /\ trim env (c_id c) ∈ repliedIds env w'
                      /\ (exists ids, Processed.loadProcessedIds env w' = (Ret ids, w')
                                      /\ trim env (c_id c) ∈ ids)
                      /\ forall fuel' postIds rules',
                           replyPosts (trim env (c_id c))
                             (Main.replyUnrepliedCommentsLast12h env refreshToken fuel'
                                postIds rules' w').2
                           = replyPosts (trim env (c_id c)) w'))
      | Throw _ => False
      | OutOfFuel =>
          exists rule,
            CommentProcessor.findMatchingRule env (orEmpty (c_message c)) rules = Some rule
            /\ (FacebookApi.postReply env refreshToken fuel (trim env (c_id c))
                  (CommentProcessor.generateReply (template rule)
                     (orEmpty (c_from_name c))) token w).1 = OutOfFuel
      end)
  /\ (fuel <> 0%nat ->
      (forall rule,
          CommentProcessor.findMatchingRule env (orEmpty (c_message c)) rules = Some rule ->
          expiredb (up_reply (net env) (calls w) (trim env (c_id c))
                      (CommentProcessor.generateReply (template rule)
                         (orEmpty (c_from_name c))) token) = false) ->
      exists t',
        (Main.replyOne env refreshToken fuel token rules repliedSet sinceMs postId t c w).1
        = Ret t')
  /\ (forall fuel',
         (Main.replyOne env refreshToken fuel token rules repliedSet sinceMs postId t c w).1
         <> OutOfFuel ->
         (fuel <= fuel')%nat ->
         Main.replyOne env refreshToken fuel' token rules repliedSet sinceMs postId t c w
         = Main.replyOne env refreshToken fuel token rules repliedSet sinceMs postId t c w).
Proof.
  intros Hp Hpne Hl Hlne Hid Htrim Hrep Hnew.
  pose proof (replyOne_ends fuel token rules repliedSet sinceMs postId t c w prows lrows
                Hp Hl) as Hend.
  split; [|split].
  - intros o w' Hrun. rewrite Hrun in Hend. simpl in Hend.
    destruct o as [t'|e|].
    + eapply replyOne_recorded; eauto.
    + destruct Hend as [[t' Ht']|(rule & _ & Hend)]; [discriminate|].
      destruct (FacebookApi.postReply env refreshToken fuel _ _ token w).1; discriminate.
    + destruct Hend as [[t' Ht']|(rule & Hrule & Hend)]; [discriminate|].
      exists rule. split; [exact Hrule|].
      destruct (FacebookApi.postReply env refreshToken fuel _ _ token w).1;
        first [discriminate | reflexivity].
  - intros Hfuel Hanswer. destruct fuel as [|fuel']; [contradiction|].
    destruct Hend as [Hret|(rule & Hrule & Hend)]; [exact Hret|].
    rewrite Hend.
    pose proof (postReply_settles env refreshToken fuel' (trim env (c_id c))
                  (CommentProcessor.generateReply (template rule)
                     (orEmpty (c_from_name c))) token w (Hanswer rule Hrule)) as Hs.
    destruct (FacebookApi.postReply env refreshToken (S fuel') _ _ token w).1;
      first [eexists; reflexivity | contradiction].
  - intros fuel' Hne Hle. eapply replyOne_more_fuel; eauto.
Qed.
End Recorded.


(** * The wrapped operations outside a session expiry *)

(** The label an operation's error starts with. *)
Definition labelOf {A} (op : Wrapped A) : string :=
  match op with
  | FetchComments _ _ => "GET comments failed"
  | FetchCommentsSince _ _ _ => "GET comments(since) failed"
  | ReplyTo _ _ => "POST reply failed"
  | CreatePagePost _ => "POST feed failed"
  | GetPageInfo => "GET /me failed"
  | FetchRecentPosts _ _ => "GET /me/posts failed"
  end.

Section Plain.
Context {B A : Type}.
Context (request : string -> Request)
        (answer : string -> list Call -> Fetched B)
        (label : string)
        (onSuccess : string -> Response B -> M A).

Lemma resilient_plain (r1 r2 : M bool) fuel1 fuel2 token w :
  expiredb (answer token (calls w)) = false ->
  FacebookApi.resilient r1 request answer label onSuccess (S fuel1) token w
  = FacebookApi.resilient r2 request answer label onSuccess (S fuel2) token w.
Proof.
  intros He. simpl. unfold bind, fetch.
  destruct (answer token (calls w)) as [|c text json]; simpl in *; [reflexivity|].
  destruct (failed c); [|reflexivity]. rewrite He. reflexivity.
Qed.

Lemma resilient_failure (r : M bool) fuel token w c text json :
  answer token (calls w) = Http c text json -> failed c = true ->
  (c =? 400) && includes text "Session has expired" = false ->
  FacebookApi.resilient r request answer label onSuccess (S fuel) token w
  = (Throw (JsError (label +:+ ": " +:+ toString c +:+ " " +:+ text)),
     log_call {| req := request token; status := Some c |} w).
Proof.
  intros Ha Hf He. simpl. unfold bind, fetch. rewrite Ha. simpl. rewrite Hf, He. reflexivity.
Qed.

Lemma resilient_netfail (r : M bool) fuel token w :
  answer token (calls w) = NetFail ->
  FacebookApi.resilient r request answer label onSuccess (S fuel) token w
  = (Throw NetworkError, log_call {| req := request token; status := None |} w).
Proof. intros Ha. simpl. unfold bind, fetch. rewrite Ha. reflexivity. Qed.
End Plain.

Lemma not_sessionExpired {B} (f : Fetched B) :
  ~ sessionExpired (signature f) -> expiredb f = false.
Proof.
  intros H. apply not_true_is_false. intros He. apply H.
  apply sessionExpired_expired. apply expired_expiredb. exact He.
Qed.

Section PlainOps.
Context (env : Platform) (refreshToken : M bool).

(** [fetchRecentReels], whose own handler turns every failure into an
    empty result. *)
Lemma reels_failure fuel token lookbackDays maxCount w info w1 code text json :
  FacebookApi.getPageInfo env refreshToken (S fuel) token w = (Ret info, w1) ->
  up_reels (net env) (calls w1) (FacebookApi.pi_pageId info)
    ((now env - lookbackDays * 24 * 60 * 60 * 1000) / 1000) maxCount token
  = Http code text json ->
  failed code = true ->
  (code =? 400) && includes text "Session has expired" = false ->
  FacebookApi.fetchRecentReels env refreshToken (S fuel) token lookbackDays maxCount w
  = (Ret [],
     log_call {| req := GetReels (FacebookApi.pi_pageId info)
                          ((now env - lookbackDays * 24 * 60 * 60 * 1000) / 1000)
                          maxCount token;
                 status := Some code |} w1).
Proof.
  intros Hpage Ha Hf He.
  cbn [FacebookApi.fetchRecentReels]. unfold try_catch at 1. unfold bind at 1.
  rewrite Hpage. cbv zeta. unfold bind at 1, fetch. rewrite Ha.
  cbn [getResponseCode getContentText]. rewrite Hf, He. reflexivity.
Qed.

Lemma reels_netfail fuel token lookbackDays maxCount w info w1 :
  FacebookApi.getPageInfo env refreshToken (S fuel) token w = (Ret info, w1) ->
  up_reels (net env) (calls w1) (FacebookApi.pi_pageId info)
    ((now env - lookbackDays * 24 * 60 * 60 * 1000) / 1000) maxCount token
  = NetFail ->
  FacebookApi.fetchRecentReels env refreshToken (S fuel) token lookbackDays maxCount w
  = (Ret [],
     log_call {| req := GetReels (FacebookApi.pi_pageId info)
                          ((now env - lookbackDays * 24 * 60 * 60 * 1000) / 1000)
                          maxCount token;
                 status := None |} w1).
Proof.
  intros Hpage Ha.
  cbn [FacebookApi.fetchRecentReels]. unfold try_catch at 1. unfold bind at 1.
  rewrite Hpage. cbv zeta. unfold bind at 1, fetch. rewrite Ha. reflexivity.
Qed.

Lemma reels_lookup_failed fuel token lookbackDays maxCount w e w1 :
  FacebookApi.getPageInfo env refreshToken (S fuel) token w = (Throw e, w1) ->
  FacebookApi.fetchRecentReels env refreshToken (S fuel) token lookbackDays maxCount w
  = (Ret [], w1).
Proof.
  intros Hpage.
  cbn [FacebookApi.fetchRecentReels]. unfold try_catch at 1. unfold bind at 1.
  rewrite Hpage. reflexivity.
Qed.

(** X14.  The seven operations that retry after a refresh, outside a
    session expiry.  For [fetchComments], [fetchCommentsSince],
    [postReply], [createPagePost], [getPageInfo] and [fetchRecentPosts], a
    call that is not answered with status 400 and a body containing
    ["Session has expired"] never leads to a refresh or a second call: what
    the operation does is the same whatever the refresh function and the
    retry budget are.  A failure status throws [label: code body] with that
    one call made - a 400 without the text and any other status with it
    included - and a transport failure is thrown on as it is.
    [fetchRecentReels] throws in none of these cases: once its page lookup
    has returned, a failure status without the signature and a transport
    failure both give the empty list after that one call to the reels
    endpoint, and when the page lookup itself throws the result is the
    empty list in the world that lookup left. *)
Theorem only_session_expiry_refreshes fuel token w :
  (forall A (op : Wrapped A),
      (~ sessionExpired (answerOf env op token (calls w)) ->
       forall (otherRefresh : M bool) fuel',
         invoke env refreshToken op (S fuel) token w
         = invoke env otherRefresh op (S fuel') token w)
      /\ (forall code text,
          answerOf env op token (calls w) = Some (code, text) -> failed code = true ->
          code <> 400 \/ includes text "Session has expired" = false ->
          invoke env refreshToken op (S fuel) token w
          = (Throw (JsError (labelOf op +:+ ": " +:+ toString code +:+ " " +:+ text)),
             log_call {| req := requestOf env op token; status := Some code |} w))
      /\ (answerOf env op token (calls w) = None ->
          invoke env refreshToken op (S fuel) token w
          = (Throw NetworkError,
             log_call {| req := requestOf env op token; status := None |} w)))
  /\ (forall lookbackDays maxCount info w1,
      FacebookApi.getPageInfo env refreshToken (S fuel) token w = (Ret info, w1) ->
      let reels :=
        GetReels (FacebookApi.pi_pageId info)
          ((now env - lookbackDays * 24 * 60 * 60 * 1000) / 1000) maxCount token in
      let answer :=
        up_reels (net env) (calls w1) (FacebookApi.pi_pageId info)
          ((now env - lookbackDays * 24 * 60 * 60 * 1000) / 1000) maxCount token in
      (forall code text json,
          answer = Http code text json -> failed code = true ->
          code <> 400 \/ includes text "Session has expired" = false ->
          FacebookApi.fetchRecentReels env refreshToken (S fuel) token lookbackDays
            maxCount w
          = (Ret [], log_call {| req := reels; status := Some code |} w1))
      /\ (answer = NetFail ->
          FacebookApi.fetchRecentReels env refreshToken (S fuel) token lookbackDays
            maxCount w
          = (Ret [], log_call {| req := reels; status := None |} w1)))
  /\ (forall lookbackDays maxCount e w1,
      FacebookApi.getPageInfo env refreshToken (S fuel) token w = (Throw e, w1) ->
      FacebookApi.fetchRecentReels env refreshToken (S fuel) token lookbackDays maxCount w
      = (Ret [], w1)).
Proof.
  assert (Hbool : forall code text,
             code <> 400 \/ includes text "Session has expired" = false ->
             (code =? 400) && includes text "Session has expired" = false).
  { intros code text [Hc|Hi].
    - apply Z.eqb_neq in Hc. rewrite Hc. reflexivity.
    - rewrite Hi. apply andb_false_r. }
  split; [|split].
  - intros A op. split; [|split].
    + intros Hn otherRefresh fuel'.
      destruct op; cbn [answerOf] in Hn; apply not_sessionExpired in Hn;
        apply resilient_plain; exact Hn.
    + intros code text Ha Hf Hother. pose proof (Hbool code text Hother) as He.
      destruct op; cbn [answerOf] in Ha;
        match type of Ha with
        | signature ?f = _ =>
            destruct f as [|c t j] eqn:Hup; simpl in Ha; [discriminate|];
            inversion Ha; subst c t;
            exact (resilient_failure _ _ _ _ _ _ _ _ _ _ _ Hup Hf He)
        end.
    + intros Ha.
      destruct op; cbn [answerOf] in Ha;
        match type of Ha with
        | signature ?f = _ =>
            destruct f as [|c t j] eqn:Hup; simpl in Ha; [|discriminate];
            exact (resilient_netfail _ _ _ _ _ _ _ _ Hup)
        end.
  - intros lookbackDays maxCount info w1 Hpage reels answer. split.
    + intros code text json Ha Hf Hother.
      exact (reels_failure _ _ _ _ _ _ _ _ _ _ Hpage Ha Hf (Hbool code text Hother)).
    + intros Ha. exact (reels_netfail _ _ _ _ _ _ _ Hpage Ha).
  - intros lookbackDays maxCount e w1 Hpage.
    exact (reels_lookup_failed _ _ _ _ _ _ _ Hpage).
Qed.

(** ** Posting to the page *)

(** The permalink of a new post, as [createPagePost] reads it: empty
    unless the lookup is answered in 200-299 with a JSON body. *)
Definition permalinkOf (f : Fetched PermalinkBody) : string :=
  match f with
  | Http code _ (Some d) => if failed code then "" else orEmpty (plb_permalink_url d)
  | _ => ""
  end.

(** X15.  [createPagePost], once the feed has answered in 200-299 with
    an id: it returns that id, after exactly one more call, the permalink
    lookup.  Nothing that goes wrong with that lookup - a transport
    failure, a failure status, a body that is no JSON - makes it throw or
    post again: the permalink is then empty.  An answer in 200-299 without
    an id is thrown as an unexpected response, with no further call. *)
Theorem post_survives_permalink_failure fuel message token w code text json :
  up_feed (net env) (calls w) message token = Http code text (Some json) ->
  failed code = false ->
  let w1 := log_call {| req := PostFeed message token; status := Some code |} w in
  (forall newId, idb_id json = Some newId -> newId <> "" ->
     exists st,
       FacebookApi.createPagePost env refreshToken (S fuel) message token w
       = (Ret {| FacebookApi.postId := newId;
                 FacebookApi.permalink :=
                   permalinkOf (up_permalink (net env) (calls w1) newId token) |},
          log_call {| req := GetPermalink newId token; status := st |} w1))
  /\ (truthy (idb_id json) = false ->
      FacebookApi.createPagePost env refreshToken (S fuel) message token w
      = (Throw (JsError ("POST feed unexpected response: " +:+ text)), w1)).
Proof.
  intros Hup Hc w1. split.
  - intros newId Hid Hne. apply String.eqb_neq in Hne.
    unfold FacebookApi.createPagePost. simpl. unfold bind at 1. unfold fetch at 1.
    rewrite Hup. cbn [getResponseCode getContentText]. rewrite Hc.
    unfold bind at 1. unfold parseJSON at 1. cbn [parsed]. unfold ret at 1.
    rewrite Hid. cbn [truthy negb]. rewrite Hne. cbn [negb].
    change (default "" (Some newId)) with newId.
    unfold bind at 1. unfold try_catch, bind, fetch. subst w1. cbn [calls log_call].
    destruct (up_permalink (net env) _ newId token) as [|c t [d|]]; simpl.
    + eexists. reflexivity.
    + rewrite ok_not_failed. destruct (failed c); eexists; reflexivity.
    + rewrite ok_not_failed. destruct (failed c); eexists; reflexivity.
  - intros Hid.
    unfold FacebookApi.createPagePost. simpl. unfold bind at 1. unfold fetch at 1.
    rewrite Hup. cbn [getResponseCode getContentText]. rewrite Hc.
    unfold bind at 1. unfold parseJSON at 1. cbn [parsed]. unfold ret at 1.
    rewrite Hid. reflexivity.
Qed.

(** ** Listing the recent posts *)

Lemma postIds_length l : (List.length (FacebookApi.postIds l) <= List.length l)%nat.
Proof.
  unfold FacebookApi.postIds. induction l as [|p rest IH]; simpl; [lia|].
  unfold omap in *.
  destruct (if truthy (post_id p) then post_id p else None); simpl; lia.
Qed.

(** X16.  [fetchRecentPosts], once the listing has answered in 200-299
    with a JSON body.  With no post in it the result is empty and the posts
    tab is not touched, not even looked up.  Otherwise one row per post is
    appended to the posts tab, and the result is the ids of the posts that
    have one, in order; it holds no empty id.  When posts came back and the
    tab does not exist, the function throws after that one call. *)
Theorem recent_posts_are_recorded fuel token lookbackDays maxCount w code text json :
  up_posts (net env) (calls w)
    ((now env - lookbackDays * 24 * 60 * 60 * 1000) / 1000) maxCount token
  = Http code text (Some json) ->
  failed code = false ->
  let data := default [] (pb_data json) in
  let w1 := log_call {| req := GetPosts ((now env - lookbackDays * 24 * 60 * 60 * 1000) / 1000)
                                maxCount token;
                        status := Some code |} w in
  let run := FacebookApi.fetchRecentPosts env refreshToken (S fuel) token lookbackDays
               maxCount w in
  (data = [] -> run = (Ret [], w1))
  /\ (data <> [] -> forall rows, postsSheet w = Some rows ->
       run = (Ret (FacebookApi.postIds data),
              set_postsSheet
                (Some (rows ++ map (fun p => (orEmpty (post_id p),
                                              orEmpty (post_permalink_url p),
                                              orEmpty (post_created_time p))) data)%list) w1))
  /\ (data <> [] -> postsSheet w = None -> run = (Throw TypeError, w1))
  /\ (forall postId, postId ∈ FacebookApi.postIds data ->
       postId <> "" /\ exists p, p ∈ data /\ post_id p = Some postId)
  /\ (List.length (FacebookApi.postIds data) <= List.length data)%nat.
Proof.
  intros Hup Hc data w1 run.
  assert (Hrun : run = bind (match data with
                             | [] => ret tt
                             | _ => fun w =>
                                 match postsSheet w with
                                 | None => (Throw TypeError, w)
                                 | Some rows =>
                                     (Ret tt,
                                      set_postsSheet
                                        (Some (rows ++ map (fun p =>
                                                 (orEmpty (post_id p),
                                                  orEmpty (post_permalink_url p),
                                                  orEmpty (post_created_time p))) data)%list)
                                        w)
                                 end
                             end) (fun _ => ret (FacebookApi.postIds data)) w1).
  { subst run. unfold FacebookApi.fetchRecentPosts. simpl. unfold bind at 1. unfold fetch at 1.
    rewrite Hup. cbn [getResponseCode getContentText]. rewrite Hc.
    unfold bind at 1. unfold parseJSON at 1. cbn [parsed]. unfold ret at 1. reflexivity. }
  split; [|split; [|split; [|split]]].
  - intros Hd. rewrite Hrun, Hd. reflexivity.
  - intros Hd rows Hs. rewrite Hrun. destruct data as [|p rest]; [contradiction|].
    unfold bind. subst w1. cbn [postsSheet log_call]. rewrite Hs. reflexivity.
  - intros Hd Hs. rewrite Hrun. destruct data as [|p rest]; [contradiction|].
    unfold bind. subst w1. cbn [postsSheet log_call]. rewrite Hs. reflexivity.
  - intros postId Hin. unfold FacebookApi.postIds in Hin.
    apply list_elem_of_omap in Hin as (p & Hp & Hid).
    destruct (truthy (post_id p)) eqn:Ht; [|discriminate].
    split; [|eauto].
    rewrite Hid in Ht. simpl in Ht. intros ->. discriminate.
  - apply postIds_length.
Qed.

(** ** The size of a page of comments *)

(** The comment requests a fetch may send: for this post, with this
    limit. *)
Definition commentsOf (postId : string) (limit : Z) : Footprint :=
  {| fp_write := fun _ => true;
     fp_call := fun c =>
       match req c with
       | GetComments p l _ => (p =? postId)%string && (l =? limit)
       | GetCommentsSince p _ l _ => (p =? postId)%string && (l =? limit)
       | _ => true
       end;
     fp_log := fun _ => true |}.

Lemma token_le_commentsOf postId limit : fp_le tokenFootprint (commentsOf postId limit).
Proof.
  repeat split; simpl; auto. intros c Hc. destruct (req c); try reflexivity; discriminate.
Qed.

(** X17.  Every comments request a fetch sends, its retries included,
    is for the post that was asked for and carries the same limit: the one
    given, capped at 500, with 0 read as 500.  So no request asks for more
    than 500 comments; a negative limit is passed on as it is. *)
Theorem comment_requests_are_capped fuel postId token limit sinceMs w :
  keeps tokenFootprint refreshToken ->
  (exists cs,
      calls (FacebookApi.fetchComments env refreshToken fuel postId token limit w).2
      = (cs ++ calls w)%list
      /\ forall c p l t, c ∈ cs -> req c = GetComments p l t ->
           p = postId /\ l = Z.min 500 (if limit =? 0 then 500 else limit) /\ l <= 500)
  /\ (exists cs,
      calls (FacebookApi.fetchCommentsSince env refreshToken fuel postId token sinceMs
               limit w).2 = (cs ++ calls w)%list
      /\ forall c p s l t, c ∈ cs -> req c = GetCommentsSince p s l t ->
           p = postId /\ l = Z.min 500 (if limit =? 0 then 500 else limit) /\ l <= 500).
Proof.
  intros Hrefresh. split.
  - assert (Hk : keeps (commentsOf postId (FacebookApi.clampLimit limit))
                   (FacebookApi.fetchComments env refreshToken fuel postId token limit)).
    { unfold FacebookApi.fetchComments. apply keeps_resilient.
      - intros w0. eapply within_mono; [apply token_le_commentsOf | apply Hrefresh].
      - intros t. apply keeps_fetch. intros st. simpl.
        rewrite String.eqb_refl, Z.eqb_refl. reflexivity.
      - intros t res. repeat keeps_step. }
    destruct (Hk w) as (_ & [cs [Hcs Hf]] & _).
    exists cs. split; [exact Hcs|]. intros c p l t Hin Hreq.
    rewrite forallb_forall in Hf. specialize (Hf c ltac:(apply list_elem_of_In; exact Hin)).
    simpl in Hf. rewrite Hreq in Hf. apply andb_true_iff in Hf as [Hp Hl].
    apply String.eqb_eq in Hp. apply Z.eqb_eq in Hl. subst.
    unfold FacebookApi.clampLimit. repeat split. lia.
  - assert (Hk : keeps (commentsOf postId (FacebookApi.clampLimit limit))
                   (FacebookApi.fetchCommentsSince env refreshToken fuel postId token sinceMs
                      limit)).
    { unfold FacebookApi.fetchCommentsSince. cbv zeta. apply keeps_resilient.
      - intros w0. eapply within_mono; [apply token_le_commentsOf | apply Hrefresh].
      - intros t. apply keeps_fetch. intros st. simpl.
        rewrite String.eqb_refl, Z.eqb_refl. reflexivity.
      - intros t res. repeat keeps_step. }
    destruct (Hk w) as (_ & [cs [Hcs Hf]] & _).
    exists cs. split; [exact Hcs|]. intros c p s l t Hin Hreq.
    rewrite forallb_forall in Hf. specialize (Hf c ltac:(apply list_elem_of_In; exact Hin)).
    simpl in Hf. rewrite Hreq in Hf. apply andb_true_iff in Hf as [Hp Hl].
    apply String.eqb_eq in Hp. apply Z.eqb_eq in Hl. subst.
    unfold FacebookApi.clampLimit. repeat split. lia.
Qed.
End PlainOps.

(** * The choice of the rule and the reply text *)

Section Rules.
Context (env : Platform).

(** The test [findMatchingRule] puts a rule to. *)
Definition applies (message : string) (rule : Rule) : bool :=
  enabled rule && negb (keyword rule =? "")%string
  && includes (toLowerCase env message) (toLowerCase env (keyword rule)).

(** X18.  [findMatchingRule] gives the first rule, in the order of the
    list, that is enabled, has a keyword and whose lower-cased keyword
    occurs in the lower-cased message; it gives nothing exactly when no
    rule passes.  The match type, the priority and the weight of the rules
    play no part: changing them changes neither which rule is found nor
    its place. *)
Theorem first_applicable_rule_wins message rules :
  (forall rule,
      CommentProcessor.findMatchingRule env message rules = Some rule <->
      exists before after,
        rules = (before ++ rule :: after)%list /\ applies message rule = true
        /\ Forall (fun r => applies message r = false) before)
  /\ (CommentProcessor.findMatchingRule env message rules = None <->
      Forall (fun r => applies message r = false) rules)
  /\ (forall rerank : Rule -> Rule,
      (forall r, enabled (rerank r) = enabled r /\ keyword (rerank r) = keyword r) ->
      CommentProcessor.findMatchingRule env message (map rerank rules)
      = rerank <$> CommentProcessor.findMatchingRule env message rules).
Proof.
  unfold CommentProcessor.findMatchingRule. fold (applies message).
  split; [|split].
  - intros rule. induction rules as [|r rest IH]; simpl.
    + split; [discriminate|]. intros (before & after & H & _). destruct before; discriminate.
    + destruct (applies message r) eqn:Hr.
      * split.
        -- intros [= <-]. exists [], rest. auto.
        -- intros (before & after & H & Ha & Hb). destruct before as [|b before].
           ++ inversion H. reflexivity.
           ++ inversion H; subst. apply Forall_cons in Hb as [Hb _]. congruence.
      * rewrite IH. split.
        -- intros (before & after & -> & Ha & Hb). exists (r :: before), after.
           split; [reflexivity|]. split; [exact Ha|]. apply Forall_cons. auto.
        -- intros (before & after & H & Ha & Hb). destruct before as [|b before].
           ++ inversion H; subst. congruence.
           ++ inversion H; subst. apply Forall_cons in Hb as [_ Hb]. eauto.
  - induction rules as [|r rest IH]; simpl.
    + split; auto.
    + destruct (applies message r) eqn:Hr.
      * split; [discriminate|]. intros H. apply Forall_cons in H as [H _]. congruence.
      * rewrite IH. split; [intros H; apply Forall_cons; auto|].
        intros H. apply Forall_cons in H as [_ H]. exact H.
  - intros rerank Hsame.
    assert (Ha : forall r, applies message (rerank r) = applies message r).
    { intros r. unfold applies. destruct (Hsame r) as [-> ->]. reflexivity. }
    induction rules as [|r rest IH]; simpl; [reflexivity|].
    rewrite Ha. destruct (applies message r); [reflexivity | exact IH].
Qed.
End Rules.

(** ** The reply text *)

Lemma includes_cons c s needle :
  includes (String c s) needle = false ->
  String.prefix needle (String c s) = false /\ includes s needle = false.
Proof. simpl includes. intros H. apply orb_false_iff in H. exact H. Qed.

Lemma replaceAll_absent pat rep before s :
  includes s pat = false -> replaceAll pat rep before 0 s = s.
Proof.
  revert before. induction s as [|c s IH]; intros before; [reflexivity|].
  intros H. apply includes_cons in H as [Hp Hs].
  cbn [replaceAll]. rewrite Hp, IH by exact Hs. reflexivity.
Qed.

(** A replacement text without a dollar sign holds no pattern: it is
    what every match is replaced with. *)
Lemma substitution_plain rep matched before after :
  includes rep "$" = false -> substitution rep matched before after = rep.
Proof.
  induction rep as [|c rep IH]; [reflexivity|].
  intros H. apply includes_cons in H as [Hp Hr].
  assert (Hc : Ascii.eqb c "$" = false).
  { apply Ascii.eqb_neq. intros ->. destruct rep; vm_compute in Hp; discriminate. }
  cbn [substitution]. rewrite Hc, IH by exact Hr. reflexivity.
Qed.

Lemma replaceAll_before pat rep before before' skip s :
  includes rep "$" = false ->
  replaceAll pat rep before skip s = replaceAll pat rep before' skip s.
Proof.
  intros Hrep. revert before before' skip.
  induction s as [|c s IH]; intros before before' skip; [reflexivity|].
  cbn [replaceAll]. destruct skip as [|k]; [|apply IH].
  rewrite !substitution_plain by exact Hrep.
  rewrite (IH (before +:+ String c "") (before' +:+ String c "") (String.length pat - 1)%nat).
  rewrite (IH (before +:+ String c "") (before' +:+ String c "") 0%nat).
  reflexivity.
Qed.

Lemma replaceAll_skip pat rep before (dropped rest : string) :
  includes rep "$" = false ->
  replaceAll pat rep before (String.length dropped) (dropped +:+ rest)
  = replaceAll pat rep "" 0 rest.
Proof.
  intros Hrep. revert before. induction dropped as [|c d IH]; intros before.
  - apply replaceAll_before. exact Hrep.
  - cbn [String.length]. change (String c d +:+ rest) with (String c (d +:+ rest)).
    cbn [replaceAll]. apply IH.
Qed.

Lemma prefix_append (p s : string) : String.prefix p (p +:+ s) = true.
Proof.
  induction p as [|c p IH]; simpl.
  - destruct s; reflexivity.
  - destruct (Ascii.ascii_dec c c); [exact IH | congruence].
Qed.

Lemma prefix_head c c' (p s : string) :
  c <> c' -> String.prefix (String c p) (String c' s) = false.
Proof.
  intros H. cbn [String.prefix]. destruct (Ascii.ascii_dec c c'); [contradiction|reflexivity].
Qed.

(** X19.  [generateReply] leaves a template without [{name}] as it is.
    In front of the first [{name}], where the text holds no brace, nothing
    changes; a name without a dollar sign - which [replaceAll] would read
    as a replacement pattern - is put in its place as it is, a name that
    itself holds [{name}] not being expanded again, and the rest of the
    template is treated the same way. *)
Theorem reply_puts_name_in_place name :
  (forall template,
      includes template "{name}" = false ->
      CommentProcessor.generateReply template name = template)
  /\ (forall before after,
      includes name "$" = false -> includes before "{" = false ->
      CommentProcessor.generateReply (before +:+ "{name}" +:+ after) name
      = before +:+ name +:+ CommentProcessor.generateReply after name).
Proof.
  unfold CommentProcessor.generateReply. split.
  - intros template H. apply replaceAll_absent. exact H.
  - intros before after Hname Hbefore.
    enough (Hread : forall read,
               replaceAll "{name}" name read 0 (before +:+ "{name}" +:+ after)
               = before +:+ name +:+ replaceAll "{name}" name "" 0 after)
      by apply Hread.
    revert Hbefore. induction before as [|c b IH]; intros H read.
    + change ("" +:+ "{name}" +:+ after) with (String "{" ("name}" +:+ after)).
      cbn [replaceAll].
      change (String "{" ("name}" +:+ after)) with ("{name}" +:+ after) at 1.
      rewrite prefix_append. rewrite substitution_plain by exact Hname.
      change (String.length "{name}" - 1)%nat with (String.length "name}").
      rewrite replaceAll_skip by exact Hname. reflexivity.
    + apply includes_cons in H as [Hp Hb].
      assert (Hc : c <> "{"%char).
      { intros ->. clear IH Hb. destruct b; vm_compute in Hp; discriminate. }
      change (String c b +:+ "{name}" +:+ after) with (String c (b +:+ "{name}" +:+ after)).
      cbn [replaceAll].
      replace (String.prefix "{name}" (String c (b +:+ "{name}" +:+ after))) with false.
      * rewrite IH by exact Hb. reflexivity.
      * symmetry. apply prefix_head. congruence.
Qed.

(** * The target posts *)

Section TargetPosts.
Context (env : Platform).
Context (getPageInfo : string -> M FacebookApi.PageInfo)
        (fetchRecentPosts fetchRecentReels : string -> option Z -> option Z -> M (list string)).

Lemma merge_spec seen ids :
  NoDup (Targets.merge seen ids)
  /\ (forall id, id ∈ Targets.merge seen ids <-> id ∈ ids /\ id ∉ seen)
  /\ sublist (Targets.merge seen ids) ids.
Proof.
  revert seen. induction ids as [|x rest IH]; intros seen; simpl.
  - split; [apply NoDup_nil_2|]. split; [|apply sublist_nil].
    intros id. split; [intros H; apply elem_of_nil in H; contradiction|].
    intros [H _]. exact H.
  - destruct (bool_decide_reflect (x ∈ seen)) as [Hin|Hout].
    + destruct (IH seen) as (Hnd & Hel & Hsub).
      split; [exact Hnd|]. split; [|apply sublist_cons; exact Hsub].
      intros id. rewrite Hel, elem_of_cons. split; [tauto|].
      intros [[->|H] Hn]; [contradiction | auto].
    + destruct (IH ({[ x ]} ∪ seen)) as (Hnd & Hel & Hsub).
      split; [|split; [|apply sublist_skip; exact Hsub]].
      * apply NoDup_cons. split; [|exact Hnd].
        rewrite Hel. intros [_ Hn]. apply Hn. apply elem_of_union_l, elem_of_singleton.
        reflexivity.
      * intros id. rewrite !elem_of_cons, Hel, not_elem_of_union, not_elem_of_singleton.
        split.
        -- intros [->|(H & _ & Hn)]; auto.
        -- intros [[->|H] Hn]; [auto|]. destruct (decide (id = x)); auto.
Qed.

End TargetPosts.

(** * The scheduled posts *)

(** A row that no pass attempts, whatever the platform and the token:
    the pass hands it back as it is, with the counts as they were and
    nothing done. *)
Definition settled (r : ScheduledRow) : Prop :=
  forall env refreshToken setHours fuel token t w,
    Scheduler.postRow env refreshToken setHours fuel token r t w = (Ret (r, t), w).

(** How many of the rows carry the status [s]. *)
Definition marked (s : string) (rows : list ScheduledRow) : Z :=
  Z.of_nat (List.length (List.filter (fun r => (sp_status r =? s)%string) rows)).

Lemma marked_cons s r rows :
  marked s (r :: rows) = (if (sp_status r =? s)%string then 1 else 0) + marked s rows.
Proof.
  unfold marked. simpl. destruct (sp_status r =? s)%string; simpl List.length; lia.
Qed.

Section Schedule.
Context (env : Platform) (refreshToken : M bool).
Context (isTokenValid : string -> M bool) (setHours : Z -> Z -> Z -> option Z).

(** The row is enabled, reserved and complete, and its time has come. *)
Definition due (r : ScheduledRow) : Prop :=
  exists scheduled, Scheduler.scheduledAt env setHours r = Some scheduled
                    /\ scheduled <= now env.

(** What a pass makes of one row: a row that is not due is left as it
    is; a due row is marked as sent, with the id and the link of its post,
    or as failed, with the error - and is settled from then on. *)
Definition passed (r r' : ScheduledRow) : Prop :=
  (~ due r /\ r' = r)
  \/ (due r /\ settled r'
      /\ ((exists postId url, r' = Scheduler.written r "送信済み" postId url "")
          \/ (exists err, r' = Scheduler.written r "失敗" "" "" err))).

Lemma scheduledAt_reserved r scheduled :
  Scheduler.scheduledAt env setHours r = Some scheduled -> sp_status r = "予約中".
Proof.
  unfold Scheduler.scheduledAt. intros H.
  destruct (sp_enabled r =? "有効")%string; [|discriminate]. cbn [negb] in H.
  destruct (String.eqb_spec (sp_status r) "予約中") as [E|E]; [exact E | discriminate].
Qed.

Lemma written_settled r status postId url err :
  status <> "予約中" -> settled (Scheduler.written r status postId url err).
Proof.
  intros Hs env2 refresh2 setHours2 fuel token t w.
  unfold Scheduler.postRow, Scheduler.scheduledAt. cbn [sp_enabled sp_status Scheduler.written].
  destruct (sp_enabled r =? "有効")%string; [|reflexivity]. cbn [negb].
  apply String.eqb_neq in Hs. rewrite Hs. reflexivity.
Qed.

(** One row, and the counts. *)
Lemma postRow_run fuel token r t w :
  match Scheduler.postRow env refreshToken setHours fuel token r t w with
  | (Ret (r', t'), w') =>
      passed r r'
      /\ Scheduler.posted t'
         = Scheduler.posted t + marked "送信済み" [r'] - marked "送信済み" [r]
      /\ Scheduler.failedPosts t'
         = Scheduler.failedPosts t + marked "失敗" [r'] - marked "失敗" [r]
  | (Throw _, _) => False
  | (OutOfFuel, _) =>
      due r
      /\ (FacebookApi.createPagePost env refreshToken fuel (sp_body r) token w).1 = OutOfFuel
  end.
Proof.
  unfold Scheduler.postRow.
  destruct (Scheduler.scheduledAt env setHours r) as [scheduled|] eqn:Hs.
  - pose proof (scheduledAt_reserved r scheduled Hs) as Hst.
    destruct (Z.leb_spec scheduled (now env)) as [Hle|Hgt].
    + assert (Hdue : due r) by (exists scheduled; auto).
      unfold try_catch, bind.
      destruct (FacebookApi.createPagePost env refreshToken fuel (sp_body r) token w)
        as [[result|e|] w1]; cbn [ret fst snd]; [| |split; [exact Hdue | reflexivity]].
      * split; [right; split; [exact Hdue|]; split;
                [apply written_settled; discriminate | left; eauto]|].
        rewrite !marked_cons. cbn [sp_status Scheduler.written Scheduler.posted
                                    Scheduler.failedPosts]. rewrite Hst.
        split; vm_compute (marked _ []); simpl; lia.
      * split; [right; split; [exact Hdue|]; split;
                [apply written_settled; discriminate | right; eauto]|].
        rewrite !marked_cons. cbn [sp_status Scheduler.written Scheduler.posted
                                    Scheduler.failedPosts]. rewrite Hst.
        split; vm_compute (marked _ []); simpl; lia.
    + cbn [ret]. split; [|split; lia].
      left. split; [|reflexivity]. intros (s' & Hs' & Hle). rewrite Hs in Hs'.
      inversion Hs'; subst. lia.
  - cbn [ret]. split; [|split; lia].
    left. split; [|reflexivity]. intros (s' & Hs' & _). rewrite Hs in Hs'. discriminate.
Qed.

Lemma postRows_run fuel token rows t w :
  match Scheduler.postRows env refreshToken setHours fuel token rows t w with
  | (Ret (rows', t'), w') =>
      Forall2 passed rows rows'
      /\ Scheduler.posted t'
         = Scheduler.posted t + marked "送信済み" rows' - marked "送信済み" rows
      /\ Scheduler.failedPosts t'
         = Scheduler.failedPosts t + marked "失敗" rows' - marked "失敗" rows
  | (Throw _, _) => False
  | (OutOfFuel, _) =>
      exists r w2,
        r ∈ rows /\ due r
        /\ (FacebookApi.createPagePost env refreshToken fuel (sp_body r) token w2).1
           = OutOfFuel
  end.
Proof.
  revert t w. induction rows as [|r rest IH]; intros t w.
  - simpl. split; [constructor|]. split; lia.
  - cbn [Scheduler.postRows]. unfold bind at 1.
    pose proof (postRow_run fuel token r t w) as Hr.
    destruct (Scheduler.postRow env refreshToken setHours fuel token r t w)
      as [[[r' t1]|e|] w1]; [|contradiction|].
    2:{ destruct Hr as [Hdue Hout]. exists r, w. split; [apply list_elem_of_here | auto]. }
    destruct Hr as (Hp & Hposted & Hfailed). cbn [fst snd]. unfold bind at 1.
    specialize (IH t1 w1).
    destruct (Scheduler.postRows env refreshToken setHours fuel token rest t1 w1)
      as [[[rest' t2]|e|] w2]; [|contradiction|].
    2:{ destruct IH as (r2 & w3 & Hin & Hdue & Hout). exists r2, w3.
        split; [apply list_elem_of_further; exact Hin | auto]. }
    destruct IH as (Hps & Hposted2 & Hfailed2). cbn [ret fst snd].
    split; [constructor; assumption|].
    rewrite !marked_cons in *. vm_compute (marked _ []) in *. split; lia.
Qed.

(** The pass and the retry budget. *)
Lemma postRow_more_fuel fuel fuel' token r t w :
  (Scheduler.postRow env refreshToken setHours fuel token r t w).1 <> OutOfFuel ->
  (fuel <= fuel')%nat ->
  Scheduler.postRow env refreshToken setHours fuel' token r t w
  = Scheduler.postRow env refreshToken setHours fuel token r t w.
Proof.
  intros Hne Hle. unfold Scheduler.postRow in *.
  destruct (Scheduler.scheduledAt env setHours r) as [scheduled|]; [|reflexivity].
  destruct (scheduled <=? now env); [|reflexivity].
  unfold try_catch, bind in *.
  rewrite (createPagePost_more_fuel env refreshToken fuel fuel'); [reflexivity| |exact Hle].
  intros Hout. apply Hne.
  destruct (FacebookApi.createPagePost env refreshToken fuel (sp_body r) token w)
    as [[result|e|] w1]; simpl in *; congruence.
Qed.

Lemma postRows_more_fuel fuel fuel' token rows t w :
  (Scheduler.postRows env refreshToken setHours fuel token rows t w).1 <> OutOfFuel ->
  (fuel <= fuel')%nat ->
  Scheduler.postRows env refreshToken setHours fuel' token rows t w
  = Scheduler.postRows env refreshToken setHours fuel token rows t w.
Proof.
  intros Hne Hle. revert t w Hne. induction rows as [|r rest IH]; intros t w Hne;
    [reflexivity|].
  cbn [Scheduler.postRows] in *. unfold bind in *.
  assert (H1 : (Scheduler.postRow env refreshToken setHours fuel token r t w).1
               <> OutOfFuel).
  { intros Hout. apply Hne.
    destruct (Scheduler.postRow env refreshToken setHours fuel token r t w)
      as [[rt|e|] w1]; simpl in *; congruence. }
  rewrite (postRow_more_fuel fuel fuel' token r t w H1 Hle).
  destruct (Scheduler.postRow env refreshToken setHours fuel token r t w)
    as [[rt|e|] w1]; try reflexivity.
  rewrite IH; [reflexivity|].
  intros Hout. apply Hne.
  destruct (Scheduler.postRows env refreshToken setHours fuel token rest rt.2 w1)
    as [[done|e|] w2]; simpl in *; congruence.
Qed.

Lemma postRows_settles fuel token rows t :
  (forall h message tk, expiredb (up_feed (net env) h message tk) = false) ->
  finishes (Scheduler.postRows env refreshToken setHours (S fuel) token rows t).
Proof.
  intros Hfeed. revert t. induction rows as [|r rest IH]; intros t;
    cbn [Scheduler.postRows]; [apply finishes_ret|].
  apply finishes_bind.
  - unfold Scheduler.postRow.
    destruct (Scheduler.scheduledAt env setHours r) as [scheduled|]; [|apply finishes_ret].
    destruct (scheduled <=? now env); [|apply finishes_ret].
    apply finishes_try_catch; [|intros e; apply finishes_ret].
    apply finishes_bind; [|intros result; apply finishes_ret].
    intros w. apply createPagePost_settles. apply Hfeed.
  - intros rt. apply finishes_bind; [apply IH|]. intros done. apply finishes_ret.
Qed.

Lemma validToken_finishes token :
  (forall t, finishes (isTokenValid t)) -> finishes refreshToken ->
  finishes (Scheduler.validToken refreshToken isTokenValid token).
Proof.
  intros Hvalid Hrefresh. unfold Scheduler.validToken.
  apply finishes_try_catch; [|intros e; apply finishes_throw].
  apply finishes_bind; [apply Hvalid|]. intros valid.
  destruct valid; cbn [negb]; [apply finishes_ret|].
  apply finishes_bind; [exact Hrefresh|]. intros [|]; [|apply finishes_throw].
  apply finishes_bind; [apply finishes_getProperty|]. intros t. apply finishes_ret.
Qed.

Lemma processScheduledPosts_more_fuel fuel fuel' sheet w :
  (Scheduler.processScheduledPosts env refreshToken isTokenValid setHours fuel sheet w).1
  <> OutOfFuel ->
  (fuel <= fuel')%nat ->
  Scheduler.processScheduledPosts env refreshToken isTokenValid setHours fuel' sheet w
  = Scheduler.processScheduledPosts env refreshToken isTokenValid setHours fuel sheet w.
Proof.
  intros Hne Hle. unfold Scheduler.processScheduledPosts in *.
  destruct sheet as [rows|]; [|reflexivity].
  destruct (drop 1 rows) as [|r rest]; [reflexivity|].
  unfold bind, getProperty in *.
  destruct (negb (truthy (props w !! PROP_KEYS.PAGE_ACCESS_TOKEN))); [reflexivity|].
  destruct (Scheduler.validToken refreshToken isTokenValid _ w) as [[token|e|] w1];
    try reflexivity.
  rewrite (postRows_more_fuel fuel fuel'); [reflexivity| |exact Hle].
  intros Hout. apply Hne.
  destruct (Scheduler.postRows env refreshToken setHours fuel token (r :: rest) _ w1)
    as [[done|e|] w2]; simpl in *; congruence.
Qed.

Lemma processScheduledPosts_settles fuel sheet :
  (forall t, finishes (isTokenValid t)) -> finishes refreshToken ->
  (forall h message tk, expiredb (up_feed (net env) h message tk) = false) ->
  finishes (Scheduler.processScheduledPosts env refreshToken isTokenValid setHours (S fuel)
              sheet).
Proof.
  intros Hvalid Hrefresh Hfeed. unfold Scheduler.processScheduledPosts.
  destruct sheet as [rows|]; [|apply finishes_ret].
  destruct (drop 1 rows) as [|r rest]; [apply finishes_ret|].
  apply finishes_bind; [apply finishes_getProperty|]. intros token.
  destruct (negb (truthy token)); [apply finishes_throw|].
  apply finishes_bind; [apply validToken_finishes; assumption|]. intros token'.
  apply finishes_bind; [apply postRows_settles; exact Hfeed|]. intros done.
  apply finishes_ret.
Qed.

(** What a pass that returned or threw has done, and where a pass that
    was cut short stopped. *)
Lemma processScheduledPosts_run fuel sheet w :
  match Scheduler.processScheduledPosts env refreshToken isTokenValid setHours fuel sheet w
  with
  | (Ret (sheet', tally), w') =>
      match sheet with
      | None => sheet' = None /\ tally = None /\ w' = w
      | Some rows =>
          exists rows' t,
            sheet' = Some rows' /\ tally = Some t
            /\ take 1 rows' = take 1 rows
            /\ Forall2 passed (drop 1 rows) (drop 1 rows')
            /\ Scheduler.posted t
               = marked "送信済み" (drop 1 rows') - marked "送信済み" (drop 1 rows)
            /\ Scheduler.failedPosts t
               = marked "失敗" (drop 1 rows') - marked "失敗" (drop 1 rows)
      end
  | (Throw e, w') =>
      exists rows, sheet = Some rows /\ drop 1 rows <> []
        /\ ((truthy (props w !! PROP_KEYS.PAGE_ACCESS_TOKEN) = false
             /\ e = JsError "ページアクセストークンが未設定です" /\ w' = w)
            \/ (exists token,
                  props w !! PROP_KEYS.PAGE_ACCESS_TOKEN = Some token
                  /\ Scheduler.validToken refreshToken isTokenValid token w
                     = (Throw e, w')))
  | (OutOfFuel, w') =>
      exists rows token,
        sheet = Some rows /\ props w !! PROP_KEYS.PAGE_ACCESS_TOKEN = Some token
        /\ (Scheduler.validToken refreshToken isTokenValid token w = (OutOfFuel, w')
            \/ exists token' w1 r w2,
                Scheduler.validToken refreshToken isTokenValid token w = (Ret token', w1)
                /\ r ∈ drop 1 rows /\ due r
                /\ (FacebookApi.createPagePost env refreshToken fuel (sp_body r) token'
                      w2).1 = OutOfFuel)
  end.
Proof.
  unfold Scheduler.processScheduledPosts. destruct sheet as [rows|]; [|simpl; auto].
  destruct rows as [|h body].
  { simpl. exists [], {| Scheduler.posted := 0; Scheduler.failedPosts := 0 |}.
    repeat split; constructor. }
  change (drop 1 (h :: body)) with body. change (take 1 (h :: body)) with [h].
  destruct body as [|r rest].
  { simpl. exists [h], {| Scheduler.posted := 0; Scheduler.failedPosts := 0 |}.
    repeat split; constructor. }
  set (body := r :: rest). unfold bind at 1, getProperty.
  destruct (props w !! PROP_KEYS.PAGE_ACCESS_TOKEN) as [token|] eqn:Htoken; cbn [truthy negb].
  2:{ simpl. exists (h :: body). split; [reflexivity|]. split; [discriminate|]. left. auto. }
  destruct (token =? "")%string eqn:Hempty; cbn [negb].
  { simpl. exists (h :: body). split; [reflexivity|]. split; [discriminate|]. left.
    split; [reflexivity | auto]. }
  change (default "" (Some token)) with token. unfold bind at 1.
  destruct (Scheduler.validToken refreshToken isTokenValid token w)
    as [[token'|e|] w1] eqn:Hvalid.
  2:{ exists (h :: body). split; [reflexivity|]. split; [discriminate|]. right.
      exists token. auto. }
  2:{ exists (h :: body), token. split; [reflexivity|]. split; [reflexivity|]. left.
      exact Hvalid. }
  unfold bind at 1.
  pose proof (postRows_run fuel token' body
                {| Scheduler.posted := 0; Scheduler.failedPosts := 0 |} w1) as Hrows.
  destruct (Scheduler.postRows env refreshToken setHours fuel token' body _ w1)
    as [[[body' t]|e|] w2]; [|contradiction|].
  2:{ destruct Hrows as (r2 & w3 & Hin & Hdue & Hout).
      exists (h :: body), token. split; [reflexivity|]. split; [reflexivity|]. right.
      exists token', w1, r2, w3. auto. }
  destruct Hrows as (Hp & Hposted & Hfailed). cbn [ret fst snd].
  exists (h :: body'), t. cbn [Scheduler.posted Scheduler.failedPosts] in *.
  change (drop 1 (h :: body')) with body'.
  split; [reflexivity|]. split; [reflexivity|]. split; [reflexivity|].
  split; [exact Hp|]. split; lia.
Qed.

(** X21.  [processScheduledPosts].  Without the schedule tab it does
    nothing.  It throws only before the first row is looked at: when no
    page token is stored, or when the validity check or the refresh fails.
    Past that point no failing post stops the pass: the header row is kept,
    every row that is not due is left as it is, and every due row is
    marked as sent or as failed and will not be attempted by any later
    pass.  The two counts it returns are the numbers of rows newly marked
    as sent and as failed.  The pass is cut short only where the validity
    check or the refresh is, or where the post of a due row is - which
    takes a feed that answers with the session-expired signature: when the
    validity check and the refresh end, the feed never answers with the
    signature and the budget allows one call, the pass returns or throws.
    A pass that ended within its budget is the same under any larger
    budget. *)
Theorem scheduled_post_is_attempted_once fuel sheet w :
  match Scheduler.processScheduledPosts env refreshToken isTokenValid setHours fuel sheet w
  with
  | (Ret (sheet', tally), w') =>
      match sheet with
      | None => sheet' = None /\ tally = None /\ w' = w
      | Some rows =>
          exists rows' t,
            sheet' = Some rows' /\ tally = Some t
            /\ take 1 rows' = take 1 rows
            /\ Forall2 passed (drop 1 rows) (drop 1 rows')
            /\ Scheduler.posted t
               = marked "送信済み" (drop 1 rows') - marked "送信済み" (drop 1 rows)
            /\ Scheduler.failedPosts t
               = marked "失敗" (drop 1 rows') - marked "失敗" (drop 1 rows)
      end
  | (Throw e, w') =>
      exists rows, sheet = Some rows /\ drop 1 rows <> []
        /\ ((truthy (props w !! PROP_KEYS.PAGE_ACCESS_TOKEN) = false
             /\ e = JsError "ページアクセストークンが未設定です" /\ w' = w)
            \/ (exists token,
                  props w !! PROP_KEYS.PAGE_ACCESS_TOKEN = Some token
                  /\ Scheduler.validToken refreshToken isTokenValid token w
                     = (Throw e, w')))
  | (OutOfFuel, w') =>
      exists rows token,
        sheet = Some rows /\ props w !! PROP_KEYS.PAGE_ACCESS_TOKEN = Some token
        /\ (Scheduler.validToken refreshToken isTokenValid token w = (OutOfFuel, w')
            \/ exists token' w1 r w2,
                Scheduler.validToken refreshToken isTokenValid token w = (Ret token', w1)
                /\ r ∈ drop 1 rows /\ due r
                /\ (FacebookApi.createPagePost env refreshToken fuel (sp_body r) token'
                      w2).1 = OutOfFuel)
  end
  /\ (fuel <> 0%nat ->
      (forall t, finishes (isTokenValid t)) -> finishes refreshToken ->
      (forall h message token, expiredb (up_feed (net env) h message token) = false) ->
      (Scheduler.processScheduledPosts env refreshToken isTokenValid setHours fuel sheet
         w).1 <> OutOfFuel)
  /\ (forall fuel',
         (Scheduler.processScheduledPosts env refreshToken isTokenValid setHours fuel sheet
            w).1 <> OutOfFuel ->
         (fuel <= fuel')%nat ->
         Scheduler.processScheduledPosts env refreshToken isTokenValid setHours fuel' sheet w
         = Scheduler.processScheduledPosts env refreshToken isTokenValid setHours fuel sheet
             w).
Proof.
  split; [apply processScheduledPosts_run|]. split.
  - intros Hfuel Hvalid Hrefresh Hfeed. destruct fuel as [|fuel']; [contradiction|].
    apply processScheduledPosts_settles; assumption.
  - intros fuel' Hne Hle. apply processScheduledPosts_more_fuel; assumption.
Qed.
End Schedule.

(** * The token dialog *)

Section Dialog.
Context (env : Platform) (setupTokensFromLongToken : string -> M SetupResult).

(** The settings the dialog writes after a setup that succeeded, in the
    order it writes them. *)
Definition tokenSettings (done : SetupDone) : list (string * string) :=
  [ ("長期トークン", orEmpty (userAccessToken done));
    ("ページトークン", orEmpty (pageAccessToken done));
    ("ページ名", pageName done);
    ("ページID", pageId done);
    ("トークン有効期限", toLocaleString env (expiresAt done));
    ("最終更新日時", toLocaleString env (now env)) ].

(** A setting as [getSettings] reads it once written. *)
Definition put (m : gmap string string) (kv : string * string) : gmap string string :=
  <[kv.1 := trim env kv.2]> m.

Lemma upsert_bind {A} key value notes (k : M A) w rows :
  settingsSheet w = Some rows ->
  (Config.upsertSetting env key value notes ;; k) w
  = k (set_settingsSheet (Some (upsertRows env key value notes rows)) w).
Proof.
  intros H. unfold bind. rewrite (upsertSetting_run env key value notes w rows H). reflexivity.
Qed.

Lemma saveTokenToSettingsSheet_run done w :
  exists w',
    Entry.saveTokenToSettingsSheet env done w = (Ret tt, w')
    /\ props w' = props w /\ writes w' = writes w /\ calls w' = calls w
    /\ processedSheet w' = processedSheet w /\ logSheet w' = logSheet w
    /\ postsSheet w' = postsSheet w
    /\ (settingsSheet w = None -> w' = w)
    /\ forall rows,
         settingsSheet w = Some rows -> wellKept env rows -> trim env "" = "" ->
         (forall kv, kv ∈ tokenSettings done -> trim env kv.1 = kv.1) ->
         exists rows', settingsSheet w' = Some rows' /\ wellKept env rows'
                       /\ settingsOf env rows' = foldl put (settingsOf env rows)
                                                   (tokenSettings done).
Proof.
  unfold Entry.saveTokenToSettingsSheet, try_catch.
  destruct (settingsSheet w) as [rows|] eqn:Hs.
  2:{ exists w. repeat split; auto. intros rows H. discriminate. }
  erewrite upsert_bind by exact Hs. do 4 (erewrite upsert_bind by reflexivity).
  erewrite upsertSetting_run by reflexivity.
  eexists. split; [reflexivity|]. do 6 (split; [reflexivity|]).
  split; [intros H; discriminate|].
  intros rows0 Hr Hw Hb Ht. inversion Hr; subst rows0; clear Hr.
  eexists. split; [reflexivity|].
  assert (Hk : forall kv, kv ∈ tokenSettings done -> kv.1 <> "" /\ trim env kv.1 = kv.1).
  { intros kv Hin. split; [|apply Ht; exact Hin].
    unfold tokenSettings in Hin.
    repeat (apply elem_of_cons in Hin as [->|Hin]; [discriminate|]).
    apply elem_of_nil in Hin. contradiction. }
  unfold tokenSettings in *. cbn [foldl]. unfold put. cbn [fst snd].
  repeat match goal with
         | |- context [upsertRows env ?k ?v ?n ?r] =>
             lazymatch r with
             | context [upsertRows] => fail
             | _ => idtac
             end;
             let Hm := fresh "Hm" in
             let Hw' := fresh "Hw" in
             destruct (settingsOf_upsertRows env k v n) with (rows := r) as [Hm Hw'];
             [ apply (Hk (k, v)); repeat first [left | right]
             | apply (Hk (k, v)); repeat first [left | right]
             | exact Hb
             | assumption
             | ];
             set (upsertRows env k v n r) in *
         end.
  split; [assumption|]. congruence.
Qed.

(** X22.  [processTokenInput] never throws.  A setup that throws or
    fails is reported as a failure with its message, and nothing is written
    to the settings tab.  After a setup that succeeded the dialog reports
    success whatever happens to the tab, and touches nothing but the tab -
    the properties, the calls made and the three other tabs are as the
    setup left them;
    on a tab that has its header row and lists no key twice, the settings
    then read as before with six of them set: the user token, the page
    token, the page name, the page id, the expiry and the time of the
    update.  So both tokens end up in the spreadsheet as text. *)
Theorem token_dialog_copies_tokens_to_tab longToken w :
  (forall e w1,
      setupTokensFromLongToken longToken w = (Throw e, w1) ->
      Entry.processTokenInput env setupTokensFromLongToken longToken w
      = (Ret (Entry.DialogFailed (message e)), w1))
  /\ (forall error w1,
      setupTokensFromLongToken longToken w = (Ret (SetupFailed error), w1) ->
      Entry.processTokenInput env setupTokensFromLongToken longToken w
      = (Ret (Entry.DialogFailed error), w1))
  /\ (forall done w1,
      setupTokensFromLongToken longToken w = (Ret (SetupOk done), w1) ->
      exists w',
        Entry.processTokenInput env setupTokensFromLongToken longToken w
        = (Ret (Entry.DialogOk (pageName done) (pageId done) (setupTokenType done)
                  (toLocaleString env (expiresAt done))), w')
        /\ props w' = props w1 /\ writes w' = writes w1 /\ calls w' = calls w1
        /\ processedSheet w' = processedSheet w1 /\ logSheet w' = logSheet w1
        /\ postsSheet w' = postsSheet w1
        /\ (settingsSheet w1 = None -> w' = w1)
        /\ forall rows,
             settingsSheet w1 = Some rows -> wellKept env rows -> trim env "" = "" ->
             (forall kv, kv ∈ tokenSettings done -> trim env kv.1 = kv.1) ->
             exists m,
               Settings.getSettings env w1 = (Ret m, w1)
               /\ Settings.getSettings env w' = (Ret (foldl put m (tokenSettings done)), w')
               /\ foldl put m (tokenSettings done) !! "長期トークン"
                  = Some (trim env (orEmpty (userAccessToken done)))
               /\ foldl put m (tokenSettings done) !! "ページトークン"
                  = Some (trim env (orEmpty (pageAccessToken done)))).
Proof.
  unfold Entry.processTokenInput, try_catch, bind. split; [|split].
  - intros e w1 H. rewrite H. reflexivity.
  - intros error w1 H. rewrite H. reflexivity.
  - intros done w1 H. rewrite H.
    destruct (saveTokenToSettingsSheet_run done w1)
      as (w' & Hrun & Hp & Hwr & Hc & Hps & Hls & Hpo & Hnone & Hsome).
    rewrite Hrun. exists w'. split; [reflexivity|]. do 7 (split; [assumption|]).
    intros rows Hs Hw Hb Ht.
    destruct (Hsome rows Hs Hw Hb Ht) as (rows' & Hs' & _ & Hm).
    exists (settingsOf env rows). split; [apply getSettings_run; exact Hs|].
    split; [rewrite <- Hm; apply getSettings_run; exact Hs'|].
    unfold tokenSettings, put. cbn [foldl fst snd]. split.
    + rewrite !lookup_insert_ne by discriminate. apply lookup_insert_eq.
    + rewrite !lookup_insert_ne by discriminate. apply lookup_insert_eq.
Qed.
End Dialog.

(** * Samples for the properties above *)

(** A spreadsheet whose tabs carry their header rows, over the stored
    chain of [credentialed]; the settings hold one entry. *)
Definition keptSheets : World :=
  set_settingsSheet
    (Some [ {| sr_key := "キー"; sr_value := "値"; sr_notes := "説明" |};
            {| sr_key := "取得件数"; sr_value := "50"; sr_notes := "" |} ])
    (set_processedSheet (Some [ ("コメントID", "作成日時") ])
       (set_logSheet
          (Some [ {| lr_at := 0; lr_postId := "投稿ID"; lr_commentId := "コメントID";
                     lr_name := "投稿者名"; lr_message := "コメント内容";
                     lr_keyword := "マッチキーワード"; lr_reply := "返信内容";
                     lr_status := "ステータス"; lr_error := "エラー" |} ])
          credentialed)).

Lemma keptSheets_wellKept :
  wellKept (platform quiet 0) (default [] (settingsSheet keptSheets)).
Proof. split; [discriminate|]. apply (bool_decide_unpack _). vm_compute. exact I. Defined.

(** An upstream on which the page can post and list its posts: the feed
    accepts every post but the one that reads ["down"], the permalink
    lookup fails, and the listing holds one post with an id and one
    without. *)
Definition pageNet : Upstream :=
  {| up_debug_token := up_debug_token quiet;
     up_access_token_info := up_access_token_info quiet;
     up_exchange := up_exchange quiet;
     up_accounts := up_accounts quiet;
     up_comments := up_comments quiet;
     up_comments_since := up_comments_since quiet;
     up_reply := up_reply quiet;
     up_feed := fun _ message _ =>
       if (message =? "down")%string then Http 500 "down" None
       else Http 200 "ok" (Some {| idb_id := Some "42_7"; idb_name := None |});
     up_permalink := up_permalink quiet;
     up_me := up_me quiet;
     up_reels := up_reels quiet;
     up_posts := fun _ _ _ _ =>
       Http 200 "ok"
         (Some {| pb_data :=
                    Some [ {| post_id := Some "42_1";
                              post_permalink_url := Some "https://example.com/42_1";
                              post_created_time := Some "2026-01-01" |};
                           {| post_id := None; post_permalink_url := None;
                              post_created_time := None |} ] |}) |}.

Lemma api_validity_witness :
  exists b w',
    TokenManagerDebug.isTokenValid (platform validNet 0) (Some "USER") validWorld = (Ret b, w')
    /\ sameStore validWorld w'.
Proof.
  exact (proj1 (api_validity_answers (platform validNet 0) "USER" validWorld
                  ltac:(discriminate))).
Defined.

Lemma setting_written_witness :
  exists m w' rows',
    Settings.getSettings (platform quiet 0) keptSheets = (Ret m, keptSheets)
    /\ Config.upsertSetting (platform quiet 0) "取得件数" "100" "" keptSheets = (Ret tt, w')
    /\ settingsSheet w' = Some rows' /\ wellKept (platform quiet 0) rows'
    /\ Settings.getSettings (platform quiet 0) w'
       = (Ret (<[ "取得件数" := "100" ]> m), w').
Proof.
  apply (setting_written_is_setting_read (platform quiet 0) "取得件数" "100" "" keptSheets
           _ eq_refl keptSheets_wellKept);
    [discriminate | reflexivity | reflexivity].
Defined.

(** Without the header row the first setting written takes its place,
    and is not read back. *)
Lemma setting_written_as_header_is_not_read :
  (bind (Config.upsertSetting (platform quiet 0) "取得件数" "100" "")
     (fun _ => Settings.getSettings (platform quiet 0)) (world [])).1
  = Ret ∅.
Proof. vm_compute. reflexivity. Qed.

(** On a tab that lists a key twice the writer updates the first row and
    the reader keeps the last: the setting written is not the one read. *)
Lemma setting_listed_twice_is_not_read :
  (bind (Config.upsertSetting (platform quiet 0) "取得件数" "100" "")
     (fun _ => Settings.getSettings (platform quiet 0))
     (set_settingsSheet
        (Some [ {| sr_key := "キー"; sr_value := "値"; sr_notes := "説明" |};
                {| sr_key := "取得件数"; sr_value := "50"; sr_notes := "" |};
                {| sr_key := "取得件数"; sr_value := "20"; sr_notes := "" |} ])
        (world []))).1
  = Ret {[ "取得件数" := "20" ]}.
Proof. vm_compute. reflexivity. Qed.

Lemma defaults_fill_gaps_witness :
  exists m w' m',
    Settings.getSettings (platform quiet 0) keptSheets = (Ret m, keptSheets)
    /\ Settings.initializeDefaultSettings (platform quiet 0) "SCRIPT" keptSheets = (Ret tt, w')
    /\ Settings.getSettings (platform quiet 0) w' = (Ret m', w')
    /\ m' !! "取得件数" = Some "50"
    /\ m' !! "検索日数" = Some "3"
    /\ m' !! "スクリプトID" = Some "SCRIPT".
Proof.
  destruct (defaults_fill_gaps_only (platform quiet 0) "SCRIPT" keptSheets _ eq_refl
              keptSheets_wellKept eq_refl (fun kv _ => eq_refl))
    as (m & w' & m' & Hm & Hrun & Hm' & Hkept & Hmissing & Hid & _).
  exists m, w', m'. split; [exact Hm|]. split; [exact Hrun|]. split; [exact Hm'|].
  assert (Hset : m = {[ "取得件数" := "50" ]}).
  { assert (H : (Settings.getSettings (platform quiet 0) keptSheets).1
                = Ret {[ "取得件数" := "50" ]}) by (vm_compute; reflexivity).
    rewrite Hm in H. inversion H. reflexivity. }
  split; [|split].
  - apply Hkept; [rewrite Hset; reflexivity | left; discriminate].
  - apply (Hmissing "検索日数" "3");
      [apply (bool_decide_unpack _); vm_compute; exact I
      | rewrite Hset; reflexivity | left; discriminate].
  - apply Hid. discriminate.
Defined.

(** The second comment of the sample post, handled on the sample
    spreadsheet. *)
Definition secondComment : Comment :=
  {| c_id := "c2"; c_from_name := Some "Bo"; c_message := Some "what price";
     c_created_time := Some "2026-01-02" |}.

Definition handled : World :=
  (CommentProcessor.processComment (platform repliesNet 0)
     (TokenManagerDebug.refreshToken (platform repliesNet 0))
     3 "POST" "PAGE" [priceRule] {[ "c1" ]} secondComment keptSheets).2.

Lemma refresh_leaves_processed env :
  leaves processedSheet (TokenManagerDebug.refreshToken env).
Proof. apply debug_refresh_leaves; reflexivity. Defined.


Definition swept : World :=
  (Main.replyOne (platform repliesNet 0)
     (TokenManagerDebug.refreshToken (platform repliesNet 0))
     3 "PAGE" [priceRule] {[ "c1" ]} 1000 "POST"
     {| Main.total := 0; Main.replied := 0; Main.failed_ := 0; Main.skipped := 0 |}
     secondComment keptSheets).2.

Lemma unreplied_comment_witness :
  exists row,
    logSheet swept = Some (default [] (logSheet keptSheets) ++ [row])%list
    /\ lr_commentId row = "c2".
Proof.
  assert (Hout : "c2" ∉ ({[ "c1" ]} : gset string))
    by (apply not_elem_of_singleton; discriminate).
  pose proof (proj1 (unreplied_comment_is_recorded (platform repliesNet 0)
                       (TokenManagerDebug.refreshToken (platform repliesNet 0))
                       (debug_refreshToken_token _) (refresh_leaves_processed _)
                       3%nat "PAGE" [priceRule] {[ "c1" ]} 1000 "POST"
                       {| Main.total := 0; Main.replied := 0; Main.failed_ := 0;
                          Main.skipped := 0 |}
                       secondComment keptSheets
                       _ _ eq_refl ltac:(discriminate) eq_refl ltac:(discriminate)
                       ltac:(discriminate) eq_refl eq_refl Hout)
                (Ret {| Main.total := 1; Main.replied := 1; Main.failed_ := 0;
                        Main.skipped := 0 |})
                swept ltac:(vm_compute; reflexivity)) as Hdone.
  cbv beta iota in Hdone. destruct Hdone as [[Hsame _]|(row & Hlog & Hid & _)].
  - apply (f_equal logSheet) in Hsame. vm_compute in Hsame. discriminate.
  - exists row. auto.
Defined.

Lemma post_survives_witness :
  exists st,
    FacebookApi.createPagePost (platform pageNet 0) (ret false) 1 "hello" "PAGE" credentialed
    = (Ret {| FacebookApi.postId := "42_7"; FacebookApi.permalink := "" |},
       log_call {| req := GetPermalink "42_7" "PAGE"; status := st |}
         (log_call {| req := PostFeed "hello" "PAGE"; status := Some 200 |} credentialed)).
Proof.
  exact (proj1 (post_survives_permalink_failure (platform pageNet 0) (ret false) 0 "hello"
                  "PAGE" credentialed 200 "ok" {| idb_id := Some "42_7"; idb_name := None |}
                  eq_refl eq_refl)
           "42_7" eq_refl ltac:(discriminate)).
Defined.

Lemma recent_posts_witness :
  exists w',
    FacebookApi.fetchRecentPosts (platform pageNet 0) (ret false) 1 "PAGE" 3 10 keptSheets
    = (Ret [ "42_1" ], w')
    /\ postsSheet w' = Some [ ("42_1", "https://example.com/42_1", "2026-01-01");
                              ("", "", "") ].
Proof.
  destruct (recent_posts_are_recorded (platform pageNet 0) (ret false) 0 "PAGE" 3 10
              keptSheets 200 "ok" _ eq_refl eq_refl) as (_ & Hrows & _).
  eexists. split; [apply (Hrows ltac:(discriminate) [] eq_refl)|]. reflexivity.
Defined.

Lemma comment_requests_witness :
  exists cs,
    calls (FacebookApi.fetchComments (platform repliesNet 0)
             (TokenManagerDebug.refreshToken (platform repliesNet 0))
             3 "POST" "PAGE" 9000 credentialed).2
    = (cs ++ calls credentialed)%list
    /\ forall c p l t, c ∈ cs -> req c = GetComments p l t -> l <= 500.
Proof.
  destruct (comment_requests_are_capped (platform repliesNet 0)
              (TokenManagerDebug.refreshToken (platform repliesNet 0))
              3%nat "POST" "PAGE" 9000 0 credentialed (debug_refreshToken_token _))
    as [(cs & Hcs & Hcap) _].
  exists cs. split; [exact Hcs|]. intros c p l t Hin Hreq.
  apply (Hcap c p l t Hin Hreq).
Defined.

(** ** Rules, replies and targets *)

(** A rule that asks for an exact match is found by containment all the
    same. *)
Lemma exact_match_rule_matches_by_containment :
  let exact := {| enabled := true; keyword := "price"; template := "Hello {name}!";
                  matchType := "完全一致"; priority := 1; weight := 100 |} in
  CommentProcessor.findMatchingRule (platform quiet 0) "what price is it" [priceRule; exact]
  = Some priceRule
  /\ CommentProcessor.findMatchingRule (platform quiet 0) "what price is it" [exact]
     = Some exact.
Proof. vm_compute. split; reflexivity. Qed.

Lemma sample_reply :
  CommentProcessor.generateReply "Hello {name}, thank you {name}!" "Bo"
  = "Hello Bo, thank you Bo!"
  /\ CommentProcessor.generateReply "Hello {name}!" "{name}" = "Hello {name}!".
Proof. vm_compute. split; reflexivity. Qed.

(** Post ids entered by hand are not made distinct; those listed from
    the page are. *)
Lemma entered_targets_may_repeat :
  let pageInfo := fun _ : string =>
    ret {| FacebookApi.pi_pageId := "42"; FacebookApi.pi_pageName := "Shop" |} in
  let posts := fun (_ : string) (_ _ : option Z) => ret [ "42_1"; "42_2" ] in
  let reels := fun (_ : string) (_ _ : option Z) => ret [ "42_2"; "42_9" ] in
  (Targets.getTargetPostIds (platform quiet 0) pageInfo posts reels "PAGE"
     {[ "投稿ID" := "42_1,42_2,,42_1" ]} credentialed).1
  = Ret [ "42_1"; "42_2"; "42_1" ]
  /\ (Targets.getTargetPostIds (platform quiet 0) pageInfo posts reels "PAGE"
        ∅ credentialed).1
     = Ret [ "42_1"; "42_2"; "42_9" ].
Proof. vm_compute. split; reflexivity. Qed.

(** ** A pass over the schedule *)

(** A schedule with a row that is due, a due row whose post fails, a row
    for later and a row that is switched off; dates are time values. *)
Definition scheduleTab : list ScheduledRow :=
  let row enabled body date :=
    {| sp_enabled := enabled; sp_body := body; sp_date := date; sp_hour := "0";
       sp_min := "0"; sp_tz := "Asia/Tokyo"; sp_status := "予約中"; sp_postId := "";
       sp_url := ""; sp_err := "" |} in
  [ {| sp_enabled := "有効"; sp_body := "投稿本文"; sp_date := "日付"; sp_hour := "時";
       sp_min := "分"; sp_tz := "タイムゾーン"; sp_status := "状態";
       sp_postId := "投稿ID"; sp_url := "URL"; sp_err := "エラー" |};
    row "有効" "hello" "1000";
    row "有効" "down" "2000";
    row "有効" "later" "9000";
    row "無効" "never" "1000" ].

Lemma sample_pass :
  let run :=
    Scheduler.processScheduledPosts (platform pageNet 5000) (ret false)
      (fun _ => ret true) (fun date hour minute => Some (date + hour * 3600000 + minute * 60000))
      1 (Some scheduleTab) credentialed in
  match run.1 with
  | Ret (Some rows, tally) =>
      tally = Some {| Scheduler.posted := 1; Scheduler.failedPosts := 1 |}
      /\ map (fun r => (sp_body r, sp_status r, sp_postId r, sp_err r)) rows
         = [ ("投稿本文", "状態", "投稿ID", "エラー");
             ("hello", "送信済み", "42_7", "");
             ("down", "失敗", "", "POST feed failed: 500 down");
             ("later", "予約中", "", "");
             ("never", "予約中", "", "") ]
  | _ => False
  end.
Proof. vm_compute. split; reflexivity. Qed.

(** ** The token dialog and the short-token setup *)

(** A setup through the dialog, on the sample spreadsheet: both tokens
    are then read from the settings tab. *)
Lemma sample_dialog :
  let env := platform bothExpiriesNet 5 in
  let run := Entry.processTokenInput env (TokenManagerDebug.setupTokensFromLongToken env)
               "LONG" keptSheets in
  match run.1, (Settings.getSettings env run.2).1 with
  | Ret (Entry.DialogOk name _ _ _), Ret m =>
      name = "Shop" /\ m !! "長期トークン" = Some "LONG" /\ m !! "ページトークン" = Some "PAGE2"
      /\ m !! "取得件数" = Some "50"
  | _, _ => False
  end.
Proof. vm_compute. repeat split; reflexivity. Qed.

(** An upstream on which the short-lived token can be exchanged but no
    page can be listed. *)
Definition pagesDownNet : Upstream :=
  tokenNet (up_debug_token halfHourNet) (up_access_token_info halfHourNet)
    (up_exchange halfHourNet) (fun _ _ => NetFail).

(** The short-token setup is not all-or-nothing: it fails here, and the
    app id and secret it read from the token have been saved. *)
Lemma short_setup_failure_keeps_app :
  let run := TokenManager.setupTokensFromShortLived (platform pagesDownNet 0) "SHORT"
               (world []) in
  (exists error, run.1 = Ret (SetupFailed error))
  /\ props run.2 !! PROP_KEYS.APP_ID = Some "APP"
  /\ props run.2 !! PROP_KEYS.APP_SECRET = Some "SECRET"
  /\ props run.2 !! PROP_KEYS.PAGE_ACCESS_TOKEN = None.
Proof. vm_compute. split; [eexists; reflexivity|]. repeat split; reflexivity. Qed.
